(* ===== verification/_CoqProject ===== *)
-Q . S2P
Prelude.v
CLib.v
Types.v
Wire.v
MessageText.v
Framing.v
Sockets.v
SocketStream.v
SocketsSafe.v
SocketUtils.v
McastSocket.v
MemPool.v
OptMemPool.v
CircularList.v
LevelBook.v
LevelBookRep.v
LevelBookOps.v
HarnessLevels.v
MEOrder.v
OrderBookSpec.v
OrderBookInv.v
OrderBookProps.v
MEOrderBook.v
MEOrderBookMatching.v
MEOrderBookRefines.v
MEOrderBookProps.v
UnorderedMapMEOrderBook.v
LFQueue.v
Logging.v
OptLogging.v
MarketDataPublisher.v
MarketDataConsumer.v
MarketDataConsumerProps.v
MarketDataFeed.v
SnapshotSynthesizer.v
FIFOSequencer.v
OrderServer.v
OrderServerRefines.v
OrderServerSafe.v
OrderGateway.v
OrderPath.v
MatchingEngine.v
MatchingEngineRefines.v
EngineTyped.v
ExchangeCore.v
ExchangeCoreRefines.v
Lifecycle.v
ExchangeMain.v
ExchangeMainSafe.v
MarketOrderBook.v
MarketOrderBookRefines.v
Replication.v
TradingCore.v
SnapshotImage.v
FeedConsistency.v
ClientMirror.v
Doubles.v
LatencyTracker.v
ExchangePerf.v
PositionKeeper.v
RiskManager.v
OrderManager.v
BookTexts.v
OrderSession.v
FeatureEngine.v
TradeEngine.v
TradeEngineProps.v
TestEngine.v
TradingMain.v
TradingMainLife.v
ClientView.v
ClosedLoop.v
Quotes.v
Witnesses.v
FeedWitnesses.v
TradeWitnesses.v
HarnessWitnesses.v
