(* ===== verification/Prelude.v ===== *)
(** A verification library of the llcpp-exchange: a low-latency exchange and
    its trading client in C++ (src/Exchange, src/trading, with the utilities of
    src/include and src/src).

    ** The program

    The exchange is four threads.  [OrderServer] (Exchange/order_server) reads
    client requests from TCP connections, checks each client's session and
    hands the requests of a polling round to [FIFOSequencer], which publishes
    them in order of receive time to a lock-free queue.  [MatchingEngine]
    (Exchange/matcher) takes them to one [MEOrderBook] per ticker and writes
    responses and market updates to two more queues.  [OrderServer] sends the
    responses; [MarketDataPublisher] (Exchange/market_data) numbers the updates
    and multicasts them, and passes them to [SnapshotSynthesizer], which keeps
    all resting orders and multicasts snapshots of them.  The client is three
    threads: [MarketDataConsumer] (trading/market_data) follows the two
    streams, [OrderGateway] (trading/order_gw) talks TCP to the order server,
    and [TradeEngine] (trading/strategy) rebuilds a [MarketOrderBook] per
    ticker, keeps positions, and lets a strategy move its orders within risk
    limits.

    ** How it is modelled

    Definitions follow the code operation by operation, in the state and fault
    monad [M] below, and keep its names; a name of two classes has a prefix.
    They are executable.  A pointer is a block of a pool, a key of a heap or
    an index, and following one that is null or dead is the fault [UB], as is
    an index out of range; [FATAL] and [ASSERT] are [Fatal], an exception that
    leaves a [noexcept] function [Throw], a loop that does not end [Spin].
    Integers are [Z] with their wrap-around written out.  What the kernel
    answers is an argument of the definitions that ask it, so theorems hold
    for every answer.  Doubles are the class [Double], with IEEE 754 binary64
    and exact arithmetic as instances.

    Shared parts
    - Prelude.v: this file.  CLib.v: signed arithmetic, [atoi].  Types.v:
      include/types.h (strong types, sides, the two capacity profiles as
      instances of [Config]) and the protocol messages of Exchange; Wire.v:
      their packed bytes; MessageText.v: their [toString]; Framing.v: the
      receive loops that cut a byte stream into messages.
    - MemPool.v (include/mem_pool.h), OptMemPool.v (opt_mem_pool.h), LFQueue.v
      (lq_free.h, its concurrent use included), Logging.v (logging.h),
      OptLogging.v (opt_logging.h), LatencyTracker.v (latency_tracker.h).
    - Sockets.v, SocketStream.v, SocketsSafe.v (tcp_socket, tcp_server),
      SocketUtils.v (socket_utils, connect and listen), McastSocket.v
      (mcast_socket.h).

    The exchange
    - CircularList.v, LevelBook.v, LevelBookRep.v, LevelBookOps.v: the pointer
      structure the three order books share, and the lists it represents.
    - MEOrder.v, MEOrderBook.v, MEOrderBookMatching.v, MEOrderBookRefines.v,
      MEOrderBookProps.v: me_order.h, me_order_book.h and .cpp, against the
      reference auction of OrderBookSpec.v, whose invariants are in
      OrderBookInv.v and whose market properties are in OrderBookProps.v.
      UnorderedMapMEOrderBook.v: the hash-map book of the benchmarks.
    - MatchingEngine.v, MatchingEngineRefines.v, EngineTyped.v:
      matching_engine.h and .cpp; the last for the types of its messages.
    - FIFOSequencer.v, OrderServer.v, OrderServerRefines.v, OrderServerSafe.v.
    - MarketDataPublisher.v, SnapshotSynthesizer.v.
    - Lifecycle.v: threads that are started, stopped and never joined, shared by
      the two main programs.  ExchangeMain.v, ExchangeMainSafe.v:
      exchange_main.cpp with the start, stop and destructor of every component.

    The client
    - MarketDataConsumer.v, MarketDataConsumerProps.v, MarketDataFeed.v;
      MarketOrderBook.v, MarketOrderBookRefines.v.
    - OrderGateway.v; PositionKeeper.v, RiskManager.v, OrderManager.v,
      FeatureEngine.v (with algo_type.h), TradeEngine.v (with market_maker.cpp
      and liquidity_taker.cpp); OrderSession.v, TradeEngineProps.v, Quotes.v;
      TestEngine.v (the engine of the unit tests, against the real one);
      TradingMain.v, TradingMainLife.v (trading_main.cpp: the command line and
      the random driver; the life of the components).
    - BookTexts.v: [toString] of the orders, levels and books of both ends, and
      of the client's orders and positions.

    The Python harnesses (bindings/python)
    - HarnessLevels.v, ExchangeCore.v, ExchangeCoreRefines.v: exchange_core.cpp,
      whose [call]s push a request and run the real engine, and whose getters
      walk its books.  ExchangePerf.v: its latency trackers.
    - TradingCore.v: trading_core.cpp around the client's book.

    Compositions
    - Replication.v, SnapshotImage.v, FeedConsistency.v, ClientMirror.v: from
      the exchange's books over a lossy feed to the client's books.
    - OrderPath.v: from the strategy to the sequencer, and back.
    - ClientView.v, ClosedLoop.v: a trading engine and the matching engine in
      one loop.

    Witnesses.v, FeedWitnesses.v, TradeWitnesses.v, HarnessWitnesses.v: the
    theorems with hypotheses at concrete inputs.

    ** What the theorems show

    - Books: the pointer code computes the reference auction without fault and
      keeps its invariants over every session; fills follow price-time
      priority and conserve quantity; the only fault is an exhausted pool.
      The hash-map book is equivalent while nothing is refused.  Printing a
      book ends and shows its levels, best first.
    - Engine: the thread's loop refines the reference auction on its queues, and
      what it emits has the types the receivers rely on.
    - Main programs: under any interleaving, if the sleeps of the destructors
      last until the threads have ended, the exchange's shutdown loses no
      request and no thread of either program uses what was deleted.
    - Harnesses: the exchange's answers with the reference auction and shows its
      books; fed the updates, the client's shows the same books.
    - Queue, pools, sockets, logger: FIFO under every interleaving; no live
      block is handed out; no byte lost or reordered; the file holds what was
      logged.  The optimised pool loops for ever on its last block.
      Which descriptors the creation of a socket leaves open.
    - Order server and gateway: sessions, sequence numbers, lifetimes of
      sockets, independence of TCP segmentation, both paths end to end.
    - Feed: publisher, synthesizer and consumer, and that a client's books are
      those of the exchange whatever the network loses.
    - Trading: positions and PnL, risk, one order per side, quotes, and that
      the client's orders in the real books keep its position within limits.
    - Errors: inputs on which the code misbehaves (a side that is no side, a
      rejected order, the end of a recovery, reused ids) are theorems too.

    ** Bounds and fuel

    Capacities are the parameters [Config] and [NetConfig]; theorems hold for
    every profile with [ConfigOk], the two of the code among them.  A loop over
    a linked structure takes the size of the structure as fuel and its
    specification shows that this is enough; a loop that ends when the
    environment says so takes the number of turns; [allocate] scans at most as
    many blocks as were ever written.  Counters of 64 bits (order ids, sequence
    numbers) wrap in the definitions; theorems about sessions assume fewer than
    2^64 - 1 of them.

    ** Not modelled

    Clocks, thread creation and affinity: system calls.  The calls of the
    logger, and of the latency tracker outside the Python harness: they do not
    change what the components do.  In the two main programs the turns of the
    network components are reduced to their effect on the queues; what they do
    is in their own files.  The pybind11 glue of the harnesses (registration of
    the classes and names).  Tests, benchmarks, examples, dashboard and scripts.
    Components run in turns of their loops, and threads meet at the queues,
    whose use by two threads LFQueue.v covers; what else threads share is the
    flags that stop them.

    ** This file

    [res], the outcome of running code; [M], the state and fault monad, with
    its weakest preconditions [wp]; lenses for parts of a state, and [keeps] for
    what an operation leaves alone; arithmetic at
    machine width; generic lemmas on lists, and the tactics. *)

From stdpp Require Export base gmap sets list strings pretty fin_maps sorting.
From Stdlib Require Export ZArith Lia.

#[export] Set Default Proof Using "Type".
Open Scope Z_scope.

(** ** Outcomes *)

Inductive fault :=
  | Fatal (msg : string)   (** [fatalExit]: the process exits *)
  | UB (what : string)     (** null dereference / raw out-of-range index *)
  | Throw (what : string)  (** an exception leaves a [noexcept] function *)
  | Spin.                  (** the loop does not terminate *)

Inductive res (A : Type) :=
  | Ok (a : A)
  | Err (f : fault).
Arguments Ok {A} _.
Arguments Err {A} _.

#[export] Instance res_ret : MRet res := λ A a, Ok a.
#[export] Instance res_bind : MBind res := λ A B k m,
  match m with Ok a => k a | Err f => Err f end.

Definition is_Ok {A} (r : res A) : Prop := ∃ a, r = Ok a.

(** ** The state-and-fault monad *)

Definition M (S A : Type) : Type := S → res (A * S).

#[export] Instance M_ret S : MRet (M S) := λ A a s, Ok (a, s).
#[export] Instance M_bind S : MBind (M S) := λ A B k m s,
  match m s with Ok (a, s') => k a s' | Err f => Err f end.

Definition get {S} : M S S := λ s, Ok (s, s).
Definition gets {S A} (f : S → A) : M S A := λ s, Ok (f s, s).
Definition put {S} (s : S) : M S unit := λ _, Ok (tt, s).
Definition modify {S} (f : S → S) : M S unit := λ s, Ok (tt, f s).
Definition fail {S A} (f : fault) : M S A := λ _, Err f.
Definition lift {S A} (r : res A) : M S A := λ s,
  match r with Ok a => Ok (a, s) | Err f => Err f end.
(** [ASSERT(cond, msg)] of include/macros.h. *)
Definition ASSERT {S} (cond : bool) (msg : string) : M S unit :=
  if cond then mret tt else fail (Fatal msg).

Section monad_lemmas.
Context {S : Type}.

Lemma bind_Ok {A B} (m : M S A) (k : A → M S B) s a s' :
  m s = Ok (a, s') → (m ≫= k) s = k a s'.
Proof. intros H. unfold mbind, M_bind. by rewrite H. Qed.

Lemma bind_Err {A B} (m : M S A) (k : A → M S B) s f :
  m s = Err f → (m ≫= k) s = Err f.
Proof. intros H. unfold mbind, M_bind. by rewrite H. Qed.

Lemma bind_Ok_inv {A B} (m : M S A) (k : A → M S B) s b s' :
  (m ≫= k) s = Ok (b, s') → ∃ a s1, m s = Ok (a, s1) ∧ k a s1 = Ok (b, s').
Proof. unfold mbind, M_bind. destruct (m s) as [[a s1]|]; [|done]. by exists a, s1. Qed.

Lemma bind_gets {A B} (f : S → A) (k : A → M S B) s :
  (gets f ≫= k) s = k (f s) s.
Proof. done. Qed.

Lemma bind_modify {B} (f : S → S) (k : unit → M S B) s :
  (modify f ≫= k) s = k tt (f s).
Proof. done. Qed.

Lemma bind_ret {A B} (a : A) (k : A → M S B) s :
  (mret a ≫= k) s = k a s.
Proof. done. Qed.

Lemma bind_assoc {A B C} (m : M S A) (k : A → M S B) (h : B → M S C) s :
  ((m ≫= k) ≫= h) s = (m ≫= (λ a, k a ≫= h)) s.
Proof. unfold mbind, M_bind. by destruct (m s) as [[]|]. Qed.

Lemma ASSERT_true (c : bool) msg (s : S) : c = true → ASSERT c msg s = Ok (tt, s).
Proof. by intros ->. Qed.
End monad_lemmas.

(** *** Members

    [zoom l m] runs [m] on the member [l] of an object: how a method calls a
    method of one of its members. *)
Record lens (S T : Type) := Lens { lget : S → T; lset : T → S → S }.
Arguments Lens {S T} _ _.
Arguments lget {S T} _ _.
Arguments lset {S T} _ _ _.

Class LensOk {S T} (l : lens S T) : Prop := {
  lget_lset : ∀ t s, lget l (lset l t s) = t;
  lset_lget : ∀ s, lset l (lget l s) s = s;
  lset_lset : ∀ t t' s, lset l t (lset l t' s) = lset l t s;
}.

Definition zoom {S T A} (l : lens S T) (m : M T A) : M S A := λ s,
  match m (lget l s) with Ok (a, t) => Ok (a, lset l t s) | Err f => Err f end.

Section zoom_lemmas.
Context {S T : Type} (l : lens S T).

Lemma zoom_Ok {A} (m : M T A) s a t : m (lget l s) = Ok (a, t) → zoom l m s = Ok (a, lset l t s).
Proof. unfold zoom. by intros ->. Qed.

Lemma zoom_Err {A} (m : M T A) s f : m (lget l s) = Err f → zoom l m s = Err f.
Proof. unfold zoom. by intros ->. Qed.
End zoom_lemmas.

(** A loop over a list. *)
Fixpoint for_each {S A} (f : A → M S unit) (l : list A) : M S unit :=
  match l with
  | [] => mret tt
  | x :: l => f x;; for_each f l
  end.

Lemma for_each_app {S A} (f : A → M S unit) l k s s' :
  for_each f l s = Ok (tt, s') → for_each f (l ++ k) s = for_each f k s'.
Proof.
  revert s. induction l as [|x l IH]; intros s E; cbn in *; [by injection E as ->|].
  unfold mbind, M_bind in *. destruct (f x s) as [[[] s1]|]; [|done]. by apply IH.
Qed.

(** ** Safety triples

    [wp m Q s]: from [s], [m] either ends in a state where [Q] holds or the
    process exits through [FATAL]; undefined behaviour and endless loops are
    excluded. *)
Definition wp {S A} (m : M S A) (Q : A → S → Prop) (s : S) : Prop :=
  match m s with
  | Ok (a, s') => Q a s'
  | Err (Fatal _) => True
  | Err _ => False
  end.

Arguments wp {S A} m Q s : simpl never.

Section wp.
Context {S : Type}.
Implicit Types (s : S).

Lemma wp_ret {A} (a : A) (Q : A → S → Prop) s : Q a s → wp (mret a) Q s.
Proof. done. Qed.
Lemma wp_gets {A} (f : S → A) (Q : A → S → Prop) s : Q (f s) s → wp (gets f) Q s.
Proof. done. Qed.
Lemma wp_modify (f : S → S) (Q : unit → S → Prop) s : Q tt (f s) → wp (modify f) Q s.
Proof. done. Qed.
Lemma wp_put s' (Q : unit → S → Prop) s : Q tt s' → wp (put s') Q s.
Proof. done. Qed.
Lemma wp_fatal {A} msg (Q : A → S → Prop) s : wp (fail (Fatal msg)) Q s.
Proof. done. Qed.
Lemma wp_assert c msg (Q : unit → S → Prop) s : (c = true → Q tt s) → wp (ASSERT c msg) Q s.
Proof. unfold ASSERT. destruct c; [intros Hq; by apply Hq|done]. Qed.

Lemma wp_bind {A B} (m : M S A) (k : A → M S B) (Q : B → S → Prop) s :
  wp m (λ a s', wp (k a) Q s') s → wp (m ≫= k) Q s.
Proof. unfold wp, mbind, M_bind. by destruct (m s) as [[a s']|[]]. Qed.

Lemma wp_bind_inv {A B} (m : M S A) (k : A → M S B) (Q : B → S → Prop) s :
  wp (m ≫= k) Q s → wp m (λ a s', wp (k a) Q s') s.
Proof. unfold wp, mbind, M_bind. by destruct (m s) as [[a s']|[]]. Qed.

Lemma wp_mono {A} (m : M S A) (P Q : A → S → Prop) s :
  wp m P s → (∀ a s', P a s' → Q a s') → wp m Q s.
Proof. unfold wp. destruct (m s) as [[a s']|[]]; auto. Qed.

Lemma wp_Ok {A} (m : M S A) (Q : A → S → Prop) s a s' : m s = Ok (a, s') → Q a s' → wp m Q s.
Proof. unfold wp. by intros ->. Qed.

Lemma wp_lift {A} (r : res A) (Q : A → S → Prop) s :
  match r with Ok a => Q a s | Err (Fatal _) => True | Err _ => False end → wp (lift r) Q s.
Proof. unfold wp, lift. by destruct r as [|[]]. Qed.

(** A loop keeps its invariant, which may depend on what is left to do. *)
Lemma wp_for_each {A} (f : A → M S unit) (I : list A → S → Prop) (l : list A) s :
  (∀ x l s, I (x :: l) s → wp (f x) (λ _ s', I l s') s) → I l s → wp (for_each f l) (λ _ s', I [] s') s.
Proof.
  intros Hf. revert s. induction l as [|x l IH]; intros s0 Hi; [done|]. cbn.
  apply wp_bind. eapply wp_mono; [by apply Hf|]. intros a s1 Hs. by apply IH.
Qed.
End wp.

Lemma wp_zoom {S T A} (l : lens S T) (m : M T A) (Q : A → S → Prop) s :
  wp m (λ a t, Q a (lset l t s)) (lget l s) → wp (zoom l m) Q s.
Proof. unfold wp, zoom. by destruct (m (lget l s)) as [[]|]. Qed.

(** ** Operations that leave a part of the state alone *)

Definition keeps {S A T} (f : S → T) (m : M S A) : Prop := ∀ s a s', m s = Ok (a, s') → f s' = f s.

Section keeps.
Context {S T : Type} (f : S → T).

Lemma keeps_bind {A B} (m : M S A) (k : A → M S B) :
  keeps f m → (∀ a, keeps f (k a)) → keeps f (m ≫= k).
Proof.
  intros Hm Hk s b s' E. destruct (bind_Ok_inv _ _ _ _ _ E) as (a & s1 & E1 & E2).
  rewrite (Hk _ _ _ _ E2). by eapply Hm.
Qed.
Lemma keeps_ret {A} (a : A) : keeps f (mret a).
Proof. intros s a' s' E. by injection E as <- <-. Qed.
Lemma keeps_gets {A} (g : S → A) : keeps f (gets g).
Proof. intros s a' s' E. by injection E as <- <-. Qed.
Lemma keeps_modify (g : S → S) : (∀ s, f (g s) = f s) → keeps f (modify g).
Proof. intros Hg s a' s' E. by injection E as <- <-. Qed.
Lemma keeps_lift {A} (r : res A) : keeps f (lift r).
Proof. intros s a' s' E. unfold lift in E. destruct r; [by injection E as <- <-|done]. Qed.
Lemma keeps_fail {A} x : keeps f (fail (A := A) x).
Proof. intros s a' s' E. done. Qed.
Lemma keeps_ASSERT c msg : keeps f (ASSERT c msg).
Proof. unfold ASSERT. destruct c; [apply keeps_ret|apply keeps_fail]. Qed.
Lemma keeps_zoom {U A} (l : lens S U) (m : M U A) : (∀ u s, f (lset l u s) = f s) → keeps f (zoom l m).
Proof.
  intros Hl s a s' E. unfold zoom in E. destruct (m (lget l s)) as [[a1 u]|]; [|done].
  by injection E as <- <-.
Qed.
End keeps.

Create HintDb keeps.
#[export] Hint Resolve keeps_ret keeps_gets keeps_lift keeps_fail keeps_ASSERT : keeps.
#[export] Hint Extern 1 (keeps _ (modify _)) => (apply keeps_modify; done) : keeps.
#[export] Hint Extern 1 (keeps _ (zoom _ _)) => (apply keeps_zoom; done) : keeps.
Ltac keeps := repeat first [progress eauto with keeps | apply keeps_bind; [|intros ?] | case_match].

(** One step of a program under [wp]. *)
Ltac wstep :=
  match goal with
  | |- wp (_ ≫= _) _ _ => apply wp_bind
  | |- wp (mret _) _ _ => apply wp_ret
  | |- wp (gets _) _ _ => apply wp_gets
  | |- wp (modify _) _ _ => apply wp_modify
  | |- wp (put _) _ _ => apply wp_put
  | |- wp (fail (Fatal _)) _ _ => apply wp_fatal
  | |- wp (ASSERT _ _) _ _ => apply wp_assert; intros ?
  end.
Ltac wsteps := repeat (wstep; cbv beta).

(** [mrun H] rewrites the first call of the goal's program with its
    equation [H]. *)
Ltac mrun H := erewrite bind_Ok; [| exact H]; cbv beta.

(** ** Machine integers *)

Definition u8 (z : Z) : Z := z `mod` 2 ^ 8.
Definition u32 (z : Z) : Z := z `mod` 2 ^ 32.
Definition u64 (z : Z) : Z := z `mod` 2 ^ 64.
Definition i8 (z : Z) : Z := (z + 2 ^ 7) `mod` 2 ^ 8 - 2 ^ 7.
Definition i32 (z : Z) : Z := (z + 2 ^ 31) `mod` 2 ^ 32 - 2 ^ 31.

Definition is_u32 (z : Z) : Prop := 0 ≤ z < 2 ^ 32.
Definition is_u64 (z : Z) : Prop := 0 ≤ z < 2 ^ 64.
Definition is_i32 (z : Z) : Prop := - 2 ^ 31 ≤ z < 2 ^ 31.

Lemma u32_id z : is_u32 z → u32 z = z.
Proof. apply Z.mod_small. Qed.
Lemma u64_id z : is_u64 z → u64 z = z.
Proof. apply Z.mod_small. Qed.
Lemma i32_id z : is_i32 z → i32 z = z.
Proof. unfold is_i32, i32. intros. rewrite Z.mod_small; lia. Qed.
Lemma u32_range z : is_u32 (u32 z).
Proof. apply Z.mod_pos_bound. lia. Qed.
Lemma u64_range z : is_u64 (u64 z).
Proof. apply Z.mod_pos_bound. lia. Qed.
Lemma i32_range z : is_i32 (i32 z).
Proof.
  unfold is_i32, i32. pose proof (Z.mod_pos_bound (z + 2 ^ 31) (2 ^ 32)). lia.
Qed.

Create HintDb llx.
#[export] Hint Resolve u32_range u64_range i32_range : llx.

(** ** Lists *)

Lemma head_Some_elem {A} (l : list A) x : head l = Some x → x ∈ l.
Proof. destruct l; intros; simplify_eq/=. by left. Qed.

Lemma last_Some_elem {A} (l : list A) x : last l = Some x → x ∈ l.
Proof. rewrite last_Some. intros [l' ->]. set_solver. Qed.

Lemma head_fmap {A B} (f : A → B) (l : list A) : head (f <$> l) = f <$> head l.
Proof. by destruct l. Qed.

Lemma NoDup_app_inv {A} (l k : list A) :
  NoDup (l ++ k) → NoDup l ∧ NoDup k ∧ ∀ x, x ∈ l → x ∈ k → False.
Proof. rewrite NoDup_app. naive_solver. Qed.

Lemma NoDup_mid {A} (l k : list A) x :
  NoDup (l ++ x :: k) ↔ x ∉ l ++ k ∧ NoDup (l ++ k).
Proof. by rewrite <- Permutation_middle, NoDup_cons. Qed.

Lemma NoDup_fmap_eq {A B} (f : A → B) (l : list A) x y :
  NoDup (f <$> l) → x ∈ l → y ∈ l → f x = f y → x = y.
Proof.
  induction l as [|z l IH]; [set_solver|].
  rewrite fmap_cons, NoDup_cons, list_elem_of_fmap. intros [Hz Hl].
  rewrite !elem_of_cons. intros [->|Hx] [->|Hy] E; eauto; exfalso; apply Hz; eauto.
Qed.

Lemma existsb_elem {A} (f : A → bool) (l : list A) :
  existsb f l = true ↔ ∃ x, x ∈ l ∧ f x = true.
Proof. rewrite existsb_exists. by setoid_rewrite list_elem_of_In. Qed.

Lemma existsb_not_elem {A} (f : A → bool) (l : list A) :
  existsb f l = false ↔ ∀ x, x ∈ l → f x = false.
Proof.
  rewrite <- not_true_iff_false, existsb_elem. setoid_rewrite <- not_true_iff_false. naive_solver.
Qed.

Lemma StronglySorted_sublist {A} (R : relation A) (l k : list A) :
  l `sublist_of` k → StronglySorted R k → StronglySorted R l.
Proof.
  induction 1 as [|x l k Hlk IH|x l k Hlk IH]; [done| |]; rewrite !StronglySorted_cons;
    intros [Hf Hs]; [|by apply IH]. split; [|by apply IH].
  rewrite Forall_forall in *. intros y Hy. apply Hf. by eapply sublist_subseteq.
Qed.

Lemma fmap_mid_inv {A B} (f : A → B) l k1 y k2 :
  f <$> l = k1 ++ y :: k2 → ∃ l1 x l2, l = l1 ++ x :: l2 ∧ f <$> l1 = k1 ∧ f x = y ∧ f <$> l2 = k2.
Proof.
  intros (l1 & l2' & -> & E & ->)%fmap_app_inv.
  symmetry in E. apply fmap_cons_inv in E as (x & l2 & -> & -> & ->). by exists l1, x, l2.
Qed.

Lemma NoDup_fmap_elem_inj {A B} (f : A → B) (l : list A) x y :
  NoDup (f <$> l) → x ∈ l → y ∈ l → f x = f y → x = y.
Proof.
  induction l as [|z l IH]; [by intros _ Hx%not_elem_of_nil|].
  rewrite fmap_cons, NoDup_cons, !elem_of_cons. intros [Hz Hl] [->|Hx] [->|Hy] E; try done.
  - exfalso. apply Hz. rewrite E. by apply list_elem_of_fmap_2.
  - exfalso. apply Hz. rewrite <- E. by apply list_elem_of_fmap_2.
  - by apply IH.
Qed.

(** Pigeonhole: distinct indices of an array of [n] cells are at most [n]. *)
Lemma NoDup_range_length (l : list Z) n :
  NoDup l → (∀ i, i ∈ l → 0 ≤ i < n) → Z.of_nat (length l) ≤ n `max` 0.
Proof.
  intros Hn Hr.
  assert (Hsub : l ⊆+ (Z.of_nat <$> seq 0 (Z.to_nat n))).
  { apply NoDup_submseteq; [done|]. intros i Hi. apply Hr in Hi.
    apply list_elem_of_fmap. exists (Z.to_nat i). split; [lia|]. apply elem_of_seq. lia. }
  apply submseteq_length in Hsub. rewrite length_fmap, length_seq in Hsub. lia.
Qed.

(** Filtering, by what is in the list. *)
Section filter.
Context {A : Type} (P Q : A → Prop) `{!∀ x, Decision (P x), !∀ x, Decision (Q x)}.

Lemma filter_ext (l : list A) : (∀ x, x ∈ l → P x ↔ Q x) → filter P l = filter Q l.
Proof.
  induction l as [|x l IH]; intros HPQ; [done|]. rewrite !filter_cons, IH by (intros y Hy; apply HPQ; by right).
  specialize (HPQ x ltac:(by left)). repeat case_decide; tauto.
Qed.

Lemma filter_all (l : list A) : Forall P l → filter P l = l.
Proof. induction 1 as [|x l Hx _ IH]; [done|]. by rewrite filter_cons_True, IH. Qed.

Lemma filter_none (l : list A) : Forall (λ x, ¬ P x) l → filter P l = [].
Proof. induction 1 as [|x l Hx _ IH]; [done|]. by rewrite filter_cons_False, IH. Qed.
End filter.

(** Sum of a quantity over a list. *)
Definition sumZ {A} (f : A → Z) (l : list A) : Z := foldr (λ x s, f x + s) 0 l.

Lemma sumZ_app {A} (f : A → Z) l k : sumZ f (l ++ k) = sumZ f l + sumZ f k.
Proof. unfold sumZ. induction l; simpl; lia. Qed.

Lemma sumZ_cons {A} (f : A → Z) x l : sumZ f (x :: l) = f x + sumZ f l.
Proof. done. Qed.

Lemma sumZ_perm {A} (f : A → Z) l k : l ≡ₚ k → sumZ f l = sumZ f k.
Proof. induction 1; rewrite ?sumZ_cons; lia. Qed.

Lemma sumZ_nonneg {A} (f : A → Z) l : (∀ x, x ∈ l → 0 ≤ f x) → 0 ≤ sumZ f l.
Proof.
  induction l as [|x l IH]; intros H; [done|].
  rewrite sumZ_cons.
  assert (0 ≤ f x) by (apply H; left).
  assert (0 ≤ sumZ f l) by (apply IH; intros; apply H; by right). lia.
Qed.

(** Insertion before the first element that does not satisfy [adv]. *)
Fixpoint insert_where {A} (adv : A → bool) (x : A) (l : list A) : list A :=
  match l with
  | [] => [x]
  | t :: r => if adv t then t :: insert_where adv x r else x :: t :: r
  end.

Lemma insert_where_app {A} (adv : A → bool) x l k :
  Forall (λ t, adv t = true) l → (∀ t, head k = Some t → adv t = false) →
  insert_where adv x (l ++ k) = l ++ x :: k.
Proof.
  induction 1 as [|t l Ht _ IH]; intros Hk; simpl.
  - destruct k as [|t k]; [done|]. simpl. by rewrite (Hk t).
  - by rewrite Ht, IH.
Qed.

Lemma insert_where_perm {A} (adv : A → bool) x l : insert_where adv x l ≡ₚ x :: l.
Proof.
  induction l as [|t l IH]; simpl; [done|]. destruct (adv t); [|done].
  by rewrite IH, Permutation_swap.
Qed.

Lemma insert_where_fmap {A B} (f : A → B) (adv : A → bool) (adv' : B → bool) x l :
  (∀ t, adv' (f t) = adv t) →
  f <$> insert_where adv x l = insert_where adv' (f x) (f <$> l).
Proof.
  intros Hf. induction l as [|t l IH]; [done|]. cbn. rewrite Hf.
  destruct (adv t); [|done]. cbn. f_equal. apply IH.
Qed.

Lemma Forall_perm {A} (P : A → Prop) l k : l ≡ₚ k → Forall P l → Forall P k.
Proof. intros Hp. by rewrite Hp. Qed.

Lemma list_to_map_perm {K A} `{Countable K} (l k : list (K * A)) :
  NoDup l.*1 → l ≡ₚ k → (list_to_map l : gmap K A) = list_to_map k.
Proof. apply list_to_map_proper. Qed.

(** ** Tactics *)

(** Case analysis on every boolean integer test in sight. *)
Ltac zcases :=
  repeat match goal with
    | |- context [?a =? ?b] => destruct (Z.eqb_spec a b)
    | |- context [?a <? ?b] => destruct (Z.ltb_spec a b)
    | |- context [?a <=? ?b] => destruct (Z.leb_spec a b)
    | H : context [?a =? ?b] |- _ => destruct (Z.eqb_spec a b)
    | H : context [?a <? ?b] |- _ => destruct (Z.ltb_spec a b)
    | H : context [?a <=? ?b] |- _ => destruct (Z.leb_spec a b)
    end.

(** Decide a bounded equality of outcomes by evaluation. *)
Ltac crunch := vm_compute; reflexivity.
