(* ===== verification/CLib.v ===== *)
(** What the sources use of the C library, and signed arithmetic: [int32],
    characters, and [atoi]. *)

From Stdlib Require Import Ascii.
From S2P Require Import Prelude.

(** Signed 32-bit arithmetic, [std::abs(int)]. *)
Definition int32 (z : Z) : res Z :=
  if bool_decide (is_i32 z) then Ok z else Err (UB "signed overflow").
Definition std_abs (z : Z) : res Z := int32 (Z.abs z).

Lemma int32_Ok z : is_i32 z → int32 z = Ok z.
Proof. intros Hz. unfold int32. by rewrite bool_decide_eq_true_2. Qed.

(** ** Characters *)

Definition is_space (c : ascii) : bool :=
  let n := Z.of_nat (nat_of_ascii c) in (n =? 32) || ((9 <=? n) && (n <=? 13)).
Definition digit (c : ascii) : option Z :=
  let n := Z.of_nat (nat_of_ascii c) - 48 in if (0 <=? n) && (n <=? 9) then Some n else None.

Fixpoint skip_space (s : string) : string :=
  match s with
  | String c s' => if is_space c then skip_space s' else s
  | EmptyString => s
  end.
Fixpoint read_digits (acc : Z) (s : string) : Z :=
  match s with
  | String c s' => match digit c with Some d => read_digits (10 * acc + d) s' | None => acc end
  | EmptyString => acc
  end.

(** [std::atoi]: blanks, a sign, digits; undefined when no [int] holds the value. *)
Definition atoi (s : string) : res Z :=
  match skip_space s with
  | String c s' =>
      if Ascii.eqb c "-" then int32 (- read_digits 0 s')
      else if Ascii.eqb c "+" then int32 (read_digits 0 s')
      else int32 (read_digits 0 (String c s'))
  | EmptyString => Ok 0
  end.

(** [std::isdigit(s[0])], [s[0]] being the terminator of an empty string. *)
Definition isdigit0 (s : string) : bool :=
  match s with
  | String c _ => bool_decide (is_Some (digit c))
  | EmptyString => false
  end.
