(* ===== verification/Types.v ===== *)
(** Common types: include/types.h and the message structs exchanged by the
    components (client_request.h, client_response.h, market_update.h).

    A [StrongType<T, Tag>] is its underlying integer, a [Z] in the range of
    [T]; the sentinel is the type's maximum.  Each [enum class] is an
    inductive with the source's enumerators plus [Other v] for the values of
    the underlying type that name no enumerator (they can be read off the
    wire: the structs are reinterpreted in place). *)

From S2P Require Import Prelude.

(** ** Capacity constants (the two build profiles of include/types.h) *)

Class Config := {
  LOG_QUEUE_SIZE : Z;
  ME_MAX_TICKERS : Z;
  ME_MAX_CLIENT_UPDATES : Z;
  ME_MAX_MARKET_UPDATES : Z;
  ME_MAX_NUM_CLIENTS : Z;
  ME_MAX_ORDER_IDS : Z;
  ME_MAX_PRICE_LEVELS : Z;
}.

(** What the proofs use of a profile; both profiles satisfy it. *)
Class ConfigOk (C : Config) : Prop := {
  cfg_log : 2 ≤ LOG_QUEUE_SIZE;
  cfg_tickers : 0 < ME_MAX_TICKERS < 2 ^ 32;
  cfg_client_updates : 2 ≤ ME_MAX_CLIENT_UPDATES;
  cfg_market_updates : 2 ≤ ME_MAX_MARKET_UPDATES;
  cfg_clients : 0 < ME_MAX_NUM_CLIENTS < 2 ^ 32;
  cfg_order_ids : 0 < ME_MAX_ORDER_IDS < 2 ^ 32;
  cfg_levels : 0 < ME_MAX_PRICE_LEVELS < 2 ^ 32;
}.

Definition default_profile : Config := {|
  LOG_QUEUE_SIZE := 1024 * 1024;
  ME_MAX_TICKERS := 8;
  ME_MAX_CLIENT_UPDATES := 256 * 1024;
  ME_MAX_MARKET_UPDATES := 256 * 1024;
  ME_MAX_NUM_CLIENTS := 256;
  ME_MAX_ORDER_IDS := 1024 * 1024;
  ME_MAX_PRICE_LEVELS := 256;
|}.

Definition small_footprint_profile : Config := {|
  LOG_QUEUE_SIZE := 64 * 1024;
  ME_MAX_TICKERS := 4;
  ME_MAX_CLIENT_UPDATES := 64 * 1024;
  ME_MAX_MARKET_UPDATES := 64 * 1024;
  ME_MAX_NUM_CLIENTS := 16;
  ME_MAX_ORDER_IDS := 128 * 1024;
  ME_MAX_PRICE_LEVELS := 256;
|}.

Lemma default_profile_ok : ConfigOk default_profile.
Proof. by split. Qed.
Lemma small_footprint_profile_ok : ConfigOk small_footprint_profile.
Proof. by split. Qed.

(** ** Strong types *)

Abbreviation OrderId := Z (only parsing).
Abbreviation TickerId := Z (only parsing).
Abbreviation ClientId := Z (only parsing).
Abbreviation Price := Z (only parsing).
Abbreviation Qty := Z (only parsing).
Abbreviation Priority := Z (only parsing).
Abbreviation Nanos := Z (only parsing).

Definition INVALID64 : Z := 2 ^ 64 - 1.
Definition INVALID32 : Z := 2 ^ 32 - 1.
Abbreviation OrderId_INVALID := INVALID64 (only parsing).
Abbreviation Price_INVALID := INVALID64 (only parsing).
Abbreviation Priority_INVALID := INVALID64 (only parsing).
Abbreviation TickerId_INVALID := INVALID32 (only parsing).
Abbreviation ClientId_INVALID := INVALID32 (only parsing).
Abbreviation Qty_INVALID := INVALID32 (only parsing).

(** [StrongType::isValid], at the two widths in use. *)
Definition isValid64 (v : Z) : bool := negb (v =? INVALID64).
Definition isValid32 (v : Z) : bool := negb (v =? INVALID32).

(** Post-increment of a 64-bit strong type: the value read, the value left. *)
Definition post_inc64 (v : Z) : Z * Z := (v, u64 (v + 1)).

(** [StrongType::toString]; [std::to_string] is stdpp's decimal [pretty]. *)
Definition StrongType_toString (invalid v : Z) : string :=
  if v =? invalid then "INVALID" else pretty v.

(** ** Side *)

Module Side.
Inductive t := INVALID | BUY | SELL | MAX | Other (v : Z).

#[export] Instance t_eq_dec : EqDecision t.
Proof. solve_decision. Defined.

Definition eqb (a b : t) : bool := bool_decide (a = b).

(** The [int8_t] carried by the enumerators. *)
Definition toZ (s : t) : Z :=
  match s with INVALID => 0 | BUY => 1 | SELL => -1 | MAX => 2 | Other v => v end.

Definition ofZ (v : Z) : t :=
  if v =? 0 then INVALID else if v =? 1 then BUY
  else if v =? -1 then SELL else if v =? 2 then MAX else Other v.

Lemma ofZ_toZ s : (∀ v, s = Other v → v ≠ 0 ∧ v ≠ 1 ∧ v ≠ -1 ∧ v ≠ 2) → ofZ (toZ s) = s.
Proof.
  intros H. destruct s; try done.
  destruct (H v) as (?&?&?&?); [done|]. unfold ofZ, toZ. zcases; done.
Qed.

Lemma side_toZ_ofZ v : toZ (ofZ v) = v.
Proof. unfold ofZ. zcases; subst; done. Qed.
End Side.
Export (hints) Side.

(** Evaluate the side tests of a concrete side. *)
Ltac side_simpl :=
  change (Side.eqb Side.BUY Side.BUY) with true in *;
  change (Side.eqb Side.SELL Side.BUY) with false in *;
  change (Side.eqb Side.BUY Side.SELL) with false in *;
  change (Side.eqb Side.SELL Side.SELL) with true in *;
  cbn [andb orb] in *.

Definition sideToString (side : Side.t) : string :=
  match side with
  | Side.BUY => "BUY"
  | Side.SELL => "SELL"
  | Side.INVALID => "INVALID"
  | Side.MAX => "MAX"
  | Side.Other _ => "UNKNOWN"
  end.

(** [sideToIndex]: [static_cast<size_t>(int8_t) + 1], modulo 2^64. *)
Definition sideToIndex (side : Side.t) : Z := u64 (u64 (Side.toZ side) + 1).

Definition sideToValue (side : Side.t) : Z := Side.toZ side.

(** ** Client requests (Exchange/order_server/client_request.h) *)

Module ClientRequestType.
Inductive t := INVALID | NEW | CANCEL | SHUTDOWN | Other (v : Z).
#[export] Instance t_eq_dec : EqDecision t.
Proof. solve_decision. Defined.

Definition toZ (x : t) : Z :=
  match x with INVALID => 0 | NEW => 1 | CANCEL => 2 | SHUTDOWN => 3 | Other v => v end.
Definition ofZ (v : Z) : t :=
  if v =? 0 then INVALID else if v =? 1 then NEW else if v =? 2 then CANCEL
  else if v =? 3 then SHUTDOWN else Other v.
Lemma rq_type_toZ_ofZ v : toZ (ofZ v) = v.
Proof. unfold ofZ. zcases; subst; done. Qed.
End ClientRequestType.
Export (hints) ClientRequestType.

Definition clientRequestTypeToString (x : ClientRequestType.t) : string :=
  match x with
  | ClientRequestType.NEW => "NEW"
  | ClientRequestType.CANCEL => "CANCEL"
  | ClientRequestType.SHUTDOWN => "SHUTDOWN"
  | ClientRequestType.INVALID => "INVALID"
  | ClientRequestType.Other _ => "UNKNOWN"
  end.

Record MEClientRequest := mkMEClientRequest {
  rq_type_ : ClientRequestType.t;
  rq_client_id_ : ClientId;
  rq_ticker_id_ : TickerId;
  rq_order_id_ : OrderId;
  rq_side_ : Side.t;
  rq_price_ : Price;
  rq_qty_ : Qty;
}.
#[export] Instance MEClientRequest_eq_dec : EqDecision MEClientRequest.
Proof. solve_decision. Defined.

(** The default member initialisers. *)
#[export] Instance MEClientRequest_inh : Inhabited MEClientRequest :=
  populate (mkMEClientRequest ClientRequestType.INVALID ClientId_INVALID
              TickerId_INVALID OrderId_INVALID Side.INVALID Price_INVALID Qty_INVALID).

Record OMClientRequest := mkOMClientRequest {
  omrq_seq_num_ : Z;
  me_client_request_ : MEClientRequest;
}.
#[export] Instance OMClientRequest_eq_dec : EqDecision OMClientRequest.
Proof. solve_decision. Defined.

(** ** Client responses (Exchange/order_server/client_response.h) *)

Module ClientResponseType.
Inductive t := INVALID | ACCEPTED | CANCELED | FILLED | CANCEL_REJECTED | Other (v : Z).
#[export] Instance t_eq_dec : EqDecision t.
Proof. solve_decision. Defined.

Definition toZ (x : t) : Z :=
  match x with
  | INVALID => 0 | ACCEPTED => 1 | CANCELED => 2 | FILLED => 3
  | CANCEL_REJECTED => 4 | Other v => v
  end.
Definition ofZ (v : Z) : t :=
  if v =? 0 then INVALID else if v =? 1 then ACCEPTED else if v =? 2 then CANCELED
  else if v =? 3 then FILLED else if v =? 4 then CANCEL_REJECTED else Other v.
Lemma rs_type_toZ_ofZ v : toZ (ofZ v) = v.
Proof. unfold ofZ. zcases; subst; done. Qed.
End ClientResponseType.
Export (hints) ClientResponseType.

Definition clientResponseTypeToString (x : ClientResponseType.t) : string :=
  match x with
  | ClientResponseType.ACCEPTED => "ACCEPTED"
  | ClientResponseType.CANCELED => "CANCELED"
  | ClientResponseType.FILLED => "FILLED"
  | ClientResponseType.CANCEL_REJECTED => "CANCEL_REJECTED"
  | ClientResponseType.INVALID => "INVALID"
  | ClientResponseType.Other _ => "UNKNOWN"
  end.

Record MEClientResponse := mkMEClientResponse {
  rs_type_ : ClientResponseType.t;
  rs_client_id_ : ClientId;
  rs_ticker_id_ : TickerId;
  rs_client_order_id_ : OrderId;
  rs_market_order_id_ : OrderId;
  rs_side_ : Side.t;
  rs_price_ : Price;
  rs_exec_qty_ : Qty;
  rs_leaves_qty_ : Qty;
}.
#[export] Instance MEClientResponse_eq_dec : EqDecision MEClientResponse.
Proof. solve_decision. Defined.
#[export] Instance MEClientResponse_inh : Inhabited MEClientResponse :=
  populate (mkMEClientResponse ClientResponseType.INVALID ClientId_INVALID
              TickerId_INVALID OrderId_INVALID OrderId_INVALID Side.INVALID
              Price_INVALID Qty_INVALID Qty_INVALID).

Record OMClientResponse := mkOMClientResponse {
  omrs_seq_num_ : Z;
  me_client_response_ : MEClientResponse;
}.
#[export] Instance OMClientResponse_eq_dec : EqDecision OMClientResponse.
Proof. solve_decision. Defined.

(** ** Market updates (Exchange/market_data/market_update.h) *)

Module MarketUpdateType.
Inductive t :=
  | INVALID | CLEAR | ADD | MODIFY | CANCEL | TRADE | SNAPSHOT_START | SNAPSHOT_END
  | Other (v : Z).
#[export] Instance t_eq_dec : EqDecision t.
Proof. solve_decision. Defined.

Definition toZ (x : t) : Z :=
  match x with
  | INVALID => 0 | CLEAR => 1 | ADD => 2 | MODIFY => 3 | CANCEL => 4 | TRADE => 5
  | SNAPSHOT_START => 6 | SNAPSHOT_END => 7 | Other v => v
  end.
Definition ofZ (v : Z) : t :=
  if v =? 0 then INVALID else if v =? 1 then CLEAR else if v =? 2 then ADD
  else if v =? 3 then MODIFY else if v =? 4 then CANCEL else if v =? 5 then TRADE
  else if v =? 6 then SNAPSHOT_START else if v =? 7 then SNAPSHOT_END else Other v.
Lemma mu_type_toZ_ofZ v : toZ (ofZ v) = v.
Proof. unfold ofZ. zcases; subst; done. Qed.
End MarketUpdateType.
Export (hints) MarketUpdateType.

Definition marketUpdateTypeToString (x : MarketUpdateType.t) : string :=
  match x with
  | MarketUpdateType.CLEAR => "CLEAR"
  | MarketUpdateType.ADD => "ADD"
  | MarketUpdateType.MODIFY => "MODIFY"
  | MarketUpdateType.CANCEL => "CANCEL"
  | MarketUpdateType.TRADE => "TRADE"
  | MarketUpdateType.SNAPSHOT_START => "SNAPSHOT_START"
  | MarketUpdateType.SNAPSHOT_END => "SNAPSHOT_END"
  | MarketUpdateType.INVALID => "INVALID"
  | MarketUpdateType.Other _ => "UNKNOWN"
  end.

Record MEMarketUpdate := mkMEMarketUpdate {
  mu_type_ : MarketUpdateType.t;
  mu_ticker_id_ : TickerId;
  mu_side_ : Side.t;
  mu_price_ : Price;
  mu_qty_ : Qty;
  mu_order_id_ : OrderId;
  mu_priority_ : Priority;
}.
#[export] Instance MEMarketUpdate_eq_dec : EqDecision MEMarketUpdate.
Proof. solve_decision. Defined.
#[export] Instance MEMarketUpdate_inh : Inhabited MEMarketUpdate :=
  populate (mkMEMarketUpdate MarketUpdateType.INVALID TickerId_INVALID Side.INVALID
              Price_INVALID Qty_INVALID OrderId_INVALID Priority_INVALID).

Record MDPMarketUpdate := mkMDPMarketUpdate {
  md_seq_num_ : Z;
  me_market_update_ : MEMarketUpdate;
}.
#[export] Instance MDPMarketUpdate_eq_dec : EqDecision MDPMarketUpdate.
Proof. solve_decision. Defined.
#[export] Instance MDPMarketUpdate_inh : Inhabited MDPMarketUpdate :=
  populate (mkMDPMarketUpdate 0 inhabitant).
