(* ===== verification/Wire.v ===== *)
(** The wire format: the packed message structs of the public interfaces
    ([#pragma pack(push, 1)] in client_request.h, client_response.h and
    market_update.h) as bytes, little-endian, and the splitting of a byte
    stream into fixed-size frames.

    The code sends a struct by copying its memory and reads one by
    reinterpreting the buffer in place; [wput] and [wget] are those two views.
    [Wire] is the interface the network components use: a fixed size and a
    bijection between the well-formed messages and the byte strings of that
    size. *)

From S2P Require Import Prelude Types.

Abbreviation byte := Z (only parsing).
Definition is_byte (b : byte) : Prop := 0 ≤ b < 2 ^ 8.
Definition bytes_ok (bs : list byte) : Prop := Forall is_byte bs.

(** ** Integers *)

Fixpoint le (n : nat) (z : Z) : list byte :=
  match n with O => [] | S n => z `mod` 256 :: le n (z `div` 256) end.

Fixpoint unle (bs : list byte) : Z :=
  match bs with [] => 0 | b :: bs => b + 256 * unle bs end.

(** The [n] bytes at offset [off]. *)
Definition field (off n : nat) (bs : list byte) : Z := unle (take n (drop off bs)).

Lemma le_length n z : length (le n z) = n.
Proof. revert z. induction n as [|n IH]; intros z; [done|]. cbn. by rewrite IH. Qed.

Lemma le_bytes n z : bytes_ok (le n z).
Proof.
  revert z. induction n as [|n IH]; intros z; constructor; [|apply IH].
  apply Z.mod_pos_bound. done.
Qed.

Lemma pow256 n : 2 ^ (8 * Z.of_nat (S n)) = 256 * 2 ^ (8 * Z.of_nat n).
Proof. rewrite <- (Z.pow_add_r 2 8) by lia. f_equal. lia. Qed.

Lemma unle_le n z : 0 ≤ z < 2 ^ (8 * Z.of_nat n) → unle (le n z) = z.
Proof.
  revert z. induction n as [|n IH]; intros z Hz; [cbn in *; lia|].
  rewrite pow256 in Hz. cbn [le unle]. rewrite IH; [|split; [apply Z.div_pos; lia|]].
  - rewrite (Z.div_mod z 256) at 3 by lia. lia.
  - apply Z.div_lt_upper_bound; lia.
Qed.

Lemma unle_range bs : bytes_ok bs → 0 ≤ unle bs < 2 ^ (8 * Z.of_nat (length bs)).
Proof.
  induction 1 as [|b bs Hb _ IH]; [cbn; lia|]. cbn [unle length]. rewrite pow256.
  unfold is_byte in Hb. change (2 ^ 8) with 256 in Hb. lia.
Qed.

Lemma le_unle bs : bytes_ok bs → le (length bs) (unle bs) = bs.
Proof.
  induction 1 as [|b bs Hb _ IH]; [done|]. cbn [unle length le].
  unfold is_byte in Hb. change (2 ^ 8) with 256 in Hb.
  rewrite (Z.mul_comm 256), Z.mod_add, Z.div_add, Z.mod_small, Z.div_small by lia.
  f_equal. by rewrite Z.add_0_l.
Qed.

Lemma field_here n k bs : length k = n → field 0 n (k ++ bs) = unle k.
Proof. intros <-. unfold field. by rewrite drop_0, take_app_length. Qed.

Lemma field_skip off n (k bs : list byte) :
  (length k ≤ off)%nat → field off n (k ++ bs) = field (off - length k) n bs.
Proof. intros Hk. unfold field. by rewrite drop_app_ge. Qed.

Lemma le_field off n bs : bytes_ok bs → (off + n ≤ length bs)%nat →
  le n (field off n bs) = take n (drop off bs).
Proof.
  intros Hb Hl. unfold field. rewrite <- (le_unle (take n (drop off bs))) at 2.
  - f_equal. rewrite length_take, length_drop. lia.
  - apply Forall_take, Forall_drop, Hb.
Qed.

Lemma field_prefix off n bs bs' : (off + n ≤ length bs)%nat → field off n (bs ++ bs') = field off n bs.
Proof.
  intros Hl. unfold field. rewrite drop_app_le by lia.
  rewrite take_app_le by (rewrite length_drop; lia). done.
Qed.

(** ** The interface *)

Class Wire (A : Type) := {
  wsize : nat;
  wput : A → list byte;
  wget : list byte → A;
  wvalid : A → Prop;
}.
Arguments wsize A {_}.

Class WireOk (A : Type) {W : Wire A} : Prop := {
  wire_size : (0 < wsize A)%nat;
  wput_length : ∀ a, length (wput a) = wsize A;
  wput_bytes : ∀ a, bytes_ok (wput a);
  wget_wput : ∀ a bs, wvalid a → wget (wput a ++ bs) = a;
  wput_wget : ∀ bs, bytes_ok bs → (wsize A ≤ length bs)%nat → wput (wget bs) = take (wsize A) bs;
  wget_valid : ∀ bs, bytes_ok bs → wvalid (wget bs);
  wget_prefix : ∀ bs bs', (wsize A ≤ length bs)%nat → wget (bs ++ bs') = wget bs;
}.

(** ** Enumerations, one byte each *)

Definition side_valid (s : Side.t) : Prop := -128 ≤ Side.toZ s < 128 ∧ Side.ofZ (Side.toZ s) = s.
Definition side_put (s : Side.t) : list byte := le 1 (u8 (Side.toZ s)).
Definition side_get (off : nat) (bs : list byte) : Side.t := Side.ofZ (i8 (field off 1 bs)).

Definition rq_type_valid (x : ClientRequestType.t) : Prop :=
  0 ≤ ClientRequestType.toZ x < 256 ∧ ClientRequestType.ofZ (ClientRequestType.toZ x) = x.
Definition rs_type_valid (x : ClientResponseType.t) : Prop :=
  0 ≤ ClientResponseType.toZ x < 256 ∧ ClientResponseType.ofZ (ClientResponseType.toZ x) = x.
Definition mu_type_valid (x : MarketUpdateType.t) : Prop :=
  0 ≤ MarketUpdateType.toZ x < 256 ∧ MarketUpdateType.ofZ (MarketUpdateType.toZ x) = x.

(** ** The messages *)

Record rq_valid (r : MEClientRequest) : Prop := {
  rqv_type : rq_type_valid (rq_type_ r);
  rqv_client : is_u32 (rq_client_id_ r);
  rqv_ticker : is_u32 (rq_ticker_id_ r);
  rqv_order : is_u64 (rq_order_id_ r);
  rqv_side : side_valid (rq_side_ r);
  rqv_price : is_u64 (rq_price_ r);
  rqv_qty : is_u32 (rq_qty_ r);
}.

#[export] Instance MEClientRequest_wire : Wire MEClientRequest := {|
  wsize := 30;
  wput r := le 1 (ClientRequestType.toZ (rq_type_ r)) ++ le 4 (rq_client_id_ r) ++ le 4 (rq_ticker_id_ r) ++
    le 8 (rq_order_id_ r) ++ side_put (rq_side_ r) ++ le 8 (rq_price_ r) ++ le 4 (rq_qty_ r);
  wget bs := mkMEClientRequest (ClientRequestType.ofZ (field 0 1 bs)) (field 1 4 bs) (field 5 4 bs)
    (field 9 8 bs) (side_get 17 bs) (field 18 8 bs) (field 26 4 bs);
  wvalid := rq_valid;
|}.

Record rs_valid (r : MEClientResponse) : Prop := {
  rsv_type : rs_type_valid (rs_type_ r);
  rsv_client : is_u32 (rs_client_id_ r);
  rsv_ticker : is_u32 (rs_ticker_id_ r);
  rsv_coid : is_u64 (rs_client_order_id_ r);
  rsv_moid : is_u64 (rs_market_order_id_ r);
  rsv_side : side_valid (rs_side_ r);
  rsv_price : is_u64 (rs_price_ r);
  rsv_exec : is_u32 (rs_exec_qty_ r);
  rsv_leaves : is_u32 (rs_leaves_qty_ r);
}.

#[export] Instance MEClientResponse_wire : Wire MEClientResponse := {|
  wsize := 42;
  wput r := le 1 (ClientResponseType.toZ (rs_type_ r)) ++ le 4 (rs_client_id_ r) ++ le 4 (rs_ticker_id_ r) ++
    le 8 (rs_client_order_id_ r) ++ le 8 (rs_market_order_id_ r) ++ side_put (rs_side_ r) ++
    le 8 (rs_price_ r) ++ le 4 (rs_exec_qty_ r) ++ le 4 (rs_leaves_qty_ r);
  wget bs := mkMEClientResponse (ClientResponseType.ofZ (field 0 1 bs)) (field 1 4 bs) (field 5 4 bs)
    (field 9 8 bs) (field 17 8 bs) (side_get 25 bs) (field 26 8 bs) (field 34 4 bs) (field 38 4 bs);
  wvalid := rs_valid;
|}.

Record mu_valid (u : MEMarketUpdate) : Prop := {
  muv_type : mu_type_valid (mu_type_ u);
  muv_ticker : is_u32 (mu_ticker_id_ u);
  muv_side : side_valid (mu_side_ u);
  muv_price : is_u64 (mu_price_ u);
  muv_qty : is_u32 (mu_qty_ u);
  muv_order : is_u64 (mu_order_id_ u);
  muv_priority : is_u64 (mu_priority_ u);
}.

#[export] Instance MEMarketUpdate_wire : Wire MEMarketUpdate := {|
  wsize := 34;
  wput u := le 1 (MarketUpdateType.toZ (mu_type_ u)) ++ le 4 (mu_ticker_id_ u) ++ side_put (mu_side_ u) ++
    le 8 (mu_price_ u) ++ le 4 (mu_qty_ u) ++ le 8 (mu_order_id_ u) ++ le 8 (mu_priority_ u);
  wget bs := mkMEMarketUpdate (MarketUpdateType.ofZ (field 0 1 bs)) (field 1 4 bs) (side_get 5 bs)
    (field 6 8 bs) (field 14 4 bs) (field 18 8 bs) (field 26 8 bs);
  wvalid := mu_valid;
|}.

(** A sequence number in front of a payload: the [OM...] and [MDP...] wrappers. *)
Definition seq_wire {A B : Type} {W : Wire A} (mk : Z → A → B) (seq : B → Z) (payload : B → A) : Wire B := {|
  wsize := 8 + wsize A;
  wput b := le 8 (seq b) ++ wput (payload b);
  wget bs := mk (field 0 8 bs) (wget (drop 8 bs));
  wvalid b := is_u64 (seq b) ∧ wvalid (payload b);
|}.

#[export] Instance OMClientRequest_wire : Wire OMClientRequest :=
  seq_wire mkOMClientRequest omrq_seq_num_ me_client_request_.
#[export] Instance OMClientResponse_wire : Wire OMClientResponse :=
  seq_wire mkOMClientResponse omrs_seq_num_ me_client_response_.
#[export] Instance MDPMarketUpdate_wire : Wire MDPMarketUpdate :=
  seq_wire mkMDPMarketUpdate md_seq_num_ me_market_update_.

(** ** Laws *)

Lemma field_le_skip off m n z bs :
  (m ≤ off)%nat → field off n (le m z ++ bs) = field (off - m) n bs.
Proof. intros Hm. rewrite field_skip; rewrite le_length; done. Qed.

Lemma field_le_here n z bs : 0 ≤ z < 2 ^ (8 * Z.of_nat n) → field 0 n (le n z ++ bs) = z.
Proof. intros Hz. rewrite (field_here n) by apply le_length. by apply unle_le. Qed.

Lemma join_fields off n m (bs : list byte) :
  take n (drop off bs) ++ take m (drop (off + n) bs) = take (n + m) (drop off bs).
Proof. by rewrite <- drop_drop, take_take_drop. Qed.

Lemma le1_i8 v : le 1 (u8 (i8 v)) = le 1 v.
Proof.
  unfold u8, i8. change (2 ^ 8) with 256. change (2 ^ 7) with 128. cbn. f_equal.
  rewrite Z.mod_mod by lia. rewrite <- Zminus_mod_idemp_l, Z.mod_mod, Zminus_mod_idemp_l by lia.
  f_equal. lia.
Qed.

Lemma side_get_skip off m z bs :
  (m ≤ off)%nat → side_get off (le m z ++ bs) = side_get (off - m) bs.
Proof. intros Hm. unfold side_get. by rewrite field_le_skip. Qed.

Lemma side_get_here s bs : side_valid s → side_get 0 (side_put s ++ bs) = s.
Proof.
  intros [Hr Hs]. unfold side_get, side_put. rewrite (field_here 1) by apply le_length.
  rewrite unle_le by apply Z.mod_pos_bound, eq_refl. rewrite <- Hs at 2. f_equal.
  unfold i8, u8. change (2 ^ 8) with 256. change (2 ^ 7) with 128.
  rewrite Zplus_mod_idemp_l, Z.mod_small by lia. lia.
Qed.

Lemma side_put_get off bs : le 1 (field off 1 bs) = side_put (side_get off bs).
Proof. unfold side_put, side_get. by rewrite Side.side_toZ_ofZ, le1_i8. Qed.

Lemma field1_range off bs : bytes_ok bs → 0 ≤ field off 1 bs < 256.
Proof.
  intros Hb. unfold field. pose proof (unle_range (take 1 (drop off bs))) as Hr.
  assert (length (take 1 (drop off bs)) ≤ 1)%nat by (rewrite length_take; lia).
  assert (bytes_ok (take 1 (drop off bs))) as Hb' by apply Forall_take, Forall_drop, Hb.
  specialize (Hr Hb'). destruct (length (take 1 (drop off bs))) as [|[|]]; cbn in *; lia.
Qed.

Lemma field_range off n bs : bytes_ok bs → 0 ≤ field off n bs < 2 ^ (8 * Z.of_nat n).
Proof.
  intros Hb. unfold field. assert (bytes_ok (take n (drop off bs))) as Hb' by apply Forall_take, Forall_drop, Hb.
  pose proof (unle_range _ Hb') as Hr.
  assert (2 ^ (8 * Z.of_nat (length (take n (drop off bs)))) ≤ 2 ^ (8 * Z.of_nat n)); [|lia].
  apply Z.pow_le_mono_r; [lia|]. rewrite length_take. lia.
Qed.

Lemma side_get_valid off bs : bytes_ok bs → side_valid (side_get off bs).
Proof.
  intros Hb. unfold side_valid, side_get. rewrite Side.side_toZ_ofZ. split; [|done].
  unfold i8. change (2 ^ 8) with 256. change (2 ^ 7) with 128.
  pose proof (Z.mod_pos_bound (field off 1 bs + 128) 256). lia.
Qed.

Lemma rq_type_get_valid v : 0 ≤ v < 256 → rq_type_valid (ClientRequestType.ofZ v).
Proof. intros Hv. unfold rq_type_valid. by rewrite ClientRequestType.rq_type_toZ_ofZ. Qed.
Lemma rs_type_get_valid v : 0 ≤ v < 256 → rs_type_valid (ClientResponseType.ofZ v).
Proof. intros Hv. unfold rs_type_valid. by rewrite ClientResponseType.rs_type_toZ_ofZ. Qed.
Lemma mu_type_get_valid v : 0 ≤ v < 256 → mu_type_valid (MarketUpdateType.ofZ v).
Proof. intros Hv. unfold mu_type_valid. by rewrite MarketUpdateType.mu_type_toZ_ofZ. Qed.

Create HintDb wire.
#[export] Hint Resolve le_bytes side_get_valid rq_type_get_valid rs_type_get_valid mu_type_get_valid
  field1_range : wire.

Lemma field4_range off bs : bytes_ok bs → is_u32 (field off 4 bs).
Proof. apply (field_range off 4). Qed.
Lemma field8_range off bs : bytes_ok bs → is_u64 (field off 8 bs).
Proof. apply (field_range off 8). Qed.
#[export] Hint Resolve field4_range field8_range : wire.

Lemma field_side_skip off n s bs :
  (1 ≤ off)%nat → field off n (side_put s ++ bs) = field (off - 1) n bs.
Proof. apply field_le_skip. Qed.

Lemma side_put_bytes s : bytes_ok (side_put s).
Proof. apply le_bytes. Qed.
Lemma side_put_length s : length (side_put s) = 1%nat.
Proof. apply le_length. Qed.
#[export] Hint Resolve side_put_bytes : wire.
#[export] Hint Rewrite @length_app le_length side_put_length : wire.

Lemma bytes_ok_app k bs : bytes_ok (k ++ bs) ↔ bytes_ok k ∧ bytes_ok bs.
Proof. apply Forall_app. Qed.

(** Read each field of a concrete message back. *)
Ltac wire_get :=
  rewrite <- ?(assoc (++));
  repeat (first [ rewrite field_le_here by (first [assumption | lia])
                | rewrite side_get_here by assumption
                | rewrite field_le_skip by (apply leb_complete; reflexivity)
                | rewrite field_side_skip by (apply leb_complete; reflexivity)
                | rewrite side_get_skip by (apply leb_complete; reflexivity) ];
          cbn [Nat.sub]).

(** Write the fields read from a buffer back next to each other. *)
Ltac wire_put Hb Hl :=
  rewrite <- ?side_put_get, ?ClientRequestType.rq_type_toZ_ofZ, ?ClientResponseType.rs_type_toZ_ofZ, ?MarketUpdateType.mu_type_toZ_ofZ;
  rewrite !le_field by (first [exact Hb | lia]);
  rewrite ?join_fields; reflexivity.

#[export] Instance MEClientRequest_wire_ok : WireOk MEClientRequest.
Proof.
  split.
  - cbn. lia.
  - intros r. cbn [wput MEClientRequest_wire]. autorewrite with wire. done.
  - intros r. cbn [wput MEClientRequest_wire]. rewrite !bytes_ok_app. split_and!; auto with wire.
  - intros r bs [[Ht Ht'] ? ? ? ? ? ?]. cbn [wput wget MEClientRequest_wire].
    wire_get. rewrite Ht'. by destruct r.
  - intros bs Hb Hl. cbn [wput wget wsize MEClientRequest_wire] in *.
    cbn [rq_type_ rq_client_id_ rq_ticker_id_ rq_order_id_ rq_side_ rq_price_ rq_qty_].
    wire_put Hb Hl.
  - intros bs Hb. split; cbn [wget MEClientRequest_wire]; cbn [rq_type_ rq_client_id_ rq_ticker_id_ rq_order_id_ rq_side_ rq_price_ rq_qty_]; auto with wire.
  - intros bs bs' Hl. cbn [wget wsize MEClientRequest_wire] in *. unfold side_get. by rewrite !field_prefix by lia.
Qed.

#[export] Instance MEClientResponse_wire_ok : WireOk MEClientResponse.
Proof.
  split.
  - cbn. lia.
  - intros r. cbn [wput MEClientResponse_wire]. autorewrite with wire. done.
  - intros r. cbn [wput MEClientResponse_wire]. rewrite !bytes_ok_app. split_and!; auto with wire.
  - intros r bs [[Ht Ht'] ? ? ? ? ? ? ? ?]. cbn [wput wget MEClientResponse_wire].
    wire_get. rewrite Ht'. by destruct r.
  - intros bs Hb Hl. cbn [wput wget wsize MEClientResponse_wire] in *.
    cbn [rs_type_ rs_client_id_ rs_ticker_id_ rs_client_order_id_ rs_market_order_id_ rs_side_
      rs_price_ rs_exec_qty_ rs_leaves_qty_].
    wire_put Hb Hl.
  - intros bs Hb. split; cbn [wget MEClientResponse_wire]; cbn [rs_type_ rs_client_id_ rs_ticker_id_ rs_client_order_id_ rs_market_order_id_ rs_side_
      rs_price_ rs_exec_qty_ rs_leaves_qty_]; auto with wire.
  - intros bs bs' Hl. cbn [wget wsize MEClientResponse_wire] in *. unfold side_get. by rewrite !field_prefix by lia.
Qed.

#[export] Instance MEMarketUpdate_wire_ok : WireOk MEMarketUpdate.
Proof.
  split.
  - cbn. lia.
  - intros r. cbn [wput MEMarketUpdate_wire]. autorewrite with wire. done.
  - intros r. cbn [wput MEMarketUpdate_wire]. rewrite !bytes_ok_app. split_and!; auto with wire.
  - intros r bs [[Ht Ht'] ? ? ? ? ? ?]. cbn [wput wget MEMarketUpdate_wire].
    wire_get. rewrite Ht'. by destruct r.
  - intros bs Hb Hl. cbn [wput wget wsize MEMarketUpdate_wire] in *.
    cbn [mu_type_ mu_ticker_id_ mu_side_ mu_price_ mu_qty_ mu_order_id_ mu_priority_].
    wire_put Hb Hl.
  - intros bs Hb. split; cbn [wget MEMarketUpdate_wire]; cbn [mu_type_ mu_ticker_id_ mu_side_ mu_price_ mu_qty_ mu_order_id_ mu_priority_]; auto with wire.
  - intros bs bs' Hl. cbn [wget wsize MEMarketUpdate_wire] in *. unfold side_get. by rewrite !field_prefix by lia.
Qed.

(** The wrappers inherit the laws of their payload. *)
Lemma seq_wire_ok {A B : Type} {W : Wire A} {OK : WireOk A} (mk : Z → A → B) (seq : B → Z) (payload : B → A) :
  (∀ b, mk (seq b) (payload b) = b) → (∀ n a, seq (mk n a) = n) → (∀ n a, payload (mk n a) = a) →
  @WireOk B (seq_wire mk seq payload).
Proof.
  intros Hmk Hseq Hpay. split; cbn [wsize wput wget wvalid seq_wire].
  - lia.
  - intros b. by rewrite length_app, le_length, wput_length.
  - intros b. apply bytes_ok_app. split; [apply le_bytes|apply wput_bytes].
  - intros b bs [Hs Hv]. rewrite <- (assoc (++)), field_le_here by exact Hs.
    rewrite drop_app_ge by (by rewrite le_length). rewrite le_length, Nat.sub_diag, drop_0.
    by rewrite wget_wput, Hmk.
  - intros bs Hb Hl. rewrite Hseq, Hpay, wput_wget; [|by apply Forall_drop|rewrite length_drop; lia].
    rewrite le_field by (first [exact Hb | lia]). apply (join_fields 0).
  - intros bs Hb. rewrite Hseq, Hpay. split; [auto with wire|]. by apply wget_valid, Forall_drop.
  - intros bs bs' Hl. rewrite field_prefix, drop_app_le by lia. by rewrite wget_prefix by (rewrite length_drop; lia).
Qed.

#[export] Instance OMClientRequest_wire_ok : WireOk OMClientRequest.
Proof. apply seq_wire_ok; [by intros []|done|done]. Qed.
#[export] Instance OMClientResponse_wire_ok : WireOk OMClientResponse.
Proof. apply seq_wire_ok; [by intros []|done|done]. Qed.
#[export] Instance MDPMarketUpdate_wire_ok : WireOk MDPMarketUpdate.
Proof. apply seq_wire_ok; [by intros []|done|done]. Qed.
