(* ===== verification/MessageText.v ===== *)
(** The text of the protocol messages: the [toString] of the wire structs,
    which print into a buffer on the stack with [snprintf].

    [printf] is the formatting of the standard library for the conversions in
    use, [%s] and [%zu], the arguments already in decimal; [snprintf] keeps
    what fits the buffer. *)

From Stdlib Require Import Ascii.
From S2P Require Import Prelude Types Wire.

Fixpoint printf (fmt : string) (args : list string) : string :=
  match fmt with
  | EmptyString => EmptyString
  | String c fmt1 =>
      if Ascii.eqb c "%" then
        match fmt1, args with
        | String d fmt2, a :: args =>
            if Ascii.eqb d "z" then
              match fmt2 with
              | String _ fmt3 => a +:+ printf fmt3 args
              | EmptyString => a
              end
            else a +:+ printf fmt2 args
        | _, _ => EmptyString
        end
      else String c (printf fmt1 args)
  end.

(** [snprintf(buf, size, ...)], read back up to the terminator. *)
Definition snprintf (size : nat) (fmt : string) (args : list string) : string :=
  String.substring 0 (size - 1) (printf fmt args).

Abbreviation Id64 := (StrongType_toString INVALID64).
Abbreviation Id32 := (StrongType_toString INVALID32).

Definition rq_fmt : string := "MEClientRequest [type:%s client:%s ticker:%s oid:%s side:%s qty:%s price:%s]".
Definition rq_args (r : MEClientRequest) : list string :=
  [clientRequestTypeToString (rq_type_ r); Id32 (rq_client_id_ r); Id32 (rq_ticker_id_ r); Id64 (rq_order_id_ r);
   sideToString (rq_side_ r); Id32 (rq_qty_ r); Id64 (rq_price_ r)].
Definition MEClientRequest_toString (r : MEClientRequest) : string := snprintf 256 rq_fmt (rq_args r).
Definition OMClientRequest_toString (m : OMClientRequest) : string :=
  snprintf 320 "OMClientRequest [seq:%zu %s]" [pretty (omrq_seq_num_ m); MEClientRequest_toString (me_client_request_ m)].

Definition rs_fmt : string :=
  "MEClientResponse [type:%s client:%s ticker:%s coid:%s moid:%s side:%s exec_qty:%s leaves_qty:%s price:%s]".
Definition rs_args (r : MEClientResponse) : list string :=
  [clientResponseTypeToString (rs_type_ r); Id32 (rs_client_id_ r); Id32 (rs_ticker_id_ r); Id64 (rs_client_order_id_ r);
   Id64 (rs_market_order_id_ r); sideToString (rs_side_ r); Id32 (rs_exec_qty_ r); Id32 (rs_leaves_qty_ r);
   Id64 (rs_price_ r)].
Definition MEClientResponse_toString (r : MEClientResponse) : string := snprintf 320 rs_fmt (rs_args r).
Definition OMClientResponse_toString (m : OMClientResponse) : string :=
  snprintf 384 "OMClientResponse [seq:%zu %s]" [pretty (omrs_seq_num_ m); MEClientResponse_toString (me_client_response_ m)].

Definition mu_fmt : string := "MEMarketUpdate [type:%s ticker:%s side:%s price:%s qty:%s oid:%s priority:%s]".
Definition mu_args (u : MEMarketUpdate) : list string :=
  [marketUpdateTypeToString (mu_type_ u); Id32 (mu_ticker_id_ u); sideToString (mu_side_ u); Id64 (mu_price_ u);
   Id32 (mu_qty_ u); Id64 (mu_order_id_ u); Id64 (mu_priority_ u)].
Definition MEMarketUpdate_toString (u : MEMarketUpdate) : string := snprintf 256 mu_fmt (mu_args u).
Definition MDPMarketUpdate_toString (m : MDPMarketUpdate) : string :=
  snprintf 320 "MDPMarketUpdate [seq:%zu %s]" [pretty (md_seq_num_ m); MEMarketUpdate_toString (me_market_update_ m)].

(** ** Lengths *)

Lemma string_length_app s t : String.length (s +:+ t) = (String.length s + String.length t)%nat.
Proof. induction s as [|c s IH]; [done|]. change (S (String.length (s +:+ t)) = S (String.length s + String.length t)). by rewrite IH. Qed.

Lemma substring_all s n : (String.length s ≤ n)%nat → String.substring 0 n s = s.
Proof. revert n. induction s as [|c s IH]; intros [|n] Hn; cbn in *; try done; [lia|]. by rewrite IH by lia. Qed.

(** Two characters at a time, as the conversions are read. *)
Lemma printf_length fmt args :
  (String.length (printf fmt args) ≤ String.length fmt + sum_list_with String.length args)%nat.
Proof.
  enough (∀ n fmt args, (String.length fmt ≤ n)%nat →
    (String.length (printf fmt args) ≤ String.length fmt + sum_list_with String.length args)%nat) as H by by eapply H.
  clear. induction n as [|n IH]; intros [|c fmt] args Hn; cbn [printf String.length] in *; try lia.
  destruct (Ascii.eqb c "%"); [|cbn [String.length]; specialize (IH fmt args); lia].
  destruct fmt as [|d fmt]; [cbn; lia|]. destruct args as [|a args]; [cbn; lia|]. cbn [String.length sum_list_with] in *.
  destruct (Ascii.eqb d "z"); [|rewrite string_length_app; specialize (IH fmt args); lia].
  destruct fmt as [|e fmt]; [lia|]. cbn [String.length] in *. rewrite string_length_app. specialize (IH fmt args). lia.
Qed.

Lemma snprintf_all size fmt args :
  (String.length fmt + sum_list_with String.length args < size)%nat → snprintf size fmt args = printf fmt args.
Proof. intros Hl. apply substring_all. pose proof (printf_length fmt args). lia. Qed.

Lemma pretty_N_go_length k : ∀ x s, (x < 10 ^ N.of_nat k)%N →
  (String.length (pretty_N_go x s) ≤ String.length s + k)%nat.
Proof.
  induction k as [|k IH]; intros x s Hx.
  - assert (x = 0%N) as -> by (cbn in Hx; lia). rewrite pretty_N_go_0. lia.
  - destruct (decide (0 < x)%N) as [Hp|]; [|assert (x = 0%N) as -> by lia; rewrite pretty_N_go_0; lia].
    rewrite pretty_N_go_step by done. rewrite Nat2N.inj_succ, N.pow_succ_r' in Hx.
    specialize (IH (x `div` 10)%N (String (pretty_N_char (x `mod` 10)) s)). cbn [String.length] in IH.
    enough (x `div` 10 < 10 ^ N.of_nat k)%N by (specialize (IH H); lia). apply N.Div0.div_lt_upper_bound. lia.
Qed.

Lemma pretty_Z_length k (z : Z) : (0 < k)%nat → 0 ≤ z < 10 ^ Z.of_nat k → (String.length (pretty z) ≤ k)%nat.
Proof.
  intros Hk Hz. destruct z as [|p|p]; [cbn; lia| |lia].
  change (pretty (Z.pos p)) with (pretty (N.pos p)). unfold pretty, pretty_N. rewrite decide_False by done.
  pose proof (pretty_N_go_length k (N.pos p) "") as Hl. cbn [String.length] in Hl. apply Hl.
  apply N2Z.inj_lt. rewrite N2Z.inj_pow, nat_N_Z. apply Hz.
Qed.

Lemma u64_text v : is_u64 v → (String.length (Id64 v) ≤ 20)%nat.
Proof. intros Hv. unfold StrongType_toString. destruct (_ =? _); [cbn; lia|]. apply pretty_Z_length; [lia|].
  assert (2 ^ 64 < 10 ^ Z.of_nat 20) by done. unfold is_u64 in Hv. lia. Qed.
Lemma u32_text v : is_u32 v → (String.length (Id32 v) ≤ 10)%nat.
Proof. intros Hv. unfold StrongType_toString. destruct (_ =? _); [cbn; lia|]. apply pretty_Z_length; [lia|].
  assert (2 ^ 32 < 10 ^ Z.of_nat 10) by done. unfold is_u32 in Hv. lia. Qed.
Lemma side_text s : (String.length (sideToString s) ≤ 7)%nat.
Proof. destruct s; cbn; lia. Qed.
Lemma rq_type_text t : (String.length (clientRequestTypeToString t) ≤ 8)%nat.
Proof. destruct t; cbn; lia. Qed.
Lemma rs_type_text t : (String.length (clientResponseTypeToString t) ≤ 15)%nat.
Proof. destruct t; cbn; lia. Qed.
Lemma mu_type_text t : (String.length (marketUpdateTypeToString t) ≤ 14)%nat.
Proof. destruct t; cbn; lia. Qed.

Lemma rq_length r : rq_valid r → (String.length rq_fmt + sum_list_with String.length (rq_args r) < 180)%nat.
Proof.
  intros Hv. cbn [rq_args sum_list_with]. change (String.length rq_fmt) with 76%nat.
  pose proof (rq_type_text (rq_type_ r)). pose proof (side_text (rq_side_ r)).
  pose proof (u32_text _ (rqv_client _ Hv)). pose proof (u32_text _ (rqv_ticker _ Hv)). pose proof (u64_text _ (rqv_order _ Hv)).
  pose proof (u32_text _ (rqv_qty _ Hv)). pose proof (u64_text _ (rqv_price _ Hv)). lia.
Qed.
Lemma rs_length r : rs_valid r → (String.length rs_fmt + sum_list_with String.length (rs_args r) < 240)%nat.
Proof.
  intros Hv. cbn [rs_args sum_list_with]. change (String.length rs_fmt) with 105%nat.
  pose proof (rs_type_text (rs_type_ r)). pose proof (side_text (rs_side_ r)).
  pose proof (u32_text _ (rsv_client _ Hv)). pose proof (u32_text _ (rsv_ticker _ Hv)). pose proof (u64_text _ (rsv_coid _ Hv)).
  pose proof (u64_text _ (rsv_moid _ Hv)). pose proof (u32_text _ (rsv_exec _ Hv)). pose proof (u32_text _ (rsv_leaves _ Hv)).
  pose proof (u64_text _ (rsv_price _ Hv)). lia.
Qed.
Lemma mu_length u : mu_valid u → (String.length mu_fmt + sum_list_with String.length (mu_args u) < 190)%nat.
Proof.
  intros Hv. cbn [mu_args sum_list_with]. change (String.length mu_fmt) with 77%nat.
  pose proof (mu_type_text (mu_type_ u)). pose proof (side_text (mu_side_ u)).
  pose proof (u32_text _ (muv_ticker _ Hv)). pose proof (u64_text _ (muv_price _ Hv)). pose proof (u32_text _ (muv_qty _ Hv)).
  pose proof (u64_text _ (muv_order _ Hv)). pose proof (u64_text _ (muv_priority _ Hv)). lia.
Qed.

(** A sequenced message: a short prefix, a number, and the text of the payload. *)
Lemma sequenced_text size fmt seq (t : string) bound :
  is_u64 seq → (String.length t < bound)%nat → (String.length fmt + 20 + bound ≤ size)%nat →
  snprintf size fmt [pretty seq; t] = printf fmt [pretty seq; t].
Proof.
  intros Hs Ht Hb. apply snprintf_all. cbn [sum_list_with].
  assert (String.length (pretty seq) ≤ 20)%nat; [|lia].
  apply pretty_Z_length; [lia|]. assert (2 ^ 64 < 10 ^ Z.of_nat 20) by done. unfold is_u64 in Hs. lia.
Qed.

Lemma text_length size fmt args : (String.length fmt + sum_list_with String.length args < size)%nat →
  (String.length (snprintf size fmt args) < size)%nat.
Proof. intros Hl. rewrite snprintf_all by done. pose proof (printf_length fmt args). lia. Qed.

(** C38: no message text is cut.  For every message with fields of their
    widths - whatever a peer can put on the wire - the buffers of [toString]
    hold the whole text, the sequenced wrappers included. *)
Theorem message_text_complete (q : OMClientRequest) (r : OMClientResponse) (u : MDPMarketUpdate) :
  wvalid q → wvalid r → wvalid u →
  OMClientRequest_toString q =
    printf "OMClientRequest [seq:%zu %s]" [pretty (omrq_seq_num_ q); printf rq_fmt (rq_args (me_client_request_ q))] ∧
  OMClientResponse_toString r =
    printf "OMClientResponse [seq:%zu %s]" [pretty (omrs_seq_num_ r); printf rs_fmt (rs_args (me_client_response_ r))] ∧
  MDPMarketUpdate_toString u =
    printf "MDPMarketUpdate [seq:%zu %s]" [pretty (md_seq_num_ u); printf mu_fmt (mu_args (me_market_update_ u))].
Proof.
  intros [Sq Hq%rq_length] [Sr Hr%rs_length] [Su Hu%mu_length].
  unfold OMClientRequest_toString, MEClientRequest_toString, OMClientResponse_toString, MEClientResponse_toString,
    MDPMarketUpdate_toString, MEMarketUpdate_toString.
  rewrite !(snprintf_all _ rq_fmt), !(snprintf_all _ rs_fmt), !(snprintf_all _ mu_fmt) by lia.
  pose proof (printf_length rq_fmt (rq_args (me_client_request_ q))). pose proof (printf_length rs_fmt (rs_args (me_client_response_ r))).
  pose proof (printf_length mu_fmt (mu_args (me_market_update_ u))).
  split_and!; [eapply (sequenced_text _ _ _ _ 180)|eapply (sequenced_text _ _ _ _ 240)|eapply (sequenced_text _ _ _ _ 190)];
    try done; try lia; cbn; lia.
Qed.
