(* ===== verification/Framing.v ===== *)
(** Splitting a byte stream into fixed-size messages.

    The receive callbacks of OrderServer, OrderGateway and MarketDataConsumer
    share one loop: while a whole message is buffered, reinterpret it and
    advance; then move the partial tail to the front.  [frames] and [partial]
    specify its result, [frames_app] shows that it does not depend on how the
    stream was cut into reads. *)

From S2P Require Import Prelude Types Wire.

Section frames.
Context {A : Type} {W : Wire A} {WOk : WireOk A}.
Implicit Types (bs : list byte) (a : A) (ms : list A).

Definition frame_count bs : nat := (length bs `div` wsize A)%nat.
Definition frames bs : list A := (λ i, wget (drop (i * wsize A) bs)) <$> seq 0 (frame_count bs).
Definition partial bs : list byte := drop (frame_count bs * wsize A) bs.

Lemma frame_count_short bs : (length bs < wsize A)%nat → frame_count bs = 0%nat.
Proof. intros Hl. by apply Nat.div_small. Qed.

Lemma frame_count_step bs :
  (wsize A ≤ length bs)%nat → frame_count bs = S (frame_count (drop (wsize A) bs)).
Proof using WOk.
  intros Hl. pose proof wire_size. unfold frame_count. rewrite length_drop.
  replace (length bs) with ((length bs - wsize A) + 1 * wsize A)%nat at 1 by lia.
  rewrite Nat.div_add by lia. lia.
Qed.

Lemma frames_short bs : (length bs < wsize A)%nat → frames bs = [] ∧ partial bs = bs.
Proof.
  intros Hl. unfold frames, partial. rewrite frame_count_short by done. by rewrite drop_0.
Qed.

Lemma frames_step bs :
  (wsize A ≤ length bs)%nat →
  frames bs = wget bs :: frames (drop (wsize A) bs) ∧ partial bs = partial (drop (wsize A) bs).
Proof using WOk.
  intros Hl. unfold frames, partial. rewrite (frame_count_step bs Hl). split.
  - cbn [seq fmap list_fmap Nat.mul]. rewrite drop_0. f_equal.
    rewrite <- (fmap_S_seq 0), <- list_fmap_compose. apply list_fmap_ext. intros i j _.
    cbn. by rewrite drop_drop.
  - by rewrite drop_drop.
Qed.

(** Induction on the frames of a buffer. *)
Lemma frame_ind (P : list byte → Prop) :
  (∀ bs, (length bs < wsize A)%nat → P bs) →
  (∀ bs, (wsize A ≤ length bs)%nat → P (drop (wsize A) bs) → P bs) →
  ∀ bs, P bs.
Proof using WOk.
  intros Hs Hl bs. remember (length bs) as n eqn:E. revert bs E.
  induction (lt_wf n) as [n _ IH]. intros bs ->. pose proof wire_size.
  destruct (decide (length bs < wsize A)%nat); [by apply Hs|].
  apply Hl; [lia|]. eapply IH; [|done]. rewrite length_drop. lia.
Qed.

Lemma partial_short bs : (length (partial bs) < wsize A)%nat.
Proof using WOk.
  induction bs as [bs Hl|bs Hl IH] using frame_ind.
  - by rewrite (proj2 (frames_short bs Hl)).
  - by rewrite (proj2 (frames_step bs Hl)).
Qed.

Lemma frames_app bs bs' :
  frames (bs ++ bs') = frames bs ++ frames (partial bs ++ bs') ∧
  partial (bs ++ bs') = partial (partial bs ++ bs').
Proof using WOk.
  induction bs as [bs Hl|bs Hl IH] using frame_ind.
  - by destruct (frames_short bs Hl) as [-> ->].
  - destruct (frames_step bs Hl) as [-> ->].
    destruct (frames_step (bs ++ bs')) as [-> ->]; [rewrite length_app; lia|].
    rewrite drop_app_le by done. destruct IH as [-> ->]. by rewrite wget_prefix.
Qed.

(** What was sent is what is parsed. *)
Lemma frames_puts ms bs :
  Forall wvalid ms → (length bs < wsize A)%nat →
  frames (mjoin (wput <$> ms) ++ bs) = ms ∧ partial (mjoin (wput <$> ms) ++ bs) = bs.
Proof using WOk.
  intros Hv Hs. induction Hv as [|a ms Ha _ IH]; [by apply frames_short|].
  change (mjoin (wput <$> a :: ms)) with (wput a ++ mjoin (wput <$> ms)). rewrite <- (assoc (++)).
  destruct (frames_step (wput a ++ (mjoin (wput <$> ms) ++ bs))) as [-> ->].
  { rewrite length_app, wput_length. lia. }
  rewrite wget_wput by done. rewrite drop_app_ge by (by rewrite wput_length).
  rewrite wput_length, Nat.sub_diag, drop_0. destruct IH as [-> ->]. done.
Qed.
End frames.
Arguments frames A {_} _.
Arguments partial A {_} _.

(** *** Streams *)

Definition bytes_of {A} `{Wire A} (ms : list A) : list byte := mjoin (wput <$> ms).
Lemma bytes_of_cons {A} `{Wire A} (m : A) ms : bytes_of (m :: ms) = wput m ++ bytes_of ms.
Proof. done. Qed.
Lemma bytes_of_app {A} `{Wire A} (ms ms' : list A) : bytes_of (ms ++ ms') = bytes_of ms ++ bytes_of ms'.
Proof. unfold bytes_of. by rewrite fmap_app, join_app. Qed.

Lemma frames_length {A} `{WireOk A} bs : length (frames A bs) = (length bs `div` wsize A)%nat.
Proof. unfold frames. by rewrite length_fmap, length_seq. Qed.

(** A prefix of a stream of messages carries a prefix of the messages. *)
Lemma frames_prefix {A} `{WireOk A} (ms : list A) bs rest :
  Forall wvalid ms → bs ++ rest = bytes_of ms → frames A bs = take (length bs `div` wsize A) ms.
Proof.
  intros Hv E. pose proof (wire_size (A := A)). destruct (frames_puts ms [] Hv) as [Hf _]; [cbn; lia|].
  rewrite app_nil_r in Hf. fold (bytes_of ms) in Hf. rewrite <- E in Hf. destruct (frames_app (A := A) bs rest) as [Ea _].
  rewrite Ea in Hf. rewrite <- Hf, <- frames_length. by rewrite take_app_length.
Qed.

