(* ===== verification/Sockets.v ===== *)
(** Common::TCPSocket and Common::TCPServer (include/tcp_socket.h,
    tcp_server.h, src/tcp_socket.cpp, tcp_server.cpp).

    The kernel is a parameter: what recvmsg, send, epoll_wait and accept
    return are arguments of the definitions.  A buffer is the list of
    its valid bytes, so [next_send_valid_index] and [next_rcv_valid_index] are
    lengths; pointers to sockets are keys of a heap, and touching a key the
    heap does not hold is undefined behaviour (use after free). *)

From S2P Require Import Prelude Types Wire.

Class NetConfig := {
  TCPBufferSize : Z;
  McastBufferSize : Z;
}.
Class NetConfigOk (C : NetConfig) : Prop := {
  tcp_buffer_pos : 0 < TCPBufferSize;
  mcast_buffer_pos : 0 < McastBufferSize;
}.
Definition net_default : NetConfig := {|
  TCPBufferSize := 64 * 1024 * 1024; McastBufferSize := 64 * 1024 * 1024 |}.
Definition net_small_footprint : NetConfig := {|
  TCPBufferSize := 4 * 1024 * 1024; McastBufferSize := 4 * 1024 * 1024 |}.

(** [recvmsg]/[recvfrom]: bytes with their kernel (or fallback) time, end of
    file, would-block, or another error. *)
Inductive RecvResult :=
  | RecvData (bytes : list byte) (time : Nanos)
  | RecvEof
  | RecvWouldBlock
  | RecvError.

(** [send]/[sendto]. *)
Inductive SendResult :=
  | Sent (n : nat)
  | SendWouldBlock
  | SendError.

Record TCPSocket := mkTCPSocket {
  fd : Z;
  send_buffer : list byte;
  rcv_buffer : list byte;
  send_disconnected : bool;
  rcv_disconnected : bool;
}.

Definition next_send_valid_index (s : TCPSocket) : Z := Z.of_nat (length (send_buffer s)).
Definition next_rcv_valid_index (s : TCPSocket) : Z := Z.of_nat (length (rcv_buffer s)).

Definition set_send_buffer v s : TCPSocket :=
  mkTCPSocket (fd s) v (rcv_buffer s) (send_disconnected s) (rcv_disconnected s).
Definition set_rcv_buffer v s : TCPSocket :=
  mkTCPSocket (fd s) (send_buffer s) v (send_disconnected s) (rcv_disconnected s).
Definition set_send_disconnected v s : TCPSocket :=
  mkTCPSocket (fd s) (send_buffer s) (rcv_buffer s) v (rcv_disconnected s).
Definition set_rcv_disconnected v s : TCPSocket :=
  mkTCPSocket (fd s) (send_buffer s) (rcv_buffer s) (send_disconnected s) v.

(** A freshly constructed socket on [fd]. *)
Definition TCPSocket_new (f : Z) : TCPSocket := mkTCPSocket f [] [] false false.

Section TCPSocket.
Context `{NetConfig}.

(** [TCPSocket::send]. *)
Definition tcp_send (data : list byte) : M TCPSocket unit :=
  if (0 <? Z.of_nat (length data)) then
    idx ← gets next_send_valid_index;
    ASSERT (idx + Z.of_nat (length data) <=? TCPBufferSize) "TCPSocket send buffer overflow";;
    modify (λ s, set_send_buffer (send_buffer s ++ data) s)
  else mret tt.

(** The drain loop: calls [k], [k+1], ... of [send], until the buffer is
    empty or the kernel takes no more; bytes sent and whether the connection
    failed.  [fuel]: every call that does not end the loop takes a byte. *)
Fixpoint drain (fuel : nat) (kernel : nat → SendResult) (k sent_total valid : nat) : res (nat * bool) :=
  if (valid <=? sent_total)%nat then Ok (sent_total, false)
  else match fuel with
       | O => Err Spin
       | S fuel =>
           match kernel k with
           | SendError => Ok (sent_total, true)
           | SendWouldBlock => Ok (sent_total, false)
           | Sent n => drain fuel kernel (S k) (sent_total + n) valid
           end
       end.

(** The part of [sendAndRecv] after the receive callback. *)
Definition flush (kernel : nat → SendResult) : M TCPSocket unit :=
  buf ← gets send_buffer;
  '(sent_total, failed) ← lift (drain (length buf) kernel 0 0 (length buf));
  (if (failed : bool) then modify (set_send_disconnected true) else mret tt);;
  disconnected ← gets send_disconnected;
  if (disconnected : bool) then modify (set_send_buffer [])
  else modify (set_send_buffer (drop sent_total buf)).

(** [TCPSocket::sendAndRecv] on the socket behind a pointer: [rd] and [on]
    access it in the state [St] of its owner, on which [rcv_callback] runs. *)
Definition tcp_sendAndRecv {St} (rd : M St TCPSocket) (on : M TCPSocket unit → M St unit)
  (rcv_callback : Nanos → M St unit) (r : RecvResult) (kernel : nat → SendResult) : M St bool :=
  s ← rd;
  let iov_len := TCPBufferSize - next_rcv_valid_index s in
  (match r with
   | RecvData bytes time =>
       on (modify (λ s, set_rcv_buffer (rcv_buffer s ++ bytes) s));; rcv_callback time
   | RecvEof => if 0 <? iov_len then on (modify (set_rcv_disconnected true)) else mret tt
   | RecvWouldBlock => mret tt
   | RecvError => on (modify (set_rcv_disconnected true))
   end);;
  on (flush kernel);;
  mret (match r with RecvData _ _ => true | _ => false end).
End TCPSocket.

(** What the kernel guarantees of a [send] of a non-empty buffer that succeeds:
    it takes at least one byte. *)
Definition kernel_ok (kernel : nat → SendResult) : Prop :=
  ∀ k n, kernel k = Sent n → (1 ≤ n)%nat.

Section flush_spec.
Context `{NetConfig}.

Lemma drain_spec kernel valid : kernel_ok kernel → ∀ fuel k sent,
  (valid - sent ≤ fuel)%nat → ∃ total failed, drain fuel kernel k sent valid = Ok (total, failed) ∧ (sent ≤ total)%nat.
Proof.
  intros Hk. induction fuel as [|fuel IH]; intros k sent Hf; cbn [drain];
    case Nat.leb_spec; intros Hle; try (by eexists _, _); [lia|].
  destruct (kernel k) as [n| |] eqn:E; try (by eexists _, _).
  specialize (Hk k n E). destruct (IH (S k) (sent + n)%nat) as (total & failed & Hd & Ht); [lia|].
  exists total, failed. split; [done|lia].
Qed.

(** Draining always ends, and what stays buffered is a suffix of what was
    there: nothing is lost unless the connection is. *)
Lemma flush_spec s kernel :
  kernel_ok kernel →
  ∃ s', flush kernel s = Ok (tt, s') ∧ rcv_buffer s' = rcv_buffer s ∧
    (send_disconnected s' = true ∧ send_buffer s' = [] ∨
     send_disconnected s' = false ∧ ∃ n, send_buffer s' = drop n (send_buffer s)).
Proof.
  intros Hk. destruct (drain_spec kernel (length (send_buffer s)) Hk (length (send_buffer s)) 0 0) as (total & failed & Hd & _); [lia|].
  unfold flush. rewrite bind_gets. erewrite bind_Ok; [|unfold lift; rewrite Hd; reflexivity].
  cbv beta iota. destruct failed.
  - rewrite bind_modify, bind_gets. eexists. split; [reflexivity|]. split; [done|]. by left.
  - rewrite bind_ret, bind_gets. destruct (send_disconnected s) eqn:E; (eexists; split; [reflexivity|]);
      (split; [done|]); [by left|]. right. split; [done|]. by eexists.
Qed.
End flush_spec.

(** ** TCPServer *)

(** The listener is a member, not a heap object. *)
Definition listener_socket : Z := 0.

Record TCPServer := mkTCPServer {
  heap : gmap Z TCPSocket;
  sockets : list Z;
  rcv_sockets : list Z;
  send_sockets : list Z;
  disconnected_sockets : list Z;
}.

Record Event := mkEvent {
  ev_socket : Z;
  ev_in : bool;      (** EPOLLIN *)
  ev_out : bool;     (** EPOLLOUT *)
  ev_err : bool;     (** EPOLLERR or EPOLLHUP *)
}.

(** A connection that [accept] returns: its descriptor, the address [new] gives
    its socket, and whether the socket options and [epoll_add] succeed. *)
Record Accepted := mkAccepted {
  ac_fd : Z;
  ac_ptr : Z;
  ac_options : bool;
  ac_added : bool;
}.

(** The server inside its owner's state [A]. *)
Record Server (A : Type) := mkServer { srv_tcp : TCPServer; srv_app : A }.
Arguments mkServer {A} _ _.
Arguments srv_tcp {A} _.
Arguments srv_app {A} _.

(** [if (std::find(...) == end()) push_back]. *)
Definition push_new (p : Z) (l : list Z) : list Z := if bool_decide (p ∈ l) then l else l ++ [p].
(** [erase(std::remove(...))]. *)
Definition erase_ptr (p : Z) (l : list Z) : list Z := filter (λ q, q ≠ p) l.

Section TCPServer.
Context `{NetConfig} {A : Type}.
Context (rcv_callback : Z → Nanos → M (Server A) unit).
Context (rcv_finished_callback : M (Server A) unit).
Context (disconnect_callback : Z → M (Server A) unit).
Local Abbreviation MS := (M (Server A)).

Definition on_tcp (f : TCPServer → TCPServer) : MS unit :=
  modify (λ s, mkServer (f (srv_tcp s)) (srv_app s)).
Definition set_heap v t : TCPServer :=
  mkTCPServer v (sockets t) (rcv_sockets t) (send_sockets t) (disconnected_sockets t).
Definition set_disconnected v t : TCPServer :=
  mkTCPServer (heap t) (sockets t) (rcv_sockets t) (send_sockets t) v.

(** [*socket]. *)
Definition sock_get (p : Z) : MS TCPSocket :=
  s ← gets (λ s, heap (srv_tcp s) !! p);
  match s with Some s => mret s | None => fail (UB "dangling socket") end.
Definition sock_run (p : Z) (m : M TCPSocket unit) : MS unit :=
  s ← sock_get p;
  '(_, s) ← lift (m s);
  on_tcp (λ t, set_heap (<[ p := s ]> (heap t)) t).

(** [TCPServer::del]. *)
Definition del (socket : Z) (t : TCPServer) : TCPServer :=
  mkTCPServer (heap t) (erase_ptr socket (sockets t)) (erase_ptr socket (rcv_sockets t))
    (erase_ptr socket (send_sockets t)) (disconnected_sockets t).

(** One disconnected socket: notify the owner, then [delete]. *)
Definition reap (socket : Z) : MS unit :=
  if socket =? listener_socket then mret tt
  else
    on_tcp (del socket);;
    disconnect_callback socket;;
    live ← gets (λ s, heap (srv_tcp s) !! socket);
    match live with
    | None => fail (UB "double free")
    | Some _ => on_tcp (λ t, set_heap (delete socket (heap t)) t)
    end.

(** One event of [epoll_wait]; the listener's sets [have_new_connection]. *)
Definition classify (e : Event) (t : TCPServer) : TCPServer :=
  if ev_in e && (ev_socket e =? listener_socket) then t
  else mkTCPServer (heap t) (sockets t)
         (if ev_in e then push_new (ev_socket e) (rcv_sockets t) else rcv_sockets t)
         (if ev_out e then push_new (ev_socket e) (send_sockets t) else send_sockets t)
         (if ev_err e then push_new (ev_socket e) (disconnected_sockets t) else disconnected_sockets t).

Definition is_new_connection (e : Event) : bool := ev_in e && (ev_socket e =? listener_socket).

(** The socket object of an accepted connection, in the containers. *)
Definition accept_socket (c : Accepted) (t : TCPServer) : TCPServer :=
  mkTCPServer (<[ ac_ptr c := TCPSocket_new (ac_fd c) ]> (heap t)) (push_new (ac_ptr c) (sockets t))
    (push_new (ac_ptr c) (rcv_sockets t)) (send_sockets t) (disconnected_sockets t).

(** One turn of the accept loop. *)
Definition accept_one (c : Accepted) : MS unit :=
  ASSERT (ac_options c) "Failed to set non-blocking or no-delay on socket";;
  ASSERT (ac_added c) "Failed to add new socket to epoll";;
  on_tcp (accept_socket c).

(** [TCPServer::poll]: [events] is what epoll_wait reports, [accepted] the
    connections accept returns before it would block. *)
Definition poll (events : list Event) (accepted : list Accepted) : MS unit :=
  dead ← gets (λ s, disconnected_sockets (srv_tcp s));
  for_each reap dead;;
  on_tcp (set_disconnected []);;
  on_tcp (λ t, foldl (λ t e, classify e t) t events);;
  if existsb is_new_connection events
  then for_each accept_one accepted
  else mret tt.

(** The receive loop over [rcv_sockets]; [net p] is what the kernel answers
    on socket [p].  True when some socket had data. *)
Fixpoint recv_all (net : Z → RecvResult * (nat → SendResult)) (ps : list Z) : MS bool :=
  match ps with
  | [] => mret false
  | p :: ps =>
      r ← tcp_sendAndRecv (sock_get p) (sock_run p) (rcv_callback p) (net p).1 (net p).2;
      s ← sock_get p;
      (if rcv_disconnected s || send_disconnected s
       then on_tcp (λ t, set_disconnected (push_new p (disconnected_sockets t)) t)
       else mret tt);;
      r' ← recv_all net ps;
      mret (r || r')
  end.

(** [TCPServer::sendAndRecv]; [net] and [net'] answer the two loops. *)
Definition sendAndRecv (net net' : Z → RecvResult * (nat → SendResult)) : MS unit :=
  ps ← gets (λ s, rcv_sockets (srv_tcp s));
  recv ← recv_all net ps;
  (if (recv : bool) then rcv_finished_callback else mret tt);;
  ps' ← gets (λ s, send_sockets (srv_tcp s));
  for_each (λ p, tcp_sendAndRecv (sock_get p) (sock_run p) (rcv_callback p) (net' p).1 (net' p).2;;
                 mret tt) ps'.
End TCPServer.
