(* ===== verification/SocketStream.v ===== *)
(** The outgoing byte stream of a [TCPSocket]: whatever partial sends and
    full kernel buffers do, the bytes the kernel has taken followed by the
    bytes still buffered are the bytes the program asked to send, in order. *)

From S2P Require Import Prelude Types Wire Sockets.

(** One use of the socket by its owner: [send], or the send half of
    [sendAndRecv] with the kernel's answers. *)
Inductive sock_op :=
  | OpSend (data : list byte)
  | OpFlush (kernel : nat → SendResult).

Section stream.
Context `{NetConfig}.
Implicit Types (s : TCPSocket) (kernel : nat → SendResult).

Definition sock_do (op : sock_op) : M TCPSocket unit :=
  match op with OpSend data => tcp_send data | OpFlush kernel => flush kernel end.

Definition op_ok (op : sock_op) : Prop :=
  match op with OpSend _ => True | OpFlush kernel => kernel_ok kernel end.

(** What the kernel takes of [buf] when offered it, then what is left of it,
    and so on from its [k]th answer, until it refuses. *)
Fixpoint kernel_takes (fuel : nat) kernel (k : nat) (buf : list byte) : list byte :=
  match fuel, buf, kernel k with
  | S fuel, _ :: _, Sent n => take n buf ++ kernel_takes fuel kernel (S k) (drop n buf)
  | _, _, _ => []
  end.
Definition taken kernel (buf : list byte) : list byte := kernel_takes (length buf) kernel 0 buf.

(** The bytes on the wire after [ops], starting with [buf] buffered. *)
Fixpoint wire_of (ops : list sock_op) (buf : list byte) : list byte :=
  match ops with
  | [] => []
  | OpSend data :: ops => wire_of ops (buf ++ data)
  | OpFlush kernel :: ops => taken kernel buf ++ wire_of ops (drop (length (taken kernel buf)) buf)
  end.

Definition data_of (op : sock_op) : list byte := match op with OpSend data => data | _ => [] end.

Lemma kernel_takes_nil fuel kernel k : kernel_takes fuel kernel k [] = [].
Proof. by destruct fuel. Qed.

(** The drain loop counts the bytes taken. *)
Lemma drain_takes kernel buf : kernel_ok kernel → ∀ fuel k sent,
  (length buf - sent ≤ fuel)%nat →
  ∃ total failed, drain fuel kernel k sent (length buf) = Ok (total, failed) ∧
    drop total buf = drop (length (kernel_takes fuel kernel k (drop sent buf))) (drop sent buf).
Proof.
  intros Hk. induction fuel as [|fuel IH]; intros k sent Hf; cbn [drain];
    case Nat.leb_spec; intros Hle; try lia;
    [exists sent, false; by rewrite (drop_ge buf sent) by lia..|].
  cbn [kernel_takes]. destruct (drop sent buf) as [|x rest] eqn:Ed.
  { apply (f_equal length) in Ed. rewrite length_drop in Ed. cbn in Ed. lia. }
  rewrite <- Ed. destruct (kernel k) as [n| |] eqn:E; [|exists sent, false; by rewrite Ed|exists sent, true; by rewrite Ed].
  specialize (Hk k n E). destruct (IH (S k) (sent + n)%nat) as (total & failed & Hd & Ht); [lia|].
  exists total, failed. split; [done|]. rewrite Ht, <- drop_drop. rewrite length_app, length_take.
  destruct (decide (n ≤ length (drop sent buf))%nat).
  - rewrite (Nat.min_l n) by lia. by rewrite drop_drop.
  - rewrite (Nat.min_r n) by lia. rewrite (drop_ge (drop sent buf) n) by lia.
    rewrite kernel_takes_nil. cbn. by rewrite Nat.add_0_r, drop_all.
Qed.

Lemma kernel_takes_prefix kernel : ∀ fuel k buf, kernel_takes fuel kernel k buf `prefix_of` buf.
Proof.
  induction fuel as [|fuel IH]; intros k buf; [apply prefix_nil|].
  destruct buf as [|x buf]; [done|]. cbn [kernel_takes].
  destruct (kernel k) as [n| |]; [|apply prefix_nil..].
  destruct (IH (S k) (drop n (x :: buf))) as [t E]. exists t. rewrite <- app_assoc, <- E. by rewrite take_drop.
Qed.

Lemma prefix_split {A} (l k : list A) : l `prefix_of` k → l ++ drop (length l) k = k.
Proof. intros [r ->]. by rewrite drop_app_length. Qed.

Lemma taken_split kernel buf : taken kernel buf ++ drop (length (taken kernel buf)) buf = buf.
Proof. apply prefix_split, kernel_takes_prefix. Qed.

Lemma flush_takes s kernel :
  kernel_ok kernel →
  ∃ s', flush kernel s = Ok (tt, s') ∧
    (send_disconnected s' = false → send_disconnected s = false ∧
       send_buffer s' = drop (length (taken kernel (send_buffer s))) (send_buffer s)).
Proof.
  intros Hk. destruct (drain_takes kernel (send_buffer s) Hk (length (send_buffer s)) 0 0)
    as (total & failed & Hd & Ht); [lia|].
  unfold flush. rewrite bind_gets. erewrite bind_Ok; [|unfold lift; rewrite Hd; reflexivity].
  cbv beta iota. destruct failed.
  - rewrite bind_modify, bind_gets. eexists. by split.
  - rewrite bind_ret, bind_gets. destruct (send_disconnected s) eqn:E; (eexists; split; [reflexivity|]).
    + cbn. by rewrite E.
    + intros _. split; [done|]. exact Ht.
Qed.

Lemma tcp_send_appends data s s' :
  tcp_send data s = Ok (tt, s') →
  send_buffer s' = send_buffer s ++ data ∧ send_disconnected s' = send_disconnected s.
Proof.
  unfold tcp_send. destruct data as [|x data]; [intros [= <-]; by rewrite app_nil_r|].
  unfold ASSERT. intros Hrun. cbn in Hrun. unfold mbind, M_bind, gets, mret, M_ret, modify, fail in Hrun.
  by repeat case_match; simplify_eq.
Qed.

Lemma stream_from ops : ∀ s s',
  Forall op_ok ops → for_each sock_do ops s = Ok (tt, s') → send_disconnected s' = false →
  wire_of ops (send_buffer s) ++ send_buffer s' = send_buffer s ++ (ops ≫= data_of) ∧
  send_disconnected s = false.
Proof.
  induction ops as [|op ops IH]; intros s s' Hf Hrun Hlive.
  - injection Hrun as <-. cbn. by rewrite app_nil_r.
  - apply Forall_cons in Hf as [Hop Hf]. cbn [for_each] in Hrun. apply bind_Ok_inv in Hrun as ([] & s1 & H1 & Hrun).
    destruct (IH s1 s' Hf Hrun Hlive) as [E Hl1]. destruct op as [data|kernel]; cbn [sock_do op_ok] in H1, Hop.
    + apply tcp_send_appends in H1 as [Eb Ed]. rewrite Eb in E. rewrite Ed in Hl1. split; [|done].
      cbn [wire_of]. rewrite E. rewrite bind_cons. cbn [data_of]. by rewrite app_assoc.
    + destruct (flush_takes s kernel Hop) as (s2 & H2 & Hb). rewrite H1 in H2. injection H2 as <-.
      destruct (Hb Hl1) as [Hl Eb]. split; [|done]. rewrite Eb in E. cbn [wire_of].
      rewrite <- app_assoc, E, app_assoc, taken_split. by rewrite bind_cons.
Qed.

(** C16: stream integrity.  Over any sequence of sends and flushes on a socket,
    with any partial sends and full buffers on the kernel's side, as long as
    the connection lives, what the kernel has taken followed by what is
    still buffered is exactly what was sent, in order, nothing lost, nothing
    duplicated. *)
Theorem tcp_stream_integrity fd ops s :
  Forall op_ok ops → for_each sock_do ops (TCPSocket_new fd) = Ok (tt, s) →
  send_disconnected s = false →
  wire_of ops [] ++ send_buffer s = ops ≫= data_of.
Proof. intros Hf Hrun Hl. exact (proj1 (stream_from ops _ _ Hf Hrun Hl)). Qed.
End stream.
