(* ===== verification/SocketsSafe.v ===== *)
(** Lifetimes of sockets: TCPServer never touches a freed socket.

    [Owner] is the interface between the server and the component that wires
    its callbacks: they run without fault, leave the server's containers alone
    and, when told that a socket is about to be destroyed, drop every pointer
    to it.  Against that interface [poll_safe] and [sendAndRecv_safe] show that
    every pointer the server or its owner holds is live, through disconnects
    and reconnects that reuse addresses. *)

From S2P Require Import Prelude Types Wire Sockets.

Section owner.
Context {A : Type}.
Implicit Types (s : Server A) (t : TCPServer).

Definition live s : gset Z := dom (heap (srv_tcp s)).

(** Same sockets, same containers; only contents of buffers may differ. *)
Definition same_net s s' : Prop :=
  live s' = live s ∧ sockets (srv_tcp s') = sockets (srv_tcp s) ∧
  rcv_sockets (srv_tcp s') = rcv_sockets (srv_tcp s) ∧
  send_sockets (srv_tcp s') = send_sockets (srv_tcp s) ∧
  disconnected_sockets (srv_tcp s') = disconnected_sockets (srv_tcp s).

Class Owner (rcv : Z → Nanos → M (Server A) unit) (fin : M (Server A) unit)
    (disc : Z → M (Server A) unit) (app_ok : A → gset Z → Prop) : Prop := {
  app_mono : ∀ a D D', app_ok a D → D ⊆ D' → app_ok a D';
  rcv_safe : ∀ p time s, p ∈ live s → app_ok (srv_app s) (live s) →
    wp (rcv p time) (λ _ s', same_net s s' ∧ app_ok (srv_app s') (live s')) s;
  fin_safe : ∀ s, app_ok (srv_app s) (live s) →
    wp fin (λ _ s', same_net s s' ∧ app_ok (srv_app s') (live s')) s;
  disc_safe : ∀ p s, app_ok (srv_app s) (live s) →
    wp (disc p) (λ _ s', srv_tcp s' = srv_tcp s ∧ app_ok (srv_app s') (live s ∖ {[p]})) s;
}.

(** Every pointer held is live. *)
Record tcp_ok t : Prop := {
  to_listener : listener_socket ∉ dom (heap t);
  to_sockets : ∀ p, p ∈ sockets t → p ∈ dom (heap t);
  to_rcv : ∀ p, p ∈ rcv_sockets t → p ∈ dom (heap t);
  to_send : ∀ p, p ∈ send_sockets t → p ∈ dom (heap t);
  to_dead : ∀ p, p ∈ disconnected_sockets t → p = listener_socket ∨ p ∈ dom (heap t);
  to_dead_once : NoDup (disconnected_sockets t);
}.

(** What epoll_wait reports: registered sockets only, and writability only
    of connections. *)
Definition event_ok t (e : Event) : Prop :=
  (ev_socket e ∈ dom (heap t) ∧ ev_socket e ∉ disconnected_sockets t) ∨
  (ev_socket e = listener_socket ∧ ev_out e = false).

(** What [new] returns: an address not in use, possibly one just freed. *)
Definition address_ok t (c : Accepted) : Prop :=
  ac_ptr c ≠ listener_socket ∧ (ac_ptr c ∈ dom (heap t) → ac_ptr c ∈ disconnected_sockets t).
End owner.

Lemma push_new_elem p q l : q ∈ push_new p l ↔ q = p ∨ q ∈ l.
Proof.
  unfold push_new. case_bool_decide; [naive_solver|]. rewrite elem_of_app, list_elem_of_singleton. tauto.
Qed.
Lemma push_new_NoDup p l : NoDup l → NoDup (push_new p l).
Proof.
  intros Hn. unfold push_new. case_bool_decide; [done|]. apply NoDup_app. split_and!; [done|set_solver|apply NoDup_singleton].
Qed.
Lemma erase_ptr_elem p q l : q ∈ erase_ptr p l ↔ q ≠ p ∧ q ∈ l.
Proof. unfold erase_ptr. by rewrite list_elem_of_filter. Qed.
#[export] Hint Rewrite push_new_elem erase_ptr_elem : sockets.

Lemma minus_live (p q : Z) (D : gset Z) : q ∈ D → q ≠ p → q ∈ D ∖ {[ p ]}.
Proof. rewrite elem_of_difference, elem_of_singleton. done. Qed.
Lemma erase_live (p : Z) (l : list Z) (D : gset Z) :
  (∀ q, q ∈ l → q ∈ D) → ∀ q, q ∈ erase_ptr p l → q ∈ D ∖ {[ p ]}.
Proof. intros Hl q. rewrite erase_ptr_elem. intros [Hne Hq]. apply minus_live; [by apply Hl|done]. Qed.

Lemma wp_on_tcp {A} (f : TCPServer → TCPServer) (Q : unit → Server A → Prop) s :
  Q tt (mkServer (f (srv_tcp s)) (srv_app s)) → wp (on_tcp f) Q s.
Proof. done. Qed.
Ltac nsteps := repeat (first [wstep | apply wp_on_tcp]; cbv beta).

Section network.
Context `{NetConfig} {A : Type} (app_ok : A → gset Z → Prop).
Implicit Types (s : Server A) (t : TCPServer).

(** The invariant of a server and its owner. *)
Definition server_ok s : Prop := tcp_ok (srv_tcp s) ∧ app_ok (srv_app s) (live s).

Lemma same_net_trans s s1 s2 : same_net s s1 → same_net s1 s2 → same_net s s2.
Proof. intros (?&?&?&?&?) (?&?&?&?&?). split_and!; congruence. Qed.

Lemma same_net_ok s s' : server_ok s → same_net s s' → app_ok (srv_app s') (live s') → server_ok s'.
Proof.
  intros [[Hl Hso Hrc Hse Hde Hnd] _] (El & Eso & Erc & Ese & Ede) Ha. split; [|done]. unfold live in El.
  split; rewrite ?El, ?Eso, ?Erc, ?Ese, ?Ede; done.
Qed.

Lemma wp_sock_get p (Q : TCPSocket → Server A → Prop) s :
  p ∈ live s → (∀ x, heap (srv_tcp s) !! p = Some x → Q x s) → wp (sock_get p) Q s.
Proof.
  intros Hp HQ. unfold live in Hp; apply elem_of_dom in Hp as [x Hx]. unfold sock_get. nsteps. rewrite Hx. nsteps. by apply HQ.
Qed.

(** Running a socket operation that never goes wrong keeps the network as it is. *)
Lemma wp_sock_run p (m : M TCPSocket unit) s :
  p ∈ live s → (∀ x, wp m (λ _ _, True) x) →
  wp (sock_run p m) (λ _ s', same_net s s' ∧ srv_app s' = srv_app s) s.
Proof.
  intros Hp Hm. unfold sock_run. apply wp_bind, wp_sock_get; [done|]. intros x Hx.
  apply wp_bind, wp_lift. specialize (Hm x). unfold wp in Hm. destruct (m x) as [[[] x']|[]]; try done.
  nsteps. split; [|done]. split_and!; try done. unfold live. cbn. rewrite dom_insert_L.
  apply (subseteq_union_1_L), singleton_subseteq_l, Hp.
Qed.

Lemma wp_flush kernel (x : TCPSocket) : kernel_ok kernel → wp (flush kernel) (λ _ _, True) x.
Proof. intros Hk. destruct (flush_spec x kernel Hk) as (x' & Hx & _). by eapply wp_Ok. Qed.

Definition net_ok (net : Z → RecvResult * (nat → SendResult)) : Prop := ∀ p, kernel_ok (net p).2.
End network.

Section safe.
Context `{NetConfig} {A : Type}.
Context (rcv : Z → Nanos → M (Server A) unit) (fin : M (Server A) unit)
  (disc : Z → M (Server A) unit) (app_ok : A → gset Z → Prop).
Context `{!Owner rcv fin disc app_ok}.
Implicit Types (s : Server A) (t : TCPServer) (e : Event).
Local Set Default Proof Using "All".
Local Abbreviation server_ok := (server_ok app_ok).

(** *** poll *)

(** While reaping [dead]: nothing but the reap list still names them. *)
Lemma reap_safe p dead s :
  tcp_ok (set_disconnected (p :: dead) (srv_tcp s)) → app_ok (srv_app s) (live s) →
  wp (reap disc p) (λ _ s',
    tcp_ok (set_disconnected dead (srv_tcp s')) ∧ app_ok (srv_app s') (live s') ∧
    live s' = live s ∖ {[p]} ∧ disconnected_sockets (srv_tcp s') = disconnected_sockets (srv_tcp s)) s.
Proof.
  intros [Hl Hso Hrc Hse Hde Hnd] Ha. cbn in *. apply NoDup_cons in Hnd as [Hp Hnd]. unfold reap.
  case Z.eqb_spec; intros E.
  - subst p. apply wp_ret. split_and!; [|done| |done].
    + split; cbn; try done. intros q Hq. apply Hde. by right.
    + unfold live. set_solver.
  - nsteps. cbn.
    eapply wp_mono.
    { apply (disc_safe (Owner := Owner0)). cbn. exact Ha. }
    cbn. intros _ s' [Ht Hok]. nsteps. rewrite Ht. cbn.
    destruct (Hde p ltac:(left)) as [Hz|[x Hx]%elem_of_dom]; [by destruct (E Hz)|]. rewrite Hx. nsteps. rewrite Ht. cbn.
    unfold live in *. cbn in *. split_and!.
    + split; cbn; rewrite ?dom_delete_L; try (by apply erase_live); [| |done].
      * intros Hin. apply Hl. by apply elem_of_difference in Hin as [? _].
      * intros q Hq. destruct (Hde q) as [->|Hq']; [by right|by left|]. right. apply minus_live; [done|].
        by intros ->.
    + by rewrite dom_delete_L.
    + by rewrite dom_delete_L.
    + done.
Qed.

(** Reaping a list that the invariant covers leaves none of it behind. *)
Lemma reap_all_safe dead s :
  tcp_ok (set_disconnected dead (srv_tcp s)) → app_ok (srv_app s) (live s) →
  wp (for_each (reap disc) dead) (λ _ s',
    tcp_ok (set_disconnected [] (srv_tcp s')) ∧ app_ok (srv_app s') (live s') ∧
    live s' ⊆ live s ∧ (∀ p, p ∈ dead → p ∉ live s') ∧ (∀ p, p ∈ live s → p ∉ dead → p ∈ live s')) s.
Proof.
  revert s. induction dead as [|p dead IH]; intros s Ht Ha.
  - apply wp_ret. split_and!; try done. intros p Hp. by apply not_elem_of_nil in Hp.
  - cbn [for_each]. apply wp_bind. eapply wp_mono; [by apply reap_safe|].
    cbn. intros [] s1 (Ht1 & Ha1 & Hl & _). eapply wp_mono; [by apply IH|].
    cbn. intros [] s2 (Ht2 & Ha2 & Hl2 & Hd2 & Hk2). rewrite Hl in Hl2, Hk2. split_and!; try done.
    + set_solver.
    + intros q [->|Hq]%elem_of_cons; [|by apply Hd2]. intros Hq. apply Hl2 in Hq.
      apply elem_of_difference in Hq as [_ Hq]. by apply Hq, elem_of_singleton.
    + intros q Hq. rewrite not_elem_of_cons. intros [Hne Hnd]. apply Hk2; [|done]. by apply minus_live.
Qed.

Lemma push_live p l (D : gset Z) : p ∈ D → (∀ q, q ∈ l → q ∈ D) → ∀ q, q ∈ push_new p l → q ∈ D.
Proof. intros Hp Hl q. rewrite push_new_elem. intros [->|Hq]; [done|by apply Hl]. Qed.

Lemma classify_ok e t :
  tcp_ok t → (ev_socket e ∈ dom (heap t) ∨ (ev_socket e = listener_socket ∧ ev_out e = false)) →
  tcp_ok (classify e t) ∧ heap (classify e t) = heap t.
Proof.
  intros [Hl Hso Hrc Hse Hde Hnd] He. unfold classify.
  destruct (ev_in e && (ev_socket e =? listener_socket)) eqn:Ein; [by split|]. split; [|done].
  split; cbn; try done.
  - destruct (ev_in e) eqn:Ei; [|done]. apply push_live; [|done].
    destruct He as [He|[He _]]; [done|]. by rewrite He in Ein.
  - destruct (ev_out e); [|done]. apply push_live; [|done]. by destruct He as [He|[_ ?]].
  - destruct (ev_err e); [|done]. intros q. rewrite push_new_elem.
    intros [->|Hq]; [destruct He as [He|[-> _]]; [by right|by left]|by apply Hde].
  - destruct (ev_err e); [|done]. by apply push_new_NoDup.
Qed.

Lemma classify_all_ok es : ∀ t,
  tcp_ok t → Forall (λ e, ev_socket e ∈ dom (heap t) ∨ (ev_socket e = listener_socket ∧ ev_out e = false)) es →
  tcp_ok (foldl (λ t e, classify e t) t es) ∧ heap (foldl (λ t e, classify e t) t es) = heap t.
Proof.
  induction es as [|e es IH]; intros t Ht Hf; [done|]. apply Forall_cons in Hf as [He Hf].
  destruct (classify_ok e t Ht He) as [Ht' Hh]. cbn.
  destruct (IH (classify e t)) as [H1 H2]; [done|by rewrite Hh|]. split; [done|]. by rewrite H2.
Qed.

Lemma accept_socket_ok c t :
  tcp_ok t → ac_ptr c ≠ listener_socket → ac_ptr c ∉ dom (heap t) →
  tcp_ok (accept_socket c t) ∧ dom (heap (accept_socket c t)) = dom (heap t) ∪ {[ ac_ptr c ]}.
Proof.
  intros [Hl Hso Hrc Hse Hde Hnd] Hne Hfr. destruct c as [f p a e]. cbn in *.
  rewrite dom_insert_L, (comm_L (∪)). split; [|done]. split; cbn; rewrite ?dom_insert_L; try done.
  - rewrite elem_of_union, elem_of_singleton. intros [E|?]; [by apply Hne|done].
  - apply push_live; [set_solver|]. intros q Hq. apply elem_of_union. right. by apply Hso.
  - apply push_live; [set_solver|]. intros q Hq. apply elem_of_union. right. by apply Hrc.
  - intros q Hq. apply elem_of_union. right. by apply Hse.
  - intros q Hq. destruct (Hde q Hq); [by left|right]. apply elem_of_union. by right.
Qed.

Lemma accept_all_safe cs : ∀ s,
  tcp_ok (srv_tcp s) → NoDup (ac_ptr <$> cs) →
  (∀ c, c ∈ cs → ac_ptr c ≠ listener_socket ∧ ac_ptr c ∉ dom (heap (srv_tcp s))) →
  wp (for_each accept_one cs) (λ _ s',
    tcp_ok (srv_tcp s') ∧ dom (heap (srv_tcp s)) ⊆ dom (heap (srv_tcp s')) ∧ srv_app s' = srv_app s) s.
Proof.
  induction cs as [|c cs IH]; intros s Ht Hnd Hc; [done|]. rewrite fmap_cons in Hnd.
  apply NoDup_cons in Hnd as [Hni Hnd]. destruct (Hc c) as [Hne Hfr]; [left|].
  destruct (accept_socket_ok c (srv_tcp s) Ht Hne Hfr) as [Ht' Hd]. cbn [for_each]. unfold accept_one.
  apply wp_bind, wp_bind, wp_assert. intros _. apply wp_bind, wp_assert. intros _. apply wp_modify.
  eapply wp_mono; [apply IH; [done|done|]|].
  - intros c' Hc'. destruct (Hc c') as [? ?]; [by right|]. split; [done|]. cbn [srv_tcp]. rewrite Hd.
    rewrite elem_of_union, elem_of_singleton. intros [?|E]; [done|]. apply Hni. rewrite <- E.
    by apply list_elem_of_fmap_2.
  - cbn [srv_tcp srv_app]. intros _ s' (H1 & H2 & H3). rewrite Hd in H2. split; [done|]. split; [set_solver|done].
Qed.

Lemma poll_safe events accepted s :
  server_ok s → Forall (event_ok (srv_tcp s)) events → Forall (address_ok (srv_tcp s)) accepted →
  NoDup (ac_ptr <$> accepted) →
  wp (poll disc events accepted) (λ _ s', server_ok s') s.
Proof.
  intros [Ht Ha] He Hc Hnd. unfold poll. apply wp_bind, wp_gets. apply wp_bind.
  eapply wp_mono. { apply reap_all_safe; [|exact Ha]. by destruct (srv_tcp s). }
  cbn. intros [] s1 (Ht1 & Ha1 & Hl1 & Hd1 & Hk1). nsteps. cbn.
  destruct (classify_all_ok events (set_disconnected [] (srv_tcp s1)) Ht1) as [Ht2 Hh2].
  { eapply Forall_impl; [exact He|]. intros e [[Hin Hnot]|?]; [left|by right]. cbn. by apply Hk1. }
  set (t2 := foldl _ _ events) in *. cbn in Hh2. destruct (existsb _ _); nsteps.
  - eapply wp_mono; [apply accept_all_safe; [exact Ht2|exact Hnd|]|].
    { intros c Hin. rewrite Forall_forall in Hc. destruct (Hc c Hin) as [Hne Hfree]. split; [done|].
      cbn [srv_tcp]. rewrite Hh2. intros Hl. apply (Hd1 (ac_ptr c)); [|exact Hl]. apply Hfree, Hl1, Hl. }
    cbn [srv_tcp srv_app]. intros _ s3 (Ht3 & Hh3 & Ea). split; [done|]. rewrite Ea.
    eapply app_mono; [exact Ha1|]. unfold live. rewrite <- Hh2. exact Hh3.
  - split; [done|]. unfold live. cbn. by rewrite Hh2.
Qed.

(** *** sendAndRecv *)

Lemma sock_sendAndRecv_safe p r kernel s :
  server_ok s → p ∈ live s → kernel_ok kernel →
  wp (tcp_sendAndRecv (sock_get p) (sock_run p) (rcv p) r kernel)
    (λ _ s', same_net s s' ∧ server_ok s') s.
Proof.
  intros Hs Hp Hk. unfold tcp_sendAndRecv. apply wp_bind, wp_sock_get; [done|]. intros x Hx.
  set (P := λ (_ : unit) s', same_net s s' ∧ server_ok s').
  assert (Hstep : ∀ m s1, P tt s1 → (∀ x, wp m (λ _ _, True) x) → wp (sock_run p m) P s1).
  { intros m s1 [Hn1 Hs1] Hm. eapply wp_mono; [apply wp_sock_run; [|exact Hm]|].
    - destruct Hn1 as [-> _]. done.
    - cbn. intros [] s2 [Hn2 Ha2]. split; [by eapply same_net_trans|].
      eapply same_net_ok; [exact Hs1|exact Hn2|]. rewrite Ha2. destruct Hn2 as [-> _]. apply Hs1. }
  assert (Hmod : ∀ f (x : TCPSocket), wp (modify f) (λ _ _, True) x) by done.
  assert (H0 : P tt s) by (split; [by split_and!|done]).
  apply wp_bind. eapply wp_mono with (P := P).
  - destruct r as [bs time| | |].
    + apply wp_bind. eapply wp_mono; [by apply Hstep|]. intros [] s1 [Hn1 Hs1].
      eapply wp_mono; [apply (rcv_safe (Owner := Owner0)); [by destruct Hn1 as [-> _]|apply Hs1]|].
      cbn. intros [] s2 [Hn2 Ha2]. split; [by eapply same_net_trans|by eapply same_net_ok].
    + case_match; [by apply Hstep|by apply wp_ret].
    + by apply wp_ret.
    + by apply Hstep.
  - intros [] s1 H1. apply wp_bind. eapply wp_mono; [apply Hstep; [exact H1|]|].
    + intros y. by apply wp_flush.
    + intros [] s2 H2. by apply wp_ret.
Qed.

Definition same_sets s s' : Prop :=
  live s' = live s ∧ rcv_sockets (srv_tcp s') = rcv_sockets (srv_tcp s) ∧
  send_sockets (srv_tcp s') = send_sockets (srv_tcp s).

Lemma recv_all_safe net ps : ∀ s,
  server_ok s → (∀ p, p ∈ ps → p ∈ live s) → net_ok net →
  wp (recv_all rcv net ps) (λ _ s', same_sets s s' ∧ server_ok s') s.
Proof.
  induction ps as [|p ps IH]; intros s Hs Hp Hk; [by apply wp_ret|]. cbn [recv_all].
  assert (Hlp : p ∈ live s) by (apply Hp; left).
  apply wp_bind. eapply wp_mono; [by apply sock_sendAndRecv_safe|].
  intros r s1 [Hn1 Hs1]. pose proof (proj1 Hn1) as El.
  apply wp_bind, wp_sock_get; [by rewrite El|]. intros x Hx. apply wp_bind.
  eapply (wp_mono _ (λ _ s2, same_sets s s2 ∧ server_ok s2)).
  - destruct (_ || _); nsteps.
    + destruct Hn1 as (? & ? & ? & ? & ?), Hs1 as [[Hl Hso Hrc Hse Hde Hnd] Ha]. split; [done|].
      split; [|exact Ha]. split; cbn; try done; [|by apply push_new_NoDup].
      intros q. rewrite push_new_elem. intros [->|Hq]; [right|by apply Hde].
      change (p ∈ live s1). by rewrite El.
    + split; [|done]. by destruct Hn1 as (? & ? & ? & ? & ?).
  - intros [] s2 [(E2 & Er2 & Es2) Hs2]. apply wp_bind.
    eapply wp_mono; [apply IH; [done|intros q Hq; rewrite E2; apply Hp; by right|done]|].
    intros r' s3 [(E3 & Er3 & Es3) Hs3]. apply wp_ret. split; [|done]. split_and!; congruence.
Qed.

Lemma sendAndRecv_safe net net' s :
  server_ok s → net_ok net → net_ok net' →
  wp (sendAndRecv rcv fin net net') (λ _ s', server_ok s') s.
Proof.
  intros Hs Hk Hk'. unfold sendAndRecv. apply wp_bind, wp_gets, wp_bind.
  eapply wp_mono; [apply recv_all_safe; [done|apply Hs|done]|]. intros b s1 [_ Hs1].
  apply wp_bind. eapply (wp_mono _ (λ _ s2, server_ok s2)).
  - destruct b; [|by apply wp_ret]. eapply wp_mono; [apply (fin_safe (Owner := Owner0)), Hs1|].
    cbn. intros [] s2 [Hn Ha]. by eapply same_net_ok.
  - intros [] s2 Hs2. apply wp_bind, wp_gets.
    eapply wp_mono; [apply (wp_for_each _ (λ ps s', server_ok s' ∧ ∀ p, p ∈ ps → p ∈ live s'))|].
    + intros p ps s3 [Hs3 Hin]. apply wp_bind.
      eapply wp_mono; [apply sock_sendAndRecv_safe; [done|apply Hin; left|apply Hk']|].
      intros b4 s4 [Hn Hs4]. apply wp_ret. split; [done|]. intros q Hq.
      destruct Hn as [-> _]. apply Hin. by right.
    + split; [done|]. apply Hs2.
    + by intros [] s3 [? _].
Qed.
End safe.

