(* ===== verification/SocketUtils.v ===== *)
(** Creation of sockets (include/socket_utils.h, src/socket_utils.cpp), and the
    operations of TCPSocket and TCPServer that create and close descriptors
    (connect, destroy, listen).

    The state is what of the kernel these functions change: the descriptors
    the process has open, and the address lists it has not given back.  What
    system calls answer is an argument: [System] has the calls that look names
    up, and an [Address] carries the answers of the calls made on a socket for
    it.  The log is not modelled.

    The theorems say which descriptors are left open on every outcome. *)

From S2P Require Import Prelude CLib Types Sockets.

(** ** System calls *)

(** An entry of [getifaddrs]: its name, and the text [getnameinfo] gives for
    its address if it has one of family AF_INET. *)
Record IfAddr := mkIfAddr { ifa_name : string; ifa_inet : option string }.

(** The socket options in use, with their values. *)
Inductive SockOpt :=
  | TCP_NODELAY (flag : Z)
  | IP_TTL (ttl : Z)
  | IP_MULTICAST_TTL (ttl : Z)
  | IP_ADD_MEMBERSHIP (multiaddr : string) (interface : option string)
  | SO_TIMESTAMP (flag : Z)
  | SO_REUSEADDR (flag : Z).

(** What calls on a socket for the address return, -1 being failure, and
    [errno] after [connect]. *)
Record Address := mkAddress {
  a_socket : Z;
  a_getfl : Z;
  a_setfl : Z → Z;
  a_setsockopt : SockOpt → Z;
  a_connect : Z;
  a_errno : Z;
  a_bind : Z;
  a_listen : Z → Z;
}.

Record Hints := mkHints { hint_udp : bool; hint_passive : bool; hint_numerichost : bool }.

Class System := {
  getifaddrs : option (list IfAddr);
  getaddrinfo : Hints → string → string → option (list Address);
}.

Record Kernel := mkKernel { open_fds : gset Z; addrinfo_lists : Z }.

Local Abbreviation MK := (M Kernel).

Definition sys_socket (a : Address) : MK Z :=
  if a_socket a =? -1 then mret (-1)
  else modify (λ k, mkKernel ({[ a_socket a ]} ∪ open_fds k) (addrinfo_lists k));; mret (a_socket a).
(** [close]; of a descriptor that is not open, -1 among them, it only fails. *)
Definition sys_close (fd : Z) : MK unit :=
  modify (λ k, mkKernel (open_fds k ∖ {[ fd ]}) (addrinfo_lists k)).
Definition sys_getaddrinfo `{System} (h : Hints) (ip port : string) : MK (option (list Address)) :=
  match getaddrinfo h ip port with
  | Some l => modify (λ k, mkKernel (open_fds k) (addrinfo_lists k + 1));; mret (Some l)
  | None => mret None
  end.
Definition freeaddrinfo : MK unit := modify (λ k, mkKernel (open_fds k) (addrinfo_lists k - 1)).

(** ** src/socket_utils.cpp *)

Fixpoint find_iface (iface : string) (l : list IfAddr) : string :=
  match l with
  | [] => ""
  | i :: l =>
      match ifa_inet i with
      | Some ip => if String.eqb iface (ifa_name i) then ip else find_iface iface l
      | None => find_iface iface l
      end
  end.
Definition getIfaceIP `{System} (iface : string) : string :=
  match getifaddrs with
  | Some l => find_iface iface l
  | None => ""
  end.

Definition O_NONBLOCK : Z := 2048.
Definition EWOULDBLOCK : Z := 11.
Definition EINPROGRESS : Z := 115.
Definition MaxTCPServerBacklog : Z := 1024.

Definition failed (rc : Z) : bool := rc =? -1.

Definition setNonBlocking (a : Address) : bool :=
  let flags := a_getfl a in
  if failed flags then false
  else if failed (a_setfl a (Z.lor flags O_NONBLOCK)) then false else true.
Definition setNoDelay (a : Address) : bool := negb (failed (a_setsockopt a (TCP_NODELAY 1))).
Definition wouldBlock (errno : Z) : bool := (errno =? EINPROGRESS) || (errno =? EWOULDBLOCK).
Definition setTTL (a : Address) (ttl : Z) : bool := negb (failed (a_setsockopt a (IP_TTL ttl))).
Definition setMcastTTL (a : Address) (mcast_ttl : Z) : bool :=
  negb (failed (a_setsockopt a (IP_MULTICAST_TTL mcast_ttl))).
Definition setSOTimestamp (a : Address) : bool := negb (failed (a_setsockopt a (SO_TIMESTAMP 1))).

(** [join] of the group [ip]; [None] is INADDR_ANY. *)
Definition join `{System} (a : Address) (ip iface : string) : bool :=
  let interface := match getIfaceIP iface with EmptyString => None | iface_ip => Some iface_ip end in
  negb (failed (a_setsockopt a (IP_ADD_MEMBERSHIP ip interface))).

Record SocketCfg := mkSocketCfg {
  t_ip : string;
  sc_iface : string;
  sc_port : Z;
  is_udp : bool;
  is_blocking : bool;
  is_listening : bool;
  sc_ttl : Z;
  needs_so_timestamp : bool;
}.

(** [(atoi(ip) & 0xF0) == 0xE0] *)
Definition is_multicast (ip : string) : res bool :=
  o ← atoi ip;
  Ok (Z.land o 240 =? 224).

(** The steps on one socket, in order: the name of the one that fails. *)
Definition setup_ttl (c : SocketCfg) (ip : string) (a : Address) : res (option string) :=
  if is_udp c && negb (sc_ttl c =? 0) then
    mc ← is_multicast ip;
    Ok (if mc && negb (setMcastTTL a (sc_ttl c)) then Some "setMcastTTL()"
        else if negb mc && negb (setTTL a (sc_ttl c)) then Some "setTTL()" else None)%string
  else Ok None.

Definition setup_socket (c : SocketCfg) (ip : string) (a : Address) : res (option string) :=
  if negb (is_blocking c) && negb (setNonBlocking a) then Ok (Some "setNonBlocking()")
  else if negb (is_blocking c) && negb (is_udp c) && negb (setNoDelay a) then Ok (Some "setNoDelay()")
  else if negb (is_listening c) && failed (a_connect a) && negb (wouldBlock (a_errno a)) then Ok (Some "connect()")
  else if is_listening c && failed (a_setsockopt a (SO_REUSEADDR 1)) then Ok (Some "setsockopt() SO_REUSEADDR")
  else if is_listening c && failed (a_bind a) then Ok (Some "bind()")
  else if is_listening c && negb (is_udp c) && failed (a_listen a MaxTCPServerBacklog) then Ok (Some "listen()")
  else
    e ← setup_ttl c ip a;
    match e with
    | Some what => Ok (Some what)
    | None => Ok (if needs_so_timestamp c && negb (setSOTimestamp a) then Some "setSOTimestamp()"%string else None)
    end.

(** The lambda [fail]. *)
Definition fail_socket (fd : Z) : MK Z :=
  (if fd =? -1 then mret tt else sys_close fd);;
  freeaddrinfo;;
  mret (-1).

(** The loop over the addresses; [fd] is the variable the loop overwrites. *)
Fixpoint socket_loop (c : SocketCfg) (ip : string) (rps : list Address) (fd : Z) : MK Z :=
  match rps with
  | [] => freeaddrinfo;; mret fd
  | rp :: rps =>
      fd ← sys_socket rp;
      if fd =? -1 then fail_socket fd
      else
        e ← lift (setup_socket c ip rp);
        match e with
        | Some _ => fail_socket fd
        | None => socket_loop c ip rps fd
        end
  end.

(** The address to resolve: that of the interface unless one is given. *)
Definition socket_ip `{System} (c : SocketCfg) : string :=
  match t_ip c with EmptyString => getIfaceIP (sc_iface c) | ip => ip end.
Definition socket_hints (c : SocketCfg) (ip : string) : Hints := mkHints (is_udp c) (is_listening c) (isdigit0 ip).

Definition createSocket `{System} (c : SocketCfg) : MK Z :=
  let ip := socket_ip c in
  res ← sys_getaddrinfo (socket_hints c ip) ip (pretty (sc_port c));
  match res with
  | None => mret (-1)
  | Some rps => socket_loop c ip rps (-1)
  end.

(** ** TCPSocket and TCPServer *)

Definition set_fd (f : Z) (s : TCPSocket) : TCPSocket :=
  mkTCPSocket f (send_buffer s) (rcv_buffer s) (send_disconnected s) (rcv_disconnected s).

Definition tcp_destroy (s : TCPSocket) : MK TCPSocket :=
  sys_close (fd s);;
  mret (set_fd (-1) s).

(** [TCPSocket::connect]; what it returns is the new [fd]. *)
Definition tcp_connect `{System} (ip iface : string) (port : Z) (is_listening : bool) (s : TCPSocket) : MK TCPSocket :=
  s ← tcp_destroy s;
  f ← createSocket (mkSocketCfg ip iface port false false is_listening 0 true);
  mret (set_fd f s).

(** The descriptors of a server. *)
Record Listener := mkListener { server_fd : Z; l_socket : TCPSocket }.

Definition srv_destroy (s : Listener) : MK Listener :=
  sys_close (server_fd s);;
  l ← tcp_destroy (l_socket s);
  mret (mkListener (-1) l).

(** [epoll_create]. *)
Definition sys_epoll_create (created : Z) : MK Z :=
  if created =? -1 then mret (-1)
  else modify (λ k, mkKernel ({[ created ]} ∪ open_fds k) (addrinfo_lists k));; mret created.

(** [TCPServer::listen]: [created] is the answer of [epoll_create], [added]
    whether [epoll_add] succeeds. *)
Definition srv_listen `{System} (created : Z) (added : bool) (iface : string) (port : Z) (s : Listener) : MK Listener :=
  s ← srv_destroy s;
  server_fd ← sys_epoll_create created;
  ASSERT (0 <=? server_fd) "epoll_create() failed";;
  l ← tcp_connect "" iface port true (l_socket s);
  ASSERT (0 <=? fd l) "Listener socket failed to connect";;
  ASSERT added "epoll_ctl() failed";;
  mret (mkListener server_fd l).

(** ** The multicast test *)

(** Of an IPv4 address in dotted form the test holds of the multicast range. *)
Theorem is_multicast_spec ip o :
  atoi ip = Ok o → 0 ≤ o < 256 → is_multicast ip = Ok (bool_decide (224 ≤ o ≤ 239)).
Proof.
  intros E Ho. unfold is_multicast. rewrite E. cbn [mbind res_bind]. f_equal.
  assert (Forall (λ o, (Z.land o 240 =? 224) = bool_decide (224 ≤ o ≤ 239)) (seqZ 0 256)) as Hall.
  { apply Forall_forall. intros x Hx. revert x Hx. apply Forall_forall. by vm_compute; repeat constructor. }
  rewrite Forall_forall in Hall. apply Hall. apply elem_of_seqZ. lia.
Qed.

(** ** Descriptors *)

Lemma last_from {A} (x d : A) l : List.last (x :: l) d = List.last l x.
Proof.
  revert x d. induction l as [|y l IH]; intros x d; [done|].
  change (List.last (y :: l) d = List.last (y :: l) x). by rewrite !IH.
Qed.

Section descriptors.
Context `{System}.
Implicit Types (c : SocketCfg) (k : Kernel) (a rp : Address) (rps : list Address).

(** The time to live can be set: the address is read without overflow. *)
Definition cfg_readable c (ip : string) : Prop :=
  is_udp c = true → sc_ttl c ≠ 0 → is_Ok (atoi ip).

Lemma setup_socket_total c ip a : cfg_readable c ip → is_Ok (setup_socket c ip a).
Proof.
  intros Hc. unfold setup_socket. do 6 (match goal with |- is_Ok (if ?b then _ else _) => destruct b; [by eexists|] end).
  unfold setup_ttl, is_multicast. destruct (is_udp c) eqn:Eu; cbn [andb]; [|by eexists].
  case (Z.eqb_spec (sc_ttl c) 0); intros Et; cbn [negb]; [by eexists|].
  destruct (Hc Eu Et) as [o ->]. cbn [mbind res_bind].
  by repeat case_match; eexists.
Qed.

(** A socket for [a] can be created and set up. *)
Definition good c (ip : string) a : bool :=
  negb (a_socket a =? -1) && match setup_socket c ip a with Ok None => true | _ => false end.

(** [k] with the descriptors of [rps] open and one list less. *)
Definition with_sockets k rps : Kernel :=
  mkKernel (list_to_set (a_socket <$> rps) ∪ open_fds k) (addrinfo_lists k - 1).

(** What [socket] guarantees: a descriptor not in use. *)
Definition fresh_sockets k rps : Prop :=
  NoDup (filter (λ f, f ≠ -1) (a_socket <$> rps)) ∧ ∀ f, f ∈ a_socket <$> rps → f ∉ open_fds k.

Lemma fresh_sockets_cons k rp rps :
  fresh_sockets k (rp :: rps) → a_socket rp ≠ -1 →
  a_socket rp ∉ open_fds k ∧
  fresh_sockets (mkKernel ({[ a_socket rp ]} ∪ open_fds k) (addrinfo_lists k)) rps.
Proof.
  intros [Hnd Hf] Hne. rewrite fmap_cons in Hnd, Hf. rewrite filter_cons_True in Hnd by done.
  apply NoDup_cons in Hnd as [Hni Hnd]. split; [apply Hf; by left|]. split; [done|].
  cbn [open_fds]. intros f Hin [E%elem_of_singleton|E]%elem_of_union; [|by eapply Hf; [right|]].
  subst f. apply Hni. apply list_elem_of_filter. done.
Qed.

Lemma socket_loop_spec c ip rps fd k :
  cfg_readable c ip → fresh_sockets k rps →
  (∀ rp, rp ∈ rps → good c ip rp = true) ∧
    socket_loop c ip rps fd k = Ok (List.last (a_socket <$> rps) fd, with_sockets k rps) ∨
  ∃ pre rp post, rps = pre ++ rp :: post ∧ (∀ r, r ∈ pre → good c ip r = true) ∧ good c ip rp = false ∧
    socket_loop c ip rps fd k = Ok (-1, with_sockets k pre).
Proof.
  intros Hc. revert fd k. induction rps as [|rp rps IH]; intros fd k Hfr.
  - left. split; [intros rp Hin; by apply not_elem_of_nil in Hin|]. cbn [socket_loop]. unfold freeaddrinfo.
    rewrite bind_modify. unfold with_sockets. cbn. by rewrite union_empty_l_L.
  - cbn [socket_loop]. unfold sys_socket. case (Z.eqb_spec (a_socket rp) (-1)); intros Es.
    { right. exists [], rp, rps. split; [done|]. split; [intros r Hin; by apply not_elem_of_nil in Hin|].
      split; [unfold good; by rewrite Es|]. rewrite bind_ret. cbn [Z.eqb Pos.eqb]. unfold fail_socket, freeaddrinfo.
      cbn [Z.eqb Pos.eqb]. rewrite bind_ret, bind_modify. unfold with_sockets. cbn. by rewrite union_empty_l_L. }
    destruct (fresh_sockets_cons k rp rps Hfr Es) as [Hnew Hfr'].
    set (k1 := mkKernel ({[ a_socket rp ]} ∪ open_fds k) (addrinfo_lists k)) in *.
    erewrite (bind_Ok _ _ k (a_socket rp) k1) by (rewrite bind_modify; done).
    rewrite (proj2 (Z.eqb_neq _ _) Es).
    destruct (setup_socket_total c ip rp Hc) as [e Ee]. unfold lift. rewrite Ee.
    erewrite (bind_Ok _ _ k1 e k1) by done. destruct e as [what|].
    + right. exists [], rp, rps. split; [done|]. split; [intros r Hin; by apply not_elem_of_nil in Hin|].
      split; [unfold good; by rewrite Ee, andb_false_r|]. unfold fail_socket.
      rewrite (proj2 (Z.eqb_neq _ _) Es). unfold sys_close, freeaddrinfo. rewrite !bind_modify. unfold with_sockets, k1. cbn.
      assert (({[a_socket rp]} ∪ open_fds k) ∖ {[a_socket rp]} = ∅ ∪ open_fds k) as -> by set_solver. done.
    + assert (Hg : good c ip rp = true) by (unfold good; by rewrite Ee, (proj2 (Z.eqb_neq _ _) Es)).
      assert (Hw : ∀ l, with_sockets k1 l = with_sockets k (rp :: l)).
      { intros l. unfold with_sockets, k1. cbn. f_equal. set_solver. }
      destruct (IH (a_socket rp) k1 Hfr') as [[Hall Hrun]|(pre & r & post & -> & Hpre & Hr & Hrun)].
      * left. split; [intros r [->|Hin]%elem_of_cons; auto|]. rewrite Hrun, Hw.
        cbn [fmap list_fmap]. by rewrite last_from.
      * right. exists (rp :: pre), r, post. split; [done|].
        split; [intros r' [->|Hin]%elem_of_cons; auto|]. split; [done|]. by rewrite Hrun, Hw.
Qed.
Definition resolves c (r : option (list Address)) : Prop :=
  getaddrinfo (socket_hints c (socket_ip c)) (socket_ip c) (pretty (sc_port c)) = r.

Lemma createSocket_run c k rps :
  resolves c (Some rps) →
  createSocket c k = socket_loop c (socket_ip c) rps (-1) (mkKernel (open_fds k) (addrinfo_lists k + 1)).
Proof. intros E. unfold createSocket, sys_getaddrinfo. rewrite E. done. Qed.

(** The descriptors [createSocket] leaves open.  It gives the address list
    back on every path and returns the socket of the last address, or -1 after
    a failure, when the socket that failed is closed.  The sockets of all
    earlier addresses stay open in both cases. *)
Theorem createSocket_descriptors c k rps :
  resolves c (Some rps) → cfg_readable c (socket_ip c) → fresh_sockets k rps →
  ∃ fd pre, createSocket c k = Ok (fd, mkKernel (list_to_set (a_socket <$> pre) ∪ open_fds k) (addrinfo_lists k)) ∧
    (∀ rp, rp ∈ pre → good c (socket_ip c) rp = true) ∧
    (pre = rps ∧ fd = List.last (a_socket <$> rps) (-1) ∨
     fd = -1 ∧ ∃ rp post, rps = pre ++ rp :: post ∧ good c (socket_ip c) rp = false).
Proof.
  intros Hr Hc Hf. rewrite (createSocket_run c k rps Hr).
  destruct (socket_loop_spec c (socket_ip c) rps (-1) (mkKernel (open_fds k) (addrinfo_lists k + 1)) Hc Hf)
    as [[Hall ->]|(pre & rp & post & -> & Hpre & Hbad & ->)]; unfold with_sockets; cbn [open_fds addrinfo_lists];
    rewrite Z.add_simpl_r.
  - eexists _, rps. split; [reflexivity|]. split; [done|]. by left.
  - eexists _, pre. split; [reflexivity|]. split; [done|]. right. split; [done|]. by exists rp, post.
Qed.

(** With one address, as for a numeric one, nothing leaks: the socket, or none. *)
Corollary createSocket_one c k a :
  resolves c (Some [a]) → cfg_readable c (socket_ip c) → a_socket a ∉ open_fds k →
  createSocket c k =
  if good c (socket_ip c) a then Ok (a_socket a, mkKernel ({[ a_socket a ]} ∪ open_fds k) (addrinfo_lists k))
  else Ok (-1, k).
Proof.
  intros Hr Hc Ha.
  destruct (createSocket_descriptors c k [a] Hr Hc) as (fd & pre & -> & Hpre & [[-> ->]|(-> & rp & post & Hl & Hb)]).
  - split; [|intros f ->%list_elem_of_singleton; done]. apply NoDup_filter, NoDup_singleton.
  - rewrite (Hpre a) by (by left). cbn. by rewrite union_empty_r_L.
  - destruct pre as [|p [|? ?]]; [|done..]. injection Hl as <- <-. rewrite Hb. cbn.
    rewrite union_empty_l_L. by destruct k.
Qed.

(** With two, the first socket leaks: closed neither on success nor when the
    second fails. *)
Corollary createSocket_leaks c k a1 a2 :
  resolves c (Some [a1; a2]) → cfg_readable c (socket_ip c) → fresh_sockets k [a1; a2] →
  good c (socket_ip c) a1 = true →
  ∃ fd k', createSocket c k = Ok (fd, k') ∧ (fd = a_socket a2 ∨ fd = -1) ∧
    a_socket a1 ∉ open_fds k ∧ a_socket a1 ∈ open_fds k'.
Proof.
  intros Hr Hc Hf Hg. destruct (createSocket_descriptors c k _ Hr Hc Hf) as (fd & pre & Hrun & Hpre & Hor).
  eexists _, _. split; [exact Hrun|]. cbn [open_fds].
  assert (Hnew : a_socket a1 ∉ open_fds k) by (apply Hf; by left).
  destruct Hor as [[-> ->]|(-> & rp & post & Hl & Hb)].
  - split; [by left|]. split; [done|]. cbn. set_solver.
  - split; [by right|]. split; [done|]. destruct pre as [|p pre]; cbn in Hl; injection Hl as <- _; [|cbn; set_solver].
    by rewrite Hg in Hb.
Qed.
End descriptors.

(** ** Connections *)

Section connect.
Context `{System}.

Definition tcp_cfg (ip iface : string) (port : Z) (is_listening : bool) : SocketCfg :=
  mkSocketCfg ip iface port false false is_listening 0 true.

(** [connect] closes the descriptor the socket had and opens one, or none. *)
Theorem tcp_connect_spec ip iface port listening (s : TCPSocket) (k : Kernel) a :
  let c := tcp_cfg ip iface port listening in
  resolves c (Some [a]) → a_socket a ∉ open_fds k ∖ {[ fd s ]} →
  tcp_connect ip iface port listening s k =
  if good c (socket_ip c) a
  then Ok (set_fd (a_socket a) s, mkKernel ({[ a_socket a ]} ∪ (open_fds k ∖ {[ fd s ]})) (addrinfo_lists k))
  else Ok (set_fd (-1) s, mkKernel (open_fds k ∖ {[ fd s ]}) (addrinfo_lists k)).
Proof.
  intros c Hr Ha. unfold tcp_connect, tcp_destroy.
  set (k1 := mkKernel (open_fds k ∖ {[ fd s ]}) (addrinfo_lists k)).
  erewrite (bind_Ok _ _ k (set_fd (-1) s) k1) by done. fold (tcp_cfg ip iface port listening). fold c.
  pose proof (createSocket_one c k1 a Hr) as Hcr. unfold mbind, M_bind. rewrite Hcr; [|done|exact Ha].
  by destruct (good _ _ _).
Qed.

(** A server that listens holds two descriptors, its epoll instance and its
    listener, in place of those it had; the one other outcome is FATAL. *)
Theorem srv_listen_spec created added iface port (s : Listener) (k : Kernel) a :
  resolves (tcp_cfg "" iface port true) (Some [a]) →
  -1 ∉ open_fds k →
  a_socket a ∉ {[ created ]} ∪ open_fds k ∖ {[ server_fd s; fd (l_socket s) ]} →
  wp (srv_listen created added iface port s) (λ s' k',
    0 ≤ server_fd s' ∧ 0 ≤ fd (l_socket s') ∧ server_fd s' ≠ fd (l_socket s') ∧
    open_fds k' = {[ server_fd s'; fd (l_socket s') ]} ∪ open_fds k ∖ {[ server_fd s; fd (l_socket s) ]} ∧
    addrinfo_lists k' = addrinfo_lists k) k.
Proof.
  intros Hr Hneg Ha. unfold srv_listen, srv_destroy, tcp_destroy, sys_close, sys_epoll_create. wsteps.
  destruct (created =? -1) eqn:Ec; wsteps; [done|].
  rename select ((0 <=? created) = true) into Hpos. apply Z.leb_le in Hpos.
  match goal with |- wp _ _ ?k => set (k2 := k) end.
  assert (Hk2 : open_fds k2 ∖ {[-1]} = {[ created ]} ∪ open_fds k ∖ {[ server_fd s; fd (l_socket s) ]}).
  { subst k2. cbn. apply Z.eqb_neq in Ec. set_solver. }
  rewrite <- Hk2 in Ha. pose proof (tcp_connect_spec "" iface port true (set_fd (-1) (l_socket s)) k2 a Hr Ha) as Hrun.
  destruct (good _ _ a); (eapply wp_Ok; [exact Hrun|]); wsteps; rename select ((0 <=? fd _) = true) into Hf; [|done].
  apply Z.leb_le in Hf. cbn [fd set_fd server_fd l_socket open_fds addrinfo_lists] in *. rewrite Hk2.
  split_and!; [done|done| |set_solver|done]. intros E. apply Ha. rewrite Hk2, <- E. set_solver.
Qed.
End connect.
