(* ===== verification/McastSocket.v ===== *)
(** Common::McastSocket (include/mcast_socket.h): the UDP multicast socket of
    the market data feed.

    As in Sockets.v the kernel is an argument: what [createSocket], [join],
    [sendto] and [recvfrom] return.  Each buffer is the list of its valid
    bytes, so [next_send_valid_index_] and [next_rcv_valid_index_] are their
    lengths.  [datagrams_] is what the kernel took so far, one element per
    successful [sendto]: the code keeps no such record, the theorems speak of
    it.  The destination address is fixed by [init] and not modelled. *)

From S2P Require Import Prelude Types Wire Sockets.

Record McastSocket := mkMcastSocket {
  fd_ : Z;
  send_buffer_ : list byte;
  rcv_buffer_ : list byte;
  send_disconnected_ : bool;
  rcv_disconnected_ : bool;
  datagrams_ : list (list byte);
}.

Definition McastSocket_new : McastSocket := mkMcastSocket (-1) [] [] false false [].

Definition next_send_valid_index_ (s : McastSocket) : Z := Z.of_nat (length (send_buffer_ s)).
Definition next_rcv_valid_index_ (s : McastSocket) : Z := Z.of_nat (length (rcv_buffer_ s)).

Definition set_mc_fd v s : McastSocket :=
  mkMcastSocket v (send_buffer_ s) (rcv_buffer_ s) (send_disconnected_ s) (rcv_disconnected_ s) (datagrams_ s).
Definition set_mc_send v s : McastSocket :=
  mkMcastSocket (fd_ s) v (rcv_buffer_ s) (send_disconnected_ s) (rcv_disconnected_ s) (datagrams_ s).
Definition set_mc_rcv v s : McastSocket :=
  mkMcastSocket (fd_ s) (send_buffer_ s) v (send_disconnected_ s) (rcv_disconnected_ s) (datagrams_ s).
Definition set_mc_dead s : McastSocket :=
  mkMcastSocket (fd_ s) [] (rcv_buffer_ s) true (rcv_disconnected_ s) (datagrams_ s).
Definition handed_over s : McastSocket :=
  mkMcastSocket (fd_ s) [] (rcv_buffer_ s) (send_disconnected_ s) (rcv_disconnected_ s)
    (datagrams_ s ++ [send_buffer_ s]).

Section McastSocket.
Context `{NetConfig}.
Local Abbreviation MC := (M McastSocket).

(** [destroy]: close the descriptor, forget both buffers. *)
Definition mc_destroy : MC unit :=
  modify (λ s, set_mc_rcv [] (set_mc_send [] (if 0 <=? fd_ s then set_mc_fd (-1) s else s))).

(** [init]: [created] is what [createSocket] returns, [joined] what [join]
    does; the value returned is the descriptor. *)
Definition mc_init (created : Z) (joined is_listening : bool) : MC Z :=
  mc_destroy;;
  modify (set_mc_fd created);;
  (if is_listening then ASSERT joined "McastSocket::init join() failed" else mret tt);;
  gets fd_.

(** [send]. *)
Definition mc_send (data : list byte) : MC unit :=
  idx ← gets next_send_valid_index_;
  ASSERT (idx + Z.of_nat (length data) <=? McastBufferSize) "McastSocket send buffer overflow";;
  modify (λ s, set_mc_send (send_buffer_ s ++ data) s).

(** The send half of [sendAndRecv]: one [sendto] of the whole buffer. *)
Definition mc_flush (sent : SendResult) : MC unit :=
  idx ← gets next_send_valid_index_;
  if 0 <? idx then
    match sent with
    | SendWouldBlock => mret tt
    | SendError => modify set_mc_dead
    | Sent _ => modify handed_over
    end
  else mret tt.

(** The bytes [recvfrom] stores: a datagram longer than the free part of the
    buffer is truncated. *)
Definition mc_received (r : RecvResult) (s : McastSocket) : list byte :=
  match r with
  | RecvData bytes _ => take (Z.to_nat (McastBufferSize - next_rcv_valid_index_ s)) bytes
  | _ => []
  end.

(** [sendAndRecv] of the socket that is the member [sock] of an object of type
    [St]; [rcv_callback] is the function stored in [rcv_callback_], if any. *)
Definition mc_sendAndRecv {St} (sock : lens St McastSocket) (rcv_callback : option (M St unit))
  (sent : SendResult) (r : RecvResult) : M St bool :=
  zoom sock (mc_flush sent);;
  bytes ← zoom sock (gets (mc_received r));
  if 0 <? Z.of_nat (length bytes) then
    zoom sock (modify (λ s, set_mc_rcv (rcv_buffer_ s ++ bytes) s));;
    (match rcv_callback with Some cb => cb | None => mret tt end);;
    mret true
  else mret false.

(** ** What one call does *)

Lemma mc_send_Ok data s :
  next_send_valid_index_ s + Z.of_nat (length data) ≤ McastBufferSize →
  mc_send data s = Ok (tt, set_mc_send (send_buffer_ s ++ data) s).
Proof. intros Hle. unfold mc_send. rewrite bind_gets, (proj2 (Z.leb_le _ _)) by done. done. Qed.

Lemma mc_send_Err data s :
  McastBufferSize < next_send_valid_index_ s + Z.of_nat (length data) →
  mc_send data s = Err (Fatal "McastSocket send buffer overflow").
Proof. intros Hle. unfold mc_send. rewrite bind_gets, (proj2 (Z.leb_gt _ _)) by done. done. Qed.

(** The socket after the send half. *)
Definition flushed (sent : SendResult) (s : McastSocket) : McastSocket :=
  if 0 <? next_send_valid_index_ s then
    match sent with Sent _ => handed_over s | SendWouldBlock => s | SendError => set_mc_dead s end
  else s.

Lemma mc_flush_Ok sent s : mc_flush sent s = Ok (tt, flushed sent s).
Proof.
  unfold mc_flush, flushed. rewrite bind_gets. destruct (0 <? _); [|done]. by destruct sent.
Qed.

(** The socket when its receive callback runs. *)
Definition filled (r : RecvResult) (s : McastSocket) : McastSocket :=
  set_mc_rcv (rcv_buffer_ s ++ mc_received r s) s.

Lemma filled_nothing r s : mc_received r s = [] → filled r s = s.
Proof. intros E. unfold filled. rewrite E, app_nil_r. by destruct s. Qed.

Lemma flushed_rcv sent s : rcv_buffer_ (flushed sent s) = rcv_buffer_ s.
Proof. unfold flushed. destruct (0 <? _); [|done]. by destruct sent. Qed.

(** The whole call: flush, receive, and run the callback when something came. *)
Lemma mc_sendAndRecv_spec {St} (sock : lens St McastSocket) (HL : LensOk sock) cb sent r (st : St) :
  let s := filled r (flushed sent (lget sock st)) in
  mc_sendAndRecv sock cb sent r st =
    if decide (mc_received r (flushed sent (lget sock st)) = []) then Ok (false, lset sock s st)
    else (match cb with Some cb => cb | None => mret tt end;; mret true) (lset sock s st).
Proof.
  intros s. unfold mc_sendAndRecv.
  rewrite (bind_Ok _ _ _ _ _ (zoom_Ok sock _ st _ _ (mc_flush_Ok sent _))).
  erewrite bind_Ok; [|apply zoom_Ok; reflexivity]. cbv beta. rewrite lget_lset, lset_lset.
  destruct (mc_received r _) as [|b bs] eqn:E.
  - rewrite decide_True by done. subst s. by rewrite filled_nothing.
  - rewrite decide_False by done. rewrite (proj2 (Z.ltb_lt _ _)) by (cbn; lia).
    erewrite bind_Ok; [|apply zoom_Ok; reflexivity]. cbv beta.
    rewrite lget_lset, lset_lset. subst s. unfold filled. by rewrite E.
Qed.
End McastSocket.
