(* ===== verification/MemPool.v ===== *)
(** [Common::MemPool<T>] (include/mem_pool.h): a fixed array of blocks with
    an [is_free] flag, a roving index and a free counter.

    A pointer into the pool is the index of its block.  [store] is a finite
    map over the block indices; a block never written still holds its initial
    value [{T(), true}].  The object of a deallocated block stays in memory,
    as in the code.  [find_free] is the scanning loop of [allocate]; its fuel
    is the number of blocks ever written, and [find_free_spec] shows that this
    is always enough while [free_count > 0]. *)

From S2P Require Import Prelude.

Record ObjectBlock (T : Type) := mkBlock { object : T; is_free : bool }.
Arguments mkBlock {T} _ _.
Arguments object {T} _.
Arguments is_free {T} _.

#[export] Instance ObjectBlock_inh {T} `{Inhabited T} : Inhabited (ObjectBlock T) :=
  populate (mkBlock inhabitant true).

Record MemPool (T : Type) := mkMemPool {
  mp_size : Z;
  mp_store : gmap Z (ObjectBlock T);
  next_free_index : Z;
  free_count : Z;
}.
Arguments mkMemPool {T} _ _ _ _.
Arguments mp_size {T} _.
Arguments mp_store {T} _.
Arguments next_free_index {T} _.
Arguments free_count {T} _.

Section MemPool.
Context {T : Type} `{Inhabited T}.
Implicit Types (P : MemPool T) (i j : Z) (ps : list Z).

(** The constructor [MemPool(num_elems)]. *)
Definition mp_new (num_elems : Z) : MemPool T := mkMemPool num_elems ∅ 0 num_elems.

Definition block P i : ObjectBlock T := mp_store P !!! i.
Definition block_free P i : bool := is_free (block P i).
(** Reading and writing through a pointer to a pool object. *)
Definition pool_get P i : T := object (block P i).
Definition pool_mod (f : T → T) i P : MemPool T :=
  mkMemPool (mp_size P)
    (<[ i := mkBlock (f (pool_get P i)) (block_free P i) ]> (mp_store P))
    (next_free_index P) (free_count P).

(** [++next_free_index; if (next_free_index == store.size()) next_free_index = 0;] *)
Definition advance P i : Z := if i + 1 =? mp_size P then 0 else i + 1.

(** [while (!store[next_free_index].is_free) ...] *)
Fixpoint find_free (fuel : nat) P i : option Z :=
  if block_free P i then Some i
  else match fuel with
       | O => None
       | S fuel => find_free fuel P (advance P i)
       end.

Definition allocate (v : T) P : res (Z * MemPool T) :=
  if free_count P <=? 0 then Err (Fatal "MemPool exhausted")
  else match find_free (size (mp_store P)) P (next_free_index P) with
       | None => Err Spin
       | Some i =>
           Ok (i, mkMemPool (mp_size P) (<[ i := mkBlock v false ]> (mp_store P))
                    i (free_count P - 1))
       end.

Definition deallocate (elem_index : Z) P : res (MemPool T) :=
  if negb ((0 <=? elem_index) && (elem_index <? mp_size P)) then
    Err (Fatal "Element being deallocated does not belong to this memory pool.")
  else if block_free P elem_index then
    Err (Fatal "Expected allocated ObjectBlock")
  else Ok (mkMemPool (mp_size P)
             (<[ elem_index := mkBlock (pool_get P elem_index) true ]> (mp_store P))
             (next_free_index P) (free_count P + 1)).

Definition freeCount P : Z := free_count P.

(** ** Invariant: [ps] lists the pointers currently allocated *)

Record pool_ok P ps : Prop := {
  po_nodup : NoDup ps;
  po_flag : ∀ i, block_free P i = false ↔ i ∈ ps;
  po_range : ∀ i, i ∈ ps → 0 ≤ i < mp_size P;
  po_count : free_count P = mp_size P - Z.of_nat (length ps);
  po_next : 0 ≤ next_free_index P < mp_size P;
}.

Lemma pool_get_mod f i P j :
  pool_get (pool_mod f i P) j = if decide (j = i) then f (pool_get P j) else pool_get P j.
Proof.
  unfold pool_get at 1, block, pool_mod. simpl.
  rewrite lookup_total_insert. do 2 case_decide; subst; done.
Qed.

Lemma block_free_mod f i P j : block_free (pool_mod f i P) j = block_free P j.
Proof.
  unfold block_free at 1, block, pool_mod. simpl.
  rewrite lookup_total_insert. case_decide; by subst.
Qed.

Lemma pool_ok_mod f i P ps : pool_ok (pool_mod f i P) ps ↔ pool_ok P ps.
Proof.
  split; intros [? HF ? ? ?]; split; try done; intros j;
    rewrite <- (HF j); by rewrite block_free_mod.
Qed.

Lemma pool_mod_comm f g i j P :
  i ≠ j → pool_mod f i (pool_mod g j P) = pool_mod g j (pool_mod f i P).
Proof.
  intros Hij. pose proof (pool_get_mod g j P i) as E1. pose proof (pool_get_mod f i P j) as E2.
  pose proof (block_free_mod g j P i) as E3. pose proof (block_free_mod f i P j) as E4.
  rewrite decide_False in E1 by done. rewrite decide_False in E2 by done.
  unfold pool_mod in *. cbn in *. rewrite E1, E2, E3, E4. f_equal.
  by apply insert_insert_ne.
Qed.

Lemma pool_ok_perm P ps ps' : ps ≡ₚ ps' → pool_ok P ps → pool_ok P ps'.
Proof.
  intros Hp [Hn Hf Hr Hc Hx]; split; try done.
  - by rewrite <- Hp.
  - intros i. by rewrite <- Hp.
  - intros i. rewrite <- Hp. auto.
  - by rewrite <- Hp.
Qed.

#[export] Instance pool_ok_Proper P : Proper ((≡ₚ) ==> iff) (pool_ok P).
Proof. intros l k Hp. split; apply pool_ok_perm; done. Qed.

Lemma mp_new_ok n : 0 < n → pool_ok (mp_new n) [].
Proof.
  intros Hn. split; simpl; try lia.
  - constructor.
  - intros i. split; [|set_solver].
    unfold block_free, block, mp_new. simpl. by rewrite lookup_total_empty.
  - set_solver.
Qed.

Lemma pool_ok_capacity P ps : pool_ok P ps → Z.of_nat (length ps) ≤ mp_size P.
Proof.
  intros [Hn _ Hr _ Hx].
  pose proof (NoDup_range_length ps (mp_size P) Hn Hr). lia.
Qed.

(** A full pool has no free block. *)
Lemma full_busy P ps i :
  pool_ok P ps → Z.of_nat (length ps) = mp_size P → 0 ≤ i < mp_size P → block_free P i = false.
Proof.
  intros [Hn Hf Hr _ _] Hfull Hi. apply Hf. destruct (decide (i ∈ ps)) as [|Hni]; [done|exfalso].
  enough (Z.of_nat (length (i :: ps)) ≤ mp_size P `max` 0) as Hl by (cbn [length] in Hl; lia).
  apply NoDup_range_length; [by apply NoDup_cons|]. intros j [->|Hj]%elem_of_cons; auto.
Qed.

(** ** The scan *)

(** The scan reaches a free block at distance [d] in [d] steps. *)
Lemma find_free_reaches P (d : nat) i :
  0 ≤ i < mp_size P →
  block_free P ((i + Z.of_nat d) `mod` mp_size P) = true →
  ∃ j, (∀ fuel, (d ≤ fuel)%nat → find_free fuel P i = Some j) ∧ block_free P j = true ∧ 0 ≤ j < mp_size P.
Proof.
  revert i. induction d as [|d IH]; intros i Hi Hf; (destruct (block_free P i) eqn:E;
    [exists i; split; [|done]; intros [|fuel] _; simpl; by rewrite E|]).
  - rewrite Z.add_0_r, Z.mod_small in Hf by lia. congruence.
  - destruct (IH (advance P i)) as (j & Hj & Hr).
    + unfold advance. zcases; lia.
    + rewrite <- Hf. f_equal. unfold advance. zcases.
      * replace (i + Z.of_nat (S d)) with (0 + Z.of_nat d + 1 * mp_size P) by lia.
        by rewrite Z.mod_add by lia.
      * f_equal. lia.
    + exists j. split; [|done]. intros [|fuel] Hd; [lia|]. simpl. rewrite E. apply Hj. lia.
Qed.

Lemma exists_free P ps :
  pool_ok P ps → 0 < free_count P → ∃ i, 0 ≤ i < mp_size P ∧ block_free P i = true.
Proof.
  intros [Hn Hf Hr Hc Hx] Hpos.
  set (all := Z.of_nat <$> seq 0 (Z.to_nat (mp_size P))).
  destruct (decide (Forall (λ i, i ∈ ps) all)) as [Hall|Hne].
  - assert (Hsub : all ⊆+ ps).
    { apply NoDup_submseteq.
      - apply NoDup_fmap_2; [intros ???; lia|apply NoDup_seq].
      - intros i Hi. rewrite Forall_forall in Hall. auto. }
    apply submseteq_length in Hsub. unfold all in Hsub.
    rewrite length_fmap, length_seq in Hsub. lia.
  - apply not_Forall_Exists in Hne; [|intros; apply _].
    apply Exists_exists in Hne as (i & Hi & Hnot).
    unfold all in Hi. apply list_elem_of_fmap in Hi as (k & -> & Hk).
    apply elem_of_seq in Hk. exists (Z.of_nat k). split; [lia|].
    destruct (block_free P _) eqn:E; [done|]. by apply Hf in E.
Qed.

(** Every allocated block has been written. *)
Lemma allocated_written P ps : pool_ok P ps → (length ps ≤ size (mp_store P))%nat.
Proof.
  intros [Hn Hf _ _ _].
  rewrite <- size_dom, <- (size_list_to_set (C := gset Z)) by done.
  apply subseteq_size. intros i. rewrite elem_of_list_to_set, elem_of_dom, <- Hf.
  unfold block_free, block. intros E.
  destruct (mp_store P !! i) eqn:El; [done|].
  rewrite lookup_total_alt, El in E. done.
Qed.

(** The busy blocks before the first free one are distinct: no more than are live. *)
Lemma find_free_within P ps :
  pool_ok P ps → 0 < free_count P →
  ∃ j, (∀ fuel, (length ps ≤ fuel)%nat → find_free fuel P (next_free_index P) = Some j) ∧
       block_free P j = true ∧ 0 ≤ j < mp_size P.
Proof.
  intros Hok Hpos.
  destruct (exists_free _ _ Hok Hpos) as (i & Hi & Hfree).
  destruct Hok as [Hn Hf Hr Hc Hx]. set (n := mp_size P) in *.
  set (nx := next_free_index P) in *.
  set (pos := λ k : nat, (nx + Z.of_nat k) `mod` n).
  (* the first free position at or after [nx] *)
  assert (Hex : ∃ d, (d < Z.to_nat n)%nat ∧ block_free P (pos d) = true).
  { exists (Z.to_nat ((i - nx) `mod` n)).
    pose proof (Z.mod_pos_bound (i - nx) n). split; [lia|].
    unfold pos. rewrite Z2Nat.id by lia. rewrite Zplus_mod_idemp_r.
    replace (nx + (i - nx)) with i by lia. by rewrite Z.mod_small. }
  clear i Hi Hfree.
  assert (Hmin : ∃ d, (d < Z.to_nat n)%nat ∧ block_free P (pos d) = true ∧
                      ∀ k, (k < d)%nat → block_free P (pos k) = false).
  { destruct Hex as (d & Hd & Hfree). revert Hd Hfree.
    induction d as [d IH] using lt_wf_ind. intros Hd Hfree.
    destruct (decide (Exists (λ k, block_free P (pos k) = true) (seq 0 d))) as [He|He].
    - apply Exists_exists in He as (k & Hk & Hkf). apply elem_of_seq in Hk.
      apply (IH k); auto; lia.
    - exists d. split_and!; [done..|]. intros k Hk.
      destruct (block_free P (pos k)) eqn:E; [|done].
      exfalso. apply He, Exists_exists. exists k. split; [|done]. apply elem_of_seq. lia. }
  destruct Hmin as (d & Hd & Hfree & Hbusy).
  destruct (find_free_reaches P d nx) as (j & Hj & ?); [lia|done|].
  exists j. split; [|done]. intros fuel Hfuel. apply Hj. transitivity (length ps); [|done].
  (* the [d] busy positions are distinct allocated blocks *)
  assert (Hsub : (pos <$> seq 0 d) ⊆+ ps).
  { apply NoDup_submseteq.
    - apply NoDup_fmap_2_strong; [|apply NoDup_seq].
      intros a b Ha Hb. rewrite elem_of_seq in Ha, Hb. unfold pos.
      intros E. apply (f_equal (λ z, (z - nx) `mod` n)) in E.
      rewrite !Zminus_mod_idemp_l in E.
      replace (nx + Z.of_nat a - nx) with (Z.of_nat a) in E by lia.
      replace (nx + Z.of_nat b - nx) with (Z.of_nat b) in E by lia.
      rewrite !Z.mod_small in E by lia. lia.
    - intros j' (k & -> & Hk)%list_elem_of_fmap. apply elem_of_seq in Hk.
      apply Hf, Hbusy. lia. }
  apply submseteq_length in Hsub. by rewrite length_fmap, length_seq in Hsub.
Qed.

Lemma find_free_spec P ps :
  pool_ok P ps → 0 < free_count P →
  ∃ j, find_free (size (mp_store P)) P (next_free_index P) = Some j ∧
       block_free P j = true ∧ 0 ≤ j < mp_size P.
Proof.
  intros Hok Hpos. destruct (find_free_within P ps Hok Hpos) as (j & Hj & ?).
  exists j. split; [|done]. by apply Hj, allocated_written.
Qed.

(** ** Specifications of the operations *)

Lemma allocate_spec v P ps :
  pool_ok P ps → Z.of_nat (length ps) < mp_size P →
  ∃ i P', allocate v P = Ok (i, P') ∧ i ∉ ps ∧ pool_ok P' (i :: ps) ∧
    mp_size P' = mp_size P ∧
    (∀ j, pool_get P' j = if decide (j = i) then v else pool_get P j).
Proof.
  intros Hok Hlt. pose proof (po_count _ _ Hok) as Hc.
  destruct (find_free_spec P ps) as (i & Hi & Hfree & Hr); [done|lia|].
  unfold allocate. rewrite (proj2 (Z.leb_gt _ _)) by lia. rewrite Hi.
  assert (i ∉ ps) as Hnew.
  { rewrite <- (po_flag _ _ Hok), Hfree. done. }
  eexists i, _. split_and!; [done|done| |done|].
  - destruct Hok as [Hn Hf Hra _ Hx]. split; simpl; [by constructor| | |lia|lia].
    + intros j. unfold block_free, block. simpl. rewrite lookup_total_insert, elem_of_cons.
      case_decide; subst; [simpl; naive_solver|]. rewrite <- Hf. naive_solver.
    + intros j. rewrite elem_of_cons. naive_solver.
  - intros j. unfold pool_get, block. simpl. rewrite lookup_total_insert.
    repeat case_decide; subst; done.
Qed.

(** Exhaustion is reported, never silent: [allocate] on a full pool exits. *)
Lemma allocate_full v P ps :
  pool_ok P ps → Z.of_nat (length ps) = mp_size P →
  allocate v P = Err (Fatal "MemPool exhausted").
Proof.
  intros Hok Hfull. pose proof (po_count _ _ Hok).
  unfold allocate. by rewrite (proj2 (Z.leb_le _ _)) by lia.
Qed.

Lemma deallocate_spec i P ps :
  pool_ok P (i :: ps) →
  ∃ P', deallocate i P = Ok P' ∧ pool_ok P' ps ∧ mp_size P' = mp_size P ∧
    (∀ j, pool_get P' j = pool_get P j).
Proof.
  intros [Hn Hf Hr Hc Hx]. unfold deallocate.
  assert (0 ≤ i < mp_size P) by (apply Hr; left).
  rewrite (proj2 (Z.leb_le _ _)), (proj2 (Z.ltb_lt _ _)) by lia. simpl.
  rewrite (proj2 (Hf i)) by (by left).
  apply NoDup_cons in Hn as [Hni Hn].
  eexists. split_and!; [done| |done|].
  - split; simpl in *; [done| | |lia|lia].
    + intros j. unfold block_free, block. simpl. rewrite lookup_total_insert.
      case_decide; subst; simpl; [naive_solver|].
      unfold block_free, block in Hf. rewrite Hf, elem_of_cons. naive_solver.
    + intros j Hj. apply Hr. by right.
  - intros j. unfold pool_get, block. simpl. rewrite lookup_total_insert.
    case_decide; subst; done.
Qed.

(** Double free and foreign pointers are caught. *)
Lemma deallocate_bad i P ps :
  pool_ok P ps → i ∉ ps → ∃ msg, deallocate i P = Err (Fatal msg).
Proof.
  intros [_ Hf _ _ _] Hi. unfold deallocate.
  destruct (negb _); [by eexists|].
  destruct (block_free P i) eqn:E; [by eexists|]. by apply Hf in E.
Qed.

(** C20: the pool never hands out a live block and never loops.  With the
    pointers [ps] allocated, [allocate] ends: while a block is free it returns
    one that is not live, initialised, and every live object is untouched;
    when none is free it exits.  [deallocate] of a live pointer frees exactly
    it; of any other, double frees included, it exits. *)
Theorem pool_safe v i P ps :
  pool_ok P ps →
  (if Z.of_nat (length ps) <? mp_size P
   then ∃ j P', allocate v P = Ok (j, P') ∧ j ∉ ps ∧ pool_ok P' (j :: ps) ∧
          (∀ k, pool_get P' k = if decide (k = j) then v else pool_get P k)
   else allocate v P = Err (Fatal "MemPool exhausted")) ∧
  (if decide (i ∈ ps)
   then ∃ P' ps', deallocate i P = Ok P' ∧ ps ≡ₚ i :: ps' ∧ pool_ok P' ps' ∧
          (∀ k, pool_get P' k = pool_get P k)
   else ∃ msg, deallocate i P = Err (Fatal msg)).
Proof.
  intros Hok. split.
  - case Z.ltb_spec; intros Hlt.
    + destruct (allocate_spec v P ps Hok Hlt) as (j & P' & ? & ? & ? & _ & ?). by exists j, P'.
    + apply (allocate_full v P ps Hok). pose proof (pool_ok_capacity _ _ Hok). lia.
  - destruct (decide (i ∈ ps)) as [Hi|Hi]; [|by eapply deallocate_bad].
    apply elem_of_Permutation in Hi as [ps' Hp]. rewrite Hp in Hok.
    destruct (deallocate_spec i P ps' Hok) as (P' & ? & ? & _ & ?). by exists P', ps'.
Qed.
End MemPool.

#[export] Hint Rewrite @pool_get_mod @block_free_mod @pool_ok_mod : pool.
