(* ===== verification/OptMemPool.v ===== *)
(** [OptCommon::OptMemPool<T>] (include/opt_mem_pool.h): the pool of MemPool.v
    without the free counter, its assertions compiled only into debug builds.

    [debug] is whether NDEBUG is undefined.  [allocate] hands out the block
    found by the previous call and then looks for the next one, so a pool is
    in use only while a block is left to find: the loop of
    [updateNextFreeIndex] takes fuel, and running out of any amount of it is
    the loop that does not end. *)

From S2P Require Import Prelude MemPool.

Record OptMemPool (T : Type) := mkOptMemPool {
  opt_size : Z;
  opt_store : gmap Z (ObjectBlock T);
  opt_next_free_index : Z;
}.
Arguments mkOptMemPool {T} _ _ _.
Arguments opt_size {T} _.
Arguments opt_store {T} _.
Arguments opt_next_free_index {T} _.

Section OptMemPool.
Context {T : Type} `{Inhabited T}.
Context (debug : bool).
Implicit Types (Q : OptMemPool T) (i j : Z) (ps : list Z).

(** The constructor. *)
Definition omp_new (num_elems : Z) : OptMemPool T := mkOptMemPool num_elems ∅ 0.

Definition opt_block Q i : ObjectBlock T := opt_store Q !!! i.
Definition opt_get Q i : T := object (opt_block Q i).

(** The loop of [updateNextFreeIndex]; the index it ends at.  The assertion
    under [initial_free_index == next_free_index] has that same condition. *)
Fixpoint opt_scan (fuel : nat) (initial i : Z) Q : res Z :=
  if is_free (opt_block Q i) then Ok i
  else match fuel with
       | O => Err Spin
       | S fuel =>
           let i := if i + 1 =? opt_size Q then 0 else i + 1 in
           if debug && (initial =? i) && negb (initial =? i) then Err (Fatal "Memory Pool exhausted.")
           else opt_scan fuel initial i Q
       end.

Definition updateNextFreeIndex (fuel : nat) Q : res (OptMemPool T) :=
  i ← opt_scan fuel (opt_next_free_index Q) (opt_next_free_index Q) Q;
  Ok (mkOptMemPool (opt_size Q) (opt_store Q) i).

Definition opt_allocate (fuel : nat) (v : T) Q : res (Z * OptMemPool T) :=
  let i := opt_next_free_index Q in
  if debug && negb (is_free (opt_block Q i)) then Err (Fatal "Expected free ObjectBlock")
  else
    Q ← updateNextFreeIndex fuel (mkOptMemPool (opt_size Q) (<[ i := mkBlock v false ]> (opt_store Q)) i);
    Ok (i, Q).

Definition opt_deallocate (elem_index : Z) Q : res (OptMemPool T) :=
  let inside := (0 <=? elem_index) && (elem_index <? opt_size Q) in
  if debug && negb inside then Err (Fatal "Element being deallocated does not belong to this memory pool.")
  else if negb inside then Err (UB "store out of range")
  else if debug && is_free (opt_block Q elem_index) then Err (Fatal "Expected allocated ObjectBlock")
  else Ok (mkOptMemPool (opt_size Q) (<[ elem_index := mkBlock (opt_get Q elem_index) true ]> (opt_store Q))
             (opt_next_free_index Q)).

(** ** A pool in use *)

(** The pool with a free counter. *)
Definition counted Q ps : MemPool T :=
  mkMemPool (opt_size Q) (opt_store Q) (opt_next_free_index Q) (opt_size Q - Z.of_nat (length ps)).

(** [ps] are allocated, and the next block is known to be free. *)
Definition opt_ok Q ps : Prop :=
  pool_ok (counted Q ps) ps ∧ is_free (opt_block Q (opt_next_free_index Q)) = true.

Lemma opt_scan_find fuel initial i Q ps :
  opt_scan fuel initial i Q = match find_free fuel (counted Q ps) i with Some j => Ok j | None => Err Spin end.
Proof.
  revert i. induction fuel as [|fuel IH]; intros i; cbn [opt_scan find_free]; unfold block_free, block, counted; cbn [mp_store];
    unfold opt_block; destruct (is_free (opt_store Q !!! i)); try done.
  rewrite <- andb_assoc, andb_negb_r, andb_false_r. apply IH.
Qed.

(** With no free block the scan never ends. *)
Lemma opt_scan_spins fuel initial i Q ps :
  pool_ok (counted Q ps) ps → Z.of_nat (length ps) = opt_size Q → 0 ≤ i < opt_size Q → opt_scan fuel initial i Q = Err Spin.
Proof.
  intros Hok Hfull. revert i. induction fuel as [|fuel IH]; intros i Hi; cbn [opt_scan];
    rewrite (full_busy (counted Q ps) ps i Hok Hfull Hi : is_free (opt_block Q i) = false); [done|].
  rewrite <- andb_assoc, andb_negb_r, andb_false_r. apply IH. case Z.eqb_spec; lia.
Qed.

Lemma omp_new_ok n : 0 < n → opt_ok (omp_new n) [].
Proof.
  intros Hn. pose proof (mp_new_ok (T := T) n Hn) as Hok. split.
  - unfold counted, omp_new. cbn. by rewrite Z.sub_0_r.
  - unfold omp_new, opt_block. cbn. by rewrite lookup_total_empty.
Qed.

Lemma insert_get Q i b next j :
  opt_get (mkOptMemPool (opt_size Q) (<[ i := b ]> (opt_store Q)) next) j = if decide (j = i) then object b else opt_get Q j.
Proof. unfold opt_get, opt_block. cbn. rewrite lookup_total_insert. by repeat case_decide; subst. Qed.

(** The pool with the next block taken. *)
Lemma taken_ok v Q ps :
  opt_ok Q ps →
  let i := opt_next_free_index Q in
  i ∉ ps ∧ Z.of_nat (length ps) < opt_size Q ∧
  pool_ok (counted (mkOptMemPool (opt_size Q) (<[ i := mkBlock v false ]> (opt_store Q)) i) (i :: ps)) (i :: ps).
Proof.
  intros [Hok Hfree] i. pose proof Hok as [Hn Hf Hr Hc Hx].
  assert (Hi : i ∉ ps). { rewrite <- (Hf i). change (is_free (opt_block Q i) ≠ false). unfold i. by rewrite Hfree. }
  assert (Hlt : Z.of_nat (length ps) < opt_size Q).
  { pose proof (pool_ok_capacity _ _ Hok) as Hl. cbn [mp_size counted] in Hl. destruct (decide (Z.of_nat (length ps) = opt_size Q)) as [E|]; [|lia].
    pose proof (full_busy _ _ i Hok E Hx) as Hb. change (is_free (opt_block Q i) = false) in Hb. unfold i in Hb. congruence. }
  split_and!; [done..|]. split; [by constructor| | |done|exact Hx].
  - intros j. unfold block_free, block. cbn [mp_store counted opt_store]. rewrite lookup_total_insert, elem_of_cons.
    case_decide; [subst; naive_solver|]. change (block_free (counted Q ps) j = false ↔ j = i ∨ j ∈ ps). rewrite Hf. naive_solver.
  - intros j [->|Hj]%elem_of_cons; [exact Hx|by apply Hr].
Qed.

Lemma opt_deallocate_live i Q ps :
  opt_ok Q (i :: ps) → ∃ Q', opt_deallocate i Q = Ok Q' ∧ opt_ok Q' ps ∧ (∀ j, opt_get Q' j = opt_get Q j).
Proof.
  intros [Hok Hfree]. pose proof Hok as [Hn Hf Hr _ Hx].
  assert (Hi : 0 ≤ i < opt_size Q) by (apply Hr; left).
  assert (Hb : is_free (opt_block Q i) = false) by (apply (proj2 (Hf i)); by left).
  unfold opt_deallocate. rewrite (proj2 (Z.leb_le _ _)), (proj2 (Z.ltb_lt _ _)), Hb by lia. cbn [negb andb]. rewrite !andb_false_r.
  apply NoDup_cons in Hn as [Hni Hn]. eexists. split; [done|]. split.
  - split; [split; [done| | |done|exact Hx]|].
    + intros j. unfold block_free, block. cbn [mp_store counted opt_store]. rewrite lookup_total_insert.
      case_decide; [subst; naive_solver|]. change (block_free (counted Q (i :: ps)) j = false ↔ j ∈ ps). rewrite Hf, elem_of_cons. naive_solver.
    + intros j Hj. apply Hr. by right.
    + unfold opt_block. cbn. rewrite lookup_total_insert. by case_decide.
  - intros j. rewrite insert_get. by case_decide; subst.
Qed.

(** C37: the optimised pool never gives out its last block.  With the pointers
    [ps] allocated, [allocate] hands out a free block, initialised, with every
    live object untouched, and ends as soon as the scan may take as many steps
    as blocks are live; but when that block is the last free one it does not
    end, in debug builds too, whatever the number of steps.  [deallocate]
    frees a live block. *)
Theorem opt_pool_last_block v i Q ps :
  opt_ok Q ps →
  (if Z.of_nat (length ps) + 1 <? opt_size Q
   then ∃ j Q', (∀ fuel, (length ps < fuel)%nat → opt_allocate fuel v Q = Ok (j, Q')) ∧ j ∉ ps ∧ opt_ok Q' (j :: ps) ∧
          (∀ k, opt_get Q' k = if decide (k = j) then v else opt_get Q k)
   else ∀ fuel, opt_allocate fuel v Q = Err Spin) ∧
  (i ∈ ps → ∃ Q' ps', opt_deallocate i Q = Ok Q' ∧ ps ≡ₚ i :: ps' ∧ opt_ok Q' ps' ∧ (∀ k, opt_get Q' k = opt_get Q k)).
Proof.
  intros Hok. pose proof (taken_ok v Q ps Hok) as (Hni & Hlt & Hok1). set (j := opt_next_free_index Q) in *.
  set (Q1 := mkOptMemPool _ _ j) in Hok1.
  assert (Ha : ∀ fuel, opt_allocate fuel v Q =
    match opt_scan fuel j j Q1 with Ok n => Ok (j, mkOptMemPool (opt_size Q) (opt_store Q1) n) | Err f => Err f end).
  { intros fuel. unfold opt_allocate. destruct Hok as [_ Hfree]. fold j in Hfree |- *. rewrite Hfree, andb_false_r.
    unfold updateNextFreeIndex. fold Q1. cbn [opt_next_free_index Q1]. by destruct (opt_scan _ _ _ _). }
  split.
  - case Z.ltb_spec; intros Hl.
    + destruct (find_free_within _ _ Hok1) as (n & Hn & Hf & Hr); [cbn; lia|].
      exists j, (mkOptMemPool (opt_size Q) (opt_store Q1) n). split_and!; [|done| |].
      * intros fuel Hfuel. rewrite Ha, (opt_scan_find _ _ _ _ (j :: ps)).
        change (next_free_index (counted Q1 (j :: ps))) with j in Hn. by rewrite Hn by (cbn; lia).
      * split; [|exact Hf]. destruct Hok1. by split.
      * intros k. apply insert_get.
    + intros fuel. rewrite Ha, (opt_scan_spins _ _ _ _ (j :: ps)); [done|done|cbn [length]; cbn; lia|].
      apply (po_next _ _ Hok1).
  - intros Hi. apply elem_of_Permutation in Hi as [ps' Hp].
    assert (Hok' : opt_ok Q (i :: ps')).
    { destruct Hok as [H1 H2]. split; [|done]. unfold counted in *. by rewrite (Permutation_length Hp), Hp in H1. }
    destruct (opt_deallocate_live i Q ps' Hok') as (Q' & ? & ? & ?). by exists Q', ps'.
Qed.
End OptMemPool.
