(* ===== verification/CircularList.v ===== *)
(** Intrusive circular doubly-linked lists.

    The order books keep the orders of a price level, and the levels of a
    side, in circular doubly-linked lists threaded through the nodes.  A heap
    is seen here through its two link fields [nx] (next) and [pv] (prev);
    [cdll nx pv l] says that the nodes [l], in this order, form one circular
    list.  The lemmas give the effect of the pointer surgery of the code:
    each takes the list before, the new link fields, and returns the list
    after. *)

From S2P Require Import Prelude.

Abbreviation links := (Z → option Z).

Definition link (nx pv : links) (x y : Z) : Prop := nx x = Some y ∧ pv y = Some x.

(** [x], then [l], then [y] are linked in a row. *)
Fixpoint chain (nx pv : links) (x : Z) (l : list Z) (y : Z) : Prop :=
  match l with
  | [] => link nx pv x y
  | z :: l => link nx pv x z ∧ chain nx pv z l y
  end.

Definition cdll (nx pv : links) (l : list Z) : Prop :=
  match l with [] => True | x :: l => chain nx pv x l x end.

Section chains.
Implicit Types (nx pv : links) (x y z : Z) (l k : list Z).

Lemma chain_app nx pv x l z k y :
  chain nx pv x (l ++ z :: k) y ↔ chain nx pv x l z ∧ chain nx pv z k y.
Proof. revert x. induction l as [|w l IH]; intros x; simpl; [done|]. rewrite IH. tauto. Qed.

Lemma chain_frame nx pv nx' pv' x l y :
  (∀ q, q ∈ x :: l → nx' q = nx q) → (∀ q, q ∈ l ++ [y] → pv' q = pv q) →
  chain nx pv x l y → chain nx' pv' x l y.
Proof.
  revert x. induction l as [|z l IH]; intros x Hn Hp; simpl; unfold link.
  - rewrite (Hn x), (Hp y) by set_solver. done.
  - rewrite (Hn x), (Hp z) by set_solver. intros [? ?]. split; [done|].
    apply IH; [..|done]; set_solver.
Qed.

Lemma cdll_frame nx pv nx' pv' l :
  (∀ q, q ∈ l → nx' q = nx q ∧ pv' q = pv q) → cdll nx pv l → cdll nx' pv' l.
Proof.
  destruct l as [|x l]; [done|]. intros H. simpl. apply chain_frame.
  - intros q Hq. by apply H.
  - intros q Hq. apply H. set_solver.
Qed.

(** A circular list can be read from any of its nodes. *)
Lemma cdll_rot nx pv l k : cdll nx pv (l ++ k) ↔ cdll nx pv (k ++ l).
Proof.
  destruct l as [|x l], k as [|y k]; rewrite ?app_nil_r; try done.
  simpl. rewrite !chain_app. tauto.
Qed.

Lemma cdll_singleton nx pv x : nx x = Some x → pv x = Some x → cdll nx pv [x].
Proof. by split. Qed.

(** The neighbours of the head: its [prev] is the tail, whose [next] is it. *)
Lemma cdll_head nx pv x l t :
  cdll nx pv (x :: l) → last (x :: l) = Some t → pv x = Some t ∧ nx t = Some x.
Proof.
  intros H Ht. destruct l as [|y l _] using rev_ind; simpl in *.
  - simplify_eq. by destruct H.
  - rewrite app_comm_cons, last_snoc in Ht. simplify_eq.
    rewrite (chain_app _ _ _ _ _ []) in H. destruct H as [_ [??]]. done.
Qed.

Lemma cdll_next nx pv l x y k : cdll nx pv (l ++ x :: y :: k) → nx x = Some y ∧ pv y = Some x.
Proof. rewrite cdll_rot. simpl. intros [[? ?] _]. done. Qed.


(** [pv x = x] exactly on one-element lists: the test [prev == order]. *)
Lemma cdll_self nx pv l x :
  cdll nx pv l → NoDup l → x ∈ l → pv x = Some x → l = [x].
Proof.
  intros H Hnd Hx Hp. apply list_elem_of_split in Hx as (l1 & l2 & ->).
  rewrite cdll_rot in H. apply NoDup_mid in Hnd as [Hni Hnd].
  assert (l2 ++ l1 = []) as E.
  { destruct (last (x :: (l2 ++ l1))) as [t|] eqn:Et; [|by apply last_None in Et].
    destruct (cdll_head _ _ _ _ _ H Et) as [E _]. rewrite E in Hp. simplify_eq.
    destruct (l2 ++ l1) as [|y k] eqn:Ek; [done|]. exfalso. apply Hni.
    rewrite last_cons_cons in Et. apply last_Some_elem in Et.
    rewrite elem_of_app. rewrite <- Ek, elem_of_app in Et. tauto. }
  by apply app_eq_nil in E as [-> ->].
Qed.

(** The same test on [next]. *)
Lemma cdll_self_next nx pv l x :
  cdll nx pv l → NoDup l → x ∈ l → nx x = Some x → l = [x].
Proof.
  intros H Hnd Hx Hp. apply list_elem_of_split in Hx as (l1 & l2 & ->).
  rewrite cdll_rot in H. apply NoDup_mid in Hnd as [Hni Hnd].
  assert (l2 ++ l1 = []) as E.
  { simpl in H. destruct (l2 ++ l1) as [|y k] eqn:Ek; [done|].
    destruct H as [[E _] _]. rewrite E in Hp. simplify_eq. exfalso. apply Hni.
    rewrite elem_of_app. assert (x ∈ l2 ++ l1) as Hx by (rewrite Ek; left).
    rewrite elem_of_app in Hx. tauto. }
  by apply app_eq_nil in E as [-> ->].
Qed.
End chains.

(** ** Pointer surgery *)

(** [n] has been linked in between [t] and [x]. *)
Definition spliced_in (nx pv nx' pv' : links) (t n x : Z) : Prop :=
  (∀ q, q ≠ t → q ≠ n → nx' q = nx q) ∧ nx' t = Some n ∧ nx' n = Some x ∧
  (∀ q, q ≠ x → q ≠ n → pv' q = pv q) ∧ pv' x = Some n ∧ pv' n = Some t.

(** [x] has been unlinked from between [p] and [n]. *)
Definition spliced_out (nx pv nx' pv' : links) (p x n : Z) : Prop :=
  (∀ q, q ≠ p → q ≠ x → nx' q = nx q) ∧ nx' p = Some n ∧
  (∀ q, q ≠ n → q ≠ x → pv' q = pv q) ∧ pv' n = Some p.

Section surgery.
Implicit Types (nx pv : links) (x y z n t p : Z) (l k : list Z).

Lemma cdll_snoc nx pv nx' pv' x l n t :
  cdll nx pv (x :: l) → NoDup (x :: l) → n ∉ x :: l → last (x :: l) = Some t →
  spliced_in nx pv nx' pv' t n x → cdll nx' pv' (x :: l ++ [n]).
Proof.
  intros H Hnd Hn Ht (Hnx & Hnt & Hnn & Hpv & Hpx & Hpn).
  simpl. rewrite (chain_app _ _ _ _ _ []). split; [|by split].
  destruct l as [|y l _] using rev_ind; simpl in *; simplify_eq; [by split|].
  rewrite app_comm_cons, last_snoc in Ht. simplify_eq.
  rewrite (chain_app _ _ _ _ _ []) in H. rewrite (chain_app _ _ _ _ _ []).
  destruct H as [H _]. split; [|by split].
  apply NoDup_cons in Hnd as [Hx Hnd]. rewrite NoDup_app in Hnd.
  eapply chain_frame; [..|exact H].
  - intros q Hq. apply Hnx; [|set_solver]. intros ->. set_solver.
  - intros q Hq. apply Hpv; [|set_solver]. intros ->. set_solver.
Qed.

(** Insertion before a node [t] of the list (it may be the head). *)
Lemma cdll_insert_before nx pv l1 t l2 n :
  cdll nx pv (l1 ++ t :: l2) → NoDup (l1 ++ t :: l2) → n ∉ l1 ++ t :: l2 →
  ∃ p, pv t = Some p ∧ p ∈ l1 ++ t :: l2 ∧
    ∀ nx' pv', spliced_in nx pv nx' pv' p n t → cdll nx' pv' (l1 ++ n :: t :: l2).
Proof.
  intros H Hnd Hn.
  assert (Hrot : cdll nx pv (t :: l2 ++ l1)) by (rewrite cdll_rot in H; done).
  assert (Hp : l1 ++ t :: l2 ≡ₚ t :: l2 ++ l1) by (by rewrite Permutation_app_comm).
  rewrite Hp in Hnd, Hn.
  destruct (last (t :: l2 ++ l1)) as [p|] eqn:Hl; [|by apply last_None in Hl].
  exists p. split_and!.
  - by destruct (cdll_head _ _ _ _ _ Hrot Hl).
  - rewrite Hp. by apply last_Some_elem.
  - intros nx' pv' Hs. rewrite (cons_middle n), (assoc (++)), cdll_rot.
    rewrite <- app_comm_cons, (assoc (++)). by eapply cdll_snoc.
Qed.

(** Appending at the tail. *)
Lemma cdll_append nx pv x l n :
  cdll nx pv (x :: l) → NoDup (x :: l) → n ∉ x :: l →
  ∃ t, last (x :: l) = Some t ∧ pv x = Some t ∧ nx t = Some x ∧ t ∈ x :: l ∧
    ∀ nx' pv', spliced_in nx pv nx' pv' t n x → cdll nx' pv' (x :: l ++ [n]).
Proof.
  intros H Hnd Hn.
  destruct (last (x :: l)) as [t|] eqn:Hl; [|by apply last_None in Hl].
  destruct (cdll_head _ _ _ _ _ H Hl) as [Hp Hx].
  exists t. split_and!; try done; [by apply last_Some_elem|].
  intros. by eapply cdll_snoc.
Qed.

Lemma cdll_drop_head nx pv nx' pv' x y l t :
  cdll nx pv (x :: y :: l) → NoDup (x :: y :: l) → last (y :: l) = Some t →
  spliced_out nx pv nx' pv' t x y → cdll nx' pv' (y :: l).
Proof.
  intros H Hnd Ht (Hnx & Hnt & Hpv & Hpy).
  simpl in H. destruct H as [_ H].
  destruct l as [|z l _] using rev_ind; simpl in *; simplify_eq; [by split|].
  rewrite app_comm_cons, last_snoc in Ht. simplify_eq.
  rewrite (chain_app _ _ _ _ _ []) in H. rewrite (chain_app _ _ _ _ _ []).
  destruct H as [H _]. split; [|by split].
  apply NoDup_cons in Hnd as [Hx Hnd]. apply NoDup_cons in Hnd as [Hy Hnd].
  rewrite NoDup_app in Hnd.
  eapply chain_frame; [..|exact H].
  - intros q Hq. apply Hnx; [|set_solver]. intros ->. set_solver.
  - intros q Hq. apply Hpv; [|set_solver]. intros ->. set_solver.
Qed.

(** Removal of any node of a list of at least two. *)
Lemma cdll_remove nx pv l1 x l2 :
  cdll nx pv (l1 ++ x :: l2) → NoDup (l1 ++ x :: l2) → l1 ++ l2 ≠ [] →
  ∃ p n, pv x = Some p ∧ nx x = Some n ∧ p ∈ l1 ++ l2 ∧ n ∈ l1 ++ l2 ∧
    head (l2 ++ l1) = Some n ∧
    ∀ nx' pv', spliced_out nx pv nx' pv' p x n → cdll nx' pv' (l1 ++ l2).
Proof.
  intros H Hnd Hne.
  assert (Hrot : cdll nx pv (x :: l2 ++ l1)) by (rewrite cdll_rot in H; done).
  assert (Hp : l1 ++ x :: l2 ≡ₚ x :: l2 ++ l1) by (by rewrite Permutation_app_comm).
  rewrite Hp in Hnd.
  assert (Hne' : l2 ++ l1 ≠ []).
  { intros E. apply Hne. by apply app_eq_nil in E as [-> ->]. }
  assert (Hin : ∀ a, a ∈ l1 ++ l2 ↔ a ∈ l2 ++ l1) by (intros; by rewrite (comm app)).
  setoid_rewrite Hin. setoid_rewrite cdll_rot. clear Hin.
  destruct (l2 ++ l1) as [|n k]; [done|].
  destruct (last (n :: k)) as [p|] eqn:Hl; [|by apply last_None in Hl].
  exists p, n. split_and!.
  - eapply (cdll_head _ _ _ _ _ Hrot). by rewrite last_cons_cons.
  - by destruct Hrot as [[? _] _].
  - by apply last_Some_elem.
  - by left.
  - done.
  - intros. by eapply cdll_drop_head.
Qed.
End surgery.
