(* ===== verification/LevelBook.v ===== *)
(** The intrusive book structure shared by the three order books.

    [Exchange::MEOrderBook], its benchmark variant [UnorderedMapMEOrderBook]
    and the client's [Trading::MarketOrderBook] keep the same structure (the
    sources say that they mirror each other): pool-allocated orders in
    circular FIFO lists, pool-allocated price levels in two circular sorted
    lists, a price index to the levels and an id index to the orders.  They
    differ in details: the client's book checks for null levels and poisons the
    links of a removed order late ([lenient]); and in the payload [D] of an order, in the key of the price index
    ([priceToIndex] or the price itself) and in the key [K] of the order
    index.  [BookOps] is that interface; the operations below are the code's
    helpers [getOrdersAtPrice], [addOrdersAtPrice], [removeOrdersAtPrice],
    [addOrder], [removeOrder] over it.

    Pointers are block indices of the two pools, [None] is [nullptr];
    dereferencing it is the fault [UB]. *)

From S2P Require Import Prelude Types MemPool.

(** [MEOrder] / [MarketOrder]: payload and the two intrusive links. *)
Record Node (D : Type) := mkNode {
  data : D;
  prev_order_ : option Z;
  next_order_ : option Z;
}.
Arguments mkNode {D} _ _ _.
Arguments data {D} _.
Arguments prev_order_ {D} _.
Arguments next_order_ {D} _.

(** [MEOrdersAtPrice] / [MarketOrdersAtPrice]. *)
Record LevelNode := mkLevel {
  side_ : Side.t;
  price_ : Price;
  first_order_ : option Z;
  prev_entry_ : option Z;
  next_entry_ : option Z;
}.

#[export] Instance Node_inh {D} `{Inhabited D} : Inhabited (Node D) :=
  populate (mkNode inhabitant None None).
#[export] Instance LevelNode_inh : Inhabited LevelNode :=
  populate (mkLevel Side.INVALID Price_INVALID None None None).

Definition set_data {D} (f : D → D) (n : Node D) := mkNode (f (data n)) (prev_order_ n) (next_order_ n).
Definition set_prev_order {D} p (n : Node D) := mkNode (data n) p (next_order_ n).
Definition set_next_order {D} p (n : Node D) := mkNode (data n) (prev_order_ n) p.
Definition set_first_order p (n : LevelNode) :=
  mkLevel (side_ n) (price_ n) p (prev_entry_ n) (next_entry_ n).
Definition set_prev_entry p (n : LevelNode) :=
  mkLevel (side_ n) (price_ n) (first_order_ n) p (next_entry_ n).
Definition set_next_entry p (n : LevelNode) :=
  mkLevel (side_ n) (price_ n) (first_order_ n) (prev_entry_ n) p.

Record LBook (D K : Type) `{Countable K} := mkLBook {
  bids_by_price_ : option Z;
  asks_by_price_ : option Z;
  price_orders_at_price_ : gmap Z Z;
  order_index_ : gmap K Z;
  orders_at_price_pool_ : MemPool LevelNode;
  order_pool_ : MemPool (Node D);
}.
Arguments mkLBook {D K _ _} _ _ _ _ _ _.
Arguments bids_by_price_ {D K _ _} _.
Arguments asks_by_price_ {D K _ _} _.
Arguments price_orders_at_price_ {D K _ _} _.
Arguments order_index_ {D K _ _} _.
Arguments orders_at_price_pool_ {D K _ _} _.
Arguments order_pool_ {D K _ _} _.

(** What an order book chooses. *)
Class BookOps (D K : Type) := {
  slot : Price → Z;      (** key of the price index *)
  okey : D → K;          (** key of the order index *)
  d_side : D → Side.t;
  d_price : D → Price;
  lenient : bool;        (** the client's variant: null checks, late poisoning *)
}.

Section LevelBook.
Context {D K : Type} `{Inhabited D} `{Countable K} {ops : BookOps D K}.
Implicit Types (b : LBook D K) (p : option Z).
Local Abbreviation Mb := (M (LBook D K)).

Definition lb_new (levels orders : Z) : LBook D K :=
  mkLBook None None ∅ ∅ (mp_new levels) (mp_new orders).

(** *** Field access *)

Definition set_bids v b : LBook D K := mkLBook v (asks_by_price_ b) (price_orders_at_price_ b)
  (order_index_ b) (orders_at_price_pool_ b) (order_pool_ b).
Definition set_asks v b : LBook D K := mkLBook (bids_by_price_ b) v (price_orders_at_price_ b)
  (order_index_ b) (orders_at_price_pool_ b) (order_pool_ b).
Definition set_price_map v b : LBook D K := mkLBook (bids_by_price_ b) (asks_by_price_ b) v
  (order_index_ b) (orders_at_price_pool_ b) (order_pool_ b).
Definition set_order_index v b : LBook D K := mkLBook (bids_by_price_ b) (asks_by_price_ b)
  (price_orders_at_price_ b) v (orders_at_price_pool_ b) (order_pool_ b).
Definition set_level_pool v b : LBook D K := mkLBook (bids_by_price_ b) (asks_by_price_ b)
  (price_orders_at_price_ b) (order_index_ b) v (order_pool_ b).
Definition set_order_pool v b : LBook D K := mkLBook (bids_by_price_ b) (asks_by_price_ b)
  (price_orders_at_price_ b) (order_index_ b) (orders_at_price_pool_ b) v.

(** [head_ref]: [side == BUY ? bids_by_price_ : asks_by_price_]. *)
Definition head_ref (side : Side.t) b : option Z :=
  if Side.eqb side Side.BUY then bids_by_price_ b else asks_by_price_ b.
Definition set_head (side : Side.t) v b : LBook D K :=
  if Side.eqb side Side.BUY then set_bids v b else set_asks v b.

Definition level_get p : Mb LevelNode :=
  match p with
  | Some i => gets (λ b, pool_get (orders_at_price_pool_ b) i)
  | None => fail (UB "null price level")
  end.
Definition level_mod p (f : LevelNode → LevelNode) : Mb unit :=
  match p with
  | Some i => modify (λ b, set_level_pool (pool_mod f i (orders_at_price_pool_ b)) b)
  | None => fail (UB "null price level")
  end.
Definition order_get p : Mb (Node D) :=
  match p with
  | Some i => gets (λ b, pool_get (order_pool_ b) i)
  | None => fail (UB "null order")
  end.
Definition order_mod p (f : Node D → Node D) : Mb unit :=
  match p with
  | Some i => modify (λ b, set_order_pool (pool_mod f i (order_pool_ b)) b)
  | None => fail (UB "null order")
  end.

Definition allocate_level (n : LevelNode) : Mb (option Z) := λ b,
  match allocate n (orders_at_price_pool_ b) with
  | Ok (i, P) => Ok (Some i, set_level_pool P b)
  | Err f => Err f
  end.
Definition deallocate_level p : Mb unit :=
  match p with
  | Some i => λ b,
    match deallocate i (orders_at_price_pool_ b) with
    | Ok P => Ok (tt, set_level_pool P b)
    | Err f => Err f
    end
  | None => fail (UB "null price level")
  end.
Definition allocate_order (n : Node D) : Mb (option Z) := λ b,
  match allocate n (order_pool_ b) with
  | Ok (i, P) => Ok (Some i, set_order_pool P b)
  | Err f => Err f
  end.
Definition deallocate_order p : Mb unit :=
  match p with
  | Some i => λ b,
    match deallocate i (order_pool_ b) with
    | Ok P => Ok (tt, set_order_pool P b)
    | Err f => Err f
    end
  | None => fail (UB "null order")
  end.

(** *** Price levels *)

Definition getOrdersAtPrice (price : Price) b : option Z :=
  price_orders_at_price_ b !! slot price.

(** The lambda of [addOrdersAtPrice]: the new level is less aggressive than [t]. *)
Definition shouldAdvance (new_level t : LevelNode) : bool :=
  (Side.eqb (side_ new_level) Side.SELL && (price_ t <? price_ new_level)) ||
  (Side.eqb (side_ new_level) Side.BUY && (price_ new_level <? price_ t)).

(** [while (shouldAdvance(target) && target->next_entry_ != head_ref)]. *)
Fixpoint walk_levels (fuel : nat) (new_level : LevelNode) (head target : option Z)
  : Mb (option Z) :=
  t ← level_get target;
  if shouldAdvance new_level t && negb (bool_decide (next_entry_ t = head)) then
    match fuel with
    | O => fail Spin
    | S fuel => walk_levels fuel new_level head (next_entry_ t)
    end
  else mret target.

Definition addOrdersAtPrice (new_level : Z) : Mb unit :=
  n ← level_get (Some new_level);
  modify (λ b, set_price_map (<[ slot (price_ n) := new_level ]> (price_orders_at_price_ b)) b);;
  head ← gets (head_ref (side_ n));
  match head with
  | None =>
      modify (set_head (side_ n) (Some new_level));;
      level_mod (Some new_level) (set_prev_entry (Some new_level));;
      level_mod (Some new_level) (set_next_entry (Some new_level))
  | Some _ =>
      fuel ← gets (λ b, size (price_orders_at_price_ b));
      target ← walk_levels fuel n head head;
      t ← level_get target;
      if shouldAdvance n t then
        let next := next_entry_ t in
        level_mod target (set_next_entry (Some new_level));;
        level_mod (Some new_level) (set_prev_entry target);;
        level_mod (Some new_level) (set_next_entry next);;
        level_mod next (set_prev_entry (Some new_level))
      else
        let prev := prev_entry_ t in
        level_mod prev (set_next_entry (Some new_level));;
        level_mod (Some new_level) (set_prev_entry prev);;
        level_mod (Some new_level) (set_next_entry target);;
        level_mod target (set_prev_entry (Some new_level));;
        if bool_decide (head = target)
        then modify (set_head (side_ n) (Some new_level)) else mret tt
  end.

(** Unlink a level from its side. *)
Definition removeOrdersAtPrice (side : Side.t) (price : Price) : Mb unit :=
  oap ← gets (getOrdersAtPrice price);
  if lenient && bool_decide (oap = None) then mret tt else
  l ← level_get oap;
  (if bool_decide (next_entry_ l = oap) then modify (set_head side None)
   else
     let prev := prev_entry_ l in
     let next := next_entry_ l in
     level_mod prev (set_next_entry next);;
     level_mod next (set_prev_entry prev);;
     head ← gets (head_ref side);
     (if bool_decide (head = oap) then modify (set_head side next) else mret tt);;
     level_mod oap (set_prev_entry None);;
     level_mod oap (set_next_entry None));;
  modify (λ b, set_price_map (delete (slot price) (price_orders_at_price_ b)) b);;
  deallocate_level oap.

(** *** Orders *)

Definition addOrder (order : Z) : Mb unit :=
  o ← order_get (Some order);
  oap ← gets (getOrdersAtPrice (d_price (data o)));
  match oap with
  | None =>
      order_mod (Some order) (set_prev_order (Some order));;
      order_mod (Some order) (set_next_order (Some order));;
      new_oap ← allocate_level
        (mkLevel (d_side (data o)) (d_price (data o)) (Some order) None None);
      match new_oap with
      | Some l => addOrdersAtPrice l
      | None => fail (UB "null price level")
      end
  | Some _ =>
      l ← level_get oap;
      let first := first_order_ l in
      f ← order_get first;
      let last := prev_order_ f in
      order_mod last (set_next_order (Some order));;
      order_mod (Some order) (set_prev_order last);;
      order_mod (Some order) (set_next_order first);;
      order_mod first (set_prev_order (Some order))
  end;;
  modify (λ b, set_order_index (<[ okey (data o) := order ]> (order_index_ b)) b).

(** [order->prev_order_ = order->next_order_ = nullptr] *)
Definition poison (order : option Z) : Mb unit :=
  order_mod order (set_prev_order None);;
  order_mod order (set_next_order None).

Definition removeOrder (order : option Z) : Mb unit :=
  o ← order_get order;
  let prev := prev_order_ o in
  let next := next_order_ o in
  (if lenient then mret tt else poison order);;
  oap ← gets (getOrdersAtPrice (d_price (data o)));
  (if bool_decide (prev = order) then removeOrdersAtPrice (d_side (data o)) (d_price (data o))
   else
     order_mod prev (set_next_order next);;
     order_mod next (set_prev_order prev);;
     if lenient && bool_decide (oap = None) then mret tt else
     l ← level_get oap;
     if bool_decide (first_order_ l = order)
     then level_mod oap (set_first_order next) else mret tt);;
  (if lenient then poison order else mret tt);;
  modify (λ b, set_order_index (delete (okey (data o)) (order_index_ b)) b);;
  deallocate_order order.
End LevelBook.

(** Field access laws for the sided head pointer. *)
Section head_laws.
Context {D K : Type} `{Inhabited D} `{Countable K}.
Implicit Types (b : LBook D K) (sd : Side.t).

Lemma head_ref_level_pool sd v b : head_ref sd (set_level_pool v b) = head_ref sd b.
Proof. done. Qed.
Lemma head_ref_order_pool sd v b : head_ref sd (set_order_pool v b) = head_ref sd b.
Proof. done. Qed.
Lemma head_ref_price_map sd v b : head_ref sd (set_price_map v b) = head_ref sd b.
Proof. done. Qed.
Lemma head_ref_order_index sd v b : head_ref sd (set_order_index v b) = head_ref sd b.
Proof. done. Qed.
Lemma head_ref_set sd v b : head_ref sd (set_head sd v b) = v.
Proof. unfold head_ref, set_head. by destruct (Side.eqb sd Side.BUY). Qed.
Lemma level_pool_set_head sd v b :
  orders_at_price_pool_ (set_head sd v b) = orders_at_price_pool_ b.
Proof. unfold set_head. by destruct (Side.eqb sd Side.BUY). Qed.
Lemma order_pool_set_head sd v b : order_pool_ (set_head sd v b) = order_pool_ b.
Proof. unfold set_head. by destruct (Side.eqb sd Side.BUY). Qed.
Lemma price_map_set_head sd v b :
  price_orders_at_price_ (set_head sd v b) = price_orders_at_price_ b.
Proof. unfold set_head. by destruct (Side.eqb sd Side.BUY). Qed.
Lemma order_index_set_head sd v b : order_index_ (set_head sd v b) = order_index_ b.
Proof. unfold set_head. by destruct (Side.eqb sd Side.BUY). Qed.
End head_laws.

#[export] Hint Rewrite @head_ref_level_pool @head_ref_order_pool @head_ref_price_map
  @head_ref_order_index @head_ref_set @level_pool_set_head @order_pool_set_head
  @price_map_set_head @order_index_set_head : book.
