(* ===== verification/LevelBookRep.v ===== *)
(** The heap of [LevelBook] represents two lists of price levels.

    [Rep sd b own oth] relates the pointer structure of a book to ghost lists
    of levels ([own] on side [sd], [oth] on the opposite side), each carrying
    its node pointer and its orders with theirs.  The lemmas [addOrder_new],
    [addOrder_append], [removeOrder_spec] and [order_data_spec] run the code
    on such a heap: no fault occurs and the result represents the updated
    lists. *)

From S2P Require Import Prelude Types MemPool CircularList LevelBook.

Record GLevel (D : Type) := mkG {
  g_ptr : Z;
  g_price : Price;
  g_orders : list (Z * D);
}.
Arguments mkG {D} _ _ _.
Arguments g_ptr {D} _.
Arguments g_price {D} _.
Arguments g_orders {D} _.

Definition opp (sd : Side.t) : Side.t :=
  match sd with Side.BUY => Side.SELL | _ => Side.BUY end.
Definition valid_side (sd : Side.t) : Prop := sd = Side.BUY ∨ sd = Side.SELL.

Lemma opp_valid sd : valid_side sd → valid_side (opp sd).
Proof. intros [-> | ->]; [right|left]; done. Qed.
Lemma opp_opp sd : valid_side sd → opp (opp sd) = sd.
Proof. by intros [-> | ->]. Qed.

(** A level at [new] is less aggressive than one at [t]. *)
Definition less_aggressive (sd : Side.t) (new t : Price) : bool :=
  (Side.eqb sd Side.SELL && (t <? new)) || (Side.eqb sd Side.BUY && (new <? t)).

Section rep.
Context {D K : Type} `{Inhabited D} `{Countable K} {ops : BookOps D K}.
Implicit Types (b : LBook D K) (sd : Side.t) (g : GLevel D) (own oth ls : list (GLevel D)).
Implicit Types (P : MemPool LevelNode) (Q : MemPool (Node D)).

Definition lnx P : links := λ q, next_entry_ (pool_get P q).
Definition lpv P : links := λ q, prev_entry_ (pool_get P q).
Definition onx Q : links := λ q, next_order_ (pool_get Q q).
Definition opv Q : links := λ q, prev_order_ (pool_get Q q).

Definition level_hdr P sd g : Prop :=
  let n := pool_get P (g_ptr g) in
  side_ n = sd ∧ price_ n = g_price g ∧ first_order_ n = fst <$> head (g_orders g).

Definition chain_rep P sd (hd : option Z) ls : Prop :=
  hd = head (g_ptr <$> ls) ∧ cdll (lnx P) (lpv P) (g_ptr <$> ls) ∧
  Forall (level_hdr P sd) ls.

Definition order_at Q sd (price : Price) (e : Z * D) : Prop :=
  data (pool_get Q e.1) = e.2 ∧ d_side e.2 = sd ∧ d_price e.2 = price.

Definition orders_rep Q sd g : Prop :=
  g_orders g ≠ [] ∧ cdll (onx Q) (opv Q) (g_orders g).*1 ∧
  Forall (order_at Q sd (g_price g)) (g_orders g).

Definition lptrs ls : list Z := g_ptr <$> ls.
Definition oents ls : list (Z * D) := ls ≫= g_orders.
Definition optrs ls : list Z := (oents ls).*1.
Definition lslots ls : list Z := (λ g, slot (g_price g)) <$> ls.
Definition okeys ls : list K := (λ e, okey e.2) <$> oents ls.
Definition pmap ls : gmap Z Z := list_to_map ((λ g, (slot (g_price g), g_ptr g)) <$> ls).
Definition oindex ls : gmap K Z := list_to_map ((λ e, (okey e.2, e.1)) <$> oents ls).

(** [xo]: order blocks allocated but not (yet) linked in the book. *)
Record RepX sd (xo : list Z) b own oth : Prop := {
  r_side : valid_side sd;
  r_own : chain_rep (orders_at_price_pool_ b) sd (head_ref sd b) own;
  r_oth : chain_rep (orders_at_price_pool_ b) (opp sd) (head_ref (opp sd) b) oth;
  r_oown : Forall (orders_rep (order_pool_ b) sd) own;
  r_ooth : Forall (orders_rep (order_pool_ b) (opp sd)) oth;
  r_lpool : pool_ok (orders_at_price_pool_ b) (lptrs (own ++ oth));
  r_opool : pool_ok (order_pool_ b) (xo ++ optrs (own ++ oth));
  r_slots : NoDup (lslots (own ++ oth));
  r_keys : NoDup (okeys (own ++ oth));
  r_pmap : price_orders_at_price_ b = pmap (own ++ oth);
  r_oindex : order_index_ b = oindex (own ++ oth);
}.
Abbreviation Rep sd := (RepX sd []).

(** *** Ghost-list lemmas *)

Lemma oents_app l k : oents (l ++ k) = oents l ++ oents k.
Proof. unfold oents. by rewrite bind_app. Qed.
Lemma oents_cons g l : oents (g :: l) = g_orders g ++ oents l.
Proof. done. Qed.
Lemma optrs_app l k : optrs (l ++ k) = optrs l ++ optrs k.
Proof. unfold optrs. by rewrite oents_app, fmap_app. Qed.
Lemma optrs_cons g l : optrs (g :: l) = (g_orders g).*1 ++ optrs l.
Proof. unfold optrs. by rewrite oents_cons, fmap_app. Qed.
Lemma okeys_app l k : okeys (l ++ k) = okeys l ++ okeys k.
Proof. unfold okeys. by rewrite oents_app, fmap_app. Qed.

#[export] Instance oents_perm : Proper ((≡ₚ) ==> (≡ₚ)) oents.
Proof. intros l k Hp. unfold oents. by rewrite Hp. Qed.
#[export] Instance optrs_perm : Proper ((≡ₚ) ==> (≡ₚ)) optrs.
Proof. intros l k Hp. unfold optrs. by rewrite Hp. Qed.
#[export] Instance lptrs_perm : Proper ((≡ₚ) ==> (≡ₚ)) lptrs.
Proof. intros l k Hp. unfold lptrs. by rewrite Hp. Qed.
#[export] Instance lslots_perm : Proper ((≡ₚ) ==> (≡ₚ)) lslots.
Proof. intros l k Hp. unfold lslots. by rewrite Hp. Qed.
#[export] Instance okeys_perm : Proper ((≡ₚ) ==> (≡ₚ)) okeys.
Proof. intros l k Hp. unfold okeys. by rewrite Hp. Qed.

Lemma pmap_perm l k : NoDup (lslots l) → l ≡ₚ k → pmap l = pmap k.
Proof.
  intros Hn Hp. unfold pmap. apply list_to_map_perm; [|by rewrite Hp].
  by rewrite <- list_fmap_compose.
Qed.
Lemma oindex_perm l k : NoDup (okeys l) → oents l ≡ₚ oents k → oindex l = oindex k.
Proof.
  intros Hn Hp. unfold oindex. apply list_to_map_perm; [|by rewrite Hp].
  by rewrite <- list_fmap_compose.
Qed.

Lemma elem_of_optrs e g ls : e ∈ g_orders g → g ∈ ls → e.1 ∈ optrs ls.
Proof.
  intros He Hg. unfold optrs. apply list_elem_of_fmap_2. unfold oents.
  apply list_elem_of_bind. eauto.
Qed.

Lemma RepX_swap sd xo b own oth : RepX sd xo b own oth → RepX (opp sd) xo b oth own.
Proof.
  intros [Hs Ho Ht Hoo Hot Hl Hq Hsl Hk Hpm Hom].
  assert (Hp : own ++ oth ≡ₚ oth ++ own) by apply Permutation_app_comm.
  split; rewrite ?(opp_opp sd) by done; try done.
  - by apply opp_valid.
  - by rewrite <- Hp.
  - by rewrite <- Hp.
  - by rewrite <- Hp.
  - by rewrite <- Hp.
  - rewrite Hpm. by apply pmap_perm.
  - rewrite Hom. apply oindex_perm; [done|]. by rewrite Hp.
Qed.

(** *** Frames *)

Lemma level_hdr_frame P P' sd g :
  (∀ q, q = g_ptr g → side_ (pool_get P' q) = side_ (pool_get P q) ∧
     price_ (pool_get P' q) = price_ (pool_get P q) ∧
     first_order_ (pool_get P' q) = first_order_ (pool_get P q)) →
  level_hdr P sd g → level_hdr P' sd g.
Proof. intros H'. unfold level_hdr. by destruct (H' _ eq_refl) as (-> & -> & ->). Qed.

Lemma chain_rep_frame P P' sd hd ls :
  (∀ q, q ∈ lptrs ls → pool_get P' q = pool_get P q) →
  chain_rep P sd hd ls → chain_rep P' sd hd ls.
Proof.
  intros Hq (Hh & Hc & Hf). split_and!; [done| |].
  - eapply cdll_frame; [|exact Hc]. intros q Hin. unfold lnx, lpv. by rewrite Hq.
  - rewrite Forall_forall in *. intros g Hg. eapply level_hdr_frame; [|by apply Hf].
    intros q ->. rewrite Hq; [done|]. unfold lptrs. by apply list_elem_of_fmap_2.
Qed.

Lemma orders_rep_frame Q Q' sd g :
  (∀ q, q ∈ (g_orders g).*1 → pool_get Q' q = pool_get Q q) →
  orders_rep Q sd g → orders_rep Q' sd g.
Proof.
  intros Hq (Hne & Hc & Hf). split_and!; [done| |].
  - eapply cdll_frame; [|exact Hc]. intros q Hin. unfold onx, opv. by rewrite Hq.
  - rewrite Forall_forall in *. intros e He. unfold order_at. rewrite Hq.
    + by apply Hf.
    + by apply list_elem_of_fmap_2.
Qed.

Lemma orders_rep_frames Q Q' sd ls :
  (∀ q, q ∈ optrs ls → pool_get Q' q = pool_get Q q) →
  Forall (orders_rep Q sd) ls → Forall (orders_rep Q' sd) ls.
Proof.
  intros Hq Hf. rewrite Forall_forall in *. intros g Hg.
  eapply orders_rep_frame; [|by apply Hf]. intros q (e & -> & He)%list_elem_of_fmap.
  apply Hq. by eapply elem_of_optrs.
Qed.

Lemma head_ref_set_opp sd v b : head_ref (opp sd) (set_head sd v b) = head_ref (opp sd) b.
Proof. by destruct sd. Qed.
End rep.

#[export] Hint Rewrite @head_ref_set_opp : book.

(** Run straight-line code on a known heap. *)
Ltac mexec :=
  unfold level_get, level_mod, order_get, order_mod,
    mbind, M_bind, mret, M_ret, gets, modify, fail, get, put;
  cbn [orders_at_price_pool_ order_pool_ price_orders_at_price_ order_index_
       bids_by_price_ asks_by_price_ set_level_pool set_order_pool set_price_map
       set_order_index set_bids set_asks data prev_order_ next_order_
       side_ price_ first_order_ prev_entry_ next_entry_ fst snd];
  autorewrite with book;
  cbn [orders_at_price_pool_ order_pool_ price_orders_at_price_ order_index_
       set_level_pool set_order_pool set_price_map set_order_index].

(** Lookup in a modified pool, pointer by pointer. *)
Ltac pool_cases :=
  rewrite ?pool_get_mod; repeat case_decide; subst; cbn; try done; try congruence.

Section levels.
Context {D K : Type} `{Inhabited D} `{Countable K} {ops : BookOps D K}.
Implicit Types (b : LBook D K) (sd : Side.t) (g : GLevel D) (own oth ls : list (GLevel D)).
Implicit Types (P : MemPool LevelNode) (Q : MemPool (Node D)).

Definition adv_g sd (price : Price) g : bool := less_aggressive sd price (g_price g).

Lemma shouldAdvance_hdr P sd n g :
  side_ n = sd → level_hdr P sd g →
  shouldAdvance n (pool_get P (g_ptr g)) = adv_g sd (price_ n) g.
Proof.
  intros Hs (_ & Hp & _). unfold shouldAdvance, adv_g, less_aggressive. by rewrite Hs, Hp.
Qed.

(** The walk stops at the first level that is not more aggressive, or at the
    last level. *)
Lemma walk_levels_spec b sd n hd (l1 : list (GLevel D)) g l2 fuel :
  side_ n = sd →
  chain_rep (orders_at_price_pool_ b) sd hd (l1 ++ g :: l2) →
  NoDup (lptrs (l1 ++ g :: l2)) →
  (length l2 ≤ fuel)%nat →
  ∃ k1 u k2, g :: l2 = k1 ++ u :: k2 ∧
    Forall (λ t, adv_g sd (price_ n) t = true) k1 ∧
    (adv_g sd (price_ n) u = false ∨ adv_g sd (price_ n) u = true ∧ k2 = []) ∧
    walk_levels fuel n hd (Some (g_ptr g)) b = Ok (Some (g_ptr u), b).
Proof.
  intros Hs (Hh & Hc & Hf) Hnd. revert l1 g Hh Hc Hf Hnd fuel.
  induction l2 as [|g' l2 IH]; intros l1 g Hh Hc Hf Hnd fuel Hfuel.
  - exists [], g, []. split_and!; [done|constructor| |].
    + destruct (adv_g sd (price_ n) g); auto.
    + assert (Hg : level_hdr (orders_at_price_pool_ b) sd g).
      { rewrite Forall_forall in Hf. apply Hf. set_solver. }
      assert (Hlast : next_entry_ (pool_get (orders_at_price_pool_ b) (g_ptr g)) = hd).
      { rewrite fmap_app in Hc, Hh. simpl in *.
        destruct l1 as [|h l1]; simpl in *; subst hd.
        - by destruct Hc.
        - eapply (cdll_head _ _ _ _ (g_ptr g)) in Hc; [by destruct Hc|].
          by rewrite app_comm_cons, last_snoc. }
      destruct fuel; cbn [walk_levels]; mexec; rewrite Hlast, bool_decide_true by done;
        rewrite andb_false_r; done.
  - assert (Hg : level_hdr (orders_at_price_pool_ b) sd g).
    { rewrite Forall_forall in Hf. apply Hf. set_solver. }
    assert (Hnx : next_entry_ (pool_get (orders_at_price_pool_ b) (g_ptr g)) = Some (g_ptr g')).
    { rewrite fmap_app in Hc. by apply cdll_next in Hc as [? _]. }
    assert (Hne : Some (g_ptr g') ≠ hd).
    { rewrite Hh. unfold lptrs in Hnd. rewrite fmap_app in Hnd |- *. simpl in *.
      destruct l1; simpl in *; intros [=]; repeat (rewrite NoDup_cons in Hnd); set_solver. }
    destruct (adv_g sd (price_ n) g) eqn:Ea.
    + destruct fuel as [|fuel]; [simpl in Hfuel; lia|].
      destruct (IH (l1 ++ [g]) g') with (fuel := fuel) as (k1 & u & k2 & Hk & Hk1 & Hu & Hw).
      * by rewrite <- (assoc (++)).
      * by rewrite <- (assoc (++)).
      * by rewrite <- (assoc (++)).
      * by rewrite <- (assoc (++)).
      * simpl in Hfuel. lia.
      * exists (g :: k1), u, k2. split_and!; [by rewrite Hk|by constructor|done|].
        cbn [walk_levels]. mexec.
        rewrite (shouldAdvance_hdr _ sd), Ea, Hnx, bool_decide_false by done. done.
    + exists [], g, (g' :: l2). split_and!; [done|constructor|by left|].
      destruct fuel; cbn [walk_levels]; mexec;
        rewrite (shouldAdvance_hdr _ sd), Ea by done; done.
Qed.
(** What linking and unlinking levels leaves alone. *)
Definition same_blocks P P' : Prop :=
  (∀ ps, pool_ok P' ps ↔ pool_ok P ps) ∧ mp_size P' = mp_size P ∧
  ∀ q, side_ (pool_get P' q) = side_ (pool_get P q) ∧
       price_ (pool_get P' q) = price_ (pool_get P q) ∧
       first_order_ (pool_get P' q) = first_order_ (pool_get P q).

Lemma same_blocks_mod P P' f i :
  same_blocks P P' →
  (∀ n, side_ (f n) = side_ n ∧ price_ (f n) = price_ n ∧ first_order_ (f n) = first_order_ n) →
  same_blocks P (pool_mod f i P').
Proof.
  intros (Hp & Hm & Hq) Hf. split_and!.
  - intros ps. by rewrite pool_ok_mod.
  - done.
  - intros q. rewrite <- !(proj1 (Hq q)), <- !(proj1 (proj2 (Hq q))), <- !(proj2 (proj2 (Hq q))).
    rewrite pool_get_mod. case_decide; [|done]. apply Hf.
Qed.

Lemma same_blocks_refl P : same_blocks P P.
Proof. by split_and!. Qed.

Lemma level_hdrs_same P P' sd ls :
  same_blocks P P' → Forall (level_hdr P sd) ls → Forall (level_hdr P' sd) ls.
Proof.
  intros (_ & _ & Hq) Hf. eapply Forall_impl; [exact Hf|]. intros g. apply level_hdr_frame.
  intros; apply Hq.
Qed.


(** Splicing a level in leaves the other side alone and links it in its own. *)
Lemma chain_rep_insert P P' sd sd' hd hd' oth l1 l2 g t x :
  same_blocks P P' →
  Forall (level_hdr P sd) (l1 ++ l2) → level_hdr P sd g →
  NoDup (lptrs (g :: (l1 ++ l2) ++ oth)) →
  t ∈ lptrs (l1 ++ l2) → x ∈ lptrs (l1 ++ l2) →
  spliced_in (lnx P) (lpv P) (lnx P') (lpv P') t (g_ptr g) x →
  cdll (lnx P') (lpv P') (lptrs (l1 ++ g :: l2)) →
  hd' = head (lptrs (l1 ++ g :: l2)) →
  chain_rep P sd' hd oth →
  chain_rep P' sd hd' (l1 ++ g :: l2) ∧ chain_rep P' sd' hd oth.
Proof.
  intros Hsame Hf Hg Hnd Ht Hx (Hn1 & _ & _ & Hp1 & _ & _) Hc Hhd (Hh & Hco & Hfo). split.
  - split_and!; [done|done|]. eapply level_hdrs_same; [done|].
    rewrite Forall_app in *. rewrite Forall_cons. tauto.
  - split_and!; [done| |by eapply level_hdrs_same].
    eapply cdll_frame; [|exact Hco]. intros q Hq.
    unfold lptrs in *. rewrite fmap_cons, fmap_app in Hnd.
    apply NoDup_cons in Hnd as [Hgn Hnd]. apply NoDup_app in Hnd as (_ & Hdis & _).
    assert (q ≠ g_ptr g) by (intros ->; set_solver).
    assert (q ≠ t) by (intros ->; naive_solver).
    assert (q ≠ x) by (intros ->; naive_solver).
    split; [by apply Hn1|by apply Hp1].
Qed.

Lemma insert_where_all {A} (adv : A → bool) x l :
  Forall (λ t, adv t = true) l → insert_where adv x l = l ++ [x].
Proof. intros Hl. rewrite <- (app_nil_r l) at 1. by apply insert_where_app. Qed.

Lemma addOrdersAtPrice_spec sd b own oth g :
  valid_side sd →
  chain_rep (orders_at_price_pool_ b) sd (head_ref sd b) own →
  chain_rep (orders_at_price_pool_ b) (opp sd) (head_ref (opp sd) b) oth →
  NoDup (lptrs (g :: own ++ oth)) →
  level_hdr (orders_at_price_pool_ b) sd g →
  (length own ≤ S (size (price_orders_at_price_ b)))%nat →
  ∃ b', addOrdersAtPrice (g_ptr g) b = Ok (tt, b') ∧
    chain_rep (orders_at_price_pool_ b') sd (head_ref sd b')
      (insert_where (adv_g sd (g_price g)) g own) ∧
    chain_rep (orders_at_price_pool_ b') (opp sd) (head_ref (opp sd) b') oth ∧
    order_pool_ b' = order_pool_ b ∧ order_index_ b' = order_index_ b ∧
    price_orders_at_price_ b' = <[ slot (g_price g) := g_ptr g ]> (price_orders_at_price_ b) ∧
    same_blocks (orders_at_price_pool_ b) (orders_at_price_pool_ b').
Proof.
  intros Hs Hown Hoth Hnd Hg Hsz.
  assert (Hside : side_ (pool_get (orders_at_price_pool_ b) (g_ptr g)) = sd) by apply Hg.
  assert (Hprice : price_ (pool_get (orders_at_price_pool_ b) (g_ptr g)) = g_price g) by apply Hg.
  unfold addOrdersAtPrice.
  set (n := pool_get (orders_at_price_pool_ b) (g_ptr g)) in *.
  change (level_get (Some (g_ptr g)))
    with (gets (λ b, pool_get (orders_at_price_pool_ b) (g_ptr g)) : M (LBook D K) LevelNode).
  rewrite bind_gets. fold n. rewrite bind_modify, bind_gets, Hside, Hprice.
  set (b1 := set_price_map _ b).
  assert (E : head_ref sd b1 = head (lptrs own)).
  { transitivity (head_ref sd b); [by destruct Hs as [-> | ->]|apply Hown]. }
  rewrite E.
  destruct own as [|h own].
  - simpl. mexec. eexists. split; [done|]. mexec. simpl in Hnd.
    subst b1. set (P := orders_at_price_pool_ b) in *. cbn [set_price_map orders_at_price_pool_].
    fold P.
    set (P' := pool_mod _ _ _).
    assert (Hsame : same_blocks P P').
    { do 2 (apply same_blocks_mod; [|done]). apply same_blocks_refl. }
    apply NoDup_cons in Hnd as [Hgn Hnd].
    assert (Hfr : ∀ q, q ≠ g_ptr g → pool_get P' q = pool_get P q).
    { intros q Hq. unfold P'. pool_cases. }
    split_and!; try done.
    + split_and!; [done| |eapply level_hdrs_same; [done|]; by constructor].
      apply cdll_singleton; unfold lnx, lpv, P'; pool_cases.
    + eapply chain_rep_frame; [|exact Hoth]. intros q Hq. apply Hfr. by intros ->.
  - change (head (lptrs (h :: own))) with (Some (g_ptr h)). cbv beta iota. rewrite bind_gets.
    assert (Hnd' : NoDup (lptrs (h :: own))).
    { simpl in Hnd. apply NoDup_cons in Hnd as [_ Hnd]. unfold lptrs in *.
      rewrite fmap_app, app_comm_cons in Hnd. apply NoDup_app in Hnd as [Hnd _]. exact Hnd. }
    destruct (walk_levels_spec b1 sd n (Some (g_ptr h)) [] h own
      (size (price_orders_at_price_ b1))) as (k1 & u & k2 & Hk & Hk1 & Hu & Hw).
    + done.
    + destruct Hown as (_ & ? & ?). by split_and!.
    + done.
    + simpl in *. rewrite map_size_insert. destruct (price_orders_at_price_ b !! _); simpl; lia.
    + mrun Hw. rewrite Hprice in *. set (own' := h :: own) in *.
      set (P := orders_at_price_pool_ b) in *.
      assert (Hghd : g_ptr g ∉ lptrs own' ∧ g_ptr g ∉ lptrs oth).
      { unfold lptrs in *. rewrite fmap_cons, fmap_app, NoDup_cons in Hnd. set_solver. }
      destruct Hown as (_ & Hco & Hfo). change (g_ptr <$> own') with (lptrs own') in Hco.
      assert (Hadv : shouldAdvance n (pool_get P (g_ptr u)) = adv_g sd (g_price g) u).
      { rewrite <- Hprice. apply (shouldAdvance_hdr P); [done|].
        rewrite Forall_forall in Hfo. apply Hfo. rewrite Hk. set_solver. }
      change (level_get (Some (g_ptr u)))
        with (gets (λ b, pool_get (orders_at_price_pool_ b) (g_ptr u)) : M (LBook D K) LevelNode).
      rewrite bind_gets. change (orders_at_price_pool_ b1) with P. rewrite Hadv.
      destruct (adv_g sd (g_price g) u) eqn:Eu.
      * destruct Hu as [|[_ ->]]; [done|].
        destruct (cdll_append (lnx P) (lpv P) (g_ptr h) (lptrs own) (g_ptr g))
          as (t & Hlast & Hpv & Hnx & Hin & Hins); [done..|apply Hghd|].
        assert (t = g_ptr u) as ->.
        { change (last (lptrs own') = Some t) in Hlast. rewrite Hk in Hlast.
          unfold lptrs in Hlast. rewrite fmap_app, (last_snoc (g_ptr u)) in Hlast. by simplify_eq. }
        unfold lnx in Hnx. rewrite Hnx.
        assert (Hneq : g_ptr g ≠ g_ptr u ∧ g_ptr g ≠ g_ptr h).
        { destruct Hghd as [Hgh _]. split; intros E'; apply Hgh; rewrite E'; [done|by left]. }
        mexec. eexists. split; [done|]. mexec. subst b1. cbn [set_price_map orders_at_price_pool_].
        fold P. set (P' := pool_mod _ _ _).
        assert (Hsame : same_blocks P P').
        { do 4 (apply same_blocks_mod; [|done]). apply same_blocks_refl. }
        rewrite (insert_where_all _ _ own').
        2:{ rewrite Hk, Forall_app, Forall_singleton. done. }
        assert (Hspl : spliced_in (lnx P) (lpv P) (lnx P') (lpv P') (g_ptr u) (g_ptr g) (g_ptr h)).
        { destruct Hneq. unfold lnx, lpv, P'. split_and!; intros; pool_cases. }
        assert (HH : chain_rep P' sd (head_ref sd b) (own' ++ g :: []) ∧
                     chain_rep P' (opp sd) (head_ref (opp sd) b) oth).
        { eapply (chain_rep_insert P P' sd (opp sd) _ _ _ _ _ _ _ (g_ptr h)); rewrite ?app_nil_r; try done.
          - by left.
          - unfold lptrs, own'. rewrite fmap_app. simpl. apply Hins. done. }
        split_and!; try done; apply HH.
      * assert (Hown : own' = k1 ++ u :: k2) by done.
        rewrite Hown in Hco, Hfo. unfold lptrs in Hco. rewrite fmap_app in Hco. simpl in Hco.
        destruct (cdll_insert_before _ _ _ _ _ (g_ptr g) Hco) as (t & Hpv & Hin & Hins).
        { rewrite Hown in Hnd'. unfold lptrs in Hnd'. rewrite fmap_app in Hnd'. done. }
        { destruct Hghd as [Hgh _]. rewrite Hown in Hgh. unfold lptrs in Hgh.
          rewrite fmap_app in Hgh. done. }
        unfold lpv in Hpv. rewrite Hpv.
        assert (Hin' : t ∈ lptrs own').
        { rewrite Hown. unfold lptrs. rewrite fmap_app. done. }
        assert (Huin : g_ptr u ∈ lptrs own').
        { rewrite Hown. unfold lptrs. rewrite fmap_app. set_solver. }
        assert (Hneq : g_ptr g ≠ g_ptr u ∧ g_ptr g ≠ t).
        { destruct Hghd as [Hgh _]. split; intros E'; apply Hgh; rewrite E'; done. }
        rewrite Hown, insert_where_app; [|done|intros ? [=]; by subst].
        mexec.
        assert (Hhd : ∃ b', (if bool_decide (Some (g_ptr h) = Some (g_ptr u))
           then modify (set_head sd (Some (g_ptr g))) else mret tt : M (LBook D K) unit)
           (set_level_pool (pool_mod (set_prev_entry (Some (g_ptr g))) (g_ptr u)
              (pool_mod (set_next_entry (Some (g_ptr u))) (g_ptr g)
              (pool_mod (set_prev_entry (Some t)) (g_ptr g)
              (pool_mod (set_next_entry (Some (g_ptr g))) t P)))) b1) = Ok (tt, b') ∧
           head_ref sd b' = head (lptrs (k1 ++ g :: u :: k2)) ∧
           head_ref (opp sd) b' = head_ref (opp sd) b ∧
           orders_at_price_pool_ b' = (pool_mod (set_prev_entry (Some (g_ptr g))) (g_ptr u)
              (pool_mod (set_next_entry (Some (g_ptr u))) (g_ptr g)
              (pool_mod (set_prev_entry (Some t)) (g_ptr g)
              (pool_mod (set_next_entry (Some (g_ptr g))) t P)))) ∧
           order_pool_ b' = order_pool_ b ∧ order_index_ b' = order_index_ b ∧
           price_orders_at_price_ b' = price_orders_at_price_ b1).
        { case_bool_decide as Ehu.
          - eexists. split; [done|]. mexec. split_and!; try done.
            destruct k1 as [|h' k1]; [done|]. exfalso.
            unfold own' in Hown. injection Hown as -> Hown. unfold own' in Hnd'. rewrite Hown in Hnd'. simpl in Hnd'.
            apply NoDup_cons in Hnd' as [Hn' _]. apply Hn'. injection Ehu as ->. unfold lptrs.
            rewrite fmap_app. set_solver.
          - eexists. split; [done|]. split_and!; try done. autorewrite with book. rewrite E.
            unfold own' in Hown. destruct k1 as [|h' k1]; by injection Hown as -> ?. }
        destruct Hhd as (b' & Hrun & Hh1 & Hh2 & HP' & HQ & HO & HM).
        exists b'. split; [exact Hrun|]. rewrite Hh2, HP', HQ, HO, HM.
        set (P' := pool_mod _ _ _).
        assert (Hsame : same_blocks P P').
        { do 4 (apply same_blocks_mod; [|done]). apply same_blocks_refl. }
        assert (Hspl : spliced_in (lnx P) (lpv P) (lnx P') (lpv P') t (g_ptr g) (g_ptr u)).
        { destruct Hneq. unfold lnx, lpv, P'. split_and!; intros; pool_cases. }
        assert (HH : chain_rep P' sd (head_ref sd b') (k1 ++ g :: u :: k2) ∧
                     chain_rep P' (opp sd) (head_ref (opp sd) b) oth).
        { eapply (chain_rep_insert P P' sd (opp sd) _ _ _ _ _ _ t (g_ptr u)); try done.
          - by rewrite <- Hown.
          - by rewrite <- Hown.
          - by rewrite <- Hown.
          - unfold lptrs. rewrite fmap_app. simpl. by apply Hins. }
        split_and!; try done; apply HH.
Qed.
Lemma deallocate_level_spec b i ps :
  pool_ok (orders_at_price_pool_ b) (i :: ps) →
  ∃ P', deallocate_level (Some i) b = Ok (tt, set_level_pool P' b) ∧ pool_ok P' ps ∧
    mp_size P' = mp_size (orders_at_price_pool_ b) ∧
    ∀ q, pool_get P' q = pool_get (orders_at_price_pool_ b) q.
Proof.
  intros Hok. destruct (deallocate_spec _ _ _ Hok) as (P' & HP & Hok' & Hsz & Hq).
  exists P'. split_and!; try done. unfold deallocate_level. by rewrite HP.
Qed.

(** The pointer part of [removeOrdersAtPrice]. *)
Definition unlink_level sd (oap : option Z) (l : LevelNode) : M (LBook D K) unit :=
  if bool_decide (next_entry_ l = oap) then modify (set_head sd None)
  else
    level_mod (prev_entry_ l) (set_next_entry (next_entry_ l));;
    level_mod (next_entry_ l) (set_prev_entry (prev_entry_ l));;
    head ← gets (head_ref sd);
    (if bool_decide (head = oap) then modify (set_head sd (next_entry_ l)) else mret tt);;
    level_mod oap (set_prev_entry None);;
    level_mod oap (set_next_entry None).

Lemma unlink_level_spec sd b l1 g l2 oth :
  valid_side sd →
  chain_rep (orders_at_price_pool_ b) sd (head_ref sd b) (l1 ++ g :: l2) →
  chain_rep (orders_at_price_pool_ b) (opp sd) (head_ref (opp sd) b) oth →
  NoDup (lptrs (g :: (l1 ++ l2) ++ oth)) →
  ∃ b', unlink_level sd (Some (g_ptr g)) (pool_get (orders_at_price_pool_ b) (g_ptr g)) b
        = Ok (tt, b') ∧
    chain_rep (orders_at_price_pool_ b') sd (head_ref sd b') (l1 ++ l2) ∧
    chain_rep (orders_at_price_pool_ b') (opp sd) (head_ref (opp sd) b') oth ∧
    order_pool_ b' = order_pool_ b ∧ order_index_ b' = order_index_ b ∧
    price_orders_at_price_ b' = price_orders_at_price_ b ∧
    same_blocks (orders_at_price_pool_ b) (orders_at_price_pool_ b').
Proof.
  intros Hs (Hh & Hc & Hf) Hoth Hnd. set (P := orders_at_price_pool_ b) in *.
  rewrite fmap_app in Hc, Hh. cbn in Hc, Hh.
  unfold lptrs in Hnd. rewrite fmap_cons, fmap_app, fmap_app, NoDup_cons in Hnd.
  destruct Hnd as [Hgn Hnd]. pose proof Hnd as Hnd0. apply NoDup_app_inv in Hnd as (Hnd & _ & Hdis).
  set (p1 := g_ptr <$> l1) in *. set (p2 := g_ptr <$> l2) in *.
  assert (Hnd1 : NoDup (p1 ++ g_ptr g :: p2)).
  { apply NoDup_mid. split; [|done]. intros ?; apply Hgn; set_solver. }
  assert (Hf' : Forall (level_hdr P sd) (l1 ++ l2)).
  { rewrite Forall_app, Forall_cons in *. tauto. }
  unfold unlink_level. change (next_entry_ (pool_get P (g_ptr g))) with (lnx P (g_ptr g)).
  change (prev_entry_ (pool_get P (g_ptr g))) with (lpv P (g_ptr g)).
  case_bool_decide as Enx.
  - assert (Hc' : p1 ++ g_ptr g :: p2 = [g_ptr g]) by (eapply cdll_self_next; [done..|set_solver|done]).
    assert (E0 : p1 ++ p2 = []) by (destruct (p1 ++ p2) eqn:E0; [done|]; apply (f_equal length) in Hc', E0; rewrite length_app in Hc', E0; simpl in Hc', E0; lia).
    apply app_eq_nil in E0 as [E1 E2]. unfold p1, p2 in E1, E2.
    apply fmap_nil_inv in E1, E2. subst l1 l2.
    eexists. split; [done|]. autorewrite with book. split_and!; done.
  - destruct (cdll_remove _ _ _ _ _ Hc Hnd1) as (p & nx & Hpv & Hnx & Hpin & Hnin & Hhd & Hout).
    { intros E. apply app_eq_nil in E as [E1 E2]. rewrite E1, E2 in Hc. by destruct Hc. }
    rewrite Hpv, Hnx. mexec.
    set (P' := pool_mod (set_next_entry None) (g_ptr g) (pool_mod (set_prev_entry None) (g_ptr g)
       (pool_mod (set_prev_entry (Some p)) nx (pool_mod (set_next_entry (Some nx)) p P)))).
    assert (Hhead : head_ref sd b = Some (g_ptr g) ∧ p1 = [] ∧ head (p1 ++ p2) = Some nx ∨
                    head_ref sd b ≠ Some (g_ptr g) ∧ head_ref sd b = head (p1 ++ p2)).
    { rewrite Hh. destruct p1 as [|q p1]; simpl.
      - left. rewrite app_nil_r in Hhd. done.
      - right. split; [|done]. intros [= ->]. set_solver. }
    assert (Hsame : same_blocks P P').
    { do 4 (apply same_blocks_mod; [|done]). apply same_blocks_refl. }
    assert (Hneq : p ≠ g_ptr g ∧ nx ≠ g_ptr g) by set_solver.
    assert (Hspl : spliced_out (lnx P) (lpv P) (lnx P') (lpv P') p (g_ptr g) nx).
    { destruct Hneq. unfold lnx, lpv, P'. split_and!; intros; pool_cases. }
    exists (set_level_pool P' (if bool_decide (head_ref sd b = Some (g_ptr g))
                              then set_head sd (Some nx) b else b)).
    split.
    { case_bool_decide; mexec; destruct Hs as [-> | ->]; done. }
    autorewrite with book. cbn [orders_at_price_pool_ set_level_pool].
    split_and!; try (by case_bool_decide; mexec); try done.
    + split_and!; [| |by eapply level_hdrs_same].
      * rewrite fmap_app. case_bool_decide; autorewrite with book; naive_solver.
      * rewrite fmap_app. by apply Hout.
    + destruct Hoth as (Hho & Hco & Hfo). split_and!; [| |by eapply level_hdrs_same].
      * case_bool_decide; autorewrite with book; done.
      * eapply cdll_frame; [|exact Hco]. intros q Hq.
        assert (q ≠ g_ptr g) by (intros ->; set_solver).
        assert (q ≠ p) by (intros ->; naive_solver).
        assert (q ≠ nx) by (intros ->; naive_solver).
        unfold lnx, lpv, P'. pool_cases.
Qed.

Lemma removeOrdersAtPrice_spec sd b l1 g l2 oth :
  valid_side sd →
  chain_rep (orders_at_price_pool_ b) sd (head_ref sd b) (l1 ++ g :: l2) →
  chain_rep (orders_at_price_pool_ b) (opp sd) (head_ref (opp sd) b) oth →
  pool_ok (orders_at_price_pool_ b) (lptrs (g :: (l1 ++ l2) ++ oth)) →
  price_orders_at_price_ b !! slot (g_price g) = Some (g_ptr g) →
  ∃ b', removeOrdersAtPrice sd (g_price g) b = Ok (tt, b') ∧
    chain_rep (orders_at_price_pool_ b') sd (head_ref sd b') (l1 ++ l2) ∧
    chain_rep (orders_at_price_pool_ b') (opp sd) (head_ref (opp sd) b') oth ∧
    order_pool_ b' = order_pool_ b ∧ order_index_ b' = order_index_ b ∧
    price_orders_at_price_ b' = delete (slot (g_price g)) (price_orders_at_price_ b) ∧
    pool_ok (orders_at_price_pool_ b') (lptrs ((l1 ++ l2) ++ oth)) ∧
    mp_size (orders_at_price_pool_ b') = mp_size (orders_at_price_pool_ b).
Proof.
  intros Hs Hown Hoth Hok Hm.
  destruct (unlink_level_spec sd b l1 g l2 oth) as (b1 & Hrun & Ho & Ht & HQ & HO & HM & Hsame);
    [done..|apply Hok|].
  set (b2 := set_price_map (delete (slot (g_price g)) (price_orders_at_price_ b1)) b1).
  destruct (deallocate_level_spec b2 (g_ptr g) (lptrs ((l1 ++ l2) ++ oth)))
    as (P' & HP & Hok' & Hsz & Hq).
  { apply Hsame. exact Hok. }
  exists (set_level_pool P' b2). split.
  { unfold removeOrdersAtPrice. rewrite bind_gets. unfold getOrdersAtPrice. rewrite Hm.
    rewrite bool_decide_false, andb_false_r by done. unfold level_get. rewrite bind_gets.
    erewrite bind_Ok by exact Hrun. rewrite bind_modify. exact HP. }
  autorewrite with book. cbn [orders_at_price_pool_ order_pool_ order_index_
    price_orders_at_price_ set_level_pool].
  split_and!; try done.
  - eapply chain_rep_frame; [|subst b2; autorewrite with book; exact Ho]. intros. apply Hq.
  - eapply chain_rep_frame; [|subst b2; autorewrite with book; exact Ht]. intros. apply Hq.
  - subst b2. cbn. by rewrite HM.
  - rewrite Hsz. apply Hsame.
Qed.
End levels.
