(* ===== verification/LevelBookOps.v ===== *)
(** Running the operations of [LevelBook] on a represented book: linking and
    unlinking orders, and the four specifications the order books use. *)

From S2P Require Import Prelude Types MemPool CircularList LevelBook LevelBookRep.

Section orders.
Context {D K : Type} `{Inhabited D} `{Countable K} {ops : BookOps D K}.
Implicit Types (b : LBook D K) (sd : Side.t) (g : GLevel D) (own oth ls : list (GLevel D)).
Implicit Types (P : MemPool LevelNode) (Q : MemPool (Node D)).

(** What linking and unlinking orders leaves alone. *)
Definition same_data Q Q' : Prop :=
  (∀ ps, pool_ok Q' ps ↔ pool_ok Q ps) ∧ mp_size Q' = mp_size Q ∧
  ∀ q, data (pool_get Q' q) = data (pool_get Q q).

Lemma same_data_mod Q Q' f i :
  same_data Q Q' → (∀ n, data (f n) = data n) → same_data Q (pool_mod f i Q').
Proof.
  intros (Hp & Hm & Hq) Hf. split_and!.
  - intros ps. by rewrite pool_ok_mod.
  - done.
  - intros q. rewrite <- Hq, pool_get_mod. case_decide; [apply Hf|done].
Qed.

Lemma same_data_refl Q : same_data Q Q.
Proof. by split_and!. Qed.

Lemma orders_at_same Q Q' sd price es :
  same_data Q Q' → Forall (order_at Q sd price) es → Forall (order_at Q' sd price) es.
Proof.
  intros (_ & _ & Hq) Hf. eapply Forall_impl; [exact Hf|]. intros e.
  unfold order_at. by rewrite Hq.
Qed.

(** Linking [p] at the tail of a level. *)
Definition link_order (p f t : Z) Q : MemPool (Node D) :=
  pool_mod (set_prev_order (Some p)) f (pool_mod (set_next_order (Some f)) p
    (pool_mod (set_prev_order (Some t)) p (pool_mod (set_next_order (Some p)) t Q))).

Lemma link_order_spec Q sd g p d :
  orders_rep Q sd g → NoDup (p :: (g_orders g).*1) → order_at Q sd (g_price g) (p, d) →
  ∃ f t, (fst <$> head (g_orders g)) = Some f ∧ prev_order_ (pool_get Q f) = Some t ∧
    f ∈ (g_orders g).*1 ∧ t ∈ (g_orders g).*1 ∧
    orders_rep (link_order p f t Q) sd (mkG (g_ptr g) (g_price g) (g_orders g ++ [(p, d)])).
Proof.
  intros (Hne & Hc & Hf) [Hp Hnd]%NoDup_cons Hat.
  destruct (g_orders g) as [|[f d0] os] eqn:Eg; [done|]. cbn in Hc, Hp, Hnd.
  destruct (cdll_append _ _ _ _ p Hc Hnd Hp) as (t & _ & Hpv & _ & Hin & Hins).
  exists f, t. split_and!; [done|done|by left|done|].
  set (Q' := link_order p f t Q).
  assert (Hsame : same_data Q Q').
  { unfold Q', link_order. do 4 (apply same_data_mod; [|done]). apply same_data_refl. }
  assert (Hneq : p ≠ f ∧ p ≠ t) by set_solver. destruct Hneq.
  split_and!; cbn [g_orders g_price g_ptr].
  - done.
  - rewrite fmap_app. apply Hins. unfold onx, opv, Q', link_order.
    split_and!; intros; pool_cases.
  - eapply orders_at_same; [done|]. cbn [g_price]. rewrite Forall_app, Forall_singleton. done.
Qed.

(** A first order alone in its level. *)
Lemma lone_order_spec Q sd i price p d :
  order_at Q sd price (p, d) →
  orders_rep (pool_mod (set_next_order (Some p)) p (pool_mod (set_prev_order (Some p)) p Q))
    sd (mkG i price [(p, d)]).
Proof.
  intros Hat. set (Q' := pool_mod _ _ _).
  assert (Hsame : same_data Q Q').
  { unfold Q'. do 2 (apply same_data_mod; [|done]). apply same_data_refl. }
  split_and!; cbn [g_orders g_price].
  - done.
  - apply cdll_singleton; unfold onx, opv, Q'; pool_cases.
  - eapply orders_at_same; [done|]. by rewrite Forall_singleton.
Qed.

(** Unlinking [p] from a level of at least two orders. *)
Definition unlink_order (p pr nx : Z) Q : MemPool (Node D) :=
  pool_mod (set_prev_order (Some pr)) nx (pool_mod (set_next_order (Some nx)) pr
    (pool_mod (set_next_order None) p (pool_mod (set_prev_order None) p Q))).

Lemma unlink_order_spec Q sd g p d o1 o2 :
  orders_rep Q sd g → g_orders g = o1 ++ (p, d) :: o2 → NoDup (g_orders g).*1 →
  o1 ++ o2 ≠ [] →
  ∃ pr nx, prev_order_ (pool_get Q p) = Some pr ∧ next_order_ (pool_get Q p) = Some nx ∧
    pr ∈ (o1 ++ o2).*1 ∧ nx ∈ (o1 ++ o2).*1 ∧ pr ≠ p ∧
    head (o2 ++ o1).*1 = Some nx ∧
    orders_rep (unlink_order p pr nx Q) sd (mkG (g_ptr g) (g_price g) (o1 ++ o2)).
Proof.
  intros (Hne & Hc & Hf) Eg Hnd Hne'. rewrite Eg in *. rewrite fmap_app in Hc, Hnd. cbn in Hc, Hnd.
  destruct (cdll_remove _ _ _ _ _ Hc Hnd) as (pr & nx & Hpv & Hnx & Hpin & Hnin & Hhd & Hout).
  { intros E. rewrite <- fmap_app in E. by apply fmap_nil_inv in E. }
  apply NoDup_mid in Hnd as [Hp Hnd]. rewrite <- fmap_app in *.
  assert (Hneq : pr ≠ p ∧ nx ≠ p) by set_solver.
  exists pr, nx. split_and!; try done; [apply Hneq|].
  set (Q' := unlink_order p pr nx Q).
  assert (Hsame : same_data Q Q').
  { unfold Q', unlink_order. do 4 (apply same_data_mod; [|done]). apply same_data_refl. }
  destruct Hneq. split_and!; cbn [g_orders g_price]; [done| |].
  - rewrite fmap_app in *. apply Hout. unfold onx, opv, Q', unlink_order.
    split_and!; intros; pool_cases.
  - eapply orders_at_same; [done|]. rewrite Forall_app, Forall_cons in *. tauto.
Qed.

(** The test [prev == order] recognises a level of one order. *)
Lemma lone_order_self Q sd g p d o1 o2 :
  orders_rep Q sd g → g_orders g = o1 ++ (p, d) :: o2 → NoDup (g_orders g).*1 →
  prev_order_ (pool_get Q p) = Some p ↔ o1 ++ o2 = [].
Proof.
  intros (Hne & Hc & Hf) Eg Hnd. rewrite Eg in *. split.
  - intros Hp. change (opv Q p = Some p) in Hp. eapply cdll_self in Hp; [|done..|rewrite fmap_app; set_solver].
    apply (f_equal length) in Hp. rewrite length_fmap, length_app in Hp. cbn in Hp.
    destruct o1, o2; cbn in Hp; try lia. done.
  - intros [-> ->]%app_eq_nil. cbn in Hc. by destruct Hc.
Qed.

(** *** Ghost lists: one level updated, added or removed *)

Lemma swap_level l1 g g' l2 :
  g_ptr g' = g_ptr g → g_price g' = g_price g →
  lptrs (l1 ++ g' :: l2) = lptrs (l1 ++ g :: l2) ∧
  lslots (l1 ++ g' :: l2) = lslots (l1 ++ g :: l2) ∧
  pmap (l1 ++ g' :: l2) = pmap (l1 ++ g :: l2).
Proof.
  intros E1 E2. unfold lptrs, lslots, pmap. rewrite !fmap_app, !fmap_cons.
  by rewrite E1, E2.
Qed.

Lemma mid_perm l1 g l2 oth : (l1 ++ g :: l2) ++ oth ≡ₚ g :: (l1 ++ l2) ++ oth.
Proof. by rewrite <- Permutation_middle. Qed.

Lemma oindex_insert ls ls' p d :
  NoDup (okeys ls') → oents ls' ≡ₚ (p, d) :: oents ls →
  oindex ls' = <[ okey d := p ]> (oindex ls).
Proof.
  intros Hnd Hp. unfold oindex.
  rewrite (list_to_map_perm _ ((okey d, p) :: ((λ e, (okey e.2, e.1)) <$> oents ls))).
  - done.
  - by rewrite <- list_fmap_compose.
  - by rewrite Hp.
Qed.

Lemma oindex_delete ls ls' p d :
  NoDup (okeys ls) → oents ls ≡ₚ (p, d) :: oents ls' →
  oindex ls' = delete (okey d) (oindex ls).
Proof.
  intros Hnd Hp. rewrite (oindex_insert ls' ls p d) by done. rewrite delete_insert_id; [done|].
  apply not_elem_of_list_to_map_1. rewrite <- list_fmap_compose.
  unfold okeys in Hnd. rewrite Hp, fmap_cons, NoDup_cons in Hnd. apply Hnd.
Qed.

Lemma pmap_insert ls ls' g :
  NoDup (lslots ls') → ls' ≡ₚ g :: ls → pmap ls' = <[ slot (g_price g) := g_ptr g ]> (pmap ls).
Proof. intros Hnd Hp. by rewrite (pmap_perm ls' (g :: ls)). Qed.

Lemma pmap_delete ls ls' g :
  NoDup (lslots ls) → ls ≡ₚ g :: ls' → pmap ls' = delete (slot (g_price g)) (pmap ls).
Proof.
  intros Hnd Hp. rewrite (pmap_insert ls' ls g) by done. rewrite delete_insert_id; [done|].
  apply not_elem_of_list_to_map_1. rewrite <- list_fmap_compose.
  rewrite Hp in Hnd. by apply NoDup_cons in Hnd as [? _].
Qed.

Lemma pmap_lookup ls g : NoDup (lslots ls) → g ∈ ls → pmap ls !! slot (g_price g) = Some (g_ptr g).
Proof.
  intros Hnd Hg. apply elem_of_list_to_map_1.
  - by rewrite <- list_fmap_compose.
  - apply list_elem_of_fmap. eauto.
Qed.

Lemma pmap_lookup_None ls price : slot price ∉ lslots ls → pmap ls !! slot price = None.
Proof.
  intros Hn. apply not_elem_of_list_to_map_1. by rewrite <- list_fmap_compose.
Qed.

Definition same_sizes b b' : Prop :=
  mp_size (orders_at_price_pool_ b') = mp_size (orders_at_price_pool_ b) ∧
  mp_size (order_pool_ b') = mp_size (order_pool_ b).

Lemma same_sizes_trans b1 b2 b3 : same_sizes b1 b2 → same_sizes b2 b3 → same_sizes b1 b3.
Proof. intros [] []. split; congruence. Qed.

Lemma rep_orders_frame sd xo b own oth Q' :
  RepX sd xo b own oth →
  (∀ q, q ∈ optrs (own ++ oth) → pool_get Q' q = pool_get (order_pool_ b) q) →
  Forall (orders_rep Q' sd) own ∧ Forall (orders_rep Q' (opp sd)) oth.
Proof.
  intros Hr Hq. split; (eapply orders_rep_frames; [|apply Hr]); intros q Hin; apply Hq;
    rewrite optrs_app; set_solver.
Qed.

Lemma rep_optrs_fresh sd p b own oth : RepX sd [p] b own oth → p ∉ optrs (own ++ oth).
Proof. intros Hr. pose proof (po_nodup _ _ (r_opool _ _ _ _ _ Hr)) as [? _]%NoDup_cons. done. Qed.

Lemma rep_levels_le sd xo b own oth :
  RepX sd xo b own oth → (length (own ++ oth) = size (price_orders_at_price_ b))%nat.
Proof.
  intros Hr. rewrite (r_pmap _ _ _ _ _ Hr). unfold pmap.
  rewrite map_size_list_to_map; rewrite <- ?list_fmap_compose; [by rewrite length_fmap|apply Hr].
Qed.

(** A first order at its price opens a level at its sorted place. *)
Lemma addOrder_new sd b own oth p d :
  RepX sd [p] b own oth →
  data (pool_get (order_pool_ b) p) = d → d_side d = sd →
  slot (d_price d) ∉ lslots (own ++ oth) → okey d ∉ okeys (own ++ oth) →
  Z.of_nat (length (own ++ oth)) < mp_size (orders_at_price_pool_ b) →
  ∃ b' i, addOrder p b = Ok (tt, b') ∧ same_sizes b b' ∧
    RepX sd [] b' (insert_where (adv_g sd (d_price d)) (mkG i (d_price d) [(p, d)]) own) oth.
Proof.
  intros Hr Hd Hsd Hslot Hkey Hcap. pose proof Hr as [Hs Hown Hoth Hoo Hot Hlp Hop Hsl Hk Hpm Hom].
  pose proof (rep_optrs_fresh _ _ _ _ _ Hr) as Hp.
  set (price := d_price d) in *. set (Q := order_pool_ b) in *.
  set (Q' := pool_mod (set_next_order (Some p)) p (pool_mod (set_prev_order (Some p)) p Q)).
  destruct (allocate_spec (mkLevel sd price (Some p) None None) (orders_at_price_pool_ b)
    (lptrs (own ++ oth))) as (i & P' & HP & Hi & Hok & Hsz & Hq); [done| |].
  { unfold lptrs. by rewrite length_fmap. }
  set (b2 := set_level_pool P' (set_order_pool Q' b)).
  set (g := mkG i price [(p, d)]).
  assert (Hfr : ∀ q, q ∈ lptrs (own ++ oth) → pool_get P' q = pool_get (orders_at_price_pool_ b) q).
  { intros q Hin. rewrite Hq. case_decide; [by subst|done]. }
  destruct (addOrdersAtPrice_spec sd b2 own oth g) as (b3 & Hrun & Ho3 & Ht3 & HQ3 & HO3 & HM3 & Hsame).
  - done.
  - subst b2. autorewrite with book. eapply chain_rep_frame; [|exact Hown].
    intros q Hin. apply Hfr. unfold lptrs in *. rewrite fmap_app. set_solver.
  - subst b2. autorewrite with book. eapply chain_rep_frame; [|exact Hoth].
    intros q Hin. apply Hfr. unfold lptrs in *. rewrite fmap_app. set_solver.
  - apply Hok.
  - subst b2. unfold level_hdr. cbn [orders_at_price_pool_ set_level_pool g g_ptr].
    rewrite Hq, decide_True by done. done.
  - subst b2. cbn. rewrite <- (rep_levels_le _ _ _ _ _ Hr), length_app. lia.
  - assert (Hperm : insert_where (adv_g sd price) g own ++ oth ≡ₚ g :: own ++ oth).
    { by rewrite insert_where_perm. }
    assert (HnS : NoDup (lslots (insert_where (adv_g sd price) g own ++ oth))).
    { rewrite Hperm. by apply NoDup_cons. }
    assert (HnK : NoDup (okeys (insert_where (adv_g sd price) g own ++ oth))).
    { rewrite Hperm. by apply NoDup_cons. }
    exists (set_order_index (<[ okey d := p ]> (order_index_ b3)) b3), i.
    destruct (rep_orders_frame _ _ _ _ _ Q' Hr) as [Hoo' Hot'].
    { intros q Hin. unfold Q'. rewrite !pool_get_mod. assert (q ≠ p) by (by intros ->).
      by rewrite !decide_False. }
    split_and!.
    + unfold addOrder, order_get. rewrite bind_gets. fold Q. rewrite Hd. rewrite bind_gets.
      unfold getOrdersAtPrice. rewrite Hpm, pmap_lookup_None by done.
      rewrite bind_assoc. cbn [order_mod]. rewrite bind_modify.
      rewrite bind_assoc, bind_modify, bind_assoc.
      erewrite bind_Ok.
      2:{ unfold allocate_level. cbn [orders_at_price_pool_ set_order_pool]. rewrite Hsd.
          fold price. rewrite HP. reflexivity. }
      cbv beta iota. erewrite bind_Ok by exact Hrun. reflexivity.
    + split; cbn; [|by rewrite HQ3]. destruct Hsame as (_ & -> & _). done.
    + split; autorewrite with book; cbn [orders_at_price_pool_ order_pool_ price_orders_at_price_
        order_index_ set_order_index app]; fold g; try done.
      * rewrite HQ3, insert_where_perm, Forall_cons. split; [|done]. apply lone_order_spec. done.
      * by rewrite HQ3.
      * apply Hsame. rewrite Hperm. done.
      * rewrite HQ3, Hperm. subst b2 Q'. cbn. rewrite !pool_ok_mod. done.
      * rewrite HM3. subst b2. cbn. rewrite Hpm. symmetry. by apply (pmap_insert (own ++ oth) _ g).
      * rewrite HO3. subst b2. cbn. rewrite Hom.
        symmetry. apply (oindex_insert (own ++ oth) _ p d); [done|]. by rewrite Hperm.
Qed.

Lemma snoc_mid_perm {A} (l k : list A) x : (l ++ [x]) ++ k ≡ₚ x :: l ++ k.
Proof. rewrite <- (assoc (++)). symmetry. apply Permutation_middle. Qed.

Definition with_orders g es : GLevel D := mkG (g_ptr g) (g_price g) es.

Lemma optrs_mid_perm l1 g l2 oth :
  optrs ((l1 ++ g :: l2) ++ oth) ≡ₚ (g_orders g).*1 ++ optrs ((l1 ++ l2) ++ oth).
Proof. by rewrite mid_perm, optrs_cons. Qed.
Lemma oents_mid_perm l1 g l2 oth :
  oents ((l1 ++ g :: l2) ++ oth) ≡ₚ g_orders g ++ oents ((l1 ++ l2) ++ oth).
Proof. by rewrite mid_perm, oents_cons. Qed.

(** The level pool after touching at most the [first_order_] of [g]. *)
Definition same_levels P P' g : Prop :=
  (∀ ps, pool_ok P' ps ↔ pool_ok P ps) ∧
  (∀ q, lnx P' q = lnx P q ∧ lpv P' q = lpv P q) ∧
  ∀ q, q ≠ g_ptr g → pool_get P' q = pool_get P q.

Lemma same_levels_refl P g : same_levels P P g.
Proof. by split_and!. Qed.

Lemma same_levels_first P g x : same_levels P (pool_mod (set_first_order x) (g_ptr g) P) g.
Proof.
  split_and!.
  - intros ps. by rewrite pool_ok_mod.
  - intros q. unfold lnx, lpv. pool_cases.
  - intros q Hq. pool_cases.
Qed.

(** Replacing the orders of one level. *)
Lemma rep_with_orders sd xo xo' b b' l1 g es l2 oth :
  RepX sd xo b (l1 ++ g :: l2) oth →
  same_levels (orders_at_price_pool_ b) (orders_at_price_pool_ b') g →
  level_hdr (orders_at_price_pool_ b') sd (with_orders g es) →
  head_ref sd b' = head_ref sd b → head_ref (opp sd) b' = head_ref (opp sd) b →
  price_orders_at_price_ b' = price_orders_at_price_ b →
  order_index_ b' = oindex ((l1 ++ with_orders g es :: l2) ++ oth) →
  NoDup (okeys ((l1 ++ with_orders g es :: l2) ++ oth)) →
  orders_rep (order_pool_ b') sd (with_orders g es) →
  (∀ q, q ∈ optrs ((l1 ++ l2) ++ oth) → pool_get (order_pool_ b') q = pool_get (order_pool_ b) q) →
  pool_ok (order_pool_ b') (xo' ++ es.*1 ++ optrs ((l1 ++ l2) ++ oth)) →
  RepX sd xo' b' (l1 ++ with_orders g es :: l2) oth.
Proof.
  intros Hr (Hlok & Hll & Hlq) Hhdr Hh1 Hh2 HM HO HnK Hor Hfr Hok.
  destruct Hr as [Hs (Hhd & Hc & Hf) (Hhd' & Hc' & Hf') Hoo Hot Hlp Hop Hsl Hk Hpm Hom].
  destruct (swap_level l1 g (with_orders g es) l2) as (E1 & _ & _); [done..|].
  destruct (swap_level l1 g (with_orders g es) (l2 ++ oth)) as (E1' & E2' & E3'); [done..|].
  rewrite !app_comm_cons, !(assoc (++)) in E1', E2', E3'.
  pose proof (po_nodup _ _ Hlp) as HnP. rewrite mid_perm in HnP.
  apply NoDup_cons in HnP as [Hgn _].
  assert (Hoth : ∀ u, u ∈ (l1 ++ l2) ++ oth → pool_get (orders_at_price_pool_ b') (g_ptr u)
                   = pool_get (orders_at_price_pool_ b) (g_ptr u)).
  { intros u Hu. apply Hlq. intros E. apply Hgn. rewrite <- E. by apply list_elem_of_fmap_2. }
  assert (Hrest : Forall (orders_rep (order_pool_ b') sd) (l1 ++ l2) ∧
                  Forall (orders_rep (order_pool_ b') (opp sd)) oth).
  { split; (eapply orders_rep_frames; [intros q Hq; apply Hfr; rewrite optrs_app; set_solver|]).
    - rewrite Forall_app, Forall_cons in *. tauto.
    - done. }
  split; try done.
  - split_and!.
    + rewrite Hh1, Hhd. f_equal. symmetry. exact E1.
    + change (cdll (lnx (orders_at_price_pool_ b')) (lpv (orders_at_price_pool_ b'))
        (lptrs (l1 ++ with_orders g es :: l2))). rewrite E1.
      eapply cdll_frame; [|exact Hc]. intros q _. apply Hll.
    + assert (Hf1 : Forall (level_hdr (orders_at_price_pool_ b') sd) (l1 ++ l2)).
      { rewrite Forall_forall in Hf |- *. intros u Hu. eapply level_hdr_frame; [|apply Hf; set_solver].
        intros q ->. rewrite Hoth by set_solver. done. }
      rewrite Forall_app, Forall_cons in *. tauto.
  - split_and!; [by rewrite Hh2| |].
    + eapply cdll_frame; [|exact Hc']. intros q _. apply Hll.
    + rewrite Forall_forall in Hf' |- *. intros u Hu. eapply level_hdr_frame; [|by apply Hf'].
      intros q ->. rewrite Hoth by set_solver. done.
  - rewrite Forall_app, Forall_cons in *. tauto.
  - apply Hrest.
  - rewrite E1'. by apply Hlok.
  - by rewrite optrs_mid_perm.
  - by rewrite E2'.
  - by rewrite HM, E3'.
Qed.

Lemma rep_pmap_lookup sd xo b l1 g l2 oth :
  RepX sd xo b (l1 ++ g :: l2) oth →
  price_orders_at_price_ b !! slot (g_price g) = Some (g_ptr g).
Proof. intros Hr. rewrite (r_pmap _ _ _ _ _ Hr). apply pmap_lookup; [apply Hr|set_solver]. Qed.

Lemma rep_mid sd xo b l1 g l2 oth :
  RepX sd xo b (l1 ++ g :: l2) oth →
  level_hdr (orders_at_price_pool_ b) sd g ∧ orders_rep (order_pool_ b) sd g ∧
  NoDup (xo ++ (g_orders g).*1 ++ optrs ((l1 ++ l2) ++ oth)).
Proof.
  intros [? (_ & _ & Hf) _ Ho _ _ Hop]. apply po_nodup in Hop. rewrite optrs_mid_perm in Hop.
  rewrite Forall_app, Forall_cons in *. tauto.
Qed.

(** A further order at its price goes to the tail of the level. *)
Lemma addOrder_append sd b l1 g l2 oth p d :
  RepX sd [p] b (l1 ++ g :: l2) oth →
  data (pool_get (order_pool_ b) p) = d → d_side d = sd → d_price d = g_price g →
  okey d ∉ okeys ((l1 ++ g :: l2) ++ oth) →
  ∃ b', addOrder p b = Ok (tt, b') ∧ same_sizes b b' ∧
    RepX sd [] b' (l1 ++ with_orders g (g_orders g ++ [(p, d)]) :: l2) oth.
Proof.
  intros Hr Hd Hsd Hpr Hkey. set (Q := order_pool_ b) in *.
  destruct (rep_mid _ _ _ _ _ _ _ Hr) as (Hhdr & Hor & Hnd). pose proof Hhdr as (_ & _ & Hfirst).
  cbn in Hnd. apply NoDup_cons in Hnd as [Hp Hnd]. apply NoDup_app_inv in Hnd as (Hnd & _ & Hdis).
  rewrite elem_of_app in Hp.
  destruct (link_order_spec Q sd g p d) as (f & t & Hf & Ht & Hfin & Htin & Hor'); [done| |done|].
  { apply NoDup_cons. naive_solver. }
  set (Q' := link_order p f t Q) in *.
  exists (set_order_index (<[ okey d := p ]> (order_index_ b)) (set_order_pool Q' b)). split_and!.
  - unfold addOrder, order_get. rewrite bind_gets. fold Q. rewrite Hd, bind_gets, Hpr.
    unfold getOrdersAtPrice. rewrite (rep_pmap_lookup _ _ _ _ _ _ _ Hr).
    rewrite bind_assoc. unfold level_get. rewrite bind_gets, Hfirst, Hf.
    rewrite bind_assoc, bind_gets. fold Q. rewrite Ht. reflexivity.
  - split; [done|]. cbn. reflexivity.
  - assert (HnK : NoDup (okeys ((l1 ++ with_orders g (g_orders g ++ [(p, d)]) :: l2) ++ oth))).
    { unfold okeys. rewrite oents_mid_perm. cbn [g_orders with_orders].
      rewrite snoc_mid_perm, fmap_cons, NoDup_cons.
      rewrite <- oents_mid_perm. split; [done|apply Hr]. }
    eapply rep_with_orders; [exact Hr|..]; autorewrite with book; try done.
    + destruct Hhdr as (? & ? & ?). split_and!; try done. cbn [g_orders with_orders g_ptr].
      cbn. rewrite Hfirst. destruct Hor as [Hne _]. by destruct (g_orders g).
    + cbn. rewrite (r_oindex _ _ _ _ _ Hr). symmetry. apply oindex_insert; [done|].
      rewrite !oents_mid_perm. cbn [g_orders with_orders].
      by rewrite snoc_mid_perm.
    + intros q Hq. cbn. unfold Q', link_order. rewrite !pool_get_mod.
      rewrite !decide_False; [done|..]; intros ->; naive_solver.
    + cbn. unfold Q', link_order. rewrite !pool_ok_mod.
      pose proof (r_opool _ _ _ _ _ Hr) as Hok. rewrite optrs_mid_perm in Hok.
      rewrite fmap_app. cbn. by rewrite snoc_mid_perm.
Qed.

Lemma deallocate_order_spec b i ps :
  pool_ok (order_pool_ b) (i :: ps) →
  ∃ Q', deallocate_order (Some i) b = Ok (tt, set_order_pool Q' b) ∧ pool_ok Q' ps ∧
    mp_size Q' = mp_size (order_pool_ b) ∧
    ∀ q, pool_get Q' q = pool_get (order_pool_ b) q.
Proof.
  intros Hok. destruct (deallocate_spec _ _ _ Hok) as (P' & HP & Hok' & Hsz & Hq).
  exists P'. split_and!; try done. unfold deallocate_order. by rewrite HP.
Qed.

(** Removing the only order of a level removes the level. *)
Lemma removeOrder_last sd b l1 g l2 oth p d :
  RepX sd [] b (l1 ++ g :: l2) oth → g_orders g = [(p, d)] →
  ∃ b', removeOrder (Some p) b = Ok (tt, b') ∧ same_sizes b b' ∧ RepX sd [] b' (l1 ++ l2) oth.
Proof.
  intros Hr Eg.
  destruct (rep_mid _ _ _ _ _ _ _ Hr) as (Hhdr & Hor & Hnd).
  pose proof Hr as [Hs Hown Hoth Hoo Hot Hlp Hop Hsl Hk Hpm Hom].
  set (Q := order_pool_ b) in *. cbn in Hnd. rewrite Eg in Hnd. cbn in Hnd.
  assert (Hself : prev_order_ (pool_get Q p) = Some p).
  { eapply (lone_order_self Q sd g p d [] []); [done|by rewrite Eg| |done]. rewrite Eg.
    apply NoDup_singleton. }
  destruct Hor as (_ & _ & Hat). rewrite Eg, Forall_singleton in Hat.
  destruct Hat as (Hd & Hsd & Hpr). cbn in Hd, Hsd, Hpr.
  set (Q1 := pool_mod (set_next_order None) p (pool_mod (set_prev_order None) p Q)).
  assert (Hlevel : ∃ b2,
    removeOrder (Some p) b = (modify (λ b, set_order_index (delete (okey d) (order_index_ b)) b);;
                              deallocate_order (Some p)) b2 ∧
    chain_rep (orders_at_price_pool_ b2) sd (head_ref sd b2) (l1 ++ l2) ∧
    chain_rep (orders_at_price_pool_ b2) (opp sd) (head_ref (opp sd) b2) oth ∧
    order_pool_ b2 = Q1 ∧ order_index_ b2 = order_index_ b ∧
    price_orders_at_price_ b2 = delete (slot (g_price g)) (price_orders_at_price_ b) ∧
    pool_ok (orders_at_price_pool_ b2) (lptrs ((l1 ++ l2) ++ oth)) ∧
    mp_size (orders_at_price_pool_ b2) = mp_size (orders_at_price_pool_ b)).
  { pose proof (rep_pmap_lookup sd [] b l1 g l2 oth Hr) as Hlk. rewrite mid_perm in Hlp.
    unfold removeOrder, order_get. rewrite bind_gets. fold Q. rewrite Hd, Hself, Hsd, Hpr.
    destruct lenient eqn:El.
    - destruct (removeOrdersAtPrice_spec sd b l1 g l2 oth Hs Hown Hoth Hlp Hlk)
        as (b2 & Hrun & Ho2 & Ht2 & HQ2 & HO2 & HM2 & Hlp2 & Hsz2).
      exists (set_order_pool Q1 b2). autorewrite with book. split; [|by split_and!].
      rewrite bind_ret, bind_gets, bool_decide_true by done.
      rewrite (bind_Ok _ _ _ _ _ Hrun). unfold poison. cbn [order_mod].
      rewrite bind_assoc, bind_modify, bind_modify. unfold Q1, Q. rewrite <- HQ2. reflexivity.
    - destruct (removeOrdersAtPrice_spec sd (set_order_pool Q1 b) l1 g l2 oth)
        as (b2 & Hrun & Ho2 & Ht2 & HQ2 & HO2 & HM2 & Hlp2 & Hsz2); autorewrite with book; try done.
      exists b2. split; [|by split_and!]. unfold poison. cbn [order_mod].
      rewrite bind_assoc, bind_modify, bind_modify, bind_gets, bool_decide_true by done.
      rewrite (bind_Ok _ _ _ _ _ Hrun). reflexivity. }
  destruct Hlevel as (b2 & Hrun & Ho2 & Ht2 & HQ2 & HO2 & HM2 & Hlp2 & Hsz2).
  set (b3 := set_order_index (delete (okey d) (order_index_ b2)) b2).
  destruct (deallocate_order_spec b3 p (optrs ((l1 ++ l2) ++ oth))) as (Q' & HQ' & HokQ & HszQ & Hq).
  { subst b3. cbn. rewrite HQ2. cbn. unfold Q1. rewrite !pool_ok_mod.
    rewrite optrs_mid_perm, Eg in Hop. done. }
  apply NoDup_cons in Hnd as [Hp _].
  assert (Hfr : ∀ q, q ∈ optrs ((l1 ++ l2) ++ oth) → pool_get Q' q = pool_get Q q).
  { intros q Hin. rewrite Hq. subst b3. cbn. rewrite HQ2. cbn. unfold Q1.
    assert (q ≠ p) by (by intros ->). rewrite !pool_get_mod. by rewrite !decide_False. }
  assert (Hrest : Forall (orders_rep Q' sd) (l1 ++ l2) ∧ Forall (orders_rep Q' (opp sd)) oth).
  { split; (eapply orders_rep_frames; [intros q Hin; apply Hfr; rewrite optrs_app; set_solver|]).
    - rewrite Forall_app, Forall_cons in *. tauto.
    - done. }
  pose proof (oents_mid_perm l1 g l2 oth) as Hoe. rewrite Eg in Hoe. cbn in Hoe.
  exists (set_order_pool Q' b3). split_and!.
  - rewrite Hrun, bind_modify. exact HQ'.
  - split; cbn; [done|]. rewrite HszQ. subst b3. cbn. rewrite HQ2. done.
  - split; autorewrite with book; cbn [orders_at_price_pool_ order_pool_ price_orders_at_price_
      order_index_ set_order_pool]; try done; try apply Hrest.
    + rewrite mid_perm in Hsl. by apply NoDup_cons in Hsl as [_ ?].
    + unfold okeys in *. rewrite Hoe, fmap_cons in Hk. by apply NoDup_cons in Hk as [_ ?].
    + subst b3. cbn. rewrite HM2. cbn. rewrite Hpm. symmetry.
      apply pmap_delete; [done|apply mid_perm].
    + subst b3. cbn. rewrite HO2. cbn. rewrite Hom. symmetry. by eapply oindex_delete.
Qed.

(** Removing one of several orders keeps the level and the others' order. *)
Lemma removeOrder_mid sd b l1 g l2 oth o1 p d o2 :
  RepX sd [] b (l1 ++ g :: l2) oth → g_orders g = o1 ++ (p, d) :: o2 → o1 ++ o2 ≠ [] →
  ∃ b', removeOrder (Some p) b = Ok (tt, b') ∧ same_sizes b b' ∧
    RepX sd [] b' (l1 ++ with_orders g (o1 ++ o2) :: l2) oth.
Proof.
  intros Hr Eg Hne.
  destruct (rep_mid _ _ _ _ _ _ _ Hr) as (Hhdr & Hor & Hnd).
  pose proof Hr as [Hs Hown Hoth Hoo Hot Hlp Hop Hsl Hk Hpm Hom].
  set (Q := order_pool_ b) in *. set (P := orders_at_price_pool_ b) in *. cbn in Hnd.
  apply NoDup_app_inv in Hnd as (Hnd & _ & Hdis).
  destruct (unlink_order_spec _ _ _ _ _ _ _ Hor Eg Hnd Hne)
    as (pr & nx & Hpr & Hnx & Hpin & Hnin & Hpne & Hhd & Hor').
  assert (Hin : ∀ q, q ∈ (o1 ++ o2).*1 → q ∈ (g_orders g).*1).
  { intros q. rewrite Eg, !fmap_app. set_solver. }
  assert (Hpg : p ∈ (g_orders g).*1) by (rewrite Eg, fmap_app; set_solver).
  pose proof Hor as (_ & _ & Hat). rewrite Eg, Forall_app, Forall_cons in Hat.
  destruct Hat as (_ & (Hd & Hsd & Hprice) & _). cbn in Hd, Hsd, Hprice.
  pose proof Hhdr as (Hside & Hgp & Hfirst).
  set (first := first_order_ (pool_get P (g_ptr g))) in *.
  set (P' := if bool_decide (first = Some p)
             then pool_mod (set_first_order (Some nx)) (g_ptr g) P else P).
  set (Q1 := unlink_order p pr nx Q) in *.
  set (b1 := set_order_index (delete (okey d) (order_index_ b))
               (set_level_pool P' (set_order_pool Q1 b))).
  destruct (deallocate_order_spec b1 p ((o1 ++ o2).*1 ++ optrs ((l1 ++ l2) ++ oth)))
    as (Q' & HQ' & HokQ & HszQ & Hq).
  { subst b1. cbn. unfold Q1, unlink_order. rewrite !pool_ok_mod.
    rewrite optrs_mid_perm, Eg in Hop. cbn in Hop. rewrite <- Permutation_middle in Hop. done. }
  assert (Hoe : oents ((l1 ++ g :: l2) ++ oth)
            ≡ₚ (p, d) :: oents ((l1 ++ with_orders g (o1 ++ o2) :: l2) ++ oth)).
  { rewrite !oents_mid_perm, Eg. cbn. by rewrite <- Permutation_middle. }
  exists (set_order_pool Q' b1). split_and!.
  - assert (Hpnx : nx ≠ p).
    { intros ->. rewrite Eg, fmap_app in Hnd. apply NoDup_mid in Hnd as [Hnd _].
      rewrite fmap_app in Hnin. done. }
    assert (Hlate : Q1 = pool_mod (set_next_order None) p (pool_mod (set_prev_order None) p
      (pool_mod (set_prev_order (Some pr)) nx (pool_mod (set_next_order (Some nx)) pr Q)))).
    { unfold Q1, unlink_order. rewrite !(pool_mod_comm (set_next_order (Some nx))) by done.
      by rewrite !(pool_mod_comm (set_prev_order (Some pr))) by done. }
    unfold removeOrder, order_get, poison. rewrite bind_gets. fold Q.
    rewrite Hd, Hpr, Hnx, Hsd, Hprice. cbn [order_mod].
    pose proof (rep_pmap_lookup _ _ _ _ _ _ _ Hr) as Hlk.
    rewrite <- HQ'. unfold b1.
    destruct lenient; cbv beta iota;
      [rewrite bind_ret, bind_gets|rewrite bind_assoc, !bind_modify, bind_gets];
      unfold getOrdersAtPrice; (rewrite bool_decide_false by naive_solver);
      rewrite bind_assoc, bind_modify, bind_assoc, bind_modify;
      cbn [price_orders_at_price_ set_order_pool]; rewrite Hlk;
      (rewrite (bool_decide_false (Some (g_ptr g) = None)) by done); cbv beta iota delta [andb];
      unfold level_get; rewrite bind_assoc, bind_gets; cbn [orders_at_price_pool_ set_order_pool];
      fold P first; [rewrite Hlate|]; unfold P'; case_bool_decide; reflexivity.
  - split; cbn; [|by rewrite HszQ]. unfold P'. by case_bool_decide.
  - assert (Hhead : fst <$> head (o1 ++ o2) = if bool_decide (first = Some p) then Some nx else first).
    { rewrite Hfirst, Eg, <- head_fmap, fmap_app. rewrite fmap_app in Hhd.
      rewrite Eg, fmap_app in Hnd. destruct o1 as [|[q ?] o1]; cbn in *.
      - rewrite bool_decide_true by done. by rewrite app_nil_r in Hhd.
      - rewrite bool_decide_false; [done|]. intros [= ->].
        apply NoDup_cons in Hnd as [Hnd _]. set_solver. }
    eapply rep_with_orders; [exact Hr|..]; autorewrite with book;
      cbn [orders_at_price_pool_ order_pool_ price_orders_at_price_ order_index_ set_order_pool
        b1 set_order_index set_level_pool]; fold P Q; try done.
    + unfold P'. case_bool_decide; [apply same_levels_first|apply same_levels_refl].
    + unfold level_hdr. cbn [g_ptr g_price g_orders with_orders]. rewrite Hhead.
      unfold P'. case_bool_decide; [|done]. rewrite pool_get_mod, decide_True by done. done.
    + rewrite Hom. symmetry. by eapply oindex_delete.
    + unfold okeys in *. rewrite Hoe in Hk. by apply NoDup_cons in Hk as [_ ?].
    + eapply orders_rep_frame; [|exact Hor']. intros q _. apply Hq.
    + intros q Hqin. rewrite Hq. cbn. unfold Q1, unlink_order. rewrite !pool_get_mod.
      rewrite !decide_False; [done|..]; intros ->; naive_solver.
Qed.

Lemma removeOrder_spec sd b l1 g l2 oth o1 p d o2 :
  RepX sd [] b (l1 ++ g :: l2) oth → g_orders g = o1 ++ (p, d) :: o2 →
  ∃ b', removeOrder (Some p) b = Ok (tt, b') ∧ same_sizes b b' ∧
    RepX sd [] b' (l1 ++ match o1 ++ o2 with [] => [] | es => [with_orders g es] end ++ l2) oth.
Proof.
  intros Hr Eg. destruct (decide (o1 ++ o2 = [])) as [E|Hne].
  - rewrite E. apply app_eq_nil in E as [-> ->]. by eapply removeOrder_last.
  - destruct (o1 ++ o2) eqn:E; [done|]. rewrite <- E in *. by eapply removeOrder_mid.
Qed.

(** Updating the payload of an order in place. *)
Lemma order_data_spec sd b l1 g l2 oth o1 p d o2 f :
  RepX sd [] b (l1 ++ g :: l2) oth → g_orders g = o1 ++ (p, d) :: o2 →
  d_side (f d) = d_side d → d_price (f d) = d_price d → okey (f d) = okey d →
  ∃ b', order_mod (Some p) (set_data f) b = Ok (tt, b') ∧ same_sizes b b' ∧
    RepX sd [] b' (l1 ++ with_orders g (o1 ++ (p, f d) :: o2) :: l2) oth.
Proof.
  intros Hr Eg Hfs Hfp Hfk.
  destruct (rep_mid _ _ _ _ _ _ _ Hr) as (Hhdr & Hor & Hnd).
  pose proof Hr as [Hs Hown Hoth Hoo Hot Hlp Hop Hsl Hk Hpm Hom].
  set (Q := order_pool_ b) in *. cbn in Hnd. apply NoDup_app_inv in Hnd as (Hnd & _ & Hdis).
  assert (Hpg : p ∈ (g_orders g).*1) by (rewrite Eg, fmap_app; set_solver).
  set (Q' := pool_mod (set_data f) p Q). exists (set_order_pool Q' b).
  assert (E1 : (o1 ++ (p, f d) :: o2).*1 = (g_orders g).*1) by (by rewrite Eg, !fmap_app).
  assert (Hoe : (λ e : Z * D, (okey e.2, e.1)) <$> oents ((l1 ++ g :: l2) ++ oth)
    = (λ e, (okey e.2, e.1)) <$> oents ((l1 ++ with_orders g (o1 ++ (p, f d) :: o2) :: l2) ++ oth)).
  { rewrite !oents_app, !oents_cons, !fmap_app, Eg, !fmap_app, !fmap_cons.
    cbn [g_orders with_orders]. rewrite !fmap_app, !fmap_cons. cbn. by rewrite Hfk. }
  assert (Hok' : okeys ((l1 ++ g :: l2) ++ oth)
               = okeys ((l1 ++ with_orders g (o1 ++ (p, f d) :: o2) :: l2) ++ oth)).
  { apply (f_equal (fmap fst)) in Hoe. rewrite <- !list_fmap_compose in Hoe. exact Hoe. }
  split_and!; [done|done|].
  eapply rep_with_orders; [exact Hr|..]; autorewrite with book;
    cbn [orders_at_price_pool_ order_pool_ price_orders_at_price_ order_index_ set_order_pool];
    fold Q; try done.
  - destruct Hhdr as (? & ? & Hf). split_and!; try done.
    cbn [g_orders with_orders g_ptr]. rewrite Hf, Eg. by destruct o1.
  - rewrite Hom. unfold oindex. by rewrite Hoe.
  - by rewrite <- Hok'.
  - destruct Hor as (Hne & Hc & Hat). rewrite Eg, Forall_app, Forall_cons in Hat.
    destruct Hat as (Ha1 & (Hd & Hsd & Hpr) & Ha2). cbn in Hd, Hsd, Hpr.
    rewrite Eg, fmap_app in Hnd. cbn in Hnd. apply NoDup_mid in Hnd as [Hni _].
    assert (Hfr : ∀ es, p ∉ es.*1 → Forall (order_at Q sd (g_price g)) es →
                        Forall (order_at Q' sd (g_price g)) es).
    { intros es Hes. rewrite !Forall_forall. intros Hall e He. unfold order_at, Q'.
      rewrite pool_get_mod, decide_False; [by apply Hall|]. intros <-. apply Hes.
      by apply list_elem_of_fmap_2. }
    split_and!; cbn [g_orders with_orders g_price].
    + by destruct o1.
    + rewrite E1. eapply cdll_frame; [|exact Hc]. intros q _. unfold onx, opv, Q'. pool_cases.
    + rewrite Forall_app, Forall_cons. split_and!; [apply Hfr; [set_solver|done]|..].
      * unfold order_at, Q'. cbn [fst snd]. rewrite pool_get_mod, decide_True by done. cbn.
        rewrite Hd, Hfs, Hfp. done.
      * apply Hfr; [set_solver|done].
  - intros q Hq. unfold Q'. rewrite pool_get_mod, decide_False; [done|]. intros ->. naive_solver.
  - unfold Q'. rewrite pool_ok_mod, E1. by rewrite optrs_mid_perm in Hop.
Qed.

(** Allocating the block of a new order. *)
Lemma allocate_order_spec sd b own oth n :
  RepX sd [] b own oth → Z.of_nat (length (oents (own ++ oth))) < mp_size (order_pool_ b) →
  ∃ p b', allocate_order n b = Ok (Some p, b') ∧ same_sizes b b' ∧ RepX sd [p] b' own oth ∧
    pool_get (order_pool_ b') p = n.
Proof.
  intros Hr Hlt. pose proof Hr as [Hs Hown Hoth Hoo Hot Hlp Hop Hsl Hk Hpm Hom].
  destruct (allocate_spec n (order_pool_ b) (optrs (own ++ oth))) as (p & P' & HP & Hp & Hok & Hsz & Hq);
    [done|unfold optrs; by rewrite length_fmap|].
  destruct (rep_orders_frame _ _ _ _ _ P' Hr) as [Hoo' Hot'].
  { intros q Hin. rewrite Hq. case_decide; [by subst|done]. }
  exists p, (set_order_pool P' b). split_and!.
  - unfold allocate_order. by rewrite HP.
  - done.
  - split; autorewrite with book; done.
  - cbn. by rewrite Hq, decide_True.
Qed.

Lemma allocate_order_full sd b own oth n :
  RepX sd [] b own oth → Z.of_nat (length (oents (own ++ oth))) = mp_size (order_pool_ b) →
  allocate_order n b = Err (Fatal "MemPool exhausted").
Proof.
  intros Hr Hlt. unfold allocate_order.
  rewrite (allocate_full n _ (optrs (own ++ oth))); [done|apply Hr|].
  unfold optrs. by rewrite length_fmap.
Qed.

Lemma rep_orders_capacity sd xo b own oth :
  RepX sd xo b own oth → Z.of_nat (length (oents (own ++ oth))) ≤ mp_size (order_pool_ b).
Proof.
  intros Hr. pose proof (pool_ok_capacity _ _ (r_opool _ _ _ _ _ Hr)) as Hc.
  unfold optrs in Hc. rewrite length_app, length_fmap in Hc. lia.
Qed.

(** [oap->first_me_order_->prev_order_] is the tail of the level. *)
Lemma rep_tail sd b (l1 : list (GLevel D)) g l2 oth os p d :
  RepX sd [] b (l1 ++ g :: l2) oth → g_orders g = os ++ [(p, d)] →
  ∃ n f t, level_get (Some (g_ptr g)) b = Ok (n, b) ∧ order_get (first_order_ n) b = Ok (f, b) ∧
    order_get (prev_order_ f) b = Ok (t, b) ∧ data t = d.
Proof.
  intros Hr Eg. destruct (rep_mid _ _ _ _ _ _ _ Hr) as ((_ & _ & Hf) & (Hne & Hc & Hat) & _).
  destruct (g_orders g) as [|[q e] os'] eqn:E; [by destruct os|]. cbn in Hc, Hf.
  assert (Hlast : last (q :: os'.*1) = Some p).
  { change (q :: os'.*1) with (((q, e) :: os').*1). by rewrite Eg, fmap_app, (last_snoc p). }
  destruct (cdll_head _ _ _ _ _ Hc Hlast) as [Hp _]. unfold opv in Hp.
  do 3 eexists. split_and!; [reflexivity|rewrite Hf; reflexivity|rewrite Hp; reflexivity|].
  rewrite Eg, Forall_app, Forall_singleton in Hat. apply Hat.
Qed.

Lemma rep_okeys_size sd xo b own oth :
  RepX sd xo b own oth → length (oents (own ++ oth)) = size (order_index_ b).
Proof.
  intros Hr. rewrite (r_oindex _ _ _ _ _ Hr). unfold oindex.
  rewrite map_size_list_to_map; rewrite <- ?list_fmap_compose; [by rewrite length_fmap|apply Hr].
Qed.

(** *** Linking a new order, whatever its level *)

(** No slot of another price, and no opposite level, is in the way of [price]. *)
Definition slot_clear own oth (price : Price) : Prop :=
  ∀ g, g ∈ own ++ oth → slot (g_price g) = slot price → g ∈ own ∧ g_price g = price.

Lemma level_dec own oth price :
  NoDup (lslots (own ++ oth)) → slot_clear own oth price →
  (slot price ∉ lslots (own ++ oth) ∧ ∀ g, g ∈ own → g_price g ≠ price) ∨
  ∃ l1 g l2, own = l1 ++ g :: l2 ∧ g_price g = price ∧ ∀ k, k ∈ l1 ++ l2 → g_price k ≠ price.
Proof.
  intros Hnd Hc. destruct (decide (Exists (λ g, g_price g = price) own)) as [He|Hn].
  - right. apply Exists_exists in He as (g & Hin & Hp).
    apply list_elem_of_split in Hin as (l1 & l2 & ->). exists l1, g, l2. split_and!; try done.
    intros k Hk E. rewrite mid_perm in Hnd. apply NoDup_cons in Hnd as [Hnd _]. apply Hnd.
    rewrite Hp, <- E. apply list_elem_of_fmap. exists k. set_solver.
  - left. assert (Hno : ∀ g, g ∈ own → g_price g ≠ price).
    { intros g Hg E. apply Hn, Exists_exists. by exists g. }
    split; [|done]. intros (g & E & Hg)%list_elem_of_fmap.
    destruct (Hc g Hg (eq_sym E)) as [Hg' Hp]. by apply (Hno g).
Qed.

(** [own'] is [own] with the order [(p, d)] at the tail of its price level. *)
Definition rested sd p d own own' : Prop :=
  (∃ i, own' = insert_where (adv_g sd (d_price d)) (mkG i (d_price d) [(p, d)]) own ∧
        ∀ g, g ∈ own → g_price g ≠ d_price d) ∨
  (∃ l1 g l2, own = l1 ++ g :: l2 ∧ g_price g = d_price d ∧
        own' = l1 ++ with_orders g (g_orders g ++ [(p, d)]) :: l2 ∧
        ∀ k, k ∈ l1 ++ l2 → g_price k ≠ d_price d).

Lemma link_new_order sd b own oth d :
  RepX sd [] b own oth → d_side d = sd → slot_clear own oth (d_price d) →
  okey d ∉ okeys (own ++ oth) →
  (slot (d_price d) ∉ lslots (own ++ oth) →
     Z.of_nat (length (own ++ oth)) < mp_size (orders_at_price_pool_ b)) →
  Z.of_nat (length (oents (own ++ oth))) < mp_size (order_pool_ b) →
  ∃ p b1 b2 own', allocate_order (mkNode d None None) b = Ok (Some p, b1) ∧
    addOrder p b1 = Ok (tt, b2) ∧ same_sizes b b2 ∧ RepX sd [] b2 own' oth ∧
    rested sd p d own own'.
Proof.
  intros Hr Hs Hc Hk Hlv Hcap.
  destruct (allocate_order_spec sd b own oth (mkNode d None None) Hr Hcap)
    as (p & b1 & Hal & Hsz1 & Hr1 & Hget).
  destruct (level_dec own oth (d_price d) (r_slots _ _ _ _ _ Hr) Hc)
    as [[Hsl Hno]|(l1 & g & l2 & -> & Hp & Hno)].
  - destruct (addOrder_new sd b1 own oth p d) as (b2 & i & Hadd & Hsz2 & Hr2);
      [done|by rewrite Hget|done..| |].
    { destruct Hsz1 as [-> _]. by apply Hlv. }
    eexists p, b1, b2, _. split_and!; [done|done|by eapply same_sizes_trans|exact Hr2|].
    left. by exists i.
  - destruct (addOrder_append sd b1 l1 g l2 oth p d) as (b2 & Hadd & Hsz2 & Hr2);
      [done|by rewrite Hget|done..|].
    eexists p, b1, b2, _. split_and!; [done|done|by eapply same_sizes_trans|exact Hr2|].
    right. by exists l1, g, l2.
Qed.

(** With [n] slots there are at most [n] levels. *)
Lemma levels_bounded ls n :
  NoDup (lslots ls) → (∀ price, 0 ≤ slot price < n) → ∀ price, slot price ∉ lslots ls →
  Z.of_nat (length ls) < n.
Proof.
  intros Hnd Hr price Hp.
  assert (Hn : NoDup (slot price :: lslots ls)) by (by apply NoDup_cons).
  apply NoDup_range_length with (n := n) in Hn.
  - cbn in Hn. unfold lslots in Hn. rewrite length_fmap in Hn. specialize (Hr price). lia.
  - intros j [->|(h & -> & _)%list_elem_of_fmap]%elem_of_cons; apply Hr.
Qed.
End orders.
