(* ===== verification/HarnessLevels.v ===== *)
(** What the two Python test harnesses have in common
    (bindings/python/exchange_core.cpp and trading_core.cpp): the values they
    hand to Python, the side they parse, and the tally of one price level, the
    loop over its circular list of orders.

    A [py::dict] is the list of its entries, in the order they are set.  A C++
    exception that reaches Python leaves the harness as it is at that point,
    so it is a value, [Raised]. *)

From S2P Require Import Prelude Types MemPool CircularList LevelBook LevelBookRep LevelBookOps.

Inductive PyValue := PyNone | PyInt (n : Z) | PyStr (s : string).
Abbreviation PyDict := (list (string * PyValue)).

Inductive PyResult (A : Type) := Returned (a : A) | Raised (what : string).
Arguments Returned {A} _.
Arguments Raised {A} _.

Definition parse_side (s : string) : option Side.t :=
  if String.eqb s "BUY" then Some Side.BUY
  else if String.eqb s "SELL" then Some Side.SELL
  else None.

(** A price level as Python sees it. *)
Record PriceLevel := mkPriceLevel {
  pl_side : string;
  pl_price : Z;
  pl_total_qty : Z;
  pl_order_count : Z;
}.
#[export] Instance PriceLevel_eq_dec : EqDecision PriceLevel.
Proof. solve_decision. Defined.

Section tally.
Context {D K : Type} `{Inhabited D} `{Countable K} {ops : BookOps D K} (qty : D → Z).
Implicit Types (b : LBook D K) (g : GLevel D).
Local Abbreviation Mb := (M (LBook D K)).

(** [do { total_qty += cur->qty_; ++count; cur = cur->next_order_; } while (cur != order)] *)
Fixpoint tally_loop (fuel : nat) (order cur : option Z) (total_qty count : Z) : Mb (Z * Z) :=
  n ← order_get cur;
  let total_qty := u32 (total_qty + qty (data n)) in
  let count := u32 (count + 1) in
  if bool_decide (next_order_ n = order) then mret (total_qty, count)
  else match fuel with
       | O => fail Spin
       | S fuel => tally_loop fuel order (next_order_ n) total_qty count
       end.

Definition tally_level (l : LevelNode) : Mb PriceLevel :=
  match first_order_ l with
  | None => mret (mkPriceLevel (sideToString (side_ l)) (price_ l) 0 0)
  | Some _ =>
      fuel ← gets (λ b, size (order_index_ b));
      '(total_qty, count) ← tally_loop fuel (first_order_ l) (first_order_ l) 0 0;
      mret (mkPriceLevel (sideToString (side_ l)) (price_ l) total_qty count)
  end.

(** The level of orders [os] at [price]. *)
Definition shown_level (sd : Side.t) (price : Price) (os : list D) : PriceLevel :=
  mkPriceLevel (sideToString sd) price (u32 (sumZ qty os)) (u32 (Z.of_nat (length os))).

Definition shown_glevel (sd : Side.t) g : PriceLevel := shown_level sd (g_price g) (g_orders g).*2.

Lemma u32_add_l x y : u32 (u32 x + y) = u32 (x + y).
Proof. unfold u32. by rewrite Zplus_mod_idemp_l. Qed.

Lemma tally_loop_spec b cur : ∀ (es : list (Z * D)) fuel e total count,
  chain (onx (order_pool_ b)) (opv (order_pool_ b)) e.1 es.*1 cur →
  cur ∉ es.*1 → (length es ≤ fuel)%nat →
  Forall (λ e, data (pool_get (order_pool_ b) e.1) = e.2) (e :: es) →
  tally_loop fuel (Some cur) (Some e.1) total count b =
  Ok (u32 (total + sumZ qty (e.2 :: es.*2)), u32 (count + Z.of_nat (S (length es))), b).
Proof.
  induction es as [|e' es IH]; intros fuel e total count Hc Hcur Hf Hd; cbn in Hc; apply Forall_cons in Hd as [He Hd].
  - assert (Hnx : next_order_ (pool_get (order_pool_ b) e.1) = Some cur) by apply Hc.
    destruct fuel; cbn [tally_loop]; mexec; rewrite Hnx, bool_decide_true, He by done; cbn;
      do 4 f_equal; lia.
  - destruct Hc as [[Hnx _] Hc]. unfold onx in Hnx. cbn in Hcur, Hf.
    rewrite not_elem_of_cons in Hcur. destruct Hcur as [Hne Hcur].
    destruct fuel as [|fuel]; [lia|]. cbn [tally_loop]. mexec.
    rewrite Hnx, bool_decide_false, He by congruence.
    rewrite IH; try done; [|lia]. rewrite !u32_add_l, (sumZ_cons _ e.2), fmap_cons. cbn [length].
    do 4 f_equal; lia.
Qed.

(** The tally of a level of the book. *)
Lemma tally_level_spec sd b own oth l1 g l2 :
  RepX sd [] b own oth → own = l1 ++ g :: l2 →
  tally_level (pool_get (orders_at_price_pool_ b) (g_ptr g)) b = Ok (shown_glevel sd g, b).
Proof.
  intros Hr ->. destruct (rep_mid sd [] b l1 g l2 oth Hr) as ((Hs & Hp & Hf) & (Hne & Hc & Hat) & Hnd).
  destruct (g_orders g) as [|[p d] es] eqn:Eg; [done|]. cbn in Hf, Hc.
  unfold tally_level. rewrite Hf, bind_gets, Hs, Hp.
  cbn in Hnd. apply NoDup_cons in Hnd as [Hpn _]. rewrite not_elem_of_app in Hpn.
  erewrite bind_Ok; [|apply (tally_loop_spec b p es _ (p, d) 0 0 Hc)].
  - unfold shown_glevel, shown_level. rewrite Eg. cbn. by rewrite length_fmap.
  - apply Hpn.
  - rewrite <- (rep_okeys_size _ _ _ _ _ Hr), oents_app, oents_app, oents_cons, Eg, !length_app. cbn. lia.
  - eapply Forall_impl; [exact Hat|]. by intros e (? & _).
Qed.
End tally.
