(* ===== verification/MEOrder.v ===== *)
(** Exchange/matcher/me_order.h: the payload of a resting order, the keys of
    the book's two indices, and the messages a book hands to the matching
    engine. *)

From S2P Require Import Prelude Types LevelBook.

Record MEOrder := mkMEOrder {
  ticker_id_ : TickerId;
  client_id_ : ClientId;
  client_order_id_ : OrderId;
  market_order_id_ : OrderId;
  o_side_ : Side.t;
  o_price_ : Price;
  qty_ : Qty;
  priority_ : Priority;
}.

#[export] Instance MEOrder_eq_dec : EqDecision MEOrder.
Proof. solve_decision. Defined.
#[export] Instance MEOrder_inh : Inhabited MEOrder :=
  populate (mkMEOrder TickerId_INVALID ClientId_INVALID OrderId_INVALID OrderId_INVALID
              Side.INVALID Price_INVALID Qty_INVALID Priority_INVALID).

Definition set_qty (q : Qty) (o : MEOrder) : MEOrder :=
  mkMEOrder (ticker_id_ o) (client_id_ o) (client_order_id_ o) (market_order_id_ o)
    (o_side_ o) (o_price_ o) q (priority_ o).

(** [MEOrderBook::priceToIndex]. *)
Definition priceToIndex `{Config} (price : Price) : Z := price `mod` ME_MAX_PRICE_LEVELS.

(** The key of [cid_oid_to_order_]. *)
Definition order_key (o : MEOrder) : ClientId * OrderId := (client_id_ o, client_order_id_ o).

(** The key of the price index: [MEOrderBook] has an array over
    [priceToIndex], [UnorderedMapMEOrderBook] a hash map over the price. *)
Class PriceKey := price_key : Price → Z.
Definition array_key `{Config} : PriceKey := priceToIndex.
Definition direct_key : PriceKey := λ price, price.

#[export] Instance me_ops `{PriceKey} : BookOps MEOrder (Z * Z) := {|
  slot := price_key;
  okey := order_key;
  d_side := o_side_;
  d_price := o_price_;
  lenient := false;
|}.

(** A key that never merges prices which [priceToIndex] separates. *)
Class PriceKeyOk `{Config} (key : PriceKey) : Prop :=
  price_key_ok : ∀ p q, @price_key key p = @price_key key q → priceToIndex p = priceToIndex q.
#[export] Instance array_key_ok `{Config} : PriceKeyOk array_key.
Proof. by intros p q. Qed.
#[export] Instance direct_key_ok `{Config} : PriceKeyOk direct_key.
Proof. intros p q E. change (p = q) in E. by subst. Qed.

(** What a book sends through [MatchingEngine::sendClientResponse] and
    [MatchingEngine::sendMarketUpdate], in program order. *)
Inductive Out :=
  | Resp (r : MEClientResponse)
  | Upd (u : MEMarketUpdate).

#[export] Instance Out_eq_dec : EqDecision Out.
Proof. solve_decision. Defined.

Definition responses (out : list Out) : list MEClientResponse :=
  omap (λ e, match e with Resp r => Some r | _ => None end) out.
Definition updates (out : list Out) : list MEMarketUpdate :=
  omap (λ e, match e with Upd u => Some u | _ => None end) out.

Lemma responses_app l k : responses (l ++ k) = responses l ++ responses k.
Proof. apply omap_app. Qed.
Lemma updates_app l k : updates (l ++ k) = updates l ++ updates k.
Proof. apply omap_app. Qed.

(** The responses and updates the code builds. *)
Section messages.
Implicit Types (o : MEOrder).

Definition rejected (client_id : ClientId) (client_order_id : OrderId) (ticker_id : TickerId)
  (side : Side.t) (price : Price) : MEClientResponse :=
  mkMEClientResponse ClientResponseType.INVALID client_id ticker_id client_order_id
    OrderId_INVALID side price 0 0.

Definition accepted (client_id : ClientId) (client_order_id : OrderId) (ticker_id : TickerId)
  (side : Side.t) (price : Price) (qty : Qty) (new_moid : OrderId) : MEClientResponse :=
  mkMEClientResponse ClientResponseType.ACCEPTED client_id ticker_id client_order_id
    new_moid side price 0 qty.

Definition cancel_rejected (client_id : ClientId) (order_id : OrderId) (ticker_id : TickerId)
  : MEClientResponse :=
  mkMEClientResponse ClientResponseType.CANCEL_REJECTED client_id ticker_id order_id
    OrderId_INVALID Side.INVALID Price_INVALID 0 0.

Definition canceled (client_id : ClientId) (ticker_id : TickerId) o : MEClientResponse :=
  mkMEClientResponse ClientResponseType.CANCELED client_id ticker_id (client_order_id_ o)
    (market_order_id_ o) (o_side_ o) (o_price_ o) 0 0.

Definition aggressor_fill (client_id : ClientId) (client_oid : OrderId) (ticker_id : TickerId)
  (side : Side.t) (new_moid : OrderId) (price : Price) (fill leaves : Qty) : MEClientResponse :=
  mkMEClientResponse ClientResponseType.FILLED client_id ticker_id client_oid new_moid
    side price fill leaves.

Definition passive_fill (ticker_id : TickerId) o (fill : Qty) : MEClientResponse :=
  mkMEClientResponse ClientResponseType.FILLED (client_id_ o) ticker_id (client_order_id_ o)
    (market_order_id_ o) (o_side_ o) (o_price_ o) fill (qty_ o).

Definition trade_update (ticker_id : TickerId) (side : Side.t) (price : Price) (fill : Qty)
  : MEMarketUpdate :=
  mkMEMarketUpdate MarketUpdateType.TRADE ticker_id side price fill OrderId_INVALID
    Priority_INVALID.

Definition order_update (ty : MarketUpdateType.t) (ticker_id : TickerId) o (qty : Qty)
  : MEMarketUpdate :=
  mkMEMarketUpdate ty ticker_id (o_side_ o) (o_price_ o) qty (market_order_id_ o) (priority_ o).
End messages.
