(* ===== verification/OrderBookSpec.v ===== *)
(** The abstract order book: what [MEOrderBook] promises.

    A book is two lists of price levels, best first, each level a FIFO list of
    orders.  [s_add] and [s_cancel] are the reference semantics of a
    continuous double auction with price-time priority; MEOrderBookRefines.v
    shows that the pointer code computes exactly them. *)

From S2P Require Import Prelude Types LevelBook LevelBookRep MEOrder.

Record SLevel := mkSLevel { l_price : Price; l_orders : list MEOrder }.

Record SBook := mkSBook {
  s_bids : list SLevel;
  s_asks : list SLevel;
  s_next : OrderId;
}.

#[export] Instance SLevel_eq_dec : EqDecision SLevel.
Proof. solve_decision. Defined.
#[export] Instance SBook_eq_dec : EqDecision SBook.
Proof. solve_decision. Defined.

Definition s_levels (sd : Side.t) (s : SBook) : list SLevel :=
  if Side.eqb sd Side.BUY then s_bids s else s_asks s.

(** [s_set sd own oth next]: the book with [own] on side [sd]. *)
Definition s_set (sd : Side.t) (own oth : list SLevel) (next : OrderId) : SBook :=
  if Side.eqb sd Side.BUY then mkSBook own oth next else mkSBook oth own next.

Definition all_orders (ls : list SLevel) : list MEOrder := ls ≫= l_orders.
Definition book_orders (s : SBook) : list MEOrder := all_orders (s_bids s) ++ all_orders (s_asks s).

(** ** The aggressor and its sweep *)

Record Aggressor := mkAggressor {
  ag_client : ClientId;
  ag_oid : OrderId;
  ag_ticker : TickerId;
  ag_side : Side.t;
  ag_price : Price;
  ag_moid : OrderId;
}.

(** The limit does not reach a level at [level]. *)
Definition no_cross (sd : Side.t) (price level : Price) : bool :=
  if Side.eqb sd Side.BUY then price <? level else level <? price.

Section sweep.
Context (a : Aggressor).

(** The messages of one fill of [o] when [leaves] are wanted. *)
Definition fill_events (o : MEOrder) (leaves : Qty) : list Out :=
  let fill := leaves `min` qty_ o in
  let o' := set_qty (qty_ o - fill) o in
  [ Resp (aggressor_fill (ag_client a) (ag_oid a) (ag_ticker a) (ag_side a) (ag_moid a)
            (o_price_ o) fill (leaves - fill));
    Resp (passive_fill (ag_ticker a) o' fill);
    Upd (trade_update (ag_ticker a) (ag_side a) (o_price_ o) fill);
    Upd (if qty_ o' =? 0 then order_update MarketUpdateType.CANCEL (ag_ticker a) o (qty_ o)
         else order_update MarketUpdateType.MODIFY (ag_ticker a) o' (qty_ o')) ].

(** Fill the orders of a level, oldest first: messages, orders left, quantity left. *)
Fixpoint fill_orders (leaves : Qty) (os : list MEOrder) : list Out * list MEOrder * Qty :=
  match os with
  | [] => ([], [], leaves)
  | o :: os' =>
      if leaves <=? 0 then ([], os, leaves)
      else if qty_ o <=? leaves then
        let '(ev, rest, lv) := fill_orders (leaves - qty_ o) os' in
        (fill_events o leaves ++ ev, rest, lv)
      else (fill_events o leaves, set_qty (qty_ o - leaves) o :: os', 0)
  end.

Fixpoint sweep (leaves : Qty) (ls : list SLevel) : list Out * list SLevel * Qty :=
  match ls with
  | [] => ([], [], leaves)
  | l :: ls' =>
      if (leaves <=? 0) || no_cross (ag_side a) (ag_price a) (l_price l) then ([], ls, leaves)
      else
        let '(ev, os, lv) := fill_orders leaves (l_orders l) in
        match os with
        | [] => let '(ev', rest, lv') := sweep lv ls' in (ev ++ ev', rest, lv')
        | _ => (ev, mkSLevel (l_price l) os :: ls', lv)
        end
  end.
End sweep.

(** ** Resting an order *)

(** The priority of a new order at [price]: one more than the tail of its level. *)
Definition next_priority (price : Price) (ls : list SLevel) : Priority :=
  match filter (λ l, l_price l = price) ls with
  | l :: _ => match last (l_orders l) with Some o => u64 (priority_ o + 1) | None => 1 end
  | [] => 1
  end.

Definition append_level (o : MEOrder) (l : SLevel) : SLevel :=
  if l_price l =? o_price_ o then mkSLevel (l_price l) (l_orders l ++ [o]) else l.

(** To the tail of its level, or in a new level at its place. *)
Definition rest (sd : Side.t) (o : MEOrder) (ls : list SLevel) : list SLevel :=
  if existsb (λ l, l_price l =? o_price_ o) ls then append_level o <$> ls
  else insert_where (λ l, less_aggressive sd (o_price_ o) (l_price l))
         (mkSLevel (o_price_ o) [o]) ls.

Section ops.
Context `{Config}.

Definition has_key (k : ClientId * OrderId) (s : SBook) : bool :=
  existsb (λ o, bool_decide (order_key o = k)) (book_orders s).

(** A live level of another price occupies the slot of [price]. *)
Definition price_collides (price : Price) (s : SBook) : bool :=
  existsb (λ l, (priceToIndex (l_price l) =? priceToIndex price) && negb (l_price l =? price))
    (s_bids s ++ s_asks s).

Definition id_ok (client_id : ClientId) (order_id : OrderId) : bool :=
  (client_id <? ME_MAX_NUM_CLIENTS) && (order_id <? ME_MAX_ORDER_IDS).

Definition s_accepts (client_id : ClientId) (order_id : OrderId) (price : Price) (s : SBook) : bool :=
  id_ok client_id order_id && negb (has_key (client_id, order_id) s)
  && negb (price_collides price s).

Definition s_add (client_id : ClientId) (oid : OrderId) (ticker_id : TickerId) (sd : Side.t)
  (price : Price) (qty : Qty) (s : SBook) : list Out * SBook :=
  if negb (s_accepts client_id oid price s) then
    ([Resp (rejected client_id oid ticker_id sd price)], s)
  else
    let moid := s_next s in
    let a := mkAggressor client_id oid ticker_id sd price moid in
    let '(ev, oth, leaves) := sweep a qty (s_levels (opp sd) s) in
    let own := s_levels sd s in
    let ev := Resp (accepted client_id oid ticker_id sd price qty moid) :: ev in
    if 0 <? leaves then
      let o := mkMEOrder ticker_id client_id oid moid sd price leaves (next_priority price own) in
      (ev ++ [Upd (order_update MarketUpdateType.ADD ticker_id o leaves)],
       s_set sd (rest sd o own) oth (u64 (moid + 1)))
    else (ev, s_set sd own oth (u64 (moid + 1))).

Definition drop_key (k : ClientId * OrderId) (ls : list SLevel) : list SLevel :=
  filter (λ l, l_orders l ≠ [])
    ((λ l, mkSLevel (l_price l) (filter (λ o, order_key o ≠ k) (l_orders l))) <$> ls).

Definition s_cancel (client_id : ClientId) (oid : OrderId) (ticker_id : TickerId) (s : SBook)
  : list Out * SBook :=
  match (if id_ok client_id oid
         then list_find (λ o, order_key o = (client_id, oid)) (book_orders s) else None) with
  | None => ([Resp (cancel_rejected client_id oid ticker_id)], s)
  | Some (_, o) =>
      ([Upd (order_update MarketUpdateType.CANCEL ticker_id o (qty_ o));
        Resp (canceled client_id ticker_id o)],
       mkSBook (drop_key (client_id, oid) (s_bids s)) (drop_key (client_id, oid) (s_asks s))
         (s_next s))
  end.
End ops.

(** ** Well-formedness *)

Section wf.
Context `{Config}.

(** [l] is strictly better than [k] on side [sd]. *)
Definition better (sd : Side.t) (l k : SLevel) : Prop :=
  if Side.eqb sd Side.BUY then l_price k < l_price l else l_price l < l_price k.

(** [o] arrived before [o']. *)
Definition older (o o' : MEOrder) : Prop :=
  market_order_id_ o < market_order_id_ o' ∧ priority_ o < priority_ o'.

Definition order_wf (sd : Side.t) (price : Price) (next : OrderId) (o : MEOrder) : Prop :=
  o_side_ o = sd ∧ o_price_ o = price ∧ 0 < qty_ o < 2 ^ 32 ∧
  0 ≤ client_id_ o < ME_MAX_NUM_CLIENTS ∧ 0 ≤ client_order_id_ o < ME_MAX_ORDER_IDS ∧
  1 ≤ priority_ o ≤ market_order_id_ o ∧ market_order_id_ o < next.

Definition level_wf (sd : Side.t) (next : OrderId) (l : SLevel) : Prop :=
  is_u64 (l_price l) ∧ l_orders l ≠ [] ∧ Forall (order_wf sd (l_price l) next) (l_orders l) ∧
  StronglySorted older (l_orders l).

Definition side_wf (sd : Side.t) (next : OrderId) (ls : list SLevel) : Prop :=
  Forall (level_wf sd next) ls ∧ StronglySorted (better sd) ls.

(** No resting buy reaches a resting sell. *)
Definition uncrossed (bids asks : list SLevel) : Prop :=
  ∀ b a, b ∈ bids → a ∈ asks → l_price b < l_price a.

Record book_wf (s : SBook) : Prop := {
  wf_next : 1 ≤ s_next s;
  wf_bids : side_wf Side.BUY (s_next s) (s_bids s);
  wf_asks : side_wf Side.SELL (s_next s) (s_asks s);
  wf_uncrossed : uncrossed (s_bids s) (s_asks s);
  wf_slots : NoDup ((λ l, priceToIndex (l_price l)) <$> s_bids s ++ s_asks s);
  wf_keys : NoDup (order_key <$> book_orders s);
}.
End wf.
