(* ===== verification/OrderBookInv.v ===== *)
(** Correctness of the abstract book: what a sweep leaves, price-time
    priority, conservation of quantity, and preservation of well-formedness. *)

From S2P Require Import Prelude Types LevelBook LevelBookRep MEOrder OrderBookSpec.

Definition keep_level (p : Price) (os : list MEOrder) : list SLevel :=
  match os with [] => [] | _ => [mkSLevel p os] end.

Section sweep.
Context (a : Aggressor).
Implicit Types (o : MEOrder) (os : list MEOrder) (l : SLevel) (ls rest : list SLevel).

Definition pos_orders os : Prop := Forall (λ o, 0 < qty_ o) os.

(** What is left of a list of orders after it has been filled from its head. *)
Definition tail_of os' os : Prop :=
  ∃ os1, os = os1 ++ os' ∨
    ∃ o t q, os = os1 ++ o :: t ∧ os' = set_qty q o :: t ∧ 0 < q < qty_ o.

Lemma tail_of_cons os' o os : tail_of os' os → tail_of os' (o :: os).
Proof.
  intros (os1 & [->|(o' & t & q & -> & -> & Hq)]); exists (o :: os1); [by left|].
  right. by exists o', t, q.
Qed.

Lemma fill_orders_spec os : ∀ leaves ev os' lv,
  pos_orders os → 0 ≤ leaves → fill_orders a leaves os = (ev, os', lv) →
  tail_of os' os ∧ 0 ≤ lv ≤ leaves ∧ (os' = [] ∨ lv = 0) ∧
  sumZ qty_ os = sumZ qty_ os' + (leaves - lv).
Proof.
  induction os as [|o os IH]; intros leaves ev os' lv Hp Hl E; cbn in E.
  - simplify_eq. split_and!; [by exists []; left|lia|lia|by left|cbn; lia].
  - apply Forall_cons in Hp as [Ho Hp]. revert E. case Z.leb_spec; intros Hle E.
    + simplify_eq. split_and!; [by exists []; left|lia|lia|right; lia|lia].
    + revert E. case Z.leb_spec; intros Hq E.
      * destruct (fill_orders a (leaves - qty_ o) os) as [[ev1 os1] lv1] eqn:E1.
        simplify_eq. destruct (IH (leaves - qty_ o) _ _ _ Hp ltac:(lia) E1) as (Ht & Hb & He & Hs).
        split_and!; [by apply tail_of_cons|lia|lia|done|]. rewrite sumZ_cons. lia.
      * simplify_eq. split_and!; [|lia|lia|by right|rewrite !sumZ_cons; cbn; lia].
        exists []. right. exists o, os, (qty_ o - leaves). split_and!; try done; lia.
Qed.

Inductive remains : list SLevel → list SLevel → Prop :=
  | rem_refl ls : remains ls ls
  | rem_drop l ls rest : remains rest ls → remains rest (l :: ls)
  | rem_head p os' os ls : os' ≠ [] → tail_of os' os →
      remains (mkSLevel p os' :: ls) (mkSLevel p os :: ls).

Definition pos_levels ls : Prop := Forall (λ l, pos_orders (l_orders l)) ls.

Lemma sweep_spec ls : ∀ leaves ev rest lv,
  pos_levels ls → 0 ≤ leaves → sweep a leaves ls = (ev, rest, lv) →
  remains rest ls ∧ 0 ≤ lv ≤ leaves ∧
  (0 < lv → ∀ l, head rest = Some l → no_cross (ag_side a) (ag_price a) (l_price l) = true) ∧
  sumZ qty_ (all_orders ls) = sumZ qty_ (all_orders rest) + (leaves - lv).
Proof.
  induction ls as [|l ls IH]; intros leaves ev rest lv Hp Hl E; cbn in E.
  - simplify_eq. split_and!; [constructor|lia|lia|done|cbn; lia].
  - apply Forall_cons in Hp as [Ho Hp].
    destruct (leaves <=? 0) eqn:El; cbn in E.
    { simplify_eq. apply Z.leb_le in El. split_and!; [constructor|lia|lia|lia|lia]. }
    apply Z.leb_gt in El. destruct (no_cross _ _ _) eqn:Ec.
    { simplify_eq. split_and!; [constructor|lia|lia| |lia]. intros _ ? [= <-]. done. }
    destruct (fill_orders a leaves (l_orders l)) as [[ev1 os] lv1] eqn:Ef.
    apply fill_orders_spec in Ef as (Ht & Hb & He & Hs); [|done|lia].
    destruct os as [|o os].
    + destruct (sweep a lv1 ls) as [[ev2 rest2] lv2] eqn:Es. simplify_eq.
      destruct (IH lv1 _ _ _ Hp ltac:(lia) Es) as (Hr & Hb2 & Hx & Hs2).
      split_and!; [by constructor|lia|lia|done|].
      unfold all_orders in *. rewrite bind_cons, sumZ_app. cbn in Hs. lia.
    + simplify_eq. destruct He as [|He]; [done|]. destruct l as [p os0].
      split_and!; [by apply rem_head|lia|lia|lia|].
      unfold all_orders. rewrite !bind_cons, !sumZ_app. cbn in *. lia.
Qed.
End sweep.

Section wf.
Context `{Config}.
Implicit Types (o : MEOrder) (os : list MEOrder) (l : SLevel) (ls rest : list SLevel) (sd : Side.t).

Lemma tail_of_wf sd price next os' os :
  tail_of os' os → Forall (order_wf sd price next) os → StronglySorted older os →
  Forall (order_wf sd price next) os' ∧ StronglySorted older os'.
Proof.
  intros (os1 & [->|(o & t & q & -> & -> & Hq)]) Hf Hs;
    apply Forall_app in Hf as [_ Hf]; apply StronglySorted_app_1_r in Hs; [done|].
  apply Forall_cons in Hf as [(? & ? & ? & ?) Hf]. apply StronglySorted_cons in Hs as [Ho Hs].
  split; [|by apply StronglySorted_cons].
  apply Forall_cons. split; [|done]. split_and!; cbn; try done; try lia; naive_solver.
Qed.

Lemma tail_of_keys os' os : tail_of os' os → (order_key <$> os') `sublist_of` (order_key <$> os).
Proof.
  intros (os1 & [->|(o & t & q & -> & -> & Hq)]); rewrite fmap_app; by apply sublist_inserts_l.
Qed.

Lemma remains_keys rest ls :
  remains rest ls → (order_key <$> all_orders rest) `sublist_of` (order_key <$> all_orders ls).
Proof.
  unfold all_orders. induction 1 as [ls|l ls rest _ IH|p os' os ls _ Ht]; [done| |].
  - rewrite bind_cons, fmap_app. by apply sublist_inserts_l.
  - rewrite !bind_cons, !fmap_app. apply sublist_app; [by apply tail_of_keys|done].
Qed.

Lemma remains_prices rest ls : remains rest ls → ∃ k, l_price <$> ls = k ++ (l_price <$> rest).
Proof.
  induction 1 as [ls|l ls rest _ [k IH]|p os' os ls _ _]; [by exists []| |by exists []].
  exists (l_price l :: k). rewrite fmap_cons, IH. done.
Qed.

Lemma remains_price_elem rest ls l :
  remains rest ls → l ∈ rest → ∃ l', l' ∈ ls ∧ l_price l' = l_price l.
Proof.
  intros [k Hk]%remains_prices Hl.
  assert (l_price l ∈ l_price <$> ls) as (l' & ? & ?)%list_elem_of_fmap; [|by exists l'].
  rewrite Hk, elem_of_app. right. by apply list_elem_of_fmap_2.
Qed.

Lemma better_prices sd ls ls' :
  l_price <$> ls = l_price <$> ls' → StronglySorted (better sd) ls → StronglySorted (better sd) ls'.
Proof.
  revert ls'. induction ls as [|l ls IH]; intros [|l' ls'] E Hs; try done.
  rewrite !fmap_cons in E. injection E as El E.
  apply StronglySorted_cons in Hs as [Hf Hs]. apply StronglySorted_cons. split; [|by apply IH].
  rewrite Forall_forall in *. intros x Hx.
  assert (l_price x ∈ l_price <$> ls) as (y & Hy & Hin)%list_elem_of_fmap.
  { rewrite E. by apply list_elem_of_fmap_2. }
  specialize (Hf y Hin). unfold better in *. by rewrite <- El, Hy.
Qed.

Lemma remains_wf sd next rest ls : remains rest ls → side_wf sd next ls → side_wf sd next rest.
Proof.
  induction 1 as [ls|l ls rest _ IH|p os' os ls Hne Ht]; [done| |]; intros [Hf Hs].
  - apply Forall_cons in Hf as [_ Hf]. apply StronglySorted_cons in Hs as [_ Hs]. by apply IH.
  - split; [|by eapply better_prices; [|exact Hs]].
    apply Forall_cons in Hf as [(Hp & _ & Ho & Hso) Hf]. apply Forall_cons. split; [|done].
    split_and!; cbn in *; try done; eapply tail_of_wf; done.
Qed.

Lemma level_wf_mono sd next next' l : next ≤ next' → level_wf sd next l → level_wf sd next' l.
Proof.
  intros Hn (? & ? & Ho & ?). split_and!; try done. eapply Forall_impl; [exact Ho|].
  intros o (?&?&?&?&?&?&?). split_and!; try done; lia.
Qed.

Lemma side_wf_mono sd next next' ls : next ≤ next' → side_wf sd next ls → side_wf sd next' ls.
Proof.
  intros Hn [Hf Hs]. split; [|done]. eapply Forall_impl; [exact Hf|]. intros l.
  by apply level_wf_mono.
Qed.

Lemma side_wf_pos sd next ls : side_wf sd next ls → pos_levels ls.
Proof.
  intros [Hf _]. eapply Forall_impl; [exact Hf|]. intros l (_ & _ & Ho & _).
  eapply Forall_impl; [exact Ho|]. intros o (_ & _ & Hq & _). lia.
Qed.

Lemma better_no_cross sd price l k :
  better (opp sd) l k → valid_side sd →
  no_cross sd price (l_price l) = true → no_cross sd price (l_price k) = true.
Proof.
  unfold better, no_cross. intros Hb [-> | ->]; cbn [opp] in *; side_simpl; rewrite !Z.ltb_lt; lia.
Qed.

(** What a sweep leaves wanting does not cross anything left. *)
Lemma sweep_no_cross a next leaves ls ev rest lv :
  valid_side (ag_side a) → side_wf (opp (ag_side a)) next ls → 0 ≤ leaves →
  sweep a leaves ls = (ev, rest, lv) → 0 < lv →
  ∀ l, l ∈ rest → no_cross (ag_side a) (ag_price a) (l_price l) = true.
Proof.
  intros Hv Hw Hl E Hlv l Hin. pose proof (side_wf_pos _ _ _ Hw) as Hp.
  apply sweep_spec in E as (Hr & _ & Hx & _); [|done..].
  apply (remains_wf _ _ _ _ Hr) in Hw as [_ Hs]. specialize (Hx Hlv).
  destruct rest as [|h rest]; [set_solver|]. specialize (Hx h eq_refl).
  apply StronglySorted_cons in Hs as [Hf _]. apply elem_of_cons in Hin as [->|Hin]; [done|].
  rewrite Forall_forall in Hf. eapply better_no_cross; [by apply Hf|done|done].
Qed.

(** *** Resting *)

Lemma rest_prices sd o ls :
  l_price <$> rest sd o ls =
    if existsb (λ l, l_price l =? o_price_ o) ls then l_price <$> ls
    else insert_where (less_aggressive sd (o_price_ o)) (o_price_ o) (l_price <$> ls).
Proof.
  unfold rest. destruct (existsb _ _).
  - rewrite <- list_fmap_compose. apply list_fmap_ext. intros _ l _. unfold append_level. cbn.
    by destruct (_ =? _).
  - by apply (insert_where_fmap l_price _ _ (mkSLevel (o_price_ o) [o])).
Qed.

Lemma better_insert sd p (ps : list Price) :
  valid_side sd → p ∉ ps →
  StronglySorted (λ x y, if Side.eqb sd Side.BUY then y < x else x < y) ps →
  StronglySorted (λ x y, if Side.eqb sd Side.BUY then y < x else x < y)
    (insert_where (less_aggressive sd p) p ps).
Proof.
  intros Hv Hp Hs. induction ps as [|q ps IH]; cbn; [by repeat constructor|].
  apply StronglySorted_cons in Hs as [Hf Hs]. rewrite not_elem_of_cons in Hp. destruct Hp as [Hne Hp].
  specialize (IH Hp Hs). unfold less_aggressive in *.
  destruct Hv as [-> | ->]; side_simpl; rewrite ?orb_false_r in *; case Z.ltb_spec; intros Hlt;
    apply StronglySorted_cons; (split; [|done || by apply StronglySorted_cons]);
    rewrite ?insert_where_perm, !Forall_cons; (split; [lia|]); try done;
    (eapply Forall_impl; [exact Hf|]); cbn; lia.
Qed.

Lemma better_fmap sd ls :
  StronglySorted (better sd) ls ↔
  StronglySorted (λ x y, if Side.eqb sd Side.BUY then y < x else x < y) (l_price <$> ls).
Proof.
  induction ls as [|l ls IH]; [split; constructor|].
  rewrite fmap_cons, !StronglySorted_cons, IH, Forall_fmap. done.
Qed.

Lemma rest_perm_new sd o ls :
  (∀ l, l ∈ ls → l_price l ≠ o_price_ o) → rest sd o ls ≡ₚ mkSLevel (o_price_ o) [o] :: ls.
Proof.
  intros Hn. unfold rest. rewrite (proj2 (existsb_not_elem _ _)).
  - apply insert_where_perm.
  - intros l Hl. apply Z.eqb_neq. by apply Hn.
Qed.

Lemma append_level_other o ls :
  (∀ l, l ∈ ls → l_price l ≠ o_price_ o) → append_level o <$> ls = ls.
Proof.
  intros Hn. rewrite <- (list_fmap_id ls) at 2. apply list_fmap_ext. intros i l Hl.
  unfold append_level. rewrite (proj2 (Z.eqb_neq _ _)); [done|].
  apply Hn. by eapply list_elem_of_lookup_2.
Qed.

Lemma rest_append sd o (l1 : list SLevel) l (l2 : list SLevel) :
  l_price l = o_price_ o → (∀ k, k ∈ l1 ++ l2 → l_price k ≠ o_price_ o) →
  rest sd o (l1 ++ l :: l2) = l1 ++ mkSLevel (l_price l) (l_orders l ++ [o]) :: l2.
Proof.
  intros Hl Hn. unfold rest.
  rewrite (proj2 (existsb_elem _ _)).
  - rewrite fmap_app, fmap_cons.
    rewrite (append_level_other o l1) by (intros; apply Hn; set_solver).
    rewrite (append_level_other o l2) by (intros; apply Hn; set_solver).
    unfold append_level. by rewrite Hl, Z.eqb_refl.
  - exists l. split; [set_solver|]. by apply Z.eqb_eq.
Qed.

(** The level of [price], if any, and the others. *)
Lemma level_at_dec (price : Price) ls :
  StronglySorted (λ x y : SLevel, l_price x ≠ l_price y) ls →
  (∀ l, l ∈ ls → l_price l ≠ price) ∨
  ∃ (l1 : list SLevel) l (l2 : list SLevel), ls = l1 ++ l :: l2 ∧ l_price l = price ∧ ∀ k, k ∈ l1 ++ l2 → l_price k ≠ price.
Proof.
  intros Hs. destruct (decide (Exists (λ l, l_price l = price) ls)) as [He|Hn].
  - right. apply Exists_exists in He as (l & Hin & Hl).
    apply list_elem_of_split in Hin as (l1 & l2 & ->). exists l1, l, l2. split_and!; try done.
    apply StronglySorted_app in Hs as (H12 & _ & Hs). apply StronglySorted_cons in Hs as [Hf _].
    rewrite Forall_forall in Hf. intros k [Hk|Hk]%elem_of_app; rewrite <- Hl.
    + apply H12; [done|by left].
    + intros E. by apply (Hf k).
  - left. intros l Hl E. apply Hn, Exists_exists. by exists l.
Qed.

Lemma side_wf_prices_ne sd next ls :
  side_wf sd next ls → StronglySorted (λ x y : SLevel, l_price x ≠ l_price y) ls.
Proof.
  intros [_ Hs]. revert Hs. induction ls as [|l ls IH]; [constructor|].
  rewrite !StronglySorted_cons. intros [Hf Hs]. split; [|by apply IH].
  eapply Forall_impl; [exact Hf|]. intros k. unfold better. destruct (Side.eqb _ _); lia.
Qed.
End wf.

(** Adding preserves well-formedness. *)
Section add_wf.
Context `{Config}.
Implicit Types (o : MEOrder) (os : list MEOrder) (l : SLevel) (ls rest : list SLevel) (sd : Side.t).
Implicit Types (s : SBook).

Lemma next_priority_none price ls :
  (∀ l, l ∈ ls → l_price l ≠ price) → next_priority price ls = 1.
Proof.
  intros Hn. unfold next_priority.
  assert (filter (λ l, l_price l = price) ls = []) as ->; [|done].
  induction ls as [|l ls IH]; [done|]. rewrite filter_cons_False by (apply Hn; left).
  apply IH. intros k Hk. apply Hn. by right.
Qed.

Lemma next_priority_at price (l1 : list SLevel) l (l2 : list SLevel) o os :
  l_price l = price → (∀ k, k ∈ l1 ++ l2 → l_price k ≠ price) → l_orders l = os ++ [o] →
  next_priority price (l1 ++ l :: l2) = u64 (priority_ o + 1).
Proof.
  intros Hl Hn Ho. unfold next_priority. rewrite filter_app, filter_cons_True by done.
  assert (filter (λ l, l_price l = price) l1 = []) as ->.
  { induction l1 as [|k l1 IH]; [done|]. rewrite filter_cons_False by (apply Hn; set_solver).
    apply IH. intros k' Hk. apply Hn. set_solver. }
  cbn [app]. by rewrite Ho, last_snoc.
Qed.

(** Resting keeps a side well formed. *)
Lemma rest_wf sd next o ls :
  valid_side sd → side_wf sd next ls → 1 ≤ next < 2 ^ 64 - 1 →
  market_order_id_ o = next → priority_ o = next_priority (o_price_ o) ls →
  o_side_ o = sd → is_u64 (o_price_ o) → 0 < qty_ o < 2 ^ 32 →
  0 ≤ client_id_ o < ME_MAX_NUM_CLIENTS → 0 ≤ client_order_id_ o < ME_MAX_ORDER_IDS →
  side_wf sd (next + 1) (rest sd o ls).
Proof.
  intros Hv Hw Hn Hm Hp Hs Hu Hq Hc Ho.
  assert (Hw' : side_wf sd (next + 1) ls) by (eapply side_wf_mono; [|done]; lia).
  destruct (level_at_dec (o_price_ o) ls (side_wf_prices_ne _ _ _ Hw)) as [Hno|(l1 & l & l2 & -> & Hl & Hne)].
  - rewrite next_priority_none in Hp by done. destruct Hw' as [Hf Hsort]. split.
    + rewrite rest_perm_new by done. apply Forall_cons. split; [|done].
      split_and!; cbn; [apply Hu..|done| |by repeat constructor].
      apply Forall_singleton. split_and!; try done; lia.
    + apply better_fmap. rewrite rest_prices, (proj2 (existsb_not_elem _ _)).
      * apply better_insert; [done| |by apply better_fmap].
        intros (l & E & Hl)%list_elem_of_fmap. by apply (Hno l).
      * intros l Hl. apply Z.eqb_neq. by apply Hno.
  - destruct Hw as [Hf _]. destruct Hw' as [Hf' Hsort].
    rewrite rest_append by done. split.
    + rewrite Forall_app, Forall_cons in Hf, Hf' |- *. destruct Hf' as (? & (? & Hlne & Hos & Hso) & ?).
      destruct Hf as (_ & (_ & _ & Hos0 & _) & _).
      split_and!; try done. cbn.
      split; [done|]. split; [by destruct (l_orders l)|]. split.
      * apply Forall_app. split; [done|]. apply Forall_singleton.
        destruct (l_orders l) as [|o' os _] eqn:E using rev_ind; [done|].
        rewrite (next_priority_at _ l1 l l2 o' os) in Hp by done.
        rewrite Forall_app, Forall_singleton in Hos0.
        destruct Hos0 as [_ Ho']. destruct Ho' as (_ & _ & _ & _ & _ & Hpr & Hmo).
        rewrite u64_id in Hp by (unfold is_u64; lia). split_and!; try done; lia.
      * apply StronglySorted_app_2; [|done|by repeat constructor].
        intros x y Hx Hy. apply list_elem_of_singleton in Hy as ->.
        destruct (l_orders l) as [|o' os _] eqn:E using rev_ind; [done|].
        rewrite (next_priority_at _ l1 l l2 o' os) in Hp by done.
        pose proof Hos0 as Hall. rewrite Forall_forall in Hall.
        destruct (Hall x Hx) as (_ & _ & _ & _ & _ & _ & Hmx).
        assert (Ho'in : o' ∈ os ++ [o']) by set_solver.
        destruct (Hall o' Ho'in) as (_ & _ & _ & _ & _ & Hpr & Hmo).
        rewrite u64_id in Hp by (unfold is_u64; lia).
        split; [lia|]. rewrite Hp.
        apply elem_of_app in Hx as [Hx|Hx]; [|apply list_elem_of_singleton in Hx as ->; lia].
        apply StronglySorted_app in Hso as (Hord & _). destruct (Hord x o' Hx); [set_solver|lia].
    + eapply better_prices; [|exact Hsort]. rewrite !fmap_app, !fmap_cons. done.
Qed.

(** *** Well-formedness seen from one side *)

Lemma s_levels_set sd own oth next :
  valid_side sd → s_levels sd (s_set sd own oth next) = own ∧
                  s_levels (opp sd) (s_set sd own oth next) = oth ∧
                  s_next (s_set sd own oth next) = next.
Proof. by intros [-> | ->]. Qed.

Lemma s_levels_perm sd s :
  valid_side sd → s_bids s ++ s_asks s ≡ₚ s_levels sd s ++ s_levels (opp sd) s.
Proof. intros [-> | ->]; [done|apply Permutation_app_comm]. Qed.

Lemma book_orders_perm sd s :
  valid_side sd → book_orders s ≡ₚ all_orders (s_levels sd s) ++ all_orders (s_levels (opp sd) s).
Proof. intros [-> | ->]; [done|]. unfold book_orders. apply Permutation_app_comm. Qed.

Definition no_cross_sides sd (own oth : list SLevel) : Prop :=
  ∀ l k, l ∈ own → k ∈ oth → no_cross sd (l_price l) (l_price k) = true.

Lemma book_wf_side sd s :
  valid_side sd →
  book_wf s ↔
    1 ≤ s_next s ∧ side_wf sd (s_next s) (s_levels sd s) ∧
    side_wf (opp sd) (s_next s) (s_levels (opp sd) s) ∧
    no_cross_sides sd (s_levels sd s) (s_levels (opp sd) s) ∧
    NoDup ((λ l, priceToIndex (l_price l)) <$> s_levels sd s ++ s_levels (opp sd) s) ∧
    NoDup (order_key <$> all_orders (s_levels sd s) ++ all_orders (s_levels (opp sd) s)).
Proof.
  intros Hv. rewrite <- (s_levels_perm sd), <- (book_orders_perm sd) by done.
  assert (Hx : uncrossed (s_bids s) (s_asks s) ↔
               no_cross_sides sd (s_levels sd s) (s_levels (opp sd) s)).
  { unfold uncrossed, no_cross_sides, s_levels, no_cross.
    destruct Hv as [-> | ->]; cbn [opp]; side_simpl; setoid_rewrite Z.ltb_lt; naive_solver. }
  rewrite <- Hx.
  assert (Hs : side_wf Side.BUY (s_next s) (s_bids s) ∧ side_wf Side.SELL (s_next s) (s_asks s) ↔
               side_wf sd (s_next s) (s_levels sd s) ∧
               side_wf (opp sd) (s_next s) (s_levels (opp sd) s)).
  { destruct Hv as [-> | ->]; unfold s_levels; cbn [opp]; side_simpl; tauto. }
  split; [intros []; tauto|intros (?&?&?&?&?&?); split; tauto].
Qed.

Lemma all_orders_perm ls ls' : ls ≡ₚ ls' → all_orders ls ≡ₚ all_orders ls'.
Proof. intros Hp. unfold all_orders. by rewrite Hp. Qed.

Lemma rest_orders_perm sd o ls next :
  side_wf sd next ls → all_orders (rest sd o ls) ≡ₚ o :: all_orders ls.
Proof.
  intros Hw.
  destruct (level_at_dec (o_price_ o) ls (side_wf_prices_ne _ _ _ Hw)) as [Hno|(l1 & l & l2 & -> & Hl & Hne)].
  - by rewrite (all_orders_perm _ _ (rest_perm_new sd o ls Hno)).
  - rewrite rest_append by done. unfold all_orders. rewrite !bind_app, !bind_cons. cbn [l_orders].
    rewrite (Permutation_app_comm (l_orders l) [o]). symmetry. apply Permutation_middle.
Qed.

Lemma rest_slots_perm sd o ls :
  (λ l, priceToIndex (l_price l)) <$> rest sd o ls ≡ₚ
    if existsb (λ l, l_price l =? o_price_ o) ls then (λ l, priceToIndex (l_price l)) <$> ls
    else priceToIndex (o_price_ o) :: ((λ l, priceToIndex (l_price l)) <$> ls).
Proof.
  pose proof (rest_prices sd o ls) as E. apply (f_equal (fmap priceToIndex)) in E.
  rewrite <- list_fmap_compose in E. change ((λ l, priceToIndex (l_price l)) <$> rest sd o ls ≡ₚ
    if existsb (λ l, l_price l =? o_price_ o) ls then (λ l, priceToIndex (l_price l)) <$> ls
    else priceToIndex (o_price_ o) :: ((λ l, priceToIndex (l_price l)) <$> ls)).
  unfold compose in E. rewrite E. destruct (existsb _ _).
  - by rewrite <- list_fmap_compose.
  - rewrite insert_where_perm, fmap_cons, <- list_fmap_compose. done.
Qed.

Lemma has_key_false k s : has_key k s = false → k ∉ order_key <$> book_orders s.
Proof.
  unfold has_key. rewrite existsb_not_elem. intros Hk (o & -> & Ho)%list_elem_of_fmap.
  specialize (Hk o Ho). by rewrite bool_decide_true in Hk.
Qed.

Lemma price_collides_false price s l :
  price_collides price s = false → l ∈ s_bids s ++ s_asks s →
  priceToIndex (l_price l) = priceToIndex price → l_price l = price.
Proof.
  unfold price_collides. rewrite existsb_not_elem. intros Hc Hl E.
  specialize (Hc l Hl). rewrite E, Z.eqb_refl in Hc. cbn in Hc.
  by destruct (Z.eqb_spec (l_price l) price).
Qed.

Lemma remains_slots rest ls :
  remains rest ls →
  ((λ l, priceToIndex (l_price l)) <$> rest) `sublist_of` ((λ l, priceToIndex (l_price l)) <$> ls).
Proof.
  intros [k Hk]%remains_prices. apply (f_equal (fmap priceToIndex)) in Hk.
  rewrite fmap_app, <- !list_fmap_compose in Hk. unfold compose in Hk. rewrite Hk.
  by apply sublist_inserts_l.
Qed.

Lemma s_add_wf cid oid tid sd price qty s :
  book_wf s → valid_side sd → is_u32 qty → is_u64 price → 0 ≤ cid → 0 ≤ oid →
  s_next s < 2 ^ 64 - 1 →
  book_wf (s_add cid oid tid sd price qty s).2.
Proof.
  intros Hw Hv Hq Hp Hc Ho Hn. unfold s_add.
  destruct (s_accepts cid oid price s) eqn:Ea; cbn [negb]; [|done].
  unfold s_accepts, id_ok in Ea. rewrite !andb_true_iff, !Z.ltb_lt, !negb_true_iff in Ea.
  destruct Ea as [[[Hcid Hoid] Hkey] Hcol]. apply has_key_false in Hkey.
  pose proof Hw as Hws. apply (book_wf_side sd) in Hw as (Hn1 & Hown & Hoth & Hx & Hsl & Hks); [|done].
  set (own := s_levels sd s) in *. set (oth := s_levels (opp sd) s) in *.
  set (a := mkAggressor cid oid tid sd price (s_next s)).
  destruct (sweep a qty oth) as [[ev rst] lv] eqn:Es.
  assert (Hq0 : 0 ≤ qty) by apply Hq.
  pose proof (sweep_spec a oth qty ev rst lv (side_wf_pos _ _ _ Hoth) Hq0 Es) as (Hr & Hlv & _ & _).
  pose proof (sweep_no_cross a (s_next s) qty oth ev rst lv Hv Hoth Hq0 Es) as Hnc.
  rewrite u64_id by (unfold is_u64; lia).
  assert (Hrst : side_wf (opp sd) (s_next s + 1) rst).
  { eapply side_wf_mono; [|by eapply remains_wf]. lia. }
  assert (Hx' : no_cross_sides sd own rst).
  { intros l k Hl Hk. destruct (remains_price_elem _ _ _ Hr Hk) as (k' & Hk' & <-). by apply Hx. }
  rewrite fmap_app in Hsl. rewrite fmap_app in Hks.
  assert (Hsl' : NoDup ((λ l, priceToIndex (l_price l)) <$> own ++ rst)).
  { eapply sublist_NoDup; [exact Hsl|]. rewrite fmap_app. apply sublist_app; [done|].
    by apply remains_slots. }
  assert (Hks' : NoDup (order_key <$> all_orders own ++ all_orders rst)).
  { eapply sublist_NoDup; [exact Hks|]. rewrite fmap_app. apply sublist_app; [done|].
    by apply remains_keys. }
  case Z.ltb_spec; intros Hlt; cbn [snd]; apply (book_wf_side sd); try done;
    destruct (s_levels_set sd own rst (s_next s + 1) Hv) as (E1 & E2 & E3).
  - set (o := mkMEOrder tid cid oid (s_next s) sd price lv (next_priority price own)).
    destruct (s_levels_set sd (rest sd o own) rst (s_next s + 1) Hv) as (-> & -> & ->).
    unfold is_u32 in Hq. split_and!; [lia| |done| | |].
    + apply rest_wf; try done; cbn; lia.
    + intros l k Hl Hk. assert (l_price l ∈ l_price <$> rest sd o own) as Hlp.
      { by apply list_elem_of_fmap_2. }
      rewrite rest_prices in Hlp.
      assert (l_price l = price ∨ ∃ l', l' ∈ own ∧ l_price l' = l_price l) as [->|(l' & Hl' & <-)].
      { destruct (existsb _ _); [|rewrite insert_where_perm in Hlp; apply elem_of_cons in Hlp as [?|Hlp]];
          [|by left|]; right; apply list_elem_of_fmap in Hlp as (l' & ? & ?); by exists l'. }
      * by apply Hnc.
      * by apply Hx'.
    + rewrite fmap_app, rest_slots_perm. destruct (existsb _ own) eqn:Ee; rewrite <- ?fmap_app; [done|].
      cbn [app]. rewrite <- fmap_app. apply NoDup_cons. split; [|done].
      intros (l & El & Hl)%list_elem_of_fmap.
      assert (Hl' : ∃ l', l' ∈ own ++ oth ∧ l_price l' = l_price l ∧ (l' ∈ own ∨ l ∈ rst)).
      { apply elem_of_app in Hl as [Hl|Hl]; [exists l; set_solver|].
        destruct (remains_price_elem _ _ _ Hr Hl) as (l' & ? & ?). exists l'. set_solver. }
      destruct Hl' as (l' & Hin & Epl & Hor).
      assert (l_price l' = price) as Elp.
      { eapply price_collides_false; [exact Hcol| |by rewrite Epl].
        by rewrite (s_levels_perm sd). }
      destruct Hor as [Hown'|Hrst'].
      * rewrite existsb_not_elem in Ee. specialize (Ee l' Hown'). cbn in Ee. apply Z.eqb_neq in Ee. done.
      * specialize (Hnc Hlt l Hrst'). cbn in Hnc. unfold no_cross in Hnc.
        rewrite <- Epl, Elp in Hnc. rewrite Z.ltb_irrefl in Hnc. by destruct (Side.eqb _ _).
    + rewrite fmap_app, (rest_orders_perm sd o own (s_next s)) by done. cbn. rewrite <- fmap_app.
      apply NoDup_cons. split; [|done]. intros Hin. apply Hkey.
      rewrite (book_orders_perm sd) by done. fold own oth. rewrite fmap_app in Hin |- *.
      apply elem_of_app in Hin as [Hin|Hin]; [set_solver|].
      apply elem_of_app. right. by eapply sublist_subseteq; [apply remains_keys|].
  - rewrite E1, E2, E3. split_and!; try done; [lia|]. eapply side_wf_mono; [|done]; lia.
Qed.
End add_wf.

(** Cancelling, and its effect on well-formedness. *)
Section cancel_wf.
Context `{Config}.
Implicit Types (o : MEOrder) (os : list MEOrder) (l : SLevel) (ls rest : list SLevel) (sd : Side.t).
Implicit Types (s : SBook).

Definition nonempty_levels ls : Prop := Forall (λ l, l_orders l ≠ []) ls.

Lemma filter_key_miss k os :
  k ∉ order_key <$> os → filter (λ o, order_key o ≠ k) os = os.
Proof.
  induction os as [|o os IH]; [done|]. rewrite fmap_cons, not_elem_of_cons. intros [Hk Hn].
  rewrite filter_cons_True by congruence. f_equal. by apply IH.
Qed.

Lemma drop_key_miss k ls :
  k ∉ order_key <$> all_orders ls → nonempty_levels ls → drop_key k ls = ls.
Proof.
  unfold drop_key, all_orders. induction ls as [|l ls IH]; [done|].
  rewrite bind_cons, fmap_app, not_elem_of_app. intros [Hk Hn] [Hl Hls]%Forall_cons.
  rewrite fmap_cons, filter_key_miss by done.
  rewrite filter_cons_True by done. rewrite IH by done. by destruct l.
Qed.

Lemma drop_key_app k ls ls' : drop_key k (ls ++ ls') = drop_key k ls ++ drop_key k ls'.
Proof. unfold drop_key. by rewrite fmap_app, filter_app. Qed.

Lemma drop_key_hit (l1 : list SLevel) l (l2 : list SLevel) (o1 : list MEOrder) o (o2 : list MEOrder) :
  NoDup (order_key <$> all_orders (l1 ++ l :: l2)) → nonempty_levels (l1 ++ l :: l2) →
  l_orders l = o1 ++ o :: o2 →
  drop_key (order_key o) (l1 ++ l :: l2) = l1 ++ keep_level (l_price l) (o1 ++ o2) ++ l2.
Proof.
  unfold all_orders. intros Hn Hne Hl.
  rewrite bind_app, bind_cons, Hl, !fmap_app, fmap_cons in Hn.
  apply Forall_app in Hne as [Hne1 Hne]. apply Forall_cons in Hne as [_ Hne2].
  rewrite <- (assoc (++)), <- app_comm_cons in Hn.
  rewrite (assoc (++)) in Hn. apply NoDup_mid in Hn as [Hn _].
  rewrite <- (assoc (++)), !not_elem_of_app in Hn. destruct Hn as (Hk1 & Hk2 & Hk3 & Hk4).
  rewrite drop_key_app. change (l :: l2) with ([l] ++ l2). rewrite drop_key_app.
  rewrite (drop_key_miss _ l1), (drop_key_miss _ l2) by done. f_equal. f_equal.
  unfold drop_key. cbn [fmap list_fmap]. rewrite Hl, filter_app, (filter_cons_False (λ o0, order_key o0 ≠ order_key o) o o2) by (intros E1; by apply E1).
  rewrite !filter_key_miss by done. destruct (o1 ++ o2) eqn:E.
  - by rewrite filter_cons_False by (intros E1; by apply E1).
  - by rewrite filter_cons_True by done.
Qed.

Lemma side_wf_nonempty sd next ls : side_wf sd next ls → nonempty_levels ls.
Proof. intros [Hf _]. eapply Forall_impl; [exact Hf|]. by intros l (_ & ? & _). Qed.

Lemma wf_id_ok sd next ls o :
  side_wf sd next ls → o ∈ all_orders ls → id_ok (client_id_ o) (client_order_id_ o) = true.
Proof.
  intros [Hf _] (l & Ho & Hl)%list_elem_of_bind. rewrite Forall_forall in Hf.
  destruct (Hf l Hl) as (_ & _ & Hos & _). rewrite Forall_forall in Hos.
  destruct (Hos o Ho) as (_ & _ & _ & Hc & Hoi & _).
  unfold id_ok. rewrite !(proj2 (Z.ltb_lt _ _)) by lia. done.
Qed.

Lemma s_cancel_hit cid oid tid s sd (l1 : list SLevel) l (l2 : list SLevel)
    (o1 : list MEOrder) o (o2 : list MEOrder) :
  book_wf s → valid_side sd → s_levels sd s = l1 ++ l :: l2 → l_orders l = o1 ++ o :: o2 →
  order_key o = (cid, oid) →
  s_cancel cid oid tid s =
    ([Upd (order_update MarketUpdateType.CANCEL tid o (qty_ o)); Resp (canceled cid tid o)],
     s_set sd (l1 ++ keep_level (l_price l) (o1 ++ o2) ++ l2) (s_levels (opp sd) s) (s_next s)).
Proof.
  intros Hw Hv El Eo Ek. pose proof Hw as Hw0.
  apply (book_wf_side sd) in Hw as (_ & Hown & Hoth & _ & _ & Hk); [|done].
  assert (Hin : o ∈ all_orders (s_levels sd s)).
  { unfold all_orders. apply list_elem_of_bind. exists l. rewrite El, Eo. set_solver. }
  assert (Hinb : o ∈ book_orders s) by (rewrite (book_orders_perm sd) by done; set_solver).
  unfold s_cancel.
  assert (Hid : id_ok cid oid = true).
  { pose proof (wf_id_ok _ _ _ _ Hown Hin) as Ho. unfold order_key in Ek. by injection Ek as <- <-. }
  rewrite Hid. destruct (list_find _ _) as [[i o']|] eqn:Ef.
  2:{ apply list_find_None in Ef. rewrite Forall_forall in Ef. by destruct (Ef o Hinb). }
  apply list_find_Some in Ef as (Hi & Ho' & _). apply list_elem_of_lookup_2 in Hi.
  assert (o' = o) as ->.
  { eapply (NoDup_fmap_eq order_key (book_orders s)); [apply Hw0|done|done|congruence]. }
  f_equal.
  assert (Hmiss : drop_key (cid, oid) (s_levels (opp sd) s) = s_levels (opp sd) s).
  { apply drop_key_miss; [|by eapply side_wf_nonempty].
    rewrite fmap_app in Hk. apply NoDup_app_inv in Hk as (_ & _ & Hd). intros Hin'.
    apply (Hd (cid, oid)); [|done]. rewrite <- Ek. by apply list_elem_of_fmap_2. }
  assert (Hhit : drop_key (cid, oid) (s_levels sd s) = l1 ++ keep_level (l_price l) (o1 ++ o2) ++ l2).
  { rewrite El, <- Ek. apply drop_key_hit; [|rewrite <- El; by eapply side_wf_nonempty|done].
    rewrite fmap_app in Hk. apply NoDup_app_inv in Hk as (Hk & _). by rewrite <- El. }
  destruct Hv as [-> | ->]; unfold s_set, s_levels in *; cbn [opp] in *; side_simpl; congruence.
Qed.

Lemma drop_key_orders k (ls : list SLevel) : all_orders (drop_key k ls) `sublist_of` all_orders ls.
Proof.
  unfold all_orders, drop_key. induction ls as [|l ls IH]; [done|]. rewrite fmap_cons, bind_cons.
  assert (Hs : filter (λ o, order_key o ≠ k) (l_orders l) `sublist_of` l_orders l) by apply sublist_filter.
  case (decide (filter (λ o, order_key o ≠ k) (l_orders l) = [])); intros E.
  - rewrite filter_cons_False by (intros E1; by apply E1). by apply sublist_inserts_l.
  - rewrite filter_cons_True by done. rewrite bind_cons. by apply sublist_app.
Qed.

Lemma s_cancel_miss cid oid tid s :
  has_key (cid, oid) s && id_ok cid oid = false →
  s_cancel cid oid tid s = ([Resp (cancel_rejected cid oid tid)], s).
Proof.
  intros Hk. unfold s_cancel. destruct (id_ok cid oid); [|done]. rewrite andb_true_r in Hk.
  apply has_key_false in Hk. destruct (list_find _ _) as [[i o]|] eqn:E; [|done].
  apply list_find_Some in E as (Hi & Ho & _). apply list_elem_of_lookup_2 in Hi.
  destruct Hk. rewrite <- Ho. by apply list_elem_of_fmap_2.
Qed.

Lemma has_key_id_ok s cid oid : book_wf s → has_key (cid, oid) s = true → id_ok cid oid = true.
Proof.
  intros Hw Hk. unfold has_key in Hk. apply existsb_elem in Hk as (o & Hin & Hk).
  apply bool_decide_eq_true in Hk. unfold order_key in Hk. injection Hk as <- <-.
  apply elem_of_app in Hin as [Hin|Hin]; eapply wf_id_ok; try exact Hin; apply Hw.
Qed.

(** The place of a live order. *)
Lemma has_key_place k s :
  has_key k s = true →
  ∃ sd (l1 : list SLevel) l (l2 : list SLevel) (o1 : list MEOrder) o (o2 : list MEOrder),
    valid_side sd ∧ s_levels sd s = l1 ++ l :: l2 ∧ l_orders l = o1 ++ o :: o2 ∧ order_key o = k.
Proof.
  unfold has_key. rewrite existsb_elem. intros (o & Hin & Hk). apply bool_decide_eq_true in Hk.
  assert (∃ sd, valid_side sd ∧ o ∈ all_orders (s_levels sd s)) as (sd & Hv & Ho).
  { apply elem_of_app in Hin as [?|?]; [exists Side.BUY; split; [by left|done]|exists Side.SELL; split; [by right|done]]. }
  unfold all_orders in Ho. apply list_elem_of_bind in Ho as (l & Ho & Hl).
  apply list_elem_of_split in Ho as (o1 & o2 & Eo).
  apply list_elem_of_split in Hl as (l1 & l2 & El). by exists sd, l1, l, l2, o1, o, o2.
Qed.

Lemma keep_level_wf sd next p os : (os ≠ [] → level_wf sd next (mkSLevel p os)) →
  Forall (level_wf sd next) (keep_level p os).
Proof. intros Hl. destruct os; [constructor|]. apply Forall_singleton. by apply Hl. Qed.

Lemma keep_level_orders p os : (keep_level p os ≫= l_orders) = os.
Proof. destruct os; [done|]. cbn. by rewrite app_nil_r. Qed.

Lemma keep_sublist {A} (f : SLevel → A) (l1 : list SLevel) l (l2 : list SLevel) os :
  (∀ os, f (mkSLevel (l_price l) os) = f l) →
  f <$> (l1 ++ keep_level (l_price l) os ++ l2) `sublist_of` f <$> (l1 ++ l :: l2).
Proof.
  intros Hl. rewrite !fmap_app, fmap_cons. apply sublist_app; [done|].
  destruct os; cbn; [by apply sublist_cons|]. rewrite Hl. done.
Qed.

Lemma s_cancel_wf cid oid tid s : book_wf s → book_wf (s_cancel cid oid tid s).2.
Proof.
  intros Hw. destruct (has_key (cid, oid) s) eqn:Ek.
  2:{ by rewrite s_cancel_miss by (by rewrite Ek). }
  destruct (has_key_place _ _ Ek) as (sd & l1 & l & l2 & o1 & o & o2 & Hv & El & Eo & Hk0); clear Ek; rename Hk0 into Ek.
  rewrite (s_cancel_hit _ _ _ _ _ _ _ _ _ _ _ Hw Hv El Eo Ek). cbn [snd].
  destruct (proj1 (book_wf_side sd s Hv) Hw) as (Hn & [Hf Hs] & Hoth & Hx & Hsl & Hk).
  apply (book_wf_side sd); [done|].
  destruct (s_levels_set sd (l1 ++ keep_level (l_price l) (o1 ++ o2) ++ l2)
    (s_levels (opp sd) s) (s_next s) Hv) as (-> & -> & ->).
  rewrite El in *.
  pose proof (keep_sublist l_price l1 l l2 (o1 ++ o2) (λ _, eq_refl)) as Hsub.
  split_and!; [done| |done| | |].
  - split.
    + rewrite Forall_app, Forall_cons in Hf. destruct Hf as (Hf1 & (Hu & _ & Ho & Hso) & Hf2).
      rewrite !Forall_app. split_and!; [done| |done]. apply keep_level_wf. intros Hne.
      rewrite Eo in Ho, Hso. split_and!; try apply Hu; [done| |].
      * rewrite Forall_app, Forall_cons in Ho. cbn. rewrite Forall_app. tauto.
      * eapply StronglySorted_sublist; [|exact Hso]. apply sublist_app; [done|]. by apply sublist_cons.
    + apply better_fmap. eapply StronglySorted_sublist; [exact Hsub|]. by apply better_fmap.
  - intros x k Hl' Hk'. assert (l_price x ∈ l_price <$> (l1 ++ l :: l2)) as (y & -> & Hy)%list_elem_of_fmap.
    { eapply sublist_subseteq; [exact Hsub|]. by apply list_elem_of_fmap_2. }
    by apply Hx.
  - eapply sublist_NoDup; [exact Hsl|]. rewrite fmap_app, (fmap_app _ (l1 ++ l :: l2)).
    apply sublist_app; [|done]. by apply keep_sublist.
  - eapply sublist_NoDup; [exact Hk|]. rewrite !fmap_app. apply sublist_app; [|done].
    unfold all_orders. rewrite !bind_app, bind_cons, !fmap_app, Eo, fmap_app, fmap_cons.
    apply sublist_app; [done|]. apply sublist_app; [|done].
    rewrite keep_level_orders, fmap_app. apply sublist_app; [done|]. by apply sublist_cons.
Qed.
(** The id counter. *)
Lemma s_add_next cid oid tid sd price qty s :
  valid_side sd → 1 ≤ s_next s < 2 ^ 64 - 1 →
  s_next (s_add cid oid tid sd price qty s).2 ≤ s_next s + 1.
Proof.
  intros Hv Hn. unfold s_add. destruct (negb _); [cbn; lia|]. destruct (sweep _ _ _) as [[ev rst] lv].
  assert (Hu : u64 (s_next s + 1) = s_next s + 1) by (apply u64_id; unfold is_u64; lia).
  rewrite Hu. destruct (0 <? lv); cbn [snd]; destruct Hv as [-> | ->]; cbn [s_set s_next]; try lia.
  all: unfold s_set; side_simpl; cbn [s_next]; lia.
Qed.

Lemma s_cancel_next cid oid tid s : s_next (s_cancel cid oid tid s).2 = s_next s.
Proof. unfold s_cancel. by repeat case_match. Qed.

End cancel_wf.
