(* ===== verification/OrderBookProps.v ===== *)
(** Market properties of the abstract book: price-time priority, limit prices,
    conservation of quantity, and the invariant over every sequence of
    requests. *)

From S2P Require Import Prelude Types LevelBook LevelBookRep MEOrder OrderBookSpec.
From S2P Require Import OrderBookInv.

(** ** Price-time priority *)

(** Reference matching on a flat list of resting orders, best first: each order
    in turn is filled as far as the quantity goes, while its price is reached. *)
Fixpoint greedy (a : Aggressor) (leaves : Qty) (os : list MEOrder) : list (OrderId * Price * Qty) :=
  match os with
  | [] => []
  | o :: os =>
      if (leaves <=? 0) || no_cross (ag_side a) (ag_price a) (o_price_ o) then []
      else (market_order_id_ o, o_price_ o, leaves `min` qty_ o)
           :: greedy a (leaves - leaves `min` qty_ o) os
  end.

(** The fills of the resting orders, read off the responses. *)
Definition passive_fills (a : Aggressor) (ev : list Out) : list (OrderId * Price * Qty) :=
  omap (λ e, match e with
             | Resp r => if decide (rs_type_ r = ClientResponseType.FILLED ∧ rs_market_order_id_ r ≠ ag_moid a)
                         then Some (rs_market_order_id_ r, rs_price_ r, rs_exec_qty_ r) else None
             | Upd _ => None
             end) ev.

(** The trades reported on the market data feed. *)
Definition trades (ev : list Out) : list (Price * Qty) :=
  omap (λ e, match e with
             | Upd u => if decide (mu_type_ u = MarketUpdateType.TRADE)
                        then Some (mu_price_ u, mu_qty_ u) else None
             | Resp _ => None
             end) ev.

(** [o] is served before [o']: better price, or same price and older. *)
Definition before (sd : Side.t) (o o' : MEOrder) : Prop :=
  (if Side.eqb sd Side.BUY then o_price_ o' < o_price_ o else o_price_ o < o_price_ o') ∨
  o_price_ o = o_price_ o' ∧ older o o'.

Section props.
Context `{Config}.
Implicit Types (o : MEOrder) (os : list MEOrder) (l : SLevel) (ls : list SLevel) (sd : Side.t) (s : SBook).

Lemma side_wf_before sd next ls : side_wf sd next ls → StronglySorted (before sd) (all_orders ls).
Proof.
  unfold all_orders. induction ls as [|l ls IH]; intros [Hf Hs]; [constructor|].
  apply Forall_cons in Hf as [(_ & _ & Ho & Hso) Hf]. apply StronglySorted_cons in Hs as [Hb Hs].
  rewrite bind_cons. rewrite Forall_forall in Ho. rewrite Forall_forall in Hf. rewrite Forall_forall in Hb.
  apply StronglySorted_app_2; [| |apply IH; split; [by apply Forall_forall|done]].
  - intros x y Hx Hy. apply list_elem_of_bind in Hy as (k & Hy & Hk). left.
    destruct (Ho x Hx) as (_ & -> & _). destruct (Hf k Hk) as (_ & _ & Hok & _).
    rewrite Forall_forall in Hok. destruct (Hok y Hy) as (_ & -> & _). by apply Hb.
  - clear IH Hf Hb. induction Hso as [|o os Hso IH Hall]; constructor.
    + apply IH. intros x Hx. apply Ho. by right.
    + rewrite Forall_forall in *. intros y Hy. right.
      destruct (Ho o ltac:(by left)) as (_ & -> & _). destruct (Ho y ltac:(by right)) as (_ & -> & _).
      split; [done|by apply Hall].
Qed.

Lemma passive_fills_app a ev ev' : passive_fills a (ev ++ ev') = passive_fills a ev ++ passive_fills a ev'.
Proof. apply omap_app. Qed.
Lemma trades_app ev ev' : trades (ev ++ ev') = trades ev ++ trades ev'.
Proof. apply omap_app. Qed.

Lemma passive_fills_fill a o leaves :
  market_order_id_ o ≠ ag_moid a →
  passive_fills a (fill_events a o leaves) = [(market_order_id_ o, o_price_ o, leaves `min` qty_ o)].
Proof.
  intros Hne. unfold passive_fills, fill_events. cbn -[decide].
  rewrite decide_False by (intros [_ ?]; done). rewrite decide_True by done. done.
Qed.

Lemma trades_fill a o leaves :
  trades (fill_events a o leaves) = [(o_price_ o, leaves `min` qty_ o)].
Proof. unfold trades, fill_events. cbn. destruct (_ =? 0); done. Qed.

Lemma greedy_zero a os : greedy a 0 os = [].
Proof. by destruct os. Qed.

Definition at_price (p : Price) os : Prop := Forall (λ o, o_price_ o = p) os.

Lemma fill_orders_greedy a p os : ∀ leaves ev os' lv rest,
  at_price p os → no_cross (ag_side a) (ag_price a) p = false →
  Forall (λ o, market_order_id_ o ≠ ag_moid a ∧ 0 < qty_ o) os → 0 ≤ leaves →
  fill_orders a leaves os = (ev, os', lv) →
  greedy a leaves (os ++ rest) = passive_fills a ev ++ (if os' is [] then greedy a lv rest else []).
Proof.
  induction os as [|o os IH]; intros leaves ev os' lv rest Hp Hc Hf Hl E; cbn [fill_orders] in E.
  - by simplify_eq.
  - apply Forall_cons in Hp as [Ho Hp]. apply Forall_cons in Hf as [[Hm Hq] Hf].
    cbn [greedy app]. rewrite Ho, Hc, orb_false_r. revert E. case Z.leb_spec; intros Hle E.
    + by simplify_eq.
    + revert E. case Z.leb_spec; intros Hq' E.
      * destruct (fill_orders a (leaves - qty_ o) os) as [[ev1 os1] lv1] eqn:E1. simplify_eq.
        rewrite passive_fills_app, passive_fills_fill by done.
        replace (leaves `min` qty_ o) with (qty_ o) by lia. cbn [app]. f_equal.
        apply (IH (leaves - qty_ o)); try done. lia.
      * simplify_eq. rewrite passive_fills_fill by done.
        replace (leaves - leaves `min` qty_ o) with 0 by lia. by rewrite greedy_zero.
Qed.

Lemma fill_orders_trades a p os : ∀ leaves ev os' lv,
  at_price p os → no_cross (ag_side a) (ag_price a) p = false → pos_orders os → 0 ≤ leaves →
  fill_orders a leaves os = (ev, os', lv) →
  sumZ snd (trades ev) = leaves - lv ∧
  Forall (λ t, no_cross (ag_side a) (ag_price a) t.1 = false) (trades ev).
Proof.
  induction os as [|o os IH]; intros leaves ev os' lv Hp Hc Hpos Hl E; cbn [fill_orders] in E.
  - simplify_eq. split; [cbn; lia|constructor].
  - apply Forall_cons in Hp as [Ho Hp]. apply Forall_cons in Hpos as [Hq Hpos].
    revert E. case Z.leb_spec; intros Hle E.
    + simplify_eq. split; [cbn; lia|constructor].
    + revert E. case Z.leb_spec; intros Hq' E.
      * destruct (fill_orders a (leaves - qty_ o) os) as [[ev1 os1] lv1] eqn:E1. simplify_eq.
        destruct (IH (leaves - qty_ o) _ _ _ Hp Hc Hpos ltac:(lia) E1) as [IH1 IH2].
        rewrite trades_app, trades_fill, sumZ_app. split; [cbn; lia|].
        apply Forall_app. split; [|done]. apply Forall_singleton. done.
      * simplify_eq. rewrite trades_fill. split; [cbn; lia|]. by apply Forall_singleton.
Qed.

Lemma sweep_greedy a ls : ∀ leaves ev rst lv next,
  Forall (level_wf (opp (ag_side a)) next) ls → next ≤ ag_moid a → 0 ≤ leaves →
  sweep a leaves ls = (ev, rst, lv) →
  passive_fills a ev = greedy a leaves (all_orders ls) ∧
  sumZ snd (trades ev) = leaves - lv ∧
  Forall (λ t, no_cross (ag_side a) (ag_price a) t.1 = false) (trades ev).
Proof.
  induction ls as [|l ls IH]; intros leaves ev rst lv next Hf Hn Hl E; cbn [sweep] in E.
  - simplify_eq. split_and!; [done|cbn; lia|constructor].
  - apply Forall_cons in Hf as [(_ & Hne & Ho & _) Hf]. unfold all_orders. rewrite bind_cons.
    destruct (l_orders l) as [|o0 os0] eqn:Eos; [done|]. rewrite <- Eos in *.
    destruct (leaves <=? 0) eqn:El; cbn [orb] in E.
    { simplify_eq. apply Z.leb_le in El. assert (lv = 0) as -> by lia.
      rewrite greedy_zero. split_and!; [done|done|constructor]. }
    assert (Hp : at_price (l_price l) (l_orders l)).
    { eapply Forall_impl; [exact Ho|]. by intros o (_ & ? & _). }
    destruct (no_cross _ _ _) eqn:Ec.
    { simplify_eq. split_and!; [|cbn; lia|constructor]. rewrite Eos. cbn.
      rewrite Eos in Hp. apply Forall_cons in Hp as [-> _]. by rewrite Ec, orb_true_r. }
    destruct (fill_orders a leaves (l_orders l)) as [[ev1 os] lv1] eqn:Ef.
    assert (Hm : Forall (λ o, market_order_id_ o ≠ ag_moid a ∧ 0 < qty_ o) (l_orders l)).
    { eapply Forall_impl; [exact Ho|]. intros o (_ & _ & ? & _ & _ & _ & ?). lia. }
    assert (Hpos : pos_orders (l_orders l)).
    { eapply Forall_impl; [exact Hm|]. by intros ? [_ ?]. }
    pose proof (fill_orders_greedy a _ _ _ _ _ _ (ls ≫= l_orders) Hp Ec Hm Hl Ef) as Hg.
    rewrite Hg. destruct (fill_orders_trades a _ _ _ _ _ _ Hp Ec Hpos Hl Ef) as [Ht Hx].
    destruct (fill_orders_spec a _ _ _ _ _ Hpos Hl Ef) as (_ & Hb & _ & _).
    destruct os as [|o os].
    + destruct (sweep a lv1 ls) as [[ev2 rest2] lv2] eqn:Es. simplify_eq.
      destruct (IH lv1 _ _ _ next Hf Hn ltac:(lia) Es) as (IH1 & IH2 & IH3).
      rewrite passive_fills_app, trades_app, sumZ_app, IH1. split_and!; [done|lia|].
      by apply Forall_app.
    + simplify_eq. rewrite app_nil_r. split_and!; [done|done|done].
Qed.

Definition aggressor cid oid tid sd price s : Aggressor := mkAggressor cid oid tid sd price (s_next s).

(** The shape of an accepted [s_add]. *)
Lemma s_add_accepted cid oid tid sd price qty s ev rst lv :
  s_accepts cid oid price s = true →
  sweep (aggressor cid oid tid sd price s) qty (s_levels (opp sd) s) = (ev, rst, lv) →
  ∃ o, o = mkMEOrder tid cid oid (s_next s) sd price lv (next_priority price (s_levels sd s)) ∧
  s_add cid oid tid sd price qty s =
    (Resp (accepted cid oid tid sd price qty (s_next s)) :: ev ++
       (if 0 <? lv then [Upd (order_update MarketUpdateType.ADD tid o lv)] else []),
     s_set sd (if 0 <? lv then rest sd o (s_levels sd s) else s_levels sd s) rst (u64 (s_next s + 1))).
Proof.
  intros Ha E. eexists. split; [reflexivity|]. unfold s_add. rewrite Ha. cbn [negb].
  unfold aggressor in E. rewrite E. destruct (0 <? lv); cbn; [done|]. by rewrite app_nil_r.
Qed.

(** Price-time priority.  The fills an incoming order produces are those
    of the reference matcher that walks the opposite side one order at a time,
    and the book keeps that side in strict priority order: better price first,
    and at one price the older order first. *)
Lemma price_time_priority cid oid tid sd price qty s :
  book_wf s → valid_side sd → is_u32 qty → s_accepts cid oid price s = true →
  let a := aggressor cid oid tid sd price s in
  let queue := all_orders (s_levels (opp sd) s) in
  passive_fills a (s_add cid oid tid sd price qty s).1 = greedy a qty queue ∧
  StronglySorted (before (opp sd)) queue.
Proof.
  intros Hw Hv Hq Ha a queue.
  destruct (sweep a qty (s_levels (opp sd) s)) as [[ev rst] lv] eqn:Es.
  destruct (s_add_accepted cid oid tid sd price qty s ev rst lv Ha Es) as (o & _ & ->).
  destruct (proj1 (book_wf_side sd s Hv) Hw) as (_ & _ & Hoth & _).
  split; [|by eapply side_wf_before].
  destruct (sweep_greedy a _ qty ev rst lv (s_next s) (proj1 Hoth) ltac:(done) (proj1 Hq) Es) as (Hg & _).
  cbn [fst]. unfold queue. rewrite <- Hg.
  change (passive_fills a ([Resp (accepted cid oid tid sd price qty (s_next s))] ++ ev ++
    (if 0 <? lv then [Upd (order_update MarketUpdateType.ADD tid o lv)] else []))
    = passive_fills a ev).
  rewrite !passive_fills_app. destruct (0 <? lv); cbn; by rewrite ?app_nil_r.
Qed.

(** Conservation of quantity.  What is traded leaves both the incoming
    order and the resting ones and nothing else changes; no trade is at a
    price worse than the limit, nor for more than the quantity asked. *)
Lemma quantity_conserved cid oid tid sd price qty s :
  book_wf s → valid_side sd → is_u32 qty → s_accepts cid oid price s = true →
  let r := s_add cid oid tid sd price qty s in
  sumZ qty_ (book_orders r.2) + 2 * sumZ snd (trades r.1) = sumZ qty_ (book_orders s) + qty ∧
  0 ≤ sumZ snd (trades r.1) ≤ qty ∧
  Forall (λ t, no_cross sd price t.1 = false) (trades r.1).
Proof.
  intros Hw Hv Hq Ha r. set (a := aggressor cid oid tid sd price s).
  destruct (sweep a qty (s_levels (opp sd) s)) as [[ev rst] lv] eqn:Es.
  destruct (s_add_accepted cid oid tid sd price qty s ev rst lv Ha Es) as (o & Eo & E).
  destruct (proj1 (book_wf_side sd s Hv) Hw) as (_ & Hown & Hoth & _).
  destruct (sweep_greedy a _ qty ev rst lv (s_next s) (proj1 Hoth) ltac:(done) (proj1 Hq) Es)
    as (_ & Ht & Hx).
  destruct (sweep_spec a _ _ _ _ _ (side_wf_pos _ _ _ Hoth) (proj1 Hq) Es) as (_ & Hlv & _ & Hsum).
  assert (Htr : trades r.1 = trades ev).
  { subst r. rewrite E. cbn [fst].
    change (trades ([Resp (accepted cid oid tid sd price qty (s_next s))] ++ ev ++
      (if 0 <? lv then [Upd (order_update MarketUpdateType.ADD tid o lv)] else [])) = trades ev).
    rewrite !trades_app. destruct (0 <? lv); cbn; by rewrite ?app_nil_r. }
  rewrite Htr. split_and!; [|lia|lia|exact Hx].
  rewrite (sumZ_perm _ _ _ (book_orders_perm sd s Hv)), sumZ_app.
  subst r. rewrite E. cbn [snd].
  destruct (s_levels_set sd (if 0 <? lv then rest sd o (s_levels sd s) else s_levels sd s) rst
    (u64 (s_next s + 1)) Hv) as (E1 & E2 & _).
  rewrite (sumZ_perm _ _ _ (book_orders_perm sd _ Hv)), sumZ_app, E1, E2.
  case (Z.ltb_spec 0 lv) as [Hlt|Hge]; [|lia].
  rewrite (sumZ_perm _ _ _ (rest_orders_perm sd o _ _ Hown)), sumZ_cons, Eo. cbn [qty_]. lia.
Qed.
End props.
