(* ===== verification/MEOrderBook.v ===== *)
(** Exchange::MEOrderBook (Exchange/matcher/me_order_book.h and .cpp) on its
    pointer structure: the pools, intrusive lists and direct-mapped indices of
    [LevelBook], the market order id counter, and the messages sent to the
    matching engine.

    The scratch members [client_response_] and [market_update_] are overwritten
    in full before every send and do not appear.  Logging and latency
    measurement have no effect on the book.  Raw array indexing of
    [cid_oid_to_order_] is in range wherever the code reaches it: [add] and
    [cancel] test the bounds first. *)

From S2P Require Import Prelude Types MemPool LevelBook MEOrder.

Record MEOrderBook := mkMEOrderBook {
  book_ticker_id_ : TickerId;
  lb : LBook MEOrder (Z * Z);
  next_market_order_id_ : OrderId;
  matching_engine_ : list Out;  (** everything sent so far, in order *)
}.

#[export] Existing Instance array_key.

(** ** What the two exchange books share: everything but the entry points *)

Section matching.
Context {key : PriceKey}.
Local Abbreviation MB := (M MEOrderBook).

(** Run an operation on the pointer structure. *)
Definition on_lb {A} (m : M (LBook MEOrder (Z * Z)) A) : MB A := λ s,
  match m (lb s) with
  | Ok (a, b) => Ok (a, mkMEOrderBook (book_ticker_id_ s) b (next_market_order_id_ s)
                          (matching_engine_ s))
  | Err f => Err f
  end.

Definition send (e : Out) : MB unit :=
  modify (λ s, mkMEOrderBook (book_ticker_id_ s) (lb s) (next_market_order_id_ s)
                 (matching_engine_ s ++ [e])).
Definition sendClientResponse (r : MEClientResponse) : MB unit := send (Resp r).
Definition sendMarketUpdate (u : MEMarketUpdate) : MB unit := send (Upd u).

(** [next_market_order_id_++] *)
Definition generateNextMarketOrderId : MB OrderId := λ s,
  let '(v, n) := post_inc64 (next_market_order_id_ s) in
  Ok (v, mkMEOrderBook (book_ticker_id_ s) (lb s) n (matching_engine_ s)).

Definition getNextPriority (price : Price) : M (LBook MEOrder (Z * Z)) Priority :=
  oap ← gets (getOrdersAtPrice price);
  match oap with
  | None => mret 1
  | Some _ =>
      l ← level_get oap;
      first ← order_get (first_order_ l);
      last ← order_get (prev_order_ first);
      mret (u64 (priority_ (data last) + 1))
  end.

(** [match]; the result is the value left in [*leaves_qty]. *)
Definition match_ (ticker_id : TickerId) (client_id : ClientId) (side : Side.t)
  (client_oid new_moid : OrderId) (passive : option Z) (leaves_qty : Qty) : MB Qty :=
  p ← on_lb (order_get passive);
  let order_qty := qty_ (data p) in
  let fill_qty := leaves_qty `min` order_qty in
  let leaves_qty := u32 (leaves_qty - fill_qty) in
  on_lb (order_mod passive (set_data (λ o, set_qty (u32 (qty_ o - fill_qty)) o)));;
  p ← on_lb (order_get passive);
  let o := data p in
  sendClientResponse (aggressor_fill client_id client_oid ticker_id side new_moid
                        (o_price_ o) fill_qty leaves_qty);;
  sendClientResponse (passive_fill ticker_id o fill_qty);;
  sendMarketUpdate (trade_update ticker_id side (o_price_ o) fill_qty);;
  (if qty_ o =? 0 then
     sendMarketUpdate (order_update MarketUpdateType.CANCEL ticker_id o order_qty);;
     on_lb (removeOrder passive)
   else
     sendMarketUpdate (order_update MarketUpdateType.MODIFY ticker_id o (qty_ o)));;
  mret leaves_qty.

(** The two loops of [checkForMatch]: a BUY sweeps the asks while
    [price >= best_ask], anything else sweeps the bids while
    [price <= best_bid]. *)
Fixpoint match_loop (fuel : nat) (client_id : ClientId) (client_oid : OrderId)
  (ticker_id : TickerId) (side : Side.t) (price : Price) (leaves_qty : Qty)
  (new_moid : OrderId) : MB Qty :=
  if 0 <? leaves_qty then
    let buy := Side.eqb side Side.BUY in
    best ← gets (λ s, if buy then asks_by_price_ (lb s) else bids_by_price_ (lb s));
    match best with
    | None => mret leaves_qty
    | Some _ =>
        l ← on_lb (level_get best);
        if (if buy then price <? price_ l else price_ l <? price) then mret leaves_qty
        else match fuel with
             | O => fail Spin
             | S fuel =>
                 leaves_qty ← match_ ticker_id client_id side client_oid new_moid
                                (first_order_ l) leaves_qty;
                 match_loop fuel client_id client_oid ticker_id side price leaves_qty new_moid
             end
    end
  else mret leaves_qty.

(** Every iteration but the last removes an order, so the number of live
    orders is enough fuel ([match_loop_spec]). *)
Definition checkForMatch (client_id : ClientId) (client_oid : OrderId) (ticker_id : TickerId)
  (side : Side.t) (price : Price) (qty : Qty) (new_moid : OrderId) : MB Qty :=
  fuel ← gets (λ s, S (size (order_index_ (lb s))));
  match_loop fuel client_id client_oid ticker_id side price qty new_moid.

End matching.

(** ** [MEOrderBook] *)

Section MEOrderBook.
Context `{Config}.
Local Abbreviation MB := (M MEOrderBook).

(** The constructor. *)
Definition MEOrderBook_new (ticker_id : TickerId) : MEOrderBook :=
  mkMEOrderBook ticker_id (lb_new ME_MAX_PRICE_LEVELS ME_MAX_ORDER_IDS) 1 [].

Definition in_bounds (client_id : ClientId) (order_id : OrderId) : bool :=
  (client_id <? ME_MAX_NUM_CLIENTS) && (order_id <? ME_MAX_ORDER_IDS).

Definition add (client_id : ClientId) (client_order_id : OrderId) (ticker_id : TickerId)
  (side : Side.t) (price : Price) (qty : Qty) : MB unit :=
  index ← gets (λ s, order_index_ (lb s));
  if negb (in_bounds client_id client_order_id) ||
     bool_decide (is_Some (index !! (client_id, client_order_id)))
  then sendClientResponse (rejected client_id client_order_id ticker_id side price)
  else
    aliased_level ← gets (λ s, getOrdersAtPrice price (lb s));
    aliased ← match aliased_level with
              | None => mret false
              | Some _ => l ← on_lb (level_get aliased_level); mret (negb (price_ l =? price))
              end;
    if (aliased : bool)
    then sendClientResponse (rejected client_id client_order_id ticker_id side price)
    else
      new_moid ← generateNextMarketOrderId;
      sendClientResponse (accepted client_id client_order_id ticker_id side price qty new_moid);;
      leaves_qty ← checkForMatch client_id client_order_id ticker_id side price qty new_moid;
      if 0 <? leaves_qty then
        priority ← on_lb (getNextPriority price);
        let o := mkMEOrder ticker_id client_id client_order_id new_moid side price
                   leaves_qty priority in
        order ← on_lb (allocate_order (mkNode o None None));
        match order with
        | None => fail (UB "null order")
        | Some i =>
            on_lb (addOrder i);;
            sendMarketUpdate (order_update MarketUpdateType.ADD ticker_id o leaves_qty)
        end
      else mret tt.

Definition cancel (client_id : ClientId) (order_id : OrderId) (ticker_id : TickerId) : MB unit :=
  index ← gets (λ s, order_index_ (lb s));
  match (if in_bounds client_id order_id then index !! (client_id, order_id) else None) with
  | None => sendClientResponse (cancel_rejected client_id order_id ticker_id)
  | Some i =>
      n ← on_lb (order_get (Some i));
      let o := data n in
      on_lb (removeOrder (Some i));;
      sendMarketUpdate (order_update MarketUpdateType.CANCEL ticker_id o (qty_ o));;
      sendClientResponse (canceled client_id ticker_id o)
  end.
End MEOrderBook.
