(* ===== verification/MEOrderBookMatching.v ===== *)
(** The matching core shared by [MEOrderBook] and [UnorderedMapMEOrderBook]
    refines the abstract book of OrderBookSpec.v, whatever the key of the price
    index: the sweep of the opposite side, resting what is left, removing an
    order.  Every operation terminates without leaving defined behaviour; the
    only fault is the exhaustion of the order pool, exactly when the specified
    book holds more than [ME_MAX_ORDER_IDS] orders. *)

From S2P Require Import Prelude Types MemPool LevelBook LevelBookRep LevelBookOps MEOrder.
From S2P Require Import OrderBookSpec OrderBookInv MEOrderBook.

Abbreviation GL := (GLevel MEOrder).
Abbreviation LB := (LBook MEOrder (Z * Z)).

Definition erase (g : GL) : SLevel := mkSLevel (g_price g) (g_orders g).*2.

Section refine.
Context `{Config} {key : PriceKey}.
Implicit Types (b : MEOrderBook) (B : LB) (sd : Side.t) (own oth ls : list GL) (g : GL) (s : SBook).

(** *** The engine state around the pointer structure *)

Definition with_lb b (l : LB) : MEOrderBook :=
  mkMEOrderBook (book_ticker_id_ b) l (next_market_order_id_ b) (matching_engine_ b).
Definition sent b (ev : list Out) : MEOrderBook :=
  mkMEOrderBook (book_ticker_id_ b) (lb b) (next_market_order_id_ b) (matching_engine_ b ++ ev).

Lemma on_lb_Ok {A} (m : M LB A) b a l :
  m (lb b) = Ok (a, l) → on_lb m b = Ok (a, with_lb b l).
Proof. intros E. unfold on_lb. by rewrite E. Qed.
Lemma on_lb_Err {A} (m : M LB A) b f : m (lb b) = Err f → on_lb m b = Err f.
Proof. intros E. unfold on_lb. by rewrite E. Qed.
Lemma send_Ok e b : send e b = Ok (tt, sent b [e]).
Proof. done. Qed.
Lemma sent_sent b e1 e2 : sent (sent b e1) e2 = sent b (e1 ++ e2).
Proof. unfold sent. simpl. by rewrite (assoc (++)). Qed.
Lemma sent_with_lb b l ev : sent (with_lb b l) ev = with_lb (sent b ev) l.
Proof. done. Qed.
Lemma with_lb_id b : with_lb b (lb b) = b.
Proof. by destruct b. Qed.
Lemma sent_nil b : sent b [] = b.
Proof. destruct b. unfold sent. simpl. by rewrite app_nil_r. Qed.

(** *** One step of the sweep *)

Lemma fill_orders_none a os : fill_orders a 0 os = ([], os, 0).
Proof. by destruct os. Qed.
Lemma sweep_none a (ls : list SLevel) : sweep a 0 ls = ([], ls, 0).
Proof. by destruct ls. Qed.

Lemma sweep_step_full a leaves p o os (ls : list SLevel) :
  0 < leaves → no_cross (ag_side a) (ag_price a) p = false → qty_ o ≤ leaves →
  sweep a leaves (mkSLevel p (o :: os) :: ls) =
    let '(ev, rest, lv) := sweep a (leaves - qty_ o) (keep_level p os ++ ls) in
    (fill_events a o leaves ++ ev, rest, lv).
Proof.
  intros Hl Hc Hq. cbn [sweep l_price l_orders fill_orders].
  generalize (fill_events a o leaves) as fe. intros fe. rewrite (proj2 (Z.leb_gt leaves 0)) by lia.
  rewrite (proj2 (Z.leb_le (qty_ o) leaves)) by lia. rewrite Hc. cbn [orb].
  destruct os as [|o' os].
  - cbn [fill_orders keep_level app]. destruct (sweep a _ ls) as [[ev rest] lv].
    by rewrite app_nil_r.
  - cbn [keep_level app]. destruct (decide (leaves - qty_ o = 0)) as [E|E].
    + rewrite E, fill_orders_none, sweep_none. done.
    + cbn [sweep]. rewrite (proj2 (Z.leb_gt (leaves - qty_ o) 0)) by lia. cbn [l_price]. rewrite Hc.
      cbn [orb l_orders]. destruct (fill_orders a _ (o' :: os)) as [[ev rest] lv].
      destruct rest; [|done]. destruct (sweep a lv ls) as [[? ?] ?]. by rewrite (assoc (++)).
Qed.

Lemma sweep_step_partial a leaves p o os (ls : list SLevel) :
  0 < leaves → no_cross (ag_side a) (ag_price a) p = false → leaves < qty_ o →
  sweep a leaves (mkSLevel p (o :: os) :: ls) =
    (fill_events a o leaves, mkSLevel p (set_qty (qty_ o - leaves) o :: os) :: ls, 0).
Proof.
  intros Hl Hc Hq. simpl sweep. rewrite (proj2 (Z.leb_gt leaves 0)) by lia.
  rewrite (proj2 (Z.leb_gt (qty_ o) leaves)) by lia. by rewrite Hc.
Qed.

(** *** Reading a represented order and level *)

Lemma rep_order_get sd (B : LB) l1 g l2 oth o1 p d o2 :
  RepX sd [] B (l1 ++ g :: l2) oth → g_orders g = o1 ++ (p, d) :: o2 →
  ∃ n, order_get (Some p) B = Ok (n, B) ∧ data n = d ∧ o_side_ d = sd ∧ o_price_ d = g_price g.
Proof.
  intros Hr Eg. destruct (rep_mid _ _ _ _ _ _ _ Hr) as (_ & (_ & _ & Hat) & _).
  rewrite Eg, Forall_app, Forall_cons in Hat. destruct Hat as (_ & (Hd & Hs & Hp) & _).
  eexists. split_and!; [reflexivity|done..].
Qed.

Lemma rep_level_get sd (B : LB) l1 g l2 oth :
  RepX sd [] B (l1 ++ g :: l2) oth →
  ∃ n, level_get (Some (g_ptr g)) B = Ok (n, B) ∧ price_ n = g_price g ∧
       first_order_ n = fst <$> head (g_orders g).
Proof.
  intros Hr. destruct (rep_mid _ _ _ _ _ _ _ Hr) as ((_ & Hp & Hf) & _ & _).
  eexists. split_and!; [reflexivity|done..].
Qed.

Lemma rep_head sd (B : LB) own oth : RepX sd [] B own oth → head_ref sd B = g_ptr <$> head own.
Proof. intros Hr. rewrite (proj1 (r_own _ _ _ _ _ Hr)). by rewrite head_fmap. Qed.

(** *** One fill *)

Definition after_fill (leaves : Qty) g p d os ls : list GL :=
  if qty_ d <=? leaves then match os with [] => [] | _ => [with_orders g os] end ++ ls
  else with_orders g ((p, set_qty (qty_ d - leaves) d) :: os) :: ls.

Lemma match_spec sd b own g ls os p d a leaves :
  RepX sd [] (lb b) (g :: ls) own → g_orders g = (p, d) :: os →
  0 < leaves < 2 ^ 32 → 0 ≤ qty_ d < 2 ^ 32 →
  ∃ B', match_ (ag_ticker a) (ag_client a) (ag_side a) (ag_oid a) (ag_moid a) (Some p) leaves b
        = Ok (leaves - leaves `min` qty_ d, with_lb (sent b (fill_events a d leaves)) B') ∧
    same_sizes (lb b) B' ∧ RepX sd [] B' (after_fill leaves g p d os ls) own.
Proof.
  intros Hr Eg Hl Hq. set (fill := leaves `min` qty_ d).
  set (f := λ o, set_qty (u32 (qty_ o - fill)) o).
  assert (Hlv : u32 (leaves - fill) = leaves - fill) by (apply u32_id; unfold is_u32; lia).
  assert (Hqf : u32 (qty_ d - fill) = qty_ d - fill) by (apply u32_id; unfold is_u32; lia).
  destruct (rep_order_get sd (lb b) [] g ls own [] p d os Hr Eg) as (n1 & Hg1 & Hd1 & Hs1 & Hp1).
  destruct (order_data_spec sd (lb b) [] g ls own [] p d os f Hr Eg)
    as (B1 & Hmod & Hsz1 & Hr1); [done..|].
  cbn [app] in Hr1.
  destruct (rep_order_get sd B1 [] _ ls own [] p (f d) os Hr1 eq_refl)
    as (n2 & Hg2 & Hd2 & Hs2 & Hp2).
  assert (Hfd : f d = set_qty (qty_ d - fill) d) by (unfold f; by rewrite Hqf).
  unfold match_.
  rewrite (bind_Ok _ _ _ _ _ (on_lb_Ok _ _ _ _ Hg1)), Hd1, with_lb_id. fold fill. rewrite Hlv.
  rewrite (bind_Ok _ _ _ _ _ (on_lb_Ok _ _ _ _ Hmod)).
  erewrite bind_Ok; [|apply on_lb_Ok; exact Hg2]. rewrite Hd2.
  change (with_lb (with_lb b B1) B1) with (with_lb b B1).
  unfold sendClientResponse, sendMarketUpdate.
  do 3 (erewrite bind_Ok; [|apply send_Ok]).
  rewrite !sent_with_lb, !sent_sent, Hfd. cbn [app].
  change (qty_ (set_qty (qty_ d - fill) d)) with (qty_ d - fill).
  unfold after_fill, fill_events. fold fill.
  change (qty_ (set_qty (qty_ d - fill) d)) with (qty_ d - fill).
  destruct (Z.eqb_spec (qty_ d - fill) 0) as [E|E].
  - rewrite (proj2 (Z.leb_le (qty_ d) leaves)) by lia.
    destruct (removeOrder_spec sd B1 [] _ ls own [] p (f d) os Hr1 eq_refl)
      as (B2 & Hrem & Hsz2 & Hr2).
    exists B2. split_and!; [| |destruct os; exact Hr2].
    + rewrite bind_assoc. erewrite bind_Ok; [|apply send_Ok].
      erewrite bind_Ok; [|apply on_lb_Ok; exact Hrem].
      rewrite sent_with_lb, sent_sent. reflexivity.
    + by eapply same_sizes_trans.
  - rewrite (proj2 (Z.leb_gt (qty_ d) leaves)) by lia.
    exists B1. split_and!; [|done|].
    + erewrite bind_Ok; [|apply send_Ok]. rewrite sent_with_lb, sent_sent. reflexivity.
    + rewrite Hfd in Hr1. replace fill with leaves in Hr1 by lia. exact Hr1.
Qed.

(** *** The sweep *)

Definition qtys_ok ls : Prop := Forall (λ e : Z * MEOrder, 0 ≤ qty_ e.2 < 2 ^ 32) (oents ls).

Lemma after_fill_erase leaves g p d os ls :
  erase <$> after_fill leaves g p d os ls =
    if qty_ d <=? leaves then keep_level (g_price g) os.*2 ++ (erase <$> ls)
    else mkSLevel (g_price g) (set_qty (qty_ d - leaves) d :: os.*2) :: (erase <$> ls).
Proof. unfold after_fill. destruct (_ <=? _); [|done]. by destruct os. Qed.

Lemma after_fill_qtys leaves g p d os ls :
  g_orders g = (p, d) :: os → 0 ≤ leaves → qtys_ok (g :: ls) →
  qtys_ok (after_fill leaves g p d os ls).
Proof.
  unfold qtys_ok. intros Eg Hl Hq. rewrite oents_cons, Eg, Forall_app, Forall_cons in Hq.
  destruct Hq as ((Hd & Hos) & Hls). cbn in Hd. unfold after_fill. case Z.leb_spec; intros.
  - rewrite oents_app, Forall_app. split; [|done]. destruct os; [constructor|].
    cbn. by rewrite app_nil_r.
  - rewrite oents_cons, Forall_app. split; [|done]. cbn. constructor; [cbn; lia|done].
Qed.

Lemma after_fill_length leaves g p d os ls :
  g_orders g = (p, d) :: os → qty_ d ≤ leaves →
  length (oents (g :: ls)) = S (length (oents (after_fill leaves g p d os ls))).
Proof.
  intros Eg Hq. unfold after_fill. rewrite (proj2 (Z.leb_le _ _)) by lia.
  rewrite oents_cons, Eg, oents_app, !length_app. cbn. destruct os; cbn; [done|].
  rewrite app_nil_r. done.
Qed.

Lemma erase_cons g ls p d os :
  g_orders g = (p, d) :: os →
  erase <$> (g :: ls) = mkSLevel (g_price g) (d :: os.*2) :: (erase <$> ls).
Proof. intros Eg. rewrite fmap_cons. unfold erase at 1. by rewrite Eg. Qed.

Lemma match_loop_zero fuel cid coid tid sd p moid b :
  match_loop fuel cid coid tid sd p 0 moid b = Ok (0, b).
Proof. by destruct fuel. Qed.

Lemma match_loop_spec a sd : sd = opp (ag_side a) → valid_side (ag_side a) →
  ∀ fuel b own ls leaves,
  RepX sd [] (lb b) ls own → qtys_ok ls → 0 ≤ leaves < 2 ^ 32 →
  (length (oents ls) ≤ fuel)%nat →
  ∃ B' ls' ev lv,
    match_loop fuel (ag_client a) (ag_oid a) (ag_ticker a) (ag_side a) (ag_price a) leaves (ag_moid a) b
      = Ok (lv, with_lb (sent b ev) B') ∧
    sweep a leaves (erase <$> ls) = (ev, erase <$> ls', lv) ∧
    same_sizes (lb b) B' ∧ RepX sd [] B' ls' own.
Proof.
  intros -> Hside.
  assert (Hbest : ∀ (b : MEOrderBook) own ls, RepX (opp (ag_side a)) [] (lb b) ls own →
    (if Side.eqb (ag_side a) Side.BUY then asks_by_price_ (lb b) else bids_by_price_ (lb b))
      = g_ptr <$> head ls).
  { intros b own ls Hr. rewrite <- (rep_head _ _ _ _ Hr). by destruct Hside as [-> | ->]. }
  assert (Hcross : ∀ p : Price, (if Side.eqb (ag_side a) Side.BUY then ag_price a <? p
    else p <? ag_price a) = no_cross (ag_side a) (ag_price a) p) by done.
  induction fuel as [|fuel IH]; intros b own ls leaves Hr Hq Hl Hf;
    (destruct (decide (leaves = 0)) as [->|Hl0];
     [exists (lb b), ls, [], 0; rewrite match_loop_zero, sweep_none, sent_nil, with_lb_id;
      split_and!; done|]);
    (destruct ls as [|g ls];
     [exists (lb b), [], [], leaves; rewrite sent_nil, with_lb_id; split_and!; try done;
      cbn [match_loop]; rewrite (proj2 (Z.ltb_lt 0 leaves)) by lia;
      rewrite bind_gets, (Hbest _ _ _ Hr); done|]);
    destruct (rep_mid _ _ _ [] _ _ _ Hr) as (_ & (Hne & _ & _) & _);
    (destruct (g_orders g) as [|[p d] os] eqn:Eg; [done|]);
    [rewrite oents_cons, Eg in Hf; simpl in Hf; lia|].
  destruct (rep_level_get _ _ [] _ _ _ Hr) as (n & Hn & Hnp & Hnf).
  cbn [match_loop]. rewrite (proj2 (Z.ltb_lt 0 leaves)) by lia.
  rewrite bind_gets, (Hbest _ _ _ Hr). change (g_ptr <$> head (g :: ls)) with (Some (g_ptr g)). cbv beta iota.
  rewrite (bind_Ok _ _ _ _ _ (on_lb_Ok _ _ _ _ Hn)), with_lb_id, Hnp, Hcross.
  destruct (no_cross (ag_side a) (ag_price a) (g_price g)) eqn:Ec.
  { exists (lb b), (g :: ls), [], leaves. rewrite sent_nil, with_lb_id. split_and!; try done.
    cbn. by rewrite Ec, orb_true_r. }
  rewrite Hnf, Eg. change (fst <$> head ((p, d) :: os)) with (Some p).
  assert (Hqd : 0 ≤ qty_ d < 2 ^ 32).
  { unfold qtys_ok in Hq. rewrite oents_cons, Eg in Hq. by apply Forall_cons in Hq as [? _]. }
  destruct (match_spec (opp (ag_side a)) b own g ls os p d a leaves) as (B1 & Hm & Hsz1 & Hr1);
    [done..|lia|lia|].
  rewrite (bind_Ok _ _ _ _ _ Hm).
  destruct (Z.leb_spec (qty_ d) leaves) as [Hle|Hlt].
  - destruct (IH (with_lb (sent b (fill_events a d leaves)) B1) own
      (after_fill leaves g p d os ls) (leaves - leaves `min` qty_ d))
      as (B' & ls' & ev & lv & Hrun & Hsw & Hsz & Hr'); [done| |lia| |].
    { apply after_fill_qtys; [done|lia|done]. }
    { pose proof (after_fill_length leaves g p d os ls Eg Hle). lia. }
    exists B', ls', (fill_events a d leaves ++ ev), lv. split_and!; [| | |done].
    + rewrite Hrun. rewrite sent_with_lb, sent_sent. reflexivity.
    + rewrite (erase_cons g ls p d os) by done. rewrite sweep_step_full by (done || lia).
      rewrite after_fill_erase, (proj2 (Z.leb_le _ _)) in Hsw by lia.
      replace (leaves - leaves `min` qty_ d) with (leaves - qty_ d) in Hsw by lia.
      by rewrite Hsw.
    + eapply same_sizes_trans; [exact Hsz1|exact Hsz].
  - replace (leaves - leaves `min` qty_ d) with 0 by lia. rewrite match_loop_zero.
    exists B1, (after_fill leaves g p d os ls), (fill_events a d leaves), 0.
    split_and!; try done.
    rewrite after_fill_erase, (proj2 (Z.leb_gt _ _)) by lia.
    rewrite (erase_cons g ls p d os) by done.
    by rewrite sweep_step_partial by (done || lia).
Qed.

(** *** The refinement relation *)

Record rep_side sd b own oth s : Prop := {
  rs_rep : RepX sd [] (lb b) own oth;
  rs_own : erase <$> own = s_levels sd s;
  rs_oth : erase <$> oth = s_levels (opp sd) s;
  rs_next : next_market_order_id_ b = s_next s;
  rs_levels : mp_size (orders_at_price_pool_ (lb b)) = ME_MAX_PRICE_LEVELS;
  rs_orders : mp_size (order_pool_ (lb b)) = ME_MAX_ORDER_IDS;
}.

(** The pointer structure of [b] represents the abstract book [s]. *)
Definition Represents b s : Prop := ∃ bids asks, rep_side Side.BUY b bids asks s.

Lemma rep_side_represents sd b own oth s : rep_side sd b own oth s → Represents b s.
Proof.
  intros Hr. pose proof (r_side _ _ _ _ _ (rs_rep _ _ _ _ _ Hr)) as Hs.
  destruct Hs as [-> | ->]; [by exists own, oth|]. exists oth, own.
  destruct Hr. split; try done. by apply RepX_swap in rs_rep0.
Qed.

Lemma represents_side sd b s :
  Represents b s → valid_side sd → ∃ own oth, rep_side sd b own oth s.
Proof.
  intros (bids & asks & Hr) [-> | ->]; [by exists bids, asks|]. exists asks, bids.
  destruct Hr. split; try done. by apply RepX_swap in rs_rep0.
Qed.

Lemma all_orders_erase ls : all_orders (erase <$> ls) = (oents ls).*2.
Proof.
  induction ls as [|g ls IH]; [done|]. rewrite fmap_cons, oents_cons, fmap_app, <- IH. done.
Qed.

Lemma rep_book_orders sd b own oth s :
  rep_side sd b own oth s → book_orders s ≡ₚ (oents (own ++ oth)).*2.
Proof.
  intros Hr. rewrite (book_orders_perm sd) by apply Hr.
  rewrite <- (rs_own _ _ _ _ _ Hr), <- (rs_oth _ _ _ _ _ Hr), !all_orders_erase.
  by rewrite oents_app, fmap_app.
Qed.

Lemma oindex_lookup_Some ls k p :
  NoDup (okeys ls) → oindex ls !! k = Some p ↔ ∃ d, (p, d) ∈ oents ls ∧ order_key d = k.
Proof.
  intros Hnd. unfold oindex. rewrite <- elem_of_list_to_map.
  - rewrite list_elem_of_fmap. split.
    + intros ([q d] & [= -> ->] & Hin). by exists d.
    + intros (d & Hin & <-). by exists (p, d).
  - by rewrite <- list_fmap_compose.
Qed.

Lemma rep_index_has_key sd b own oth s k :
  rep_side sd b own oth s →
  bool_decide (is_Some (order_index_ (lb b) !! k)) = has_key k s.
Proof.
  intros Hr. pose proof (rs_rep _ _ _ _ _ Hr) as HR.
  rewrite (r_oindex _ _ _ _ _ HR). unfold has_key. apply eq_true_iff_eq.
  rewrite bool_decide_eq_true, existsb_elem. split.
  - intros [p Hp]. apply oindex_lookup_Some in Hp as (d & Hin & Hk); [|apply HR].
    exists d. split; [|by apply bool_decide_eq_true].
    rewrite (rep_book_orders _ _ _ _ _ Hr). by apply (list_elem_of_fmap_2 snd _ (p, d)).
  - intros (d & Hin & Hk). apply bool_decide_eq_true in Hk.
    rewrite (rep_book_orders _ _ _ _ _ Hr) in Hin.
    apply list_elem_of_fmap in Hin as ([p d'] & -> & Hin). exists p.
    apply oindex_lookup_Some; [apply HR|]. by exists d'.
Qed.

Lemma rep_levels_perm sd b own oth s :
  rep_side sd b own oth s → s_bids s ++ s_asks s ≡ₚ erase <$> (own ++ oth).
Proof.
  intros Hr. rewrite fmap_app, (rs_own _ _ _ _ _ Hr), (rs_oth _ _ _ _ _ Hr).
  destruct (r_side _ _ _ _ _ (rs_rep _ _ _ _ _ Hr)) as [-> | ->]; [done|].
  apply Permutation_app_comm.
Qed.

Lemma rep_level_price sd b own oth s g :
  rep_side sd b own oth s → g ∈ own ++ oth →
  ∃ n, level_get (Some (g_ptr g)) (lb b) = Ok (n, lb b) ∧ price_ n = g_price g.
Proof.
  intros Hr Hg. pose proof (rs_rep _ _ _ _ _ Hr) as HR.
  apply elem_of_app in Hg as [Hg|Hg]; apply list_elem_of_split in Hg as (l1 & l2 & E); subst.
  - destruct (rep_level_get _ _ _ _ _ _ HR) as (n & ? & ? & _). eauto.
  - apply RepX_swap in HR. destruct (rep_level_get _ _ _ _ _ _ HR) as (n & ? & ? & _). eauto.
Qed.

(** *** Resting an order *)

Lemma own_level_dec own oth price :
  NoDup (lslots (own ++ oth)) → slot_clear own oth price →
  (slot price ∉ lslots (own ++ oth) ∧ ∀ l, l ∈ erase <$> own → l_price l ≠ price) ∨
  ∃ l1 g l2, own = l1 ++ g :: l2 ∧ g_price g = price ∧
    ∀ k, k ∈ (erase <$> l1) ++ (erase <$> l2) → l_price k ≠ price.
Proof.
  intros Hnd Hc. destruct (level_dec own oth price Hnd Hc) as [[Hs Hno]|(l1 & g & l2 & -> & Hp & Hno)].
  - left. split; [done|]. intros l (g & -> & Hg)%list_elem_of_fmap. by apply Hno.
  - right. exists l1, g, l2. split_and!; [done..|]. rewrite <- fmap_app.
    intros k (h & -> & Hh)%list_elem_of_fmap. by apply Hno.
Qed.

Lemma getNextPriority_spec sd B own oth price :
  RepX sd [] B own oth → slot_clear own oth price →
  getNextPriority price B = Ok (next_priority price (erase <$> own), B).
Proof.
  intros Hr Hc. unfold getNextPriority. rewrite bind_gets. unfold getOrdersAtPrice.
  destruct (own_level_dec own oth price (r_slots _ _ _ _ _ Hr) Hc)
    as [[Hs Hno]|(l1 & g & l2 & -> & Hp & Hno)].
  - rewrite (r_pmap _ _ _ _ _ Hr), pmap_lookup_None by done.
    by rewrite next_priority_none.
  - assert (Hlk : price_orders_at_price_ B !! slot price = Some (g_ptr g)).
    { rewrite <- Hp. by eapply rep_pmap_lookup. }
    rewrite Hlk. clear Hlk.
    destruct (rep_mid _ _ _ _ _ _ _ Hr) as (_ & (Hne & _) & _).
    destruct (g_orders g) as [|[p d] os _] eqn:Eg using rev_ind; [done|].
    destruct (rep_tail sd B l1 g l2 oth os p d Hr Eg) as (n & f & t & H1 & H2 & H3 & H4).
    rewrite (bind_Ok _ _ _ _ _ H1), (bind_Ok _ _ _ _ _ H2), (bind_Ok _ _ _ _ _ H3), H4.
    rewrite fmap_app, fmap_cons. unfold erase at 2.
    rewrite (next_priority_at price _ _ _ d os.*2); [done|done|done|].
    cbn. by rewrite Eg, fmap_app.
Qed.

End refine.

(** The capacities of the build profile bound the number of levels. *)
Section adding.
Context `{Cfg : Config, !ConfigOk Cfg} {key : PriceKey} {key_ok : PriceKeyOk key}.
Implicit Types (b : MEOrderBook) (B : LB) (sd : Side.t) (own oth ls : list GL) (g : GL) (s : SBook).
Local Set Default Proof Using "All".

(** Allocating and linking the rest of an order. *)
Lemma rest_spec sd B own oth o :
  RepX sd [] B own oth → o_side_ o = sd → slot_clear own oth (o_price_ o) →
  order_key o ∉ okeys (own ++ oth) →
  (slot (o_price_ o) ∉ lslots (own ++ oth) →
     Z.of_nat (length (own ++ oth)) < mp_size (orders_at_price_pool_ B)) →
  Z.of_nat (length (oents (own ++ oth))) < mp_size (order_pool_ B) →
  ∃ p B1 B2 own', allocate_order (mkNode o None None) B = Ok (Some p, B1) ∧
    addOrder p B1 = Ok (tt, B2) ∧ same_sizes B B2 ∧ RepX sd [] B2 own' oth ∧
    erase <$> own' = rest sd o (erase <$> own).
Proof.
  intros Hr Hs Hc Hk Hlv Hcap.
  destruct (link_new_order sd B own oth o Hr Hs Hc Hk Hlv Hcap)
    as (p & B1 & B2 & own' & ? & ? & ? & ? & Hrest).
  exists p, B1, B2, own'. split_and!; try done.
  destruct Hrest as [(i & -> & Hno)|(l1 & g & l2 & -> & Hp & -> & Hno)].
  - unfold OrderBookSpec.rest. rewrite (proj2 (existsb_not_elem _ _)).
    + by apply (insert_where_fmap erase _ _ (mkG i (o_price_ o) [(p, o)])).
    + intros l (g & -> & Hg)%list_elem_of_fmap. apply Z.eqb_neq. by apply Hno.
  - rewrite !fmap_app, !fmap_cons. rewrite rest_append; [|done|].
    + unfold erase at 2 4. cbn. by rewrite fmap_app.
    + rewrite <- fmap_app. intros k (h & -> & Hh)%list_elem_of_fmap. by apply Hno.
Qed.

Lemma okeys_erase ls : okeys ls = order_key <$> all_orders (erase <$> ls).
Proof. rewrite all_orders_erase. unfold okeys. by rewrite <- list_fmap_compose. Qed.

Lemma wf_qtys sd next ls : side_wf sd next (erase <$> ls) → qtys_ok ls.
Proof.
  intros [Hf _]. unfold qtys_ok. rewrite Forall_forall in Hf. rewrite Forall_forall. intros e He.
  unfold oents in He. apply list_elem_of_bind in He as (g & He & Hg).
  destruct (Hf (erase g)) as (_ & _ & Ho & _); [by apply list_elem_of_fmap_2|].
  rewrite Forall_forall in Ho. destruct (Ho e.2) as (_ & _ & ? & _); [by apply list_elem_of_fmap_2|lia].
Qed.

Lemma oents_length ls : length (oents ls) = length (all_orders (erase <$> ls)).
Proof. by rewrite all_orders_erase, length_fmap. Qed.

(** Past the tests: the order is numbered and acknowledged, then matched. *)
Definition add_accepted cid oid tid sd price qty : M MEOrderBook unit :=
  new_moid ← generateNextMarketOrderId;
  sendClientResponse (accepted cid oid tid sd price qty new_moid);;
  leaves_qty ← checkForMatch cid oid tid sd price qty new_moid;
  if 0 <? leaves_qty then
    priority ← on_lb (getNextPriority price);
    let o := mkMEOrder tid cid oid new_moid sd price leaves_qty priority in
    order ← on_lb (allocate_order (mkNode o None None));
    match order with
    | None => fail (UB "null order")
    | Some i =>
        on_lb (addOrder i);;
        sendMarketUpdate (order_update MarketUpdateType.ADD tid o leaves_qty)
    end
  else mret tt.

(** After a sweep that wants more, nothing stands in the slot of the limit. *)
Lemma swept_slot_clear b s sd own oth oth' a qty ev lv :
  rep_side sd b own oth s → book_wf s → ag_side a = sd → price_collides (ag_price a) s = false →
  0 ≤ qty → sweep a qty (erase <$> oth) = (ev, erase <$> oth', lv) → 0 < lv →
  slot_clear own oth' (ag_price a).
Proof.
  intros Hr Hw Hside Hc Hq Hs Hlv g Hg Heq. pose proof (r_side _ _ _ _ _ (rs_rep _ _ _ _ _ Hr)) as Hv.
  destruct (proj1 (book_wf_side sd s Hv) Hw) as (_ & _ & Hoth & _).
  rewrite <- (rs_oth _ _ _ _ _ Hr) in Hoth. pose proof (side_wf_pos _ _ _ Hoth) as Hpos.
  assert (Hfind : ∀ l, l ∈ erase <$> (own ++ oth) → l_price l = g_price g → g_price g = ag_price a).
  { intros l Hl E. rewrite <- E. eapply price_collides_false; [exact Hc| |by apply price_key_ok; rewrite E].
    by rewrite (rep_levels_perm _ _ _ _ _ Hr). }
  apply elem_of_app in Hg as [Hg|Hg].
  - split; [done|]. apply (Hfind (erase g)); [|done]. rewrite fmap_app, elem_of_app. left.
    by apply list_elem_of_fmap_2.
  - exfalso. assert (Hg' : erase g ∈ erase <$> oth') by (by apply list_elem_of_fmap_2).
    pose proof (sweep_spec a _ _ _ _ _ Hpos Hq Hs) as (Hrem & _).
    destruct (remains_price_elem _ _ _ Hrem Hg') as (l & Hl & El).
    assert (g_price g = ag_price a) as Ep.
    { apply (Hfind l); [|done]. rewrite fmap_app, elem_of_app. by right. }
    assert (Hnc : no_cross (ag_side a) (ag_price a) (l_price (erase g)) = true).
    { subst sd. by eapply sweep_no_cross. }
    cbn in Hnc. rewrite Ep in Hnc. unfold no_cross in Hnc. rewrite Z.ltb_irrefl in Hnc.
    by destruct (Side.eqb _ _).
Qed.

(** The matching phase, from the abstract sweep. *)
Lemma checkForMatch_spec b next sd own oth cid oid tid price qty moid ev rst lv :
  RepX sd [] (lb b) own oth → side_wf (opp sd) next (erase <$> oth) → 0 ≤ qty < 2 ^ 32 →
  sweep (mkAggressor cid oid tid sd price moid) qty (erase <$> oth) = (ev, rst, lv) →
  ∃ B oth', checkForMatch cid oid tid sd price qty moid b = Ok (lv, with_lb (sent b ev) B) ∧
    erase <$> oth' = rst ∧ same_sizes (lb b) B ∧ RepX sd [] B own oth'.
Proof.
  intros HR Hoth Hq Hs. pose proof (r_side _ _ _ _ _ HR) as Hv.
  set (a := mkAggressor cid oid tid sd price moid) in *.
  unfold checkForMatch. rewrite bind_gets.
  destruct (match_loop_spec a (opp sd) eq_refl Hv (S (size (order_index_ (lb b)))) b own oth qty)
    as (B & oth' & ev' & lv' & Hrun & Hsw & Hsz & HR').
  - by apply RepX_swap.
  - by eapply wf_qtys.
  - done.
  - rewrite <- (rep_okeys_size _ _ _ _ _ HR), oents_app, length_app. lia.
  - rewrite Hs in Hsw. simplify_eq. exists B, oth'. split_and!; [exact Hrun|done|done|].
    apply RepX_swap in HR'. by rewrite opp_opp in HR'.
Qed.

Definition numbered b : MEOrderBook :=
  mkMEOrderBook (book_ticker_id_ b) (lb b) (u64 (next_market_order_id_ b + 1)) (matching_engine_ b).

Lemma generate_Ok b : generateNextMarketOrderId b = Ok (next_market_order_id_ b, numbered b).
Proof. done. Qed.

(** Whatever the key of the index, the levels of a well-formed book fit the
    level pool: their slots in the direct-mapped index are distinct. *)
Lemma swept_level_room b s sd own oth oth' a qty ev lv price :
  rep_side sd b own oth s → book_wf s → price_collides price s = false →
  0 ≤ qty → sweep a qty (erase <$> oth) = (ev, erase <$> oth', lv) →
  slot price ∉ lslots (own ++ oth') → Z.of_nat (length (own ++ oth')) < ME_MAX_PRICE_LEVELS.
Proof.
  intros Hr Hw Hc Hq Hs Hno. pose proof (r_side _ _ _ _ _ (rs_rep _ _ _ _ _ Hr)) as Hv.
  destruct (proj1 (book_wf_side sd s Hv) Hw) as (_ & _ & Hoth & _ & Hsl & _).
  rewrite <- (rs_oth _ _ _ _ _ Hr) in Hoth, Hsl. rewrite <- (rs_own _ _ _ _ _ Hr) in Hsl.
  pose proof (sweep_spec a _ _ _ _ _ (side_wf_pos _ _ _ Hoth) Hq Hs) as (Hrem & _).
  set (idx := λ g : GL, priceToIndex (g_price g)).
  assert (Hsub : (idx <$> oth') `sublist_of` (idx <$> oth)).
  { pose proof (remains_slots _ _ Hrem) as H. rewrite <- !list_fmap_compose in H. exact H. }
  assert (Hnd : NoDup (idx <$> own ++ oth)).
  { rewrite fmap_app, <- !list_fmap_compose, <- fmap_app in Hsl. exact Hsl. }
  assert (Hnd' : NoDup (idx <$> own ++ oth')).
  { eapply sublist_NoDup; [exact Hnd|]. rewrite !fmap_app. by apply sublist_app. }
  assert (Hn : NoDup (priceToIndex price :: (idx <$> own ++ oth'))).
  { apply NoDup_cons. split; [|done]. intros (g & E & Hg)%list_elem_of_fmap. apply Hno.
    apply list_elem_of_fmap. exists g. split; [|done]. f_equal.
    assert (Hl : ∃ l, l ∈ s_bids s ++ s_asks s ∧ l_price l = g_price g).
    { apply elem_of_app in Hg as [Hg|Hg].
      - exists (erase g). split; [|done]. rewrite (rep_levels_perm _ _ _ _ _ Hr), fmap_app, elem_of_app.
        left. by apply list_elem_of_fmap_2.
      - assert (Hg' : erase g ∈ erase <$> oth') by (by apply list_elem_of_fmap_2).
        destruct (remains_price_elem _ _ _ Hrem Hg') as (l & Hl & El). exists l. split; [|done].
        rewrite (rep_levels_perm _ _ _ _ _ Hr), fmap_app, elem_of_app. by right. }
    destruct Hl as (l & Hl & El). rewrite <- El. symmetry.
    eapply price_collides_false; [exact Hc|exact Hl|]. rewrite El. symmetry. exact E. }
  apply NoDup_range_length with (n := ME_MAX_PRICE_LEVELS) in Hn.
  - cbn in Hn. rewrite length_fmap in Hn. pose proof cfg_levels. lia.
  - pose proof cfg_levels. intros j [->|(h & -> & _)%list_elem_of_fmap]%elem_of_cons;
      apply Z.mod_pos_bound; lia.
Qed.

Lemma add_accepted_spec b s sd own oth cid oid tid price qty :
  rep_side sd b own oth s → book_wf s → 0 ≤ qty < 2 ^ 32 → s_accepts cid oid price s = true →
  let r := s_add cid oid tid sd price qty s in
  if Z.of_nat (length (book_orders r.2)) <=? ME_MAX_ORDER_IDS
  then ∃ b', add_accepted cid oid tid sd price qty b = Ok (tt, b') ∧ Represents b' r.2 ∧
         matching_engine_ b' = matching_engine_ b ++ r.1
  else add_accepted cid oid tid sd price qty b = Err (Fatal "MemPool exhausted").
Proof.
  intros Hr Hw Hq Ea r. pose proof (rs_rep _ _ _ _ _ Hr) as HR.
  pose proof (r_side _ _ _ _ _ HR) as Hv. subst r. unfold s_add. rewrite Ea. cbn [negb].
  unfold s_accepts in Ea. rewrite !andb_true_iff, !negb_true_iff in Ea.
  destruct Ea as [[_ Hkey] Hcol]. apply has_key_false in Hkey.
  set (a := mkAggressor cid oid tid sd price (s_next s)).
  destruct (sweep a qty (s_levels (opp sd) s)) as [[ev rst] lv] eqn:Es.
  pose proof (rs_next _ _ _ _ _ Hr) as Hnext.
  set (acc := accepted cid oid tid sd price qty (s_next s)).
  destruct (proj1 (book_wf_side sd s Hv) Hw) as (_ & Hown & Hoth & _).
  rewrite <- (rs_oth _ _ _ _ _ Hr) in Hoth, Es.
  set (b1 := sent (numbered b) [Resp acc]).
  destruct (checkForMatch_spec b1 (s_next s) sd own oth cid oid tid price qty
    (s_next s) ev rst lv HR Hoth Hq Es) as (B & oth' & Hrun & Hrst & Hsz & HR').
  unfold add_accepted. rewrite (bind_Ok _ _ _ _ _ (generate_Ok b)), Hnext.
  unfold sendClientResponse, sendMarketUpdate.
  rewrite (bind_Ok _ _ _ _ _ (send_Ok _ _)). fold acc b1. rewrite (bind_Ok _ _ _ _ _ Hrun). cbv beta.
  assert (HszB : mp_size (orders_at_price_pool_ B) = ME_MAX_PRICE_LEVELS ∧
                 mp_size (order_pool_ B) = ME_MAX_ORDER_IDS).
  { destruct Hsz as [-> ->]. split; apply Hr. }
  pose proof (sweep_spec a _ _ _ _ _ (side_wf_pos _ _ _ Hoth) (proj1 Hq) Es) as (Hrem & Hlv & _).
  case (Z.ltb_spec 0 lv) as [Hlt|Hle].
  - (* the rest of the order goes to the book *)
    subst rst.
    assert (Hclear : slot_clear own oth' price).
    { apply (swept_slot_clear b s sd own oth oth' a qty ev lv); try done. lia. }
    erewrite bind_Ok; [|apply on_lb_Ok; exact (getNextPriority_spec sd B own oth' price HR' Hclear)].
    rewrite (rs_own _ _ _ _ _ Hr). set (pr := next_priority price (s_levels sd s)).
    set (o := mkMEOrder tid cid oid (s_next s) sd price lv pr). cbn [fst snd].
    destruct (s_levels_set sd (rest sd o (s_levels sd s)) (erase <$> oth') (u64 (s_next s + 1)) Hv)
      as (E1 & E2 & E3).
    assert (Hlen : length (book_orders (s_set sd (rest sd o (s_levels sd s)) (erase <$> oth')
      (u64 (s_next s + 1)))) = S (length (oents (own ++ oth')))).
    { rewrite (book_orders_perm sd), E1, E2, length_app by done.
      rewrite (rest_orders_perm sd o _ (s_next s)) by done.
      rewrite <- (rs_own _ _ _ _ _ Hr), oents_app, length_app, !oents_length. done. }
    rewrite Hlen. pose proof (rep_orders_capacity _ _ _ _ _ HR') as Hc.
    case Z.leb_spec; intros Hfull.
    + destruct (rest_spec sd B own oth' o) as (p & B1 & B2 & own' & Hal & Hadd & Hsz2 & HR2 & Eown);
        [done|done|done| | |rewrite (proj2 HszB); lia|].
      { rewrite okeys_erase, fmap_app, (rs_own _ _ _ _ _ Hr). intros Hin. apply Hkey.
        rewrite (book_orders_perm sd) by done. unfold all_orders in *.
        rewrite bind_app, fmap_app in Hin. rewrite fmap_app. apply elem_of_app in Hin as [?|Hin];
          [set_solver|]. apply elem_of_app. right. eapply sublist_subseteq; [|exact Hin].
        rewrite <- (rs_oth _ _ _ _ _ Hr). by apply remains_keys. }
      { rewrite (proj1 HszB). eapply (swept_level_room b s sd own oth oth' a qty ev lv price); try done. lia. }
      eexists. split; [|split].
      * erewrite bind_Ok; [|apply on_lb_Ok; exact Hal]. cbv beta iota zeta.
        erewrite bind_Ok; [|apply on_lb_Ok; exact Hadd]. rewrite send_Ok. reflexivity.
      * apply (rep_side_represents sd _ own' oth'). destruct Hsz2 as [Hs1 Hs2].
        split; rewrite ?E1, ?E2, ?E3; cbn; try done; try (by rewrite Hnext).
        -- by rewrite Eown, (rs_own _ _ _ _ _ Hr).
        -- rewrite Hs1. apply HszB.
        -- rewrite Hs2. apply HszB.
      * cbn. by rewrite <- !(assoc (++)).
    + erewrite bind_Err; [done|]. apply on_lb_Err.
      apply (allocate_order_full sd B own oth'); [done|]. rewrite (proj2 HszB) in Hc |- *. lia.
  - (* fully matched *)
    cbn [fst snd]. subst rst.
    destruct (s_levels_set sd (s_levels sd s) (erase <$> oth') (u64 (s_next s + 1)) Hv)
      as (E1 & E2 & E3).
    rewrite (proj2 (Z.leb_le _ _)).
    + eexists. split; [reflexivity|]. split.
      * apply (rep_side_represents sd _ own oth').
        split; rewrite ?E1, ?E2, ?E3; cbn; try done; try (by rewrite Hnext); try apply Hr; apply HszB.
      * cbn. by rewrite <- (assoc (++)).
    + rewrite (book_orders_perm sd), E1, E2 by done. rewrite <- (rs_own _ _ _ _ _ Hr).
      rewrite length_app, <- !oents_length, <- length_app, <- oents_app.
      rewrite <- (proj2 HszB). by eapply rep_orders_capacity.
Qed.
End adding.

Section cancelling.
Context `{Config} {key : PriceKey}.
Implicit Types (b : MEOrderBook) (B : LB) (sd : Side.t) (own oth ls : list GL) (g : GL) (s : SBook).

Lemma cancel_absent b s cid oid :
  Represents b s → has_key (cid, oid) s = false → order_index_ (lb b) !! (cid, oid) = None.
Proof.
  intros (bids & asks & Hr) Hk. rewrite <- (rep_index_has_key _ _ _ _ _ _ Hr) in Hk.
  by apply bool_decide_eq_false, eq_None_not_Some in Hk.
Qed.

(** The end of [cancel], on the order it found. *)
Definition cancel_found (i : Z) (client_id : ClientId) (ticker_id : TickerId) : M MEOrderBook unit :=
  n ← on_lb (order_get (Some i));
  let o := data n in
  on_lb (removeOrder (Some i));;
  sendMarketUpdate (order_update MarketUpdateType.CANCEL ticker_id o (qty_ o));;
  sendClientResponse (canceled client_id ticker_id o).

Lemma cancel_found_spec b s cid oid tid :
  Represents b s → book_wf s → has_key (cid, oid) s = true →
  let r := s_cancel cid oid tid s in
  id_ok cid oid = true ∧
  ∃ i b', order_index_ (lb b) !! (cid, oid) = Some i ∧ cancel_found i cid tid b = Ok (tt, b') ∧
    Represents b' r.2 ∧ matching_engine_ b' = matching_engine_ b ++ r.1.
Proof.
  intros Hrep Hw Eh r. subst r.
  destruct (has_key_place _ _ Eh) as (sd & l1 & l & l2 & o1 & o & o2 & Hv & El & Eo & Ek).
  split; [by eapply has_key_id_ok|].
  rewrite (s_cancel_hit _ _ _ _ _ _ _ _ _ _ _ Hw Hv El Eo Ek). cbn [fst snd].
  destruct (represents_side sd b s Hrep Hv) as (own & oth & Hr).
  pose proof (rs_rep _ _ _ _ _ Hr) as HR. pose proof (rs_own _ _ _ _ _ Hr) as Eown.
  rewrite El in Eown. apply fmap_mid_inv in Eown as (k1 & g & k2 & -> & Ek1 & <- & Ek2).
  cbn in Eo. destruct (fmap_mid_inv _ _ _ _ _ Eo) as (q1 & [p d] & q2 & Eg & Eq1 & E & Eq2).
  cbn in E. subst d.
  assert (Hlk : order_index_ (lb b) !! (cid, oid) = Some p).
  { rewrite (r_oindex _ _ _ _ _ HR). apply oindex_lookup_Some; [apply HR|]. exists o. split; [|done].
    rewrite oents_mid_perm, Eg. set_solver. }
  exists p. unfold cancel_found.
  destruct (rep_order_get _ _ _ _ _ _ _ _ _ _ HR Eg) as (n & Hn & Hd & _).
  rewrite (bind_Ok _ _ _ _ _ (on_lb_Ok _ _ _ _ Hn)), with_lb_id, Hd.
  destruct (removeOrder_spec _ _ _ _ _ _ _ _ _ _ HR Eg) as (B & Hrem & [Hs1 Hs2] & HR').
  rewrite (bind_Ok _ _ _ _ _ (on_lb_Ok _ _ _ _ Hrem)).
  unfold sendMarketUpdate, sendClientResponse. erewrite bind_Ok; [|apply send_Ok].
  rewrite send_Ok. eexists. split; [exact Hlk|]. split; [reflexivity|]. split.
  - eapply (rep_side_represents sd).
    destruct (s_levels_set sd (l1 ++ keep_level (l_price (erase g)) (o1 ++ o2) ++ l2)
      (s_levels (opp sd) s) (s_next s) Hv) as (E1 & E2 & E3).
    split; [exact HR'| | | | |]; rewrite ?E1, ?E2, ?E3; cbn; try apply Hr.
    + rewrite !fmap_app, Ek1, Ek2. f_equal. f_equal. rewrite <- Eq1, <- Eq2, <- fmap_app.
      destruct (q1 ++ q2); done.
    + rewrite Hs1. apply Hr.
    + rewrite Hs2. apply Hr.
  - cbn. by rewrite <- (assoc (++)).
Qed.
End cancelling.
