(* ===== verification/MEOrderBookRefines.v ===== *)
(** [MEOrderBook] refines the abstract book of OrderBookSpec.v: its two tests
    reject exactly the orders the specification rejects, and past them the
    matching core of MEOrderBookMatching.v does what is specified. *)

From S2P Require Import Prelude Types MemPool LevelBook LevelBookRep LevelBookOps.
From S2P Require Import MEOrder OrderBookSpec OrderBookInv MEOrderBook MEOrderBookMatching.

Section array.
Context `{Cfg : Config, !ConfigOk Cfg}.
Implicit Types (b : MEOrderBook) (sd : Side.t) (own oth : list GL) (g : GL) (s : SBook).
Local Set Default Proof Using "All".

(** The slot of [price] in the index, when no other price aliases it. *)
Lemma rep_slot sd b own oth s price :
  rep_side sd b own oth s → price_collides price s = false →
  match getOrdersAtPrice price (lb b) with
  | Some i => ∃ g, g ∈ own ++ oth ∧ g_ptr g = i ∧ g_price g = price
  | None => slot price ∉ lslots (own ++ oth)
  end.
Proof.
  intros Hr Hc. pose proof (rs_rep _ _ _ _ _ Hr) as HR. unfold getOrdersAtPrice.
  rewrite (r_pmap _ _ _ _ _ HR). unfold pmap.
  destruct (_ !! slot price) as [i|] eqn:E.
  - apply elem_of_list_to_map_2 in E. apply list_elem_of_fmap in E as (g & [= Hs ->] & Hg).
    exists g. split_and!; [done|done|]. unfold price_collides in Hc.
    rewrite existsb_not_elem in Hc. specialize (Hc (erase g)).
    assert (Hin : erase g ∈ s_bids s ++ s_asks s).
    { rewrite (rep_levels_perm _ _ _ _ _ Hr). by apply list_elem_of_fmap_2. }
    change (priceToIndex price = priceToIndex (g_price g)) in Hs.
    specialize (Hc Hin). cbn in Hc. rewrite <- Hs in Hc. cbn in Hc. rewrite Z.eqb_refl in Hc.
    cbn in Hc. destruct (Z.eqb_spec (g_price g) price); done.
  - intros Hin. apply not_elem_of_list_to_map_2 in E. apply E.
    by rewrite <- list_fmap_compose.
Qed.

Lemma rep_collides sd b own oth s price :
  rep_side sd b own oth s → price_collides price s = true →
  ∃ g, g ∈ own ++ oth ∧ getOrdersAtPrice price (lb b) = Some (g_ptr g) ∧ g_price g ≠ price.
Proof.
  intros Hr Hc. pose proof (rs_rep _ _ _ _ _ Hr) as HR.
  unfold price_collides in Hc. apply existsb_elem in Hc as (l & Hin & Hl).
  rewrite (rep_levels_perm _ _ _ _ _ Hr) in Hin. apply list_elem_of_fmap in Hin as (g & -> & Hg).
  apply andb_true_iff in Hl as [Hs Hne]. cbn in Hs, Hne. apply Z.eqb_eq in Hs.
  exists g. split_and!; [done| |by destruct (Z.eqb_spec (g_price g) price)].
  unfold getOrdersAtPrice. rewrite (r_pmap _ _ _ _ _ HR).
  change (slot price) with (priceToIndex price). rewrite <- Hs.
  exact (pmap_lookup (K:=Z*Z) _ _ (r_slots _ _ _ _ _ HR) Hg).
Qed.

(** The two rejection tests of [add], in terms of the abstract book. *)
Lemma add_rejects b s sd own oth cid oid tid price qty :
  rep_side sd b own oth s → s_accepts cid oid price s = false →
  add cid oid tid sd price qty b = Ok (tt, sent b [Resp (rejected cid oid tid sd price)]).
Proof.
  intros Hr Ha. unfold add. rewrite bind_gets, (rep_index_has_key _ _ _ _ _ _ Hr).
  change (in_bounds cid oid) with (id_ok cid oid).
  unfold s_accepts in Ha. destruct (id_ok cid oid); [|done].
  destruct (has_key (cid, oid) s); [done|]. cbn [negb orb andb] in Ha |- *. apply negb_false_iff in Ha.
  rewrite bind_gets. destruct (rep_collides _ _ _ _ _ _ Hr Ha) as (g & Hg & -> & Hne).
  destruct (rep_level_price _ _ _ _ _ _ Hr Hg) as (n & Hn & Hp).
  rewrite bind_assoc, (bind_Ok _ _ _ _ _ (on_lb_Ok _ _ _ _ Hn)), with_lb_id, bind_ret, Hp.
  by rewrite (proj2 (Z.eqb_neq _ _) Hne).
Qed.

Lemma add_accepts b s sd own oth cid oid tid price qty :
  rep_side sd b own oth s → s_accepts cid oid price s = true →
  add cid oid tid sd price qty b = add_accepted cid oid tid sd price qty b.
Proof.
  intros Hr Ha. unfold add. rewrite bind_gets, (rep_index_has_key _ _ _ _ _ _ Hr).
  change (in_bounds cid oid) with (id_ok cid oid).
  unfold s_accepts in Ha. rewrite !andb_true_iff, !negb_true_iff in Ha.
  destruct Ha as [[-> ->] Hc]. cbn [negb orb andb]. rewrite bind_gets.
  pose proof (rep_slot _ _ _ _ _ _ Hr Hc) as Hs.
  destruct (getOrdersAtPrice price (lb b)) as [i|]; [|done].
  destruct Hs as (g & Hg & <- & Hp).
  destruct (rep_level_price _ _ _ _ _ _ Hr Hg) as (n & Hn & Hp').
  rewrite bind_assoc, (bind_Ok _ _ _ _ _ (on_lb_Ok _ _ _ _ Hn)), with_lb_id, bind_ret.
  by rewrite Hp', Hp, Z.eqb_refl.
Qed.

Lemma add_spec b s sd cid oid tid price qty :
  Represents b s → book_wf s → valid_side sd → 0 ≤ qty < 2 ^ 32 →
  let r := s_add cid oid tid sd price qty s in
  if Z.of_nat (length (book_orders r.2)) <=? ME_MAX_ORDER_IDS
  then ∃ b', add cid oid tid sd price qty b = Ok (tt, b') ∧ Represents b' r.2 ∧
         matching_engine_ b' = matching_engine_ b ++ r.1
  else add cid oid tid sd price qty b = Err (Fatal "MemPool exhausted").
Proof.
  intros Hrep Hw Hv Hq. destruct (represents_side sd b s Hrep Hv) as (own & oth & Hr).
  destruct (s_accepts cid oid price s) eqn:Ea.
  - rewrite (add_accepts _ _ _ _ _ _ _ _ _ _ Hr Ea).
    by apply (add_accepted_spec b s sd own oth).
  - unfold s_add. rewrite Ea. cbn [negb fst snd].
    pose proof (rep_book_orders _ _ _ _ _ Hr) as Hp. rewrite (proj2 (Z.leb_le _ _)).
    + rewrite (add_rejects _ _ _ _ _ _ _ _ _ _ Hr Ea). eexists. split_and!; [done| |done].
      apply (rep_side_represents sd _ own oth). by destruct Hr.
    + rewrite Hp, length_fmap, <- (rs_orders _ _ _ _ _ Hr).
      eapply rep_orders_capacity, Hr.
Qed.

Lemma cancel_spec b s cid oid tid :
  Represents b s → book_wf s →
  let r := s_cancel cid oid tid s in
  ∃ b', cancel cid oid tid b = Ok (tt, b') ∧ Represents b' r.2 ∧
    matching_engine_ b' = matching_engine_ b ++ r.1.
Proof.
  intros Hrep Hw. cbv zeta. unfold cancel. rewrite bind_gets. change (in_bounds cid oid) with (id_ok cid oid).
  destruct (has_key (cid, oid) s) eqn:Eh.
  - destruct (cancel_found_spec b s cid oid tid Hrep Hw Eh) as (-> & i & b' & -> & H & H').
    by exists b'.
  - rewrite (cancel_absent _ _ _ _ Hrep Eh), s_cancel_miss by (by rewrite Eh).
    exists (sent b [Resp (cancel_rejected cid oid tid)]). split; [by destruct (id_ok cid oid)|].
    split; [|done]. destruct Hrep as (bids & asks & Hr).
    by apply (rep_side_represents Side.BUY _ bids asks); destruct Hr.
Qed.

Lemma MEOrderBook_new_represents tid :
  Represents (MEOrderBook_new tid) (mkSBook [] [] 1).
Proof.
  exists [], []. split; try done. split; try done; cbn; try (by constructor).
  - apply mp_new_ok. pose proof cfg_levels. lia.
  - apply mp_new_ok. pose proof cfg_order_ids. lia.
Qed.

Lemma empty_book_wf : book_wf (mkSBook [] [] 1).
Proof.
  split; cbn; [done|split; constructor..| | |]; [intros b a Hb; by apply not_elem_of_nil in Hb|constructor..].
Qed.
End array.
