(* ===== verification/MEOrderBookProps.v ===== *)
(** [MEOrderBook] over a whole session, and what its messages promise: the book
    invariant after any sequence of requests, price-time priority and
    conservation of quantity.  The statements are about the pointer code; the
    arguments are those of OrderBookProps.v, carried over by the refinement. *)

From S2P Require Import Prelude Types LevelBook LevelBookRep MEOrder.
From S2P Require Import OrderBookSpec OrderBookInv OrderBookProps.
From S2P Require Import MEOrderBook MEOrderBookMatching MEOrderBookRefines.

(** ** A session of one book *)

Inductive request :=
  | New (cid : ClientId) (oid : OrderId) (tid : TickerId) (sd : Side.t) (price : Price) (qty : Qty)
  | Cancel (cid : ClientId) (oid : OrderId) (tid : TickerId).

Section session.
Context `{Cfg : Config, !ConfigOk Cfg}.
Implicit Types (b : MEOrderBook) (s : SBook) (r : request).
Local Set Default Proof Using "All".

Definition perform r : M MEOrderBook unit :=
  match r with
  | New cid oid tid sd price qty => add cid oid tid sd price qty
  | Cancel cid oid tid => cancel cid oid tid
  end.

Definition request_valid r : Prop :=
  match r with
  | New cid oid _ sd price qty => valid_side sd ∧ is_u32 cid ∧ is_u64 oid ∧ is_u64 price ∧ is_u32 qty
  | Cancel _ _ _ => True
  end.

Definition s_perform r s : list Out * SBook :=
  match r with
  | New cid oid tid sd price qty => s_add cid oid tid sd price qty s
  | Cancel cid oid tid => s_cancel cid oid tid s
  end.

Fixpoint s_session (reqs : list request) s : list Out * SBook :=
  match reqs with
  | [] => ([], s)
  | r :: reqs => let '(ev, s1) := s_perform r s in let '(ev', s2) := s_session reqs s1 in (ev ++ ev', s2)
  end.

(** A book after at most [n] requests. *)
Record sess_ok (n : nat) b s : Prop := {
  so_rep : Represents b s;
  so_wf : book_wf s;
  so_next : s_next s ≤ Z.of_nat n + 1;
  so_size : (length (book_orders s) ≤ n)%nat;
}.

Lemma s_add_size cid oid tid sd price qty s :
  book_wf s → valid_side sd → 0 ≤ qty →
  (length (book_orders (s_add cid oid tid sd price qty s).2) ≤ S (length (book_orders s)))%nat.
Proof.
  intros Hw Hv Hq. destruct (s_accepts cid oid price s) eqn:Ea.
  2:{ unfold s_add. rewrite Ea. cbn. lia. }
  destruct (sweep (aggressor cid oid tid sd price s) qty (s_levels (opp sd) s)) as [[ev rst] lv] eqn:Es.
  destruct (s_add_accepted cid oid tid sd price qty s ev rst lv Ea Es) as (o & Eo & ->). cbn [snd].
  destruct (proj1 (book_wf_side sd s Hv) Hw) as (_ & Hown & Hoth & _).
  destruct (sweep_spec _ _ _ _ _ _ (side_wf_pos _ _ _ Hoth) Hq Es) as (Hrem & _).
  pose proof (sublist_length _ _ (remains_keys _ _ Hrem)) as Hl.
  rewrite !length_fmap in Hl. rewrite !(book_orders_perm sd) by done.
  destruct (s_levels_set sd (if 0 <? lv then rest sd o (s_levels sd s) else s_levels sd s) rst
    (u64 (s_next s + 1)) Hv) as (-> & -> & _).
  rewrite !length_app. destruct (0 <? lv); [rewrite (rest_orders_perm sd o _ _ Hown); cbn|]; lia.
Qed.

Lemma s_cancel_size cid oid tid s :
  (length (book_orders (s_cancel cid oid tid s).2) ≤ length (book_orders s))%nat.
Proof.
  unfold s_cancel. repeat case_match; try done. apply sublist_length. unfold book_orders.
  apply sublist_app; apply drop_key_orders.
Qed.

Lemma MEOrderBook_new_sess_ok tid : sess_ok 0 (MEOrderBook_new tid) (mkSBook [] [] 1).
Proof. split; try done; [apply MEOrderBook_new_represents|apply empty_book_wf]. Qed.

Lemma perform_ok n r b s :
  sess_ok n b s → request_valid r → Z.of_nat n + 1 < ME_MAX_ORDER_IDS →
  ∃ b', perform r b = Ok (tt, b') ∧ matching_engine_ b' = matching_engine_ b ++ (s_perform r s).1 ∧
    sess_ok (S n) b' (s_perform r s).2.
Proof.
  intros [Hr Hw Hn Hs] Hv Hlt. pose proof cfg_order_ids. pose proof (wf_next s Hw).
  destruct r as [cid oid tid sd price qty|cid oid tid]; cbn [perform s_perform].
  - destruct Hv as (Hv & Hc & Ho & Hp & Hq).
    pose proof (s_add_size cid oid tid sd price qty s Hw Hv (proj1 Hq)) as Hsz.
    pose proof (s_add_next cid oid tid sd price qty s Hv ltac:(lia)) as Hnx.
    pose proof (add_spec b s sd cid oid tid price qty Hr Hw Hv Hq) as Hadd. cbv zeta in Hadd.
    rewrite (proj2 (Z.leb_le _ _)) in Hadd by lia. destruct Hadd as (b' & Hrun & Hr' & Hev).
    exists b'. split_and!; [done|done|]. split; [done| |lia|lia].
    apply s_add_wf; try done; [apply Hc|apply Ho|lia].
  - destruct (cancel_spec b s cid oid tid Hr Hw) as (b' & Hrun & Hr' & Hev).
    exists b'. split_and!; [done|done|]. split; [done|by apply s_cancel_wf|rewrite s_cancel_next; lia|].
    pose proof (s_cancel_size cid oid tid s). lia.
Qed.

Lemma session_ok reqs : ∀ n b s,
  sess_ok n b s → Forall request_valid reqs → Z.of_nat (n + length reqs) < ME_MAX_ORDER_IDS →
  ∃ b', for_each perform reqs b = Ok (tt, b') ∧
    matching_engine_ b' = matching_engine_ b ++ (s_session reqs s).1 ∧
    sess_ok (n + length reqs) b' (s_session reqs s).2.
Proof.
  induction reqs as [|r reqs IH]; intros n b s Hi Hf Hlt.
  - exists b. rewrite Nat.add_0_r. cbn. by rewrite app_nil_r.
  - apply Forall_cons in Hf as [Hv Hf]. cbn [length] in Hlt.
    destruct (perform_ok n r b s Hi Hv) as (b1 & H1 & He1 & Hi1); [lia|].
    cbn [s_session for_each length]. destruct (s_perform r s) as [ev s1]. cbn [fst snd] in *.
    destruct (IH (S n) b1 s1 Hi1 Hf) as (b2 & H2 & He2 & Hi2); [lia|].
    destruct (s_session reqs s1) as [ev' s2]. cbn [fst snd] in *.
    exists b2. split_and!.
    + by rewrite (bind_Ok _ _ _ _ _ H1).
    + by rewrite He2, He1, (assoc (++)).
    + by rewrite Nat.add_succ_r.
Qed.

(** C5: the book invariant, and functional correctness over a session.  Any
    sequence of fewer than [ME_MAX_ORDER_IDS] valid requests runs without
    fault; the messages sent are those of the reference auction, and the
    pointer structure represents its book, whose sides are strictly sorted and
    uncrossed, made of non-empty FIFO levels of live orders, no two levels
    sharing a slot of the price index nor two orders a slot of the order
    index. *)
Theorem session_keeps_book tid reqs :
  Forall request_valid reqs → Z.of_nat (length reqs) < ME_MAX_ORDER_IDS →
  let '(ev, s) := s_session reqs (mkSBook [] [] 1) in
  ∃ b, for_each perform reqs (MEOrderBook_new tid) = Ok (tt, b) ∧
    matching_engine_ b = ev ∧ Represents b s ∧ book_wf s.
Proof.
  intros Hf Hlt.
  destruct (session_ok reqs 0 _ _ (MEOrderBook_new_sess_ok tid) Hf Hlt) as (b & H1 & He & [Hr Hw _ _]).
  destruct (s_session reqs _) as [ev s]. by exists b.
Qed.

(** What an accepted [add] sent, when it returns. *)
Lemma add_sent b b' s sd cid oid tid price qty :
  Represents b s → book_wf s → valid_side sd → is_u32 qty →
  add cid oid tid sd price qty b = Ok (tt, b') →
  matching_engine_ b' = matching_engine_ b ++ (s_add cid oid tid sd price qty s).1 ∧
  Represents b' (s_add cid oid tid sd price qty s).2.
Proof.
  intros Hr Hw Hv Hq Hrun. pose proof (add_spec b s sd cid oid tid price qty Hr Hw Hv Hq) as H.
  cbv zeta in H. destruct (_ <=? _); [|congruence]. destruct H as (b1 & H1 & H2 & H3).
  rewrite Hrun in H1. injection H1 as <-. done.
Qed.

(** C7: price-time priority.  The fills that an accepted incoming order
    produces are, in order, those of the reference matcher that walks the
    opposite side one order at a time, and the book keeps that side in strict
    priority order: better price first, and at one price the older order
    first. *)
Theorem add_price_time_priority b b' s sd cid oid tid price qty :
  Represents b s → book_wf s → valid_side sd → is_u32 qty → s_accepts cid oid price s = true →
  add cid oid tid sd price qty b = Ok (tt, b') →
  let a := aggressor cid oid tid sd price s in
  let queue := all_orders (s_levels (opp sd) s) in
  ∃ ev, matching_engine_ b' = matching_engine_ b ++ ev ∧
    passive_fills a ev = greedy a qty queue ∧ StronglySorted (before (opp sd)) queue.
Proof.
  intros Hr Hw Hv Hq Ha Hrun a queue. destruct (add_sent _ _ _ _ _ _ _ _ _ Hr Hw Hv Hq Hrun) as [He _].
  exists (s_add cid oid tid sd price qty s).1. split; [done|]. by apply price_time_priority.
Qed.

(** C18: conservation of quantity.  What an accepted order trades leaves both
    the incoming order and the resting ones, once per trade, and nothing else
    changes; no trade is at a price worse than the limit, and no more is traded
    than was asked. *)
Theorem add_conserves_quantity b b' s sd cid oid tid price qty :
  Represents b s → book_wf s → valid_side sd → is_u32 qty → s_accepts cid oid price s = true →
  add cid oid tid sd price qty b = Ok (tt, b') →
  ∃ ev s', matching_engine_ b' = matching_engine_ b ++ ev ∧ Represents b' s' ∧
    sumZ qty_ (book_orders s') + 2 * sumZ snd (trades ev) = sumZ qty_ (book_orders s) + qty ∧
    0 ≤ sumZ snd (trades ev) ≤ qty ∧
    Forall (λ t, no_cross sd price t.1 = false) (trades ev).
Proof.
  intros Hr Hw Hv Hq Ha Hrun. destruct (add_sent _ _ _ _ _ _ _ _ _ Hr Hw Hv Hq Hrun) as [He Hr'].
  eexists _, _. split_and!; [exact He|exact Hr'|..]; by apply quantity_conserved.
Qed.
End session.
