(* ===== verification/UnorderedMapMEOrderBook.v ===== *)
(** Exchange::UnorderedMapMEOrderBook (unordered_map_me_order_book.h and .cpp),
    the hash-map variant of the matching engine's book, and its comparison with
    [MEOrderBook].

    The class repeats the text of [MEOrderBook] with other containers: here it
    is the same structure over [direct_key], the price itself as the key of the
    level index.  The nested map from client and order id to the order is one
    map over pairs.  [add] and [cancel], which differ, are written out: [add]
    tests nothing. *)

From S2P Require Import Prelude Types MemPool LevelBook LevelBookRep LevelBookOps.
From S2P Require Import MEOrder OrderBookSpec OrderBookInv OrderBookProps.
From S2P Require Import MEOrderBook MEOrderBookMatching MEOrderBookRefines MEOrderBookProps.

Module UnorderedMap.
Section book.
Context `{Config}.
Local Abbreviation MB := (M MEOrderBook).
Local Abbreviation LB := (LBook MEOrder (Z * Z)).

Definition ops : BookOps MEOrder (Z * Z) := me_ops (H := direct_key).

(** The constructor: the maps start empty, the pools at the same sizes. *)
Definition new (ticker_id : TickerId) : MEOrderBook :=
  mkMEOrderBook ticker_id (lb_new ME_MAX_PRICE_LEVELS ME_MAX_ORDER_IDS) 1 [].

Definition getOrdersAtPrice : Price → LB → option Z := LevelBook.getOrdersAtPrice (ops := ops).
Definition getNextPriority : Price → M LB Priority := MEOrderBook.getNextPriority (key := direct_key).
Definition addOrdersAtPrice : Z → M LB unit := LevelBook.addOrdersAtPrice (ops := ops).
Definition removeOrdersAtPrice : Side.t → Price → M LB unit := LevelBook.removeOrdersAtPrice (ops := ops).
Definition addOrder : Z → M LB unit := LevelBook.addOrder (ops := ops).
Definition removeOrder : option Z → M LB unit := LevelBook.removeOrder (ops := ops).
Definition match_ : TickerId → ClientId → Side.t → OrderId → OrderId → option Z → Qty → MB Qty :=
  MEOrderBook.match_ (key := direct_key).
Definition checkForMatch : ClientId → OrderId → TickerId → Side.t → Price → Qty → OrderId → MB Qty :=
  MEOrderBook.checkForMatch (key := direct_key).

Definition add (client_id : ClientId) (client_order_id : OrderId) (ticker_id : TickerId)
  (side : Side.t) (price : Price) (qty : Qty) : MB unit :=
  new_moid ← generateNextMarketOrderId;
  sendClientResponse (accepted client_id client_order_id ticker_id side price qty new_moid);;
  leaves_qty ← checkForMatch client_id client_order_id ticker_id side price qty new_moid;
  if 0 <? leaves_qty then
    priority ← on_lb (getNextPriority price);
    let o := mkMEOrder ticker_id client_id client_order_id new_moid side price leaves_qty priority in
    order ← on_lb (allocate_order (mkNode o None None));
    match order with
    | None => fail (UB "null order")
    | Some i =>
        on_lb (addOrder i);;
        sendMarketUpdate (order_update MarketUpdateType.ADD ticker_id o leaves_qty)
    end
  else mret tt.

Definition cancel (client_id : ClientId) (order_id : OrderId) (ticker_id : TickerId) : MB unit :=
  index ← gets (λ s, order_index_ (lb s));
  match index !! (client_id, order_id) with
  | None => sendClientResponse (cancel_rejected client_id order_id ticker_id)
  | Some i =>
      n ← on_lb (order_get (Some i));
      let o := data n in
      on_lb (removeOrder (Some i));;
      sendMarketUpdate (order_update MarketUpdateType.CANCEL ticker_id o (qty_ o));;
      sendClientResponse (canceled client_id ticker_id o)
  end.

Definition perform (r : request) : MB unit :=
  match r with
  | New cid oid tid sd price qty => add cid oid tid sd price qty
  | Cancel cid oid tid => cancel cid oid tid
  end.
End book.
End UnorderedMap.

(** ** The two books *)

Section equivalence.
Context `{Cfg : Config, !ConfigOk Cfg}.
Implicit Types (b u : MEOrderBook) (s : SBook) (r : request).
Local Set Default Proof Using "All".

Abbreviation URepresents := (Represents (key := direct_key)).

(** The reference auction takes the order. *)
Definition s_takes r s : bool :=
  match r with
  | New cid oid _ _ price _ => s_accepts cid oid price s
  | Cancel _ _ _ => true
  end.

Lemma unordered_add_spec u s sd cid oid tid price qty :
  URepresents u s → book_wf s → valid_side sd → is_u32 qty → s_accepts cid oid price s = true →
  let r := s_add cid oid tid sd price qty s in
  if Z.of_nat (length (book_orders r.2)) <=? ME_MAX_ORDER_IDS
  then ∃ u', UnorderedMap.add cid oid tid sd price qty u = Ok (tt, u') ∧ URepresents u' r.2 ∧
         matching_engine_ u' = matching_engine_ u ++ r.1
  else UnorderedMap.add cid oid tid sd price qty u = Err (Fatal "MemPool exhausted").
Proof.
  intros Hrep Hw Hv Hq Ha. destruct (represents_side sd u s Hrep Hv) as (own & oth & Hr).
  exact (add_accepted_spec u s sd own oth cid oid tid price qty Hr Hw Hq Ha).
Qed.

Lemma unordered_cancel_spec u s cid oid tid :
  URepresents u s → book_wf s →
  let r := s_cancel cid oid tid s in
  ∃ u', UnorderedMap.cancel cid oid tid u = Ok (tt, u') ∧ URepresents u' r.2 ∧
    matching_engine_ u' = matching_engine_ u ++ r.1.
Proof.
  intros Hrep Hw. cbv zeta. unfold UnorderedMap.cancel. rewrite bind_gets.
  destruct (has_key (cid, oid) s) eqn:Eh.
  - destruct (cancel_found_spec u s cid oid tid Hrep Hw Eh) as (_ & i & u' & -> & H & H').
    by exists u'.
  - rewrite (cancel_absent _ _ _ _ Hrep Eh), s_cancel_miss by (by rewrite Eh).
    exists (sent u [Resp (cancel_rejected cid oid tid)]). split; [done|]. split; [|done].
    destruct Hrep as (bids & asks & Hr). by apply (rep_side_represents Side.BUY _ bids asks); destruct Hr.
Qed.

Lemma unordered_new_represents tid : URepresents (UnorderedMap.new tid) (mkSBook [] [] 1).
Proof.
  exists [], []. split; try done. split; try done; cbn; try (by constructor).
  - apply mp_new_ok. pose proof cfg_levels. lia.
  - apply mp_new_ok. pose proof cfg_order_ids. lia.
Qed.

(** No response refuses an order. *)
Definition none_rejected (ev : list Out) : Prop :=
  Forall (λ m, rs_type_ m ≠ ClientResponseType.INVALID) (responses ev).

Lemma none_rejected_app e1 e2 : none_rejected (e1 ++ e2) → none_rejected e1 ∧ none_rejected e2.
Proof. unfold none_rejected. by rewrite responses_app, Forall_app. Qed.

Lemma refused_is_rejected r s : s_takes r s = false → ¬ none_rejected (s_perform r s).1.
Proof.
  destruct r as [cid oid tid sd price qty|]; [|done]. cbn. intros E. unfold s_add. rewrite E. cbn.
  intros Hn. by apply Forall_cons in Hn as [Hn _].
Qed.

Lemma unordered_perform_ok n r b u s :
  sess_ok n b s → URepresents u s → request_valid r → Z.of_nat n + 1 < ME_MAX_ORDER_IDS →
  s_takes r s = true →
  ∃ u', UnorderedMap.perform r u = Ok (tt, u') ∧
    matching_engine_ u' = matching_engine_ u ++ (s_perform r s).1 ∧ URepresents u' (s_perform r s).2.
Proof.
  intros [_ Hw Hn Hs] Hu Hv Hlt Ht. destruct r as [cid oid tid sd price qty|cid oid tid]; cbn in *.
  - destruct Hv as (Hv & _ & _ & _ & Hq).
    pose proof (s_add_size cid oid tid sd price qty s Hw Hv (proj1 Hq)).
    pose proof (unordered_add_spec u s sd cid oid tid price qty Hu Hw Hv Hq Ht) as Hadd.
    cbv zeta in Hadd. rewrite (proj2 (Z.leb_le _ _)) in Hadd by lia.
    destruct Hadd as (u' & ? & ? & ?). by exists u'.
  - destruct (unordered_cancel_spec u s cid oid tid Hu Hw) as (u' & ? & ? & ?). by exists u'.
Qed.

Lemma unordered_session_ok reqs : ∀ n b u s,
  sess_ok n b s → URepresents u s → Forall request_valid reqs →
  Z.of_nat (n + length reqs) < ME_MAX_ORDER_IDS → none_rejected (s_session reqs s).1 →
  ∃ u', for_each UnorderedMap.perform reqs u = Ok (tt, u') ∧
    matching_engine_ u' = matching_engine_ u ++ (s_session reqs s).1.
Proof.
  induction reqs as [|r reqs IH]; intros n b u s Hi Hu Hf Hlt Hnr.
  - exists u. cbn. by rewrite app_nil_r.
  - apply Forall_cons in Hf as [Hv Hf]. cbn [length] in Hlt.
    destruct (perform_ok n r b s Hi Hv) as (b1 & _ & _ & Hi1); [lia|].
    pose proof (unordered_perform_ok n r b u s Hi Hu Hv ltac:(lia)) as Hp.
    pose proof (refused_is_rejected r s) as Href.
    cbn [s_session for_each] in *. destruct (s_perform r s) as [ev s1]. cbn [fst snd] in *.
    destruct (s_session reqs s1) as [ev' s2] eqn:Es. cbn [fst snd] in *.
    apply none_rejected_app in Hnr as [Hnr1 Hnr2].
    destruct (s_takes r s); [|by destruct Href].
    destruct (Hp eq_refl) as (u1 & H1 & He1 & Hu1).
    destruct (IH (S n) b1 u1 s1 Hi1 Hu1 Hf) as (u2 & H2 & He2); [lia|by rewrite Es|].
    rewrite Es in He2. exists u2. split; [by rewrite (bind_Ok _ _ _ _ _ H1)|].
    by rewrite He2, He1, (assoc (++)).
Qed.

(** C8: the hash-map book is a drop-in replacement as long as nothing is
    refused.  On every session of fewer than [ME_MAX_ORDER_IDS] valid requests
    in which [MEOrderBook] answers no order with INVALID, the hash-map book
    also runs without fault and sends exactly the same responses and market
    updates in the same order. *)
Theorem unordered_map_equivalent tid reqs :
  Forall request_valid reqs → Z.of_nat (length reqs) < ME_MAX_ORDER_IDS →
  ∃ b, for_each perform reqs (MEOrderBook_new tid) = Ok (tt, b) ∧
    (none_rejected (matching_engine_ b) →
     ∃ u, for_each UnorderedMap.perform reqs (UnorderedMap.new tid) = Ok (tt, u) ∧
       matching_engine_ u = matching_engine_ b).
Proof.
  intros Hf Hlt. pose proof (MEOrderBook_new_sess_ok tid) as H0.
  destruct (session_ok reqs 0 _ _ H0 Hf Hlt) as (b & Hb & Heb & _). exists b. split; [done|].
  cbn in Heb. rewrite Heb. intros Hnr.
  exact (unordered_session_ok reqs 0 _ _ _ H0 (unordered_new_represents tid) Hf Hlt Hnr).
Qed.
End equivalence.

(** ** Where they differ *)

Section duplicates.
#[local] Existing Instance small_footprint_profile.

(** Two live orders under one client order id, then two cancels of it. *)
Definition duplicate_requests : list request :=
  [New 1 1 0 Side.BUY 100 10; New 1 1 0 Side.BUY 101 5; Cancel 1 1 0; Cancel 1 1 0].

Definition answers (r : res (unit * MEOrderBook)) : list ClientResponseType.t :=
  match r with Ok (_, b) => rs_type_ <$> responses (matching_engine_ b) | Err _ => [] end.
Definition resting (r : res (unit * MEOrderBook)) : Z :=
  match r with Ok (_, b) => mp_size (order_pool_ (lb b)) - freeCount (order_pool_ (lb b)) | Err _ => 0 end.

(** The two books part on a reused client order id.  [MEOrderBook] refuses
    the second order and ends empty; the hash-map book accepts it, loses track
    of the first order, and keeps it resting after the client has been told that
    nothing is left to cancel. *)
Theorem unordered_map_keeps_orphan :
  let array := for_each perform duplicate_requests (MEOrderBook_new 0) in
  let hashed := for_each UnorderedMap.perform duplicate_requests (UnorderedMap.new 0) in
  answers array = [ClientResponseType.ACCEPTED; ClientResponseType.INVALID;
                   ClientResponseType.CANCELED; ClientResponseType.CANCEL_REJECTED] ∧
  resting array = 0 ∧
  answers hashed = [ClientResponseType.ACCEPTED; ClientResponseType.ACCEPTED;
                    ClientResponseType.CANCELED; ClientResponseType.CANCEL_REJECTED] ∧
  resting hashed = 1.
Proof. vm_compute. done. Qed.
End duplicates.
