(* ===== verification/LFQueue.v ===== *)
(** [Common::LFQueue<T>] (include/lq_free.h): the single-producer /
    single-consumer ring that connects the threads.

    Each side owns one index and a cached copy of the other's.  The
    definitions below are the members; the value returned by an acquire load
    of the other side's index is their argument ([observed]), so the same
    definitions serve a sequential reading (the load returns the current
    value) and the concurrent one, [lf_step], where it may return any value
    the index has had since it was last cached. *)

From S2P Require Import Prelude.

Record LFQueue (T : Type) := mkLFQueue {
  store : list T;
  next_write_index : Z;
  cached_read_index : Z;
  next_read_index : Z;
  cached_write_index : Z;
}.
Arguments mkLFQueue {T} _ _ _ _ _.
Arguments store {T} _.
Arguments next_write_index {T} _.
Arguments cached_read_index {T} _.
Arguments next_read_index {T} _.
Arguments cached_write_index {T} _.

Section LFQueue.
Context {T : Type} `{Inhabited T}.
Implicit Types (q : LFQueue T) (v : T).

(** The constructor. *)
Definition LFQueue_new (num_elems : Z) : res (LFQueue T) :=
  if negb (2 <=? num_elems) then
    Err (Fatal "LFQueue requires at least 2 slots (one is reserved).")
  else Ok (mkLFQueue (replicate (Z.to_nat num_elems) inhabitant) 0 0 0 0).

Definition capacity q : Z := Z.of_nat (length (store q)).

(** [next = i + 1; if (next == store.size()) next = 0] *)
Definition wrap_next q (i : Z) : Z := if i + 1 =? capacity q then 0 else i + 1.

(** [*getNextToWriteTo() = v] *)
Definition getNextToWriteTo v q : LFQueue T :=
  mkLFQueue (<[ Z.to_nat (next_write_index q) := v ]> (store q)) (next_write_index q)
    (cached_read_index q) (next_read_index q) (cached_write_index q).

Definition updateWriteIndex (observed : Z) q : res (LFQueue T) :=
  let next := wrap_next q (next_write_index q) in
  if next =? cached_read_index q then
    if next =? observed then Err (Fatal "LFQueue overflow")
    else Ok (mkLFQueue (store q) next observed (next_read_index q) (cached_write_index q))
  else Ok (mkLFQueue (store q) next (cached_read_index q) (next_read_index q)
             (cached_write_index q)).

Definition refresh_write (observed : Z) q : LFQueue T :=
  if next_read_index q =? cached_write_index q
  then mkLFQueue (store q) (next_write_index q) (cached_read_index q) (next_read_index q) observed
  else q.

(** The element pointed to, [None] for [nullptr]. *)
Definition getNextToRead (observed : Z) q : option T * LFQueue T :=
  let q := refresh_write observed q in
  (if next_read_index q =? cached_write_index q then None
   else store q !! Z.to_nat (next_read_index q), q).

Definition updateReadIndex (observed : Z) q : res (LFQueue T) :=
  let q := refresh_write observed q in
  if next_read_index q =? cached_write_index q then
    Err (Fatal "LFQueue underflow")
  else Ok (mkLFQueue (store q) (next_write_index q) (cached_read_index q)
             (wrap_next q (next_read_index q)) (cached_write_index q)).

Definition size q : Z :=
  if next_read_index q <=? next_write_index q then next_write_index q - next_read_index q
  else capacity q - next_read_index q + next_write_index q.

(** *** Sequential use: the loads see the current indices *)

Definition push v q : res (LFQueue T) :=
  let q := getNextToWriteTo v q in updateWriteIndex (next_read_index q) q.
Definition peek q : option T * LFQueue T := getNextToRead (next_write_index q) q.
Definition pop q : res (LFQueue T) := updateReadIndex (next_write_index q) q.

(** ** Invariant *)

(** Absolute positions: [W] elements published, [R] consumed, [CR] and [CW]
    the positions behind the cached indices; [hist] is everything ever
    published. *)
Record lf_inv q (hist : list T) (R CR CW : Z) : Prop := {
  li_cap : 2 ≤ capacity q;
  li_w : next_write_index q = Z.of_nat (length hist) `mod` capacity q;
  li_r : next_read_index q = R `mod` capacity q;
  li_cr : cached_read_index q = CR `mod` capacity q;
  li_cw : cached_write_index q = CW `mod` capacity q;
  li_order : 0 ≤ CR ≤ R ∧ R ≤ CW ≤ Z.of_nat (length hist) ∧
             Z.of_nat (length hist) ≤ CR + capacity q - 1;
  li_data : ∀ i, R ≤ i < Z.of_nat (length hist) →
    store q !! Z.to_nat (i `mod` capacity q) = hist !! Z.to_nat i;
}.

Lemma mod_close n i j : 0 < n → i ≤ j < i + n → i `mod` n = j `mod` n → i = j.
Proof.
  intros Hn Hij E. pose proof (Z.div_mod i n) as Hi. pose proof (Z.div_mod j n) as Hj.
  rewrite E in Hi. assert (j - i = n * (j `div` n - i `div` n)) by lia.
  assert (j `div` n - i `div` n = 0) by nia. lia.
Qed.

Lemma wrap_next_mod q i :
  0 < capacity q → wrap_next q (i `mod` capacity q) = (i + 1) `mod` capacity q.
Proof.
  intros Hn. unfold wrap_next. pose proof (Z.mod_pos_bound i (capacity q) Hn).
  rewrite <- (Z.add_mod_idemp_l i) by lia.
  case Z.eqb_spec; intros E; [by rewrite E, Z.mod_same by lia|by rewrite (Z.mod_small (_ + 1)) by lia].
Qed.

Lemma LFQueue_new_inv n q : LFQueue_new n = Ok q → lf_inv q [] 0 0 0 ∧ capacity q = n.
Proof.
  unfold LFQueue_new. case Z.leb_spec; [|done]. intros Hn [= <-].
  assert (Hc : capacity (mkLFQueue (replicate (Z.to_nat n) inhabitant : list T) 0 0 0 0) = n).
  { unfold capacity. cbn. rewrite length_replicate. lia. }
  split; [|done]. split; rewrite ?Hc; cbn; try lia; try (by rewrite Z.mod_0_l by lia).
Qed.

Lemma write_slot_inv q hist R CR CW v :
  lf_inv q hist R CR CW →
  lf_inv (getNextToWriteTo v q) hist R CR CW ∧
  store (getNextToWriteTo v q) !! Z.to_nat (Z.of_nat (length hist) `mod` capacity q) = Some v.
Proof.
  intros [Hc Hw Hr Hcr Hcw Ho Hd].
  assert (Hcap : capacity (getNextToWriteTo v q) = capacity q).
  { unfold capacity. cbn. by rewrite length_insert. }
  split.
  - split; rewrite ?Hcap; try done. intros i Hi. cbn. rewrite Hw.
    rewrite list_lookup_insert_ne; [by apply Hd|]. intros E.
    pose proof (Z.mod_pos_bound i (capacity q)). pose proof (Z.mod_pos_bound (Z.of_nat (length hist)) (capacity q)).
    apply Z2Nat.inj in E; [|lia..]. symmetry in E. apply mod_close in E; lia.
  - cbn. rewrite Hw. apply list_lookup_insert_eq.
    pose proof (Z.mod_pos_bound (Z.of_nat (length hist)) (capacity q)). unfold capacity in *. lia.
Qed.

(** Publishing: the cached copy of the read index may be anything the reader
    has been at since. *)
Lemma updateWriteIndex_inv q hist R CR CW v obs OR :
  lf_inv q hist R CR CW →
  store q !! Z.to_nat (Z.of_nat (length hist) `mod` capacity q) = Some v →
  CR ≤ OR ≤ R → obs = OR `mod` capacity q →
  if decide (Z.of_nat (length hist) = OR + capacity q - 1)
  then updateWriteIndex obs q = Err (Fatal "LFQueue overflow")
  else ∃ q' CR', updateWriteIndex obs q = Ok q' ∧ lf_inv q' (hist ++ [v]) R CR' CW ∧
         CR' = (if wrap_next q (next_write_index q) =? cached_read_index q then OR else CR) ∧
         capacity q' = capacity q.
Proof.
  intros [Hc Hw Hr Hcr Hcw Ho Hd] Hv Hor ->. unfold updateWriteIndex.
  rewrite !Hw, !wrap_next_mod, !Hcr by lia. set (W := Z.of_nat (length hist)) in *.
  assert (Hinv : ∀ CR', CR ≤ CR' ≤ R → W + 1 ≤ CR' + capacity q - 1 →
    lf_inv (mkLFQueue (store q) ((W + 1) `mod` capacity q) (CR' `mod` capacity q)
              (next_read_index q) (cached_write_index q)) (hist ++ [v]) R CR' CW).
  { intros CR' Hb Hle. split; unfold capacity; cbn; fold (capacity q); try done;
      rewrite ?length_app; cbn; rewrite ?Nat2Z.inj_add; fold W; try lia; try done.
    intros i Hi. destruct (decide (i = W)) as [->|Hne].
    - rewrite Hv. unfold W. rewrite Nat2Z.id, lookup_app_r, Nat.sub_diag by lia. done.
    - rewrite Hd by lia. rewrite lookup_app_l by lia. done. }
  assert (Hne : ∀ X, CR ≤ X ≤ R → W + 1 ≠ X + capacity q →
    ((W + 1) `mod` capacity q =? X `mod` capacity q) = false).
  { intros X HX Hx. apply Z.eqb_neq. intros E. symmetry in E.
    destruct (decide (W + 1 < X + capacity q)); [apply mod_close in E; lia|].
    assert (CR ≤ X) by lia. lia. }
  assert (Heq : ∀ X, W + 1 = X + capacity q →
    ((W + 1) `mod` capacity q =? X `mod` capacity q) = true).
  { intros X ->. apply Z.eqb_eq. rewrite <- (Z.mul_1_l (capacity q)) at 1. by rewrite Z.mod_add by lia. }
  case_decide as Hfull.
  - assert (CR = OR) as <- by lia. by rewrite !Heq by lia.
  - destruct (decide (W + 1 = CR + capacity q)) as [E|E].
    + rewrite (Heq CR) by lia. rewrite Hne by lia.
      eexists _, OR. split_and!; try done; try lia. apply Hinv; lia.
    + rewrite (Hne CR) by lia. eexists _, CR. split_and!; try done; try lia. apply Hinv; lia.
Qed.

Lemma refresh_write_inv q hist R CR CW obs OW :
  lf_inv q hist R CR CW → CW ≤ OW ≤ Z.of_nat (length hist) → obs = OW `mod` capacity q →
  ∃ CW', lf_inv (refresh_write obs q) hist R CR CW' ∧ CW ≤ CW' ∧
    capacity (refresh_write obs q) = capacity q ∧ store (refresh_write obs q) = store q ∧
    CW' = (if next_read_index q =? cached_write_index q then OW else CW) ∧
    (R = CW' ↔ R = CW ∧ R = OW) ∧
    (next_read_index (refresh_write obs q) =? cached_write_index (refresh_write obs q)) =
      bool_decide (R = CW').
Proof.
  intros [Hc Hw Hr Hcr Hcw Ho Hd] Hor ->. unfold refresh_write. rewrite Hr, Hcw.
  assert (Heqb : ∀ X, R ≤ X ≤ Z.of_nat (length hist) →
    (R `mod` capacity q =? X `mod` capacity q) = bool_decide (R = X)).
  { intros X HX. case Z.eqb_spec; intros E; symmetry.
    - apply bool_decide_eq_true. apply mod_close in E; lia.
    - apply bool_decide_eq_false. congruence. }
  rewrite (Heqb CW) by lia. case_bool_decide as E.
  - exists OW. split_and!; try done; try lia; cbn.
    + split; unfold capacity in *; cbn; try done; lia.
    + apply Heqb. lia.
  - exists CW. split_and!; try done; try lia. rewrite Hr, Hcw, Heqb by lia. done.
Qed.

(** *** Reading and consuming *)

Lemma getNextToRead_inv q hist R CR CW obs OW :
  lf_inv q hist R CR CW → CW ≤ OW ≤ Z.of_nat (length hist) → obs = OW `mod` capacity q →
  ∃ CW', lf_inv (getNextToRead obs q).2 hist R CR CW' ∧
    CW' = (if next_read_index q =? cached_write_index q then OW else CW) ∧ (R = CW' ↔ R = CW ∧ R = OW) ∧
    capacity (getNextToRead obs q).2 = capacity q ∧
    (getNextToRead obs q).1 =
      if decide (R = CW ∧ R = OW) then None else hist !! Z.to_nat R.
Proof.
  intros Hi Ho E. destruct (refresh_write_inv _ _ _ _ _ _ _ Hi Ho E)
    as (CW' & Hi' & Hle & Hcap & Hst & Hcw & HCW & Hb).
  exists CW'. unfold getNextToRead. cbn [fst snd]. split_and!; try done. rewrite Hb.
  destruct Hi' as [_ _ Hr _ _ Hor Hd]. destruct Hi as [_ _ _ _ _ Hor0 _].
  case_bool_decide as E1; case_decide as E2; try done; try (exfalso; tauto).
  rewrite Hr. apply Hd. lia.
Qed.

Lemma updateReadIndex_inv q hist R CR CW obs OW :
  lf_inv q hist R CR CW → CW ≤ OW ≤ Z.of_nat (length hist) → obs = OW `mod` capacity q →
  if decide (R = CW ∧ R = OW)
  then updateReadIndex obs q = Err (Fatal "LFQueue underflow")
  else ∃ q' CW', updateReadIndex obs q = Ok q' ∧ lf_inv q' hist (R + 1) CR CW' ∧
         CW' = (if next_read_index q =? cached_write_index q then OW else CW) ∧
         capacity q' = capacity q.
Proof.
  intros Hi Ho E. destruct (refresh_write_inv _ _ _ _ _ _ _ Hi Ho E)
    as (CW' & Hi' & Hle & Hcap & Hst & Hcw & HCW & Hb).
  pose proof (li_order _ _ _ _ _ Hi) as Hor0.
  unfold updateReadIndex. rewrite Hb. destruct (decide (R = CW ∧ R = OW)) as [E2|E2].
  - by rewrite bool_decide_true by tauto.
  - assert (R ≠ CW') by tauto. rewrite bool_decide_false by done. eexists _, CW'. split_and!; [done| |done|done].
    destruct Hi' as [Hc Hw Hr Hcr Hcw' Hor Hd]. rewrite Hr, wrap_next_mod by lia.
    split; unfold capacity in *; cbn; try done; try lia. intros i Hin. apply Hd. lia.
Qed.

(** ** Sequential refinement: a bounded FIFO list *)

Definition q_rep q (n : Z) (l : list T) : Prop :=
  capacity q = n ∧ ∃ hist R CR CW, lf_inv q hist R CR CW ∧ l = drop (Z.to_nat R) hist.

Lemma q_rep_length q n l : q_rep q n l → 2 ≤ n ∧ capacity q = n ∧ Z.of_nat (length l) ≤ n - 1.
Proof.
  intros [Hn (hist & R & CR & CW & Hi & ->)]. pose proof (li_order _ _ _ _ _ Hi).
  pose proof (li_cap _ _ _ _ _ Hi). rewrite length_drop. lia.
Qed.

Lemma q_rep_new n : 2 ≤ n → ∃ q, LFQueue_new n = Ok q ∧ q_rep q n [].
Proof.
  intros Hn. unfold LFQueue_new. rewrite (proj2 (Z.leb_le _ _)) by done. eexists. split; [done|].
  edestruct (LFQueue_new_inv n) as [Hi Hc].
  { unfold LFQueue_new. by rewrite (proj2 (Z.leb_le _ _)) by done. }
  split; [exact Hc|]. by exists [], 0, 0, 0.
Qed.

Lemma push_spec v q n l :
  q_rep q n l →
  if Z.of_nat (length l) <? n - 1
  then ∃ q', push v q = Ok q' ∧ q_rep q' n (l ++ [v])
  else push v q = Err (Fatal "LFQueue overflow").
Proof.
  intros [Hn (hist & R & CR & CW & Hi & ->)]. pose proof (li_order _ _ _ _ _ Hi) as Ho.
  destruct (write_slot_inv _ _ _ _ _ v Hi) as [Hi' Hv].
  assert (Hcap : capacity (getNextToWriteTo v q) = capacity q).
  { unfold capacity. cbn. by rewrite length_insert. }
  rewrite <- Hcap in Hv.
  pose proof (updateWriteIndex_inv _ _ _ _ _ v (next_read_index q) R Hi' Hv) as Hu.
  rewrite Hcap in Hu. specialize (Hu ltac:(lia) (li_r _ _ _ _ _ Hi)).
  rewrite length_drop. unfold push. cbn [next_read_index getNextToWriteTo].
  case_decide as E.
  - rewrite (proj2 (Z.ltb_ge _ _)) by lia. exact Hu.
  - rewrite (proj2 (Z.ltb_lt _ _)) by lia. destruct Hu as (q' & CR' & Hq & Hi2 & _ & Hc).
    exists q'. split; [exact Hq|]. split; [congruence|].
    exists (hist ++ [v]), R, CR', CW. split; [done|]. rewrite drop_app_le by lia. done.
Qed.

Lemma peek_spec q n l :
  q_rep q n l → (peek q).1 = head l ∧ q_rep (peek q).2 n l.
Proof.
  intros [Hn (hist & R & CR & CW & Hi & ->)]. pose proof (li_order _ _ _ _ _ Hi) as Ho.
  destruct (getNextToRead_inv _ _ _ _ _ (next_write_index q) (Z.of_nat (length hist)) Hi)
    as (CW' & Hi' & _ & _ & Hc & Hres); [lia|by rewrite (li_w _ _ _ _ _ Hi)|].
  unfold peek. rewrite Hres. split.
  - rewrite head_lookup, lookup_drop, Nat.add_0_r. case_decide as E; [|done].
    symmetry. apply lookup_ge_None. lia.
  - split; [congruence|]. by exists hist, R, CR, CW'.
Qed.

Lemma pop_spec q n l :
  q_rep q n l →
  match l with
  | [] => pop q = Err (Fatal "LFQueue underflow")
  | _ :: l' => ∃ q', pop q = Ok q' ∧ q_rep q' n l'
  end.
Proof.
  intros [Hn (hist & R & CR & CW & Hi & Hl)]. pose proof (li_order _ _ _ _ _ Hi) as Ho.
  pose proof (updateReadIndex_inv _ _ _ _ _ (next_write_index q) (Z.of_nat (length hist)) Hi) as Hu.
  specialize (Hu ltac:(lia) (li_w _ _ _ _ _ Hi)). unfold pop.
  pose proof (f_equal length Hl) as Hlen. rewrite length_drop in Hlen.
  destruct l as [|x l]; cbn in Hlen.
  - by rewrite decide_True in Hu by lia.
  - rewrite decide_False in Hu by lia. destruct Hu as (q' & CW' & Hq & Hi' & _ & Hc).
    exists q'. split; [done|]. split; [congruence|]. exists hist, (R + 1), CR, CW'.
    split; [done|]. rewrite Z2Nat.inj_add by lia.
    rewrite <- drop_drop. by rewrite <- Hl.
Qed.

Lemma size_spec q n l : q_rep q n l → size q = Z.of_nat (length l).
Proof.
  intros [Hn (hist & R & CR & CW & Hi & ->)]. destruct Hi as [Hc Hw Hr _ _ Ho _].
  rewrite length_drop. unfold size. rewrite Hw, Hr. set (W := Z.of_nat (length hist)) in *.
  pose proof (Z.div_mod R (capacity q)). pose proof (Z.div_mod W (capacity q)).
  pose proof (Z.mod_pos_bound R (capacity q)). pose proof (Z.mod_pos_bound W (capacity q)).
  assert (W `div` capacity q = R `div` capacity q ∨ W `div` capacity q = R `div` capacity q + 1) by nia.
  case Z.leb_spec; intros; nia.
Qed.

(** A queue holds one list. *)
Lemma q_rep_unique q n n' l l' : q_rep q n l → q_rep q n' l' → l = l'.
Proof.
  revert q l'. induction l as [|x l IH]; intros q l' Hq Hq'.
  - pose proof (size_spec _ _ _ Hq) as E. rewrite (size_spec _ _ _ Hq') in E. by destruct l'.
  - pose proof (peek_spec _ _ _ Hq) as [E _]. pose proof (peek_spec _ _ _ Hq') as [E' _].
    rewrite E in E'. destruct l' as [|y l']; [done|]. injection E' as <-. f_equal.
    destruct (pop_spec _ _ _ Hq) as (q1 & H1 & Hr). destruct (pop_spec _ _ _ Hq') as (q2 & H2 & Hr').
    rewrite H1 in H2. injection H2 as <-. by eapply IH.
Qed.
End LFQueue.

(** ** Batches

    [fits n l]: a queue of [n] slots can hold [l]. *)
Section batch.
Definition fits (n : Z) {A} (l : list A) : bool := Z.of_nat (length l) <=? n - 1.

Lemma fits_app_l n {A} (l k : list A) : fits n l = false → fits n (l ++ k) = false.
Proof. unfold fits. rewrite !Z.leb_gt, length_app. lia. Qed.

Lemma q_rep_fits {T} `{Inhabited T} (q : LFQueue T) n l : q_rep q n l → fits n l = true.
Proof. intros (_ & _ & ?)%q_rep_length. by apply Z.leb_le. Qed.

Lemma push_fits {T} `{Inhabited T} v (q : LFQueue T) n l :
  q_rep q n l →
  if fits n (l ++ [v]) then ∃ q', push v q = Ok q' ∧ q_rep q' n (l ++ [v])
  else push v q = Err (Fatal "LFQueue overflow").
Proof.
  intros Hq. pose proof (push_spec v q n l Hq) as Hp. unfold fits.
  rewrite length_app. cbn. revert Hp. case Z.ltb_spec; case Z.leb_spec; intros; try done; lia.
Qed.

Fixpoint push_all {T} `{Inhabited T} (vs : list T) (q : LFQueue T) : res (LFQueue T) :=
  match vs with
  | [] => Ok q
  | v :: vs => match push v q with Ok q => push_all vs q | Err f => Err f end
  end.

Lemma push_all_spec {T} `{Inhabited T} vs : ∀ (q : LFQueue T) n l,
  q_rep q n l → fits n l = true →
  if fits n (l ++ vs) then ∃ q', push_all vs q = Ok q' ∧ q_rep q' n (l ++ vs)
  else push_all vs q = Err (Fatal "LFQueue overflow").
Proof.
  induction vs as [|v vs IH]; intros q n l Hq Hf; cbn [push_all].
  - rewrite app_nil_r, Hf. by exists q.
  - pose proof (push_fits v q n l Hq) as Hp. replace (l ++ v :: vs) with ((l ++ [v]) ++ vs) by (by rewrite <- (assoc (++))).
    destruct (fits n (l ++ [v])) eqn:Ef.
    + destruct Hp as (q1 & -> & Hq1). by apply IH.
    + rewrite fits_app_l by done. by rewrite Hp.
Qed.
End batch.

(** ** Concurrent use

    One producer and one consumer; every step is one atomic access of the
    code.  A load of the other side's index returns the position it had at
    some moment since this side last looked ([s_seen_read], [s_seen_write]):
    what release/acquire coherence guarantees. *)
Section concurrent.
Context {T : Type} `{Inhabited T}.

Record LFState := mkLFState {
  s_q : LFQueue T;
  s_published : list T;     (** everything the producer has published *)
  s_consumed : list T;      (** everything the consumer has taken *)
  s_written : option T;     (** written to the slot, not yet published *)
  s_current : option T;     (** read by the consumer, not yet released *)
  s_seen_read : Z;          (** position behind [cached_read_index] *)
  s_seen_write : Z;         (** position behind [cached_write_index] *)
}.

Definition s_read (s : LFState) : Z := Z.of_nat (length (s_consumed s)).
Definition s_write (s : LFState) : Z := Z.of_nat (length (s_published s)).
Definition index_of (s : LFState) (pos : Z) : Z := pos `mod` capacity (s_q s).

Definition lf_init (q : LFQueue T) : LFState := mkLFState q [] [] None None 0 0.

Inductive lf_step : LFState → LFState → Prop :=
  | step_write s v :
      lf_step s (mkLFState (getNextToWriteTo v (s_q s)) (s_published s) (s_consumed s)
                   (Some v) (s_current s) (s_seen_read s) (s_seen_write s))
  | step_publish s v OR q' :
      s_written s = Some v → s_seen_read s ≤ OR ≤ s_read s →
      updateWriteIndex (index_of s OR) (s_q s) = Ok q' →
      lf_step s (mkLFState q' (s_published s ++ [v]) (s_consumed s) None (s_current s)
                   (if wrap_next (s_q s) (next_write_index (s_q s)) =? cached_read_index (s_q s)
                    then OR else s_seen_read s) (s_seen_write s))
  | step_read s OW :
      s_seen_write s ≤ OW ≤ s_write s →
      lf_step s (mkLFState (getNextToRead (index_of s OW) (s_q s)).2 (s_published s) (s_consumed s)
                   (s_written s) (getNextToRead (index_of s OW) (s_q s)).1 (s_seen_read s)
                   (if next_read_index (s_q s) =? cached_write_index (s_q s)
                    then OW else s_seen_write s))
  | step_release s x OW q' :
      s_current s = Some x → s_seen_write s ≤ OW ≤ s_write s →
      updateReadIndex (index_of s OW) (s_q s) = Ok q' →
      lf_step s (mkLFState q' (s_published s) (s_consumed s ++ [x]) (s_written s) None
                   (s_seen_read s)
                   (if next_read_index (s_q s) =? cached_write_index (s_q s)
                    then OW else s_seen_write s)).

Record lf_good (s : LFState) : Prop := {
  lg_inv : lf_inv (s_q s) (s_published s) (s_read s) (s_seen_read s) (s_seen_write s);
  lg_prefix : s_consumed s = take (length (s_consumed s)) (s_published s);
  lg_written : ∀ v, s_written s = Some v →
    store (s_q s) !! Z.to_nat (index_of s (s_write s)) = Some v;
  lg_current : ∀ x, s_current s = Some x →
    s_published s !! length (s_consumed s) = Some x ∧ s_read s < s_seen_write s;
}.

Lemma lf_init_good n q : LFQueue_new n = Ok q → lf_good (lf_init q).
Proof. intros [Hi _]%LFQueue_new_inv. by split. Qed.

Lemma getNextToWriteTo_capacity (v : T) q : capacity (getNextToWriteTo v q) = capacity q.
Proof. unfold capacity. cbn. by rewrite length_insert. Qed.

Lemma getNextToRead_store obs (q : LFQueue T) : store (getNextToRead obs q).2 = store q.
Proof. unfold getNextToRead, refresh_write. cbn. by destruct (_ =? _). Qed.

Lemma updateReadIndex_store obs (q q' : LFQueue T) :
  updateReadIndex obs q = Ok q' → store q' = store q ∧ capacity q' = capacity q.
Proof.
  unfold updateReadIndex, refresh_write, capacity.
  repeat case_match; intros ?; simplify_eq; done.
Qed.

Local Ltac scbn := cbn [s_q s_published s_consumed s_written s_current s_seen_read s_seen_write].

Lemma lf_step_good s s' : lf_good s → lf_step s s' → lf_good s'.
Proof.
  intros [Hi Hp Hw Hc] Hs. pose proof (li_order _ _ _ _ _ Hi) as Ho.
  destruct Hs as [s v|s v OR q' Hv HOR Hu|s OW HOW|s x OW q' Hx HOW Hu];
    unfold s_read, s_write, index_of in *.
  - destruct (write_slot_inv _ _ _ _ _ v Hi) as [Hi' Hsl]. split; scbn; try done.
    intros ? [= <-]. unfold index_of, s_write. scbn. by rewrite getNextToWriteTo_capacity.
  - pose proof (updateWriteIndex_inv _ _ _ _ _ v _ OR Hi (Hw v Hv) HOR eq_refl) as Hpub.
    case_decide; [congruence|]. destruct Hpub as (q2 & CR' & Hq & Hi' & -> & Hcap).
    rewrite Hu in Hq. injection Hq as <-. split; scbn; try done.
    + rewrite take_app_le; [done|]. unfold s_read in *. lia.
    + intros x Hx. destruct (Hc x Hx) as [Hlk Hlt]. split; [|done].
      rewrite lookup_app_l; [done|]. by eapply lookup_lt_Some.
  - destruct (getNextToRead_inv _ _ _ _ _ _ OW Hi HOW eq_refl)
      as (CW' & Hi' & -> & HCW & Hcap & Hres). split; scbn; try done.
    + intros v Hv. unfold index_of, s_write. scbn. rewrite Hcap, getNextToRead_store. by apply Hw.
    + intros x Hx. rewrite Hres in Hx. case_decide as E; [done|].
      unfold s_read in *. rewrite Nat2Z.id in Hx. split; [exact Hx|].
      pose proof (li_order _ _ _ _ _ Hi'). unfold s_read in *. cbn in *. lia.
  - pose proof (updateReadIndex_inv _ _ _ _ _ _ OW Hi HOW eq_refl) as Hpop.
    case_decide; [congruence|]. destruct Hpop as (q2 & CW' & Hq & Hi' & -> & Hcap).
    rewrite Hu in Hq. injection Hq as <-.
    destruct (updateReadIndex_store _ _ _ Hu) as [Hst _].
    destruct (Hc x Hx) as [Hlk Hlt]. split; scbn; try done.
    + unfold s_read. cbn. rewrite length_app. cbn. unfold s_read in Hi'.
      by replace (Z.of_nat (length (s_consumed s) + 1)) with (Z.of_nat (length (s_consumed s)) + 1) by lia.
    + rewrite length_app. cbn. rewrite Nat.add_1_r.
      rewrite (take_S_r _ _ _ Hlk). by rewrite <- Hp.
    + intros v Hv. unfold index_of, s_write. scbn. rewrite Hst, Hcap. by apply Hw.
Qed.

Lemma lf_reachable_good s0 s : lf_good s0 → rtc lf_step s0 s → lf_good s.
Proof. intros Hg Hr. induction Hr; [done|]. by eauto using lf_step_good. Qed.

(** C9: the queue is a bounded FIFO under every interleaving of its two
    threads, whatever (coherent) stale index the loads return: what the
    consumer has taken is a prefix of what the producer has published, at most
    [n-1] elements are in flight, the element the consumer holds is the next
    one, and releasing an element that was read never underflows. *)
Theorem lf_concurrent_fifo n q s :
  LFQueue_new n = Ok q → rtc lf_step (lf_init q) s →
  (s_consumed s `prefix_of` s_published s) ∧
  s_write s - s_read s ≤ capacity (s_q s) - 1 ∧
  (∀ x, s_current s = Some x →
     s_published s !! length (s_consumed s) = Some x ∧
     ∀ OW, s_seen_write s ≤ OW ≤ s_write s →
       ∃ q', updateReadIndex (index_of s OW) (s_q s) = Ok q').
Proof.
  intros Hn Hr. apply (lf_reachable_good _ _ (lf_init_good _ _ Hn)) in Hr as [Hi Hp Hw Hc].
  pose proof (li_order _ _ _ _ _ Hi) as Ho. split_and!.
  - rewrite Hp. apply prefix_take.
  - unfold s_write, s_read in *. lia.
  - intros x Hx. destruct (Hc x Hx) as [Hlk Hlt]. split; [done|]. intros OW HOW.
    pose proof (updateReadIndex_inv _ _ _ _ _ _ OW Hi HOW eq_refl) as Hpop.
    case_decide; [lia|]. destruct Hpop as (q' & _ & Hq & _). by exists q'.
Qed.
End concurrent.
Arguments LFState T : clear implicits.
