(* ===== verification/Logging.v ===== *)
(** Common::Logger (include/logging.h): a printf-like front end that cuts its
    text into queue elements, and a thread that writes the elements to a file.

    A C string is the list of its characters up to the terminator.  [log] is
    the list of elements a call pushes, in program order, and the fault that
    ends it; the two threads interleave at the pushes ([logger_step]), as the
    queue allows (LFQueue.v).  How the standard library prints a [float] or a
    [double] is an argument, [Stream]. *)

From Stdlib Require Import Ascii.
From S2P Require Import Prelude Types LFQueue.

Abbreviation text := (list ascii).

Definition NUL : ascii := Ascii.zero.
Definition percent : ascii := "%"%char.

(** What [operator<<] prints for floating-point values. *)
Class Stream := {
  sfloat : Type;
  sdouble : Type;
  show_float : sfloat → text;
  show_double : sdouble → text;
}.

Section logging.
Context {St : Stream}.
Implicit Types (s span : text).

(** [LogElement]: the tag and the member of the union it selects.  [s] is the
    buffer of [STRING] up to its terminator. *)
Inductive LogElement :=
  | CHAR (c : ascii)
  | INTEGER (i : Z) | LONG_INTEGER (li : Z) | LONG_LONG_INTEGER (ll : Z)
  | UNSIGNED_INTEGER (u : Z) | UNSIGNED_LONG_INTEGER (ul : Z) | UNSIGNED_LONG_LONG_INTEGER (ull : Z)
  | FLOAT (f : sfloat) | DOUBLE (d : sdouble)
  | STRING (s : text).
#[global] Instance LogElement_inh : Inhabited LogElement := populate (CHAR NUL).

(** An argument of [log]: the overload of [pushValue] it selects. *)
Inductive LogArg :=
  | a_char (c : ascii)
  | a_int (v : Z) | a_long (v : Z) | a_long_long (v : Z)
  | a_unsigned (v : Z) | a_unsigned_long (v : Z) | a_unsigned_long_long (v : Z)
  | a_float (f : sfloat) | a_double (d : sdouble)
  | a_cstr (s : text)      (** [const char *] *)
  | a_string (s : text).   (** [std::string], which may hold a NUL *)

(** [sizeof(LogElement::u.s)] *)
Definition buffer_size : nat := 64.

(** [str.c_str()], read as a C string. *)
Fixpoint c_str s : text :=
  match s with
  | [] => []
  | c :: s => if Ascii.eqb c NUL then [] else c :: c_str s
  end.

Definition decimal (v : Z) : text := String.list_ascii_of_string (pretty v).

(** The [switch] of [flushQueue]. *)
Definition write_element (e : LogElement) : text :=
  match e with
  | CHAR c => [c]
  | INTEGER v | LONG_INTEGER v | LONG_LONG_INTEGER v
  | UNSIGNED_INTEGER v | UNSIGNED_LONG_INTEGER v | UNSIGNED_LONG_LONG_INTEGER v => decimal v
  | FLOAT f => show_float f
  | DOUBLE d => show_double d
  | STRING s => s
  end.

(** ** The producer *)

(** The inner loop of [pushValue(const char * )]: what is copied, what is left. *)
Fixpoint copy_chunk (room : nat) s : text * text :=
  match room, s with
  | S room, c :: s => let '(l, rest) := copy_chunk room s in (c :: l, rest)
  | _, _ => ([], s)
  end.

(** [pushValue(const char * )], for at most [fuel] elements. *)
Fixpoint push_cstr (fuel : nat) s : list LogElement :=
  match fuel, s with
  | S fuel, _ :: _ => let '(l, rest) := copy_chunk (buffer_size - 1) s in STRING l :: push_cstr fuel rest
  | _, _ => []
  end.

(** [pushChars(begin, len)] on the [len] characters [s]. *)
Fixpoint push_chars (fuel : nat) s : list LogElement :=
  match fuel with
  | S fuel =>
      if (0 <? length s)%nat then
        let n := Nat.min (length s) (buffer_size - 1) in
        STRING (take n s) :: push_chars fuel (drop n s)
      else []
  | O => []
  end.

Definition pushChars s : list LogElement := push_chars (length s) s.

(** The overloads of [pushValue]. *)
Definition pushValue (a : LogArg) : list LogElement :=
  match a with
  | a_char c => [CHAR c]
  | a_int v => [INTEGER v]
  | a_long v => [LONG_INTEGER v]
  | a_long_long v => [LONG_LONG_INTEGER v]
  | a_unsigned v => [UNSIGNED_INTEGER v]
  | a_unsigned_long v => [UNSIGNED_LONG_INTEGER v]
  | a_unsigned_long_long v => [UNSIGNED_LONG_LONG_INTEGER v]
  | a_float f => [FLOAT f]
  | a_double d => [DOUBLE d]
  | a_cstr s => push_cstr (length s) s
  | a_string s => push_cstr (length s) (c_str s)
  end.

(** What a call pushes, and the fault that ends it. *)
Definition Pushes : Type := list LogElement * option fault.
Definition after_pushing (l : list LogElement) (k : Pushes) : Pushes := (l ++ k.1, k.2).

(** [log(const char *s)], with [span] the characters from [span_start] to [s]. *)
Fixpoint log_literal span s : Pushes :=
  match s with
  | [] => (pushChars span, None)
  | c :: s' =>
      if Ascii.eqb c percent then
        match s' with
        | c' :: s'' =>
            if Ascii.eqb c' percent then after_pushing (pushChars (span ++ [c])) (log_literal [] s'')
            else ([], Some (Fatal "missing arguments to log()"))
        | [] => ([], Some (Fatal "missing arguments to log()"))
        end
      else log_literal (span ++ [c]) s'
  end.

(** [log(const char *s, const T &value, A... args)]; [next] is the call on the
    remaining arguments. *)
Fixpoint log_value (value : LogArg) (next : text → Pushes) span s : Pushes :=
  match s with
  | [] => ([], Some (Fatal "extra arguments provided to log()"))
  | c :: s' =>
      if Ascii.eqb c percent then
        match s' with
        | c' :: s'' =>
            if Ascii.eqb c' percent then after_pushing (pushChars (span ++ [c])) (log_value value next [] s'')
            else after_pushing (pushChars span) (after_pushing (pushValue value) (next s'))
        | [] => after_pushing (pushChars span) (after_pushing (pushValue value) (next s'))
        end
      else log_value value next (span ++ [c]) s'
  end.

Fixpoint log (args : list LogArg) s : Pushes :=
  match args with
  | [] => log_literal [] s
  | value :: args => log_value value (log args) [] s
  end.

(** ** What a call should write *)

Definition show_arg (a : LogArg) : text :=
  match a with
  | a_char c => [c]
  | a_int v | a_long v | a_long_long v | a_unsigned v | a_unsigned_long v | a_unsigned_long_long v => decimal v
  | a_float f => show_float f
  | a_double d => show_double d
  | a_cstr s => s
  | a_string s => c_str s
  end.

(** [%%] is a percent sign, any other [%] the next argument; none may be
    missing or left over. *)
Fixpoint render (args : list LogArg) s {struct s} : option text :=
  match s with
  | [] => match args with [] => Some [] | _ => None end
  | c :: s' =>
      if Ascii.eqb c percent then
        match s', args with
        | c' :: s'', _ =>
            if Ascii.eqb c' percent then cons c <$> render args s''
            else match args with
                 | a :: args => app (show_arg a) <$> render args s'
                 | [] => None
                 end
        | [], a :: args => app (show_arg a) <$> render args s'
        | [], [] => None
        end
      else cons c <$> render args s'
  end.

(** ** The text of a call *)

Definition written (l : list LogElement) : text := l ≫= write_element.

(** What a call writes, if it returns. *)
Definition log_text (p : Pushes) : option text :=
  match p.2 with None => Some (written p.1) | Some _ => None end.

(** The buffer of a [STRING] holds its characters and a terminator. *)
Definition element_ok (e : LogElement) : Prop :=
  match e with STRING s => (length s < buffer_size)%nat ∧ NUL ∉ s | _ => True end.

Lemma written_app l k : written (l ++ k) = written l ++ written k.
Proof. apply bind_app. Qed.
Lemma log_text_after l k : log_text (after_pushing l k) = app (written l) <$> log_text k.
Proof. destruct k as [k [f|]]; [done|]. unfold log_text. cbn [snd fst after_pushing fmap option_fmap option_map]. by rewrite written_app. Qed.

Lemma copy_chunk_spec room s : copy_chunk room s = (take room s, drop room s).
Proof. revert s. induction room as [|room IH]; intros [|c s]; try done. cbn. by rewrite IH. Qed.

Lemma push_cstr_chars fuel s : push_cstr fuel s = push_chars fuel s.
Proof.
  revert s. induction fuel as [|fuel IH]; intros s; [done|]. destruct s as [|c s]; [done|].
  cbn [push_cstr push_chars]. rewrite copy_chunk_spec, IH. cbn [length Nat.ltb Nat.leb].
  destruct (Nat.min_spec (S (length s)) (buffer_size - 1)) as [[Hl ->]|[_ ->]]; [|done].
  rewrite !take_ge, !drop_ge by (cbn [length] in *; lia). done.
Qed.

Lemma push_chars_written fuel s : (length s ≤ fuel)%nat → written (push_chars fuel s) = s.
Proof.
  revert s. induction fuel as [|fuel IH]; intros s Hs; [destruct s; [done|cbn in Hs; lia]|]. cbn [push_chars].
  case Nat.ltb_spec; intros; [|destruct s; [done|cbn in *; lia]].
  unfold written in *. rewrite bind_cons, IH; [apply take_drop|]. rewrite length_drop. unfold buffer_size. lia.
Qed.
Lemma push_chars_ok fuel s : NUL ∉ s → Forall element_ok (push_chars fuel s).
Proof.
  revert s. induction fuel as [|fuel IH]; intros s Hs; [constructor|]. cbn [push_chars].
  case Nat.ltb_spec; intros; [|constructor]. constructor.
  - split; [rewrite length_take; unfold buffer_size; lia|]. intros Hin. apply Hs. by eapply subseteq_take.
  - apply IH. intros Hin. apply Hs. by eapply subseteq_drop.
Qed.

Lemma pushChars_written s : written (pushChars s) = s.
Proof. by apply push_chars_written. Qed.
Lemma c_str_length s : (length (c_str s) ≤ length s)%nat.
Proof. induction s as [|c s IH]; cbn; [done|]. destruct (Ascii.eqb _ _); cbn; lia. Qed.

Lemma written_cons e l : written (e :: l) = write_element e ++ written l.
Proof. done. Qed.
Lemma pushValue_written a : written (pushValue a) = show_arg a.
Proof.
  destruct a; cbn [pushValue show_arg]; rewrite ?push_cstr_chars, ?push_chars_written; try done; try apply c_str_length;
    rewrite written_cons; apply app_nil_r.
Qed.

(** A property of all suffixes, two characters at a time. *)
Lemma text_ind (P : text → Prop) :
  P [] → (∀ c, P [c]) → (∀ c c' s, P s → P (c' :: s) → P (c :: c' :: s)) → ∀ s, P s.
Proof.
  intros H0 H1 H2 s. enough (P s ∧ ∀ c, P (c :: s)) by tauto.
  induction s as [|c s [IH1 IH2]]; [done|]. split; [apply IH2|]. intros c'. by apply H2.
Qed.

Lemma cons_app_fmap c (o : option text) : cons c <$> o = app [c] <$> o.
Proof. by destruct o. Qed.
Lemma app_fmap (k k' : text) (o : option text) : app k <$> (app k' <$> o) = app (k ++ k') <$> o.
Proof. destruct o; cbn; [|done]. by rewrite <- (assoc (++)). Qed.

(** The definitions, two characters at a time. *)
Lemma render_cons2 args c c' s :
  render args (c :: c' :: s) =
    if Ascii.eqb c percent then
      if Ascii.eqb c' percent then cons c <$> render args s
      else match args with a :: args => app (show_arg a) <$> render args (c' :: s) | [] => None end
    else cons c <$> render args (c' :: s).
Proof. by destruct args. Qed.
Lemma log_literal_cons2 span c c' s :
  log_literal span (c :: c' :: s) =
    if Ascii.eqb c percent then
      if Ascii.eqb c' percent then after_pushing (pushChars (span ++ [c])) (log_literal [] s)
      else ([], Some (Fatal "missing arguments to log()"))
    else log_literal (span ++ [c]) (c' :: s).
Proof. done. Qed.
Lemma log_value_cons2 a next span c c' s :
  log_value a next span (c :: c' :: s) =
    if Ascii.eqb c percent then
      if Ascii.eqb c' percent then after_pushing (pushChars (span ++ [c])) (log_value a next [] s)
      else after_pushing (pushChars span) (after_pushing (pushValue a) (next (c' :: s)))
    else log_value a next (span ++ [c]) (c' :: s).
Proof. done. Qed.

Lemma log_literal_text s : ∀ span, log_text (log_literal span s) = app span <$> render [] s.
Proof.
  induction s as [|c|c c' s IH IH'] using text_ind; intros span.
  - cbn. by rewrite pushChars_written, app_nil_r.
  - cbn. destruct (Ascii.eqb c percent); [done|]. cbn. by rewrite pushChars_written.
  - rewrite log_literal_cons2, render_cons2. destruct (Ascii.eqb c percent) eqn:Ec.
    + apply Ascii.eqb_eq in Ec as ->. destruct (Ascii.eqb c' percent); [|done].
      rewrite log_text_after, IH, pushChars_written, cons_app_fmap, !app_fmap. by rewrite app_nil_r.
    + rewrite IH', cons_app_fmap, app_fmap. done.
Qed.

Lemma log_value_text a (next : text → Pushes) args s :
  (∀ s, log_text (next s) = render args s) →
  ∀ span, log_text (log_value a next span s) = app span <$> render (a :: args) s.
Proof.
  intros Hn. induction s as [|c|c c' s IH IH'] using text_ind; intros span; [done|..].
  - cbn [log_value render]. destruct (Ascii.eqb c percent); [|done].
    by rewrite !log_text_after, Hn, pushChars_written, pushValue_written.
  - rewrite log_value_cons2, render_cons2.
    destruct (Ascii.eqb c percent) eqn:Ec.
    + destruct (Ascii.eqb c' percent); rewrite !log_text_after, pushChars_written.
      * rewrite IH, cons_app_fmap, !app_fmap. by rewrite app_nil_r.
      * by rewrite Hn, pushValue_written.
    + rewrite IH', cons_app_fmap, app_fmap. done.
Qed.

Lemma log_renders args s : log_text (log args s) = render args s.
Proof.
  revert s. induction args as [|a args IH]; intros s; cbn [log].
  - rewrite log_literal_text. by destruct (render [] s).
  - rewrite (log_value_text a (log args) args s IH). by destruct (render (a :: args) s).
Qed.

(** *** The elements fit their buffers *)

Lemma after_pushing_ok l k : Forall element_ok l → Forall element_ok k.1 → Forall element_ok (after_pushing l k).1.
Proof. intros. by apply Forall_app. Qed.

Definition arg_ok (a : LogArg) : Prop := match a with a_cstr s => NUL ∉ s | _ => True end.

Lemma c_str_ok s : NUL ∉ c_str s.
Proof.
  induction s as [|c s IH]; [apply not_elem_of_nil|]. cbn. destruct (Ascii.eqb c NUL) eqn:E; [apply not_elem_of_nil|].
  rewrite not_elem_of_cons. split; [|done]. intros <-. by rewrite Ascii.eqb_refl in E.
Qed.
Lemma pushValue_ok a : arg_ok a → Forall element_ok (pushValue a).
Proof.
  destruct a; cbn [pushValue arg_ok]; intros Ha; rewrite ?push_cstr_chars; repeat constructor;
    apply push_chars_ok; [done|apply c_str_ok].
Qed.

Lemma log_literal_ok s : ∀ span, NUL ∉ span → NUL ∉ s → Forall element_ok (log_literal span s).1.
Proof.
  assert (Hp : ∀ span c, NUL ∉ span → NUL ≠ c → NUL ∉ span ++ [c]) by (intros span c ? ?; by rewrite not_elem_of_app, list_elem_of_singleton).
  induction s as [|c|c c' s IH IH'] using text_ind; intros span Hs; rewrite ?not_elem_of_cons.
  - intros _. by apply push_chars_ok.
  - intros [Hc _]. cbn. destruct (Ascii.eqb c percent); [constructor|]. apply push_chars_ok. auto.
  - intros (Hc & Hc' & Hrest). rewrite log_literal_cons2. destruct (Ascii.eqb c percent).
    + destruct (Ascii.eqb c' percent); [|constructor]. apply after_pushing_ok; [apply push_chars_ok; auto|].
      apply IH; [apply not_elem_of_nil|done].
    + apply IH'; [auto|]. by rewrite not_elem_of_cons.
Qed.
Lemma log_value_ok a (next : text → Pushes) s : arg_ok a → (∀ s, NUL ∉ s → Forall element_ok (next s).1) →
  ∀ span, NUL ∉ span → NUL ∉ s → Forall element_ok (log_value a next span s).1.
Proof.
  intros Ha Hn. apply pushValue_ok in Ha.
  assert (Hp : ∀ span c, NUL ∉ span → NUL ≠ c → NUL ∉ span ++ [c]) by (intros span c ? ?; by rewrite not_elem_of_app, list_elem_of_singleton).
  induction s as [|c|c c' s IH IH'] using text_ind; intros span Hs; rewrite ?not_elem_of_cons.
  - constructor.
  - intros [Hc _]. cbn. destruct (Ascii.eqb c percent); [|constructor].
    apply (after_pushing_ok _ (after_pushing (pushValue a) (next []))); [by apply push_chars_ok|].
    apply after_pushing_ok; [done|]. apply Hn, not_elem_of_nil.
  - intros (Hc & Hc' & Hrest). rewrite log_value_cons2. destruct (Ascii.eqb c percent).
    + destruct (Ascii.eqb c' percent); (apply after_pushing_ok; [apply push_chars_ok; auto|]).
      * apply IH; [apply not_elem_of_nil|done].
      * apply after_pushing_ok; [done|]. apply Hn. by rewrite not_elem_of_cons.
    + apply IH'; [auto|]. by rewrite not_elem_of_cons.
Qed.
Lemma log_ok args s : Forall arg_ok args → NUL ∉ s → Forall element_ok (log args s).1.
Proof.
  intros Ha. revert s. induction Ha as [|a args Ha _ IH]; intros s Hs; cbn [log].
  - apply log_literal_ok; [apply not_elem_of_nil|done].
  - apply log_value_ok; auto using not_elem_of_nil.
Qed.

(** ** The logger thread *)

Record Logger := mkLogger { lg_queue : LFQueue LogElement; lg_file : text; lg_running : bool }.

Definition set_lg_queue q lg : Logger := mkLogger q (lg_file lg) (lg_running lg).

Section thread.
Context `{Cfg : Config}.
Implicit Types (lg : Logger).
Local Abbreviation L := (M Logger).

Definition Logger_new : res Logger := q ← LFQueue_new LOG_QUEUE_SIZE; Ok (mkLogger q [] true).

(** [pushValue(const LogElement &)] *)
Definition push_element (e : LogElement) : L unit :=
  q ← gets lg_queue; q ← lift (push e q); modify (set_lg_queue q).

(** The condition of the loop of [flushQueue]. *)
Definition flush_goes_on lg : bool := lg_running lg || (0 <? size (lg_queue lg)).

(** One turn of it; on an empty queue the thread flushes the file and sleeps. *)
Definition flush_once : L unit :=
  q ← gets lg_queue;
  let '(log_elem, q) := peek q in
  modify (set_lg_queue q);;
  match log_elem with
  | Some e =>
      modify (λ lg, mkLogger (lg_queue lg) (lg_file lg ++ write_element e) (lg_running lg));;
      q ← gets lg_queue; q ← lift (pop q); modify (set_lg_queue q)
  | None => mret tt
  end.

(** [flushQueue], for at most [fuel] turns. *)
Fixpoint flushQueue (fuel : nat) : L unit :=
  lg ← get;
  if flush_goes_on lg then
    match fuel with
    | O => fail Spin
    | S fuel => flush_once;; flushQueue fuel
    end
  else mret tt.

(** A logger and what its owner has yet to push. *)
Definition log_session : Type := Logger * list LogElement.

Inductive logger_step : log_session → log_session → Prop :=
  | ls_push e es lg lg' :
      push_element e lg = Ok (tt, lg') → logger_step (lg, e :: es) (lg', es)
  | ls_flush es lg lg' :
      flush_goes_on lg = true → flush_once lg = Ok (tt, lg') → logger_step (lg, es) (lg', es)
  (** [~Logger] has seen the queue empty. *)
  | ls_stop lg :
      size (lg_queue lg) = 0 → logger_step (lg, []) (mkLogger (lg_queue lg) (lg_file lg) false, []).

(** The thread has ended, and the destructor with it. *)
Definition stopped (s : log_session) : Prop := flush_goes_on s.1 = false.

(** *** Nothing is lost, reordered or written twice *)

Definition log_inv (n : Z) (whole : text) (s : log_session) : Prop :=
  ∃ queued, q_rep (lg_queue s.1) n queued ∧ lg_file s.1 ++ written queued ++ written s.2 = whole ∧
    (lg_running s.1 = false → queued = [] ∧ s.2 = []).

Lemma flush_once_spec lg n queued : q_rep (lg_queue lg) n queued →
  ∃ q', flush_once lg = Ok (tt, mkLogger q' (lg_file lg ++ written (take 1 queued)) (lg_running lg)) ∧ q_rep q' n (drop 1 queued).
Proof.
  intros Hq. destruct (peek_spec _ _ _ Hq) as [H1 H2]. unfold flush_once. rewrite bind_gets.
  destruct (peek (lg_queue lg)) as [o q]. cbn [fst snd] in *. subst o. rewrite bind_modify.
  apply pop_spec in H2 as Hp. destruct queued as [|e queued]; cbn [head].
  - exists q. by rewrite app_nil_r.
  - destruct Hp as (q' & Hp & Hq'). exists q'. split; [|done]. rewrite bind_modify, bind_gets. unfold lift.
    erewrite bind_Ok by (cbn [lg_queue set_lg_queue]; rewrite Hp; reflexivity).
    cbn [take]. by rewrite written_cons, app_nil_r.
Qed.

Lemma push_element_spec lg n queued e : q_rep (lg_queue lg) n queued →
  if fits n (queued ++ [e])
  then ∃ q', push_element e lg = Ok (tt, set_lg_queue q' lg) ∧ q_rep q' n (queued ++ [e])
  else push_element e lg = Err (Fatal "LFQueue overflow").
Proof.
  intros Hq. pose proof (push_fits e _ _ _ Hq) as Hp. unfold push_element. rewrite bind_gets. unfold lift.
  destruct (fits _ _); [|by rewrite (bind_Err _ _ _ (Fatal "LFQueue overflow")) by (by rewrite Hp)].
  destruct Hp as (q' & Hp & Hq'). exists q'. split; [|done]. by erewrite bind_Ok by (rewrite Hp; reflexivity).
Qed.

Lemma logger_step_inv n whole (s s' : log_session) : log_inv n whole s → logger_step s s' → log_inv n whole s'.
Proof.
  intros (queued & Hq & Hw & Hr) Hs. destruct Hs as [e es lg lg' Hp|es lg lg' Hg Hp|lg Hz]; cbn [fst snd] in *.
  - pose proof (push_element_spec _ _ _ e Hq) as H1. destruct (fits _ _); [|congruence].
    destruct H1 as (q' & H1 & Hq'). rewrite Hp in H1. injection H1 as ->. exists (queued ++ [e]).
    cbn [fst snd set_lg_queue lg_queue lg_file lg_running]. split; [done|]. split.
    + rewrite <- Hw, written_app, (written_cons e es), (written_cons e []). by rewrite app_nil_r, <- (assoc (++)).
    + intros Hf. by destruct (Hr Hf).
  - destruct (flush_once_spec _ _ _ Hq) as (q' & H1 & Hq'). rewrite Hp in H1. injection H1 as ->. exists (drop 1 queued).
    cbn [fst snd lg_queue lg_file lg_running]. split; [done|]. split.
    + rewrite <- Hw, <- (assoc (++)). f_equal. rewrite (assoc (++)), <- written_app. by rewrite take_drop.
    + intros Hf. by destruct (Hr Hf) as [-> ->].
  - rewrite (size_spec _ _ _ Hq) in Hz. destruct queued; [|done]. exists []. by split_and!.
Qed.

Lemma logger_steps_inv n whole (s s' : log_session) : log_inv n whole s → rtc logger_step s s' → log_inv n whole s'.
Proof. intros Hi. induction 1; [done|]. by eauto using logger_step_inv. Qed.

(** The thread empties the queue. *)
Lemma flush_all lg n queued es : q_rep (lg_queue lg) n queued → 
  ∃ q', rtc logger_step (lg, es) (mkLogger q' (lg_file lg ++ written queued) (lg_running lg), es) ∧ q_rep q' n [].
Proof.
  revert lg. induction queued as [|e queued IH]; intros lg Hq.
  - exists (lg_queue lg). rewrite app_nil_r. split; [by destruct lg|done].
  - destruct (flush_once_spec _ _ _ Hq) as (q1 & H1 & Hq1). cbn [take drop] in *.
    destruct (IH (mkLogger q1 (lg_file lg ++ written [e]) (lg_running lg)) Hq1) as (q' & Hs & Hq'). exists q'. split; [|done].
    eapply rtc_l; [apply ls_flush; [|exact H1]|].
    + unfold flush_goes_on. rewrite (size_spec _ _ _ Hq). destruct (lg_running lg); [done|]. by apply Z.ltb_lt.
    + cbn [lg_file lg_running] in Hs. by rewrite <- (assoc (++)), <- written_app in Hs.
Qed.

Lemma logger_completes lg n queued es : q_rep (lg_queue lg) n queued → 
  ∃ s' : log_session, rtc logger_step (lg, es) s' ∧ stopped s'.
Proof.
  revert lg queued. induction es as [|e es IH]; intros lg queued Hq.
  - destruct (flush_all lg n queued [] Hq) as (q1 & Hs & Hq1). eexists. split; [etransitivity; [exact Hs|]; apply rtc_once, ls_stop; exact (size_spec _ _ _ Hq1)|].
    unfold stopped, flush_goes_on. cbn. by rewrite (size_spec _ _ _ Hq1).
  - destruct (flush_all lg n queued (e :: es) Hq) as (q1 & Hs & Hq1).
    set (lg1 := mkLogger q1 _ _) in Hs. pose proof (push_element_spec lg1 n [] e Hq1) as Hp.
    assert (Hf : fits n ([] ++ [e]) = true) by (apply q_rep_length in Hq1; apply Z.leb_le; cbn; lia). rewrite Hf in Hp.
    destruct Hp as (q2 & Hp & Hq2). destruct (IH (set_lg_queue q2 lg1) _ Hq2) as (s' & Hs' & Hst). exists s'. split; [|done].
    etransitivity; [exact Hs|]. eapply rtc_l; [apply ls_push, Hp|exact Hs'].
Qed.

(** *** The texts of a run of calls *)

(** Calls one after the other: what they push, up to the first fault. *)
Fixpoint log_calls (calls : list (text * list LogArg)) : Pushes :=
  match calls with
  | [] => ([], None)
  | (fmt, args) :: calls =>
      match log args fmt with
      | (l, None) => after_pushing l (log_calls calls)
      | p => p
      end
  end.

(** The text they should write, when the arguments of each call match. *)
Fixpoint render_calls (calls : list (text * list LogArg)) : option text :=
  match calls with
  | [] => Some []
  | (fmt, args) :: calls => t ← render args fmt; app t <$> render_calls calls
  end.

Lemma log_calls_text calls : log_text (log_calls calls) = render_calls calls.
Proof.
  induction calls as [|[fmt args] calls IH]; [done|]. cbn [log_calls render_calls].
  rewrite <- (log_renders args fmt). destruct (log args fmt) as [l [f|]]; [done|].
  rewrite log_text_after, IH. done.
Qed.

Lemma log_calls_ok calls :
  Forall (λ call, NUL ∉ call.1 ∧ Forall arg_ok call.2) calls → Forall element_ok (log_calls calls).1.
Proof.
  induction 1 as [|[fmt args] calls [Hf Ha] _ IH]; [constructor|]. cbn [log_calls].
  pose proof (log_ok args fmt Ha Hf) as Hok. destruct (log args fmt) as [l [f|]]; [done|]. by apply after_pushing_ok.
Qed.

(** A session that starts with [els] to push, whose text is [written els]. *)
Lemma session_writes els lg (s : log_session) :
  Logger_new = Ok lg → rtc logger_step (lg, els) s →
  (∃ n queued, q_rep (lg_queue s.1) n queued ∧ lg_file s.1 ++ written queued ++ written s.2 = written els) ∧
  (stopped s → s.2 = [] ∧ lg_file s.1 = written els) ∧
  (∃ s' : log_session, rtc logger_step s s' ∧ stopped s').
Proof.
  unfold Logger_new. destruct (LFQueue_new LOG_QUEUE_SIZE) as [q|] eqn:Eq; [|done]. intros [= <-] Hs.
  assert (2 ≤ LOG_QUEUE_SIZE) as H2. { revert Eq. unfold LFQueue_new. by case Z.leb_spec. }
  destruct (q_rep_new (T := LogElement) _ H2) as (q' & Eq' & Hq). rewrite Eq in Eq'. injection Eq' as <-.
  assert (Hi : log_inv LOG_QUEUE_SIZE (written els) (mkLogger q [] true, els)) by by exists [].
  destruct (logger_steps_inv _ _ _ _ Hi Hs) as (queued & Hq' & Hw' & Hr). split; [by eexists _, queued|].
  destruct s as [lg' es]. cbn [fst snd] in *. split; [|by eapply logger_completes].
  unfold stopped, flush_goes_on. cbn. intros [Hrun _]%orb_false_iff. destruct (Hr Hrun) as [-> ->].
  split; [done|]. by rewrite <- Hw', app_nil_r.
Qed.

(** C36: the logger writes what was logged.  Take any calls whose formats and
    arguments match, and let the pushes of their elements and the turns of the
    logger thread interleave in any way.  At every moment the text in the
    file, in the queue and still to be pushed is the text of the calls; the
    run can always go on to its end, the thread stopped after the destructor;
    and then the file holds that text, no more and no less.  No block pushed
    overruns its 64-byte buffer. *)
Theorem logger_writes_formatted calls whole lg (s : log_session) :
  render_calls calls = Some whole → Logger_new = Ok lg →
  rtc logger_step (lg, (log_calls calls).1) s →
  (log_calls calls).2 = None ∧
  (∃ n queued, q_rep (lg_queue s.1) n queued ∧ lg_file s.1 ++ written queued ++ written s.2 = whole) ∧
  (stopped s → s.2 = [] ∧ lg_file s.1 = whole) ∧
  (∃ s' : log_session, rtc logger_step s s' ∧ stopped s') ∧
  (Forall (λ call, NUL ∉ call.1 ∧ Forall arg_ok call.2) calls → Forall element_ok (log_calls calls).1).
Proof.
  intros Hw Hn Hs. pose proof (log_calls_ok calls) as Hel. rewrite <- log_calls_text in Hw. unfold log_text in Hw.
  destruct (log_calls calls) as [els [f|]]; [done|]. cbn [fst snd] in *. injection Hw as <-.
  destruct (session_writes els lg s Hn Hs) as (? & ? & ?). done.
Qed.
End thread.
End logging.
