(* ===== verification/OptLogging.v ===== *)
(** OptCommon::OptLogger (include/opt_logging.h), the variant of the logger
    measured by the benchmarks: one element of 256 bytes per string argument,
    one [CHAR] element per character of the format.  Its elements and the
    [switch] that writes them are those of Logging.v; its thread takes the same
    turns ([opt_flush_once_eq]) and sleeps after each of them. *)

From Stdlib Require Import Ascii.
From S2P Require Import Prelude Types LFQueue Logging.

Section opt_logging.
Context {St : Stream}.
Implicit Types (s : text).

Definition opt_buffer_size : nat := 256.

(** [pushValue(const char * )]: [strncpy] into a zeroed buffer. *)
Definition opt_push_cstr s : list LogElement := [STRING (take (opt_buffer_size - 1) s)].

Definition opt_pushValue (a : LogArg) : list LogElement :=
  match a with
  | a_cstr s => opt_push_cstr s
  | a_string s => opt_push_cstr (c_str s)
  | _ => pushValue a
  end.

Fixpoint opt_log_literal s : Pushes :=
  match s with
  | [] => ([], None)
  | c :: s' =>
      if Ascii.eqb c percent then
        match s' with
        | c' :: s'' =>
            if Ascii.eqb c' percent then after_pushing [CHAR c'] (opt_log_literal s'')
            else ([], Some (Fatal "missing arguments to log()"))
        | [] => ([], Some (Fatal "missing arguments to log()"))
        end
      else after_pushing [CHAR c] (opt_log_literal s')
  end.

Fixpoint opt_log_value (value : LogArg) (next : text → Pushes) s : Pushes :=
  match s with
  | [] => ([], Some (Fatal "extra arguments provided to log()"))
  | c :: s' =>
      if Ascii.eqb c percent then
        match s' with
        | c' :: s'' =>
            if Ascii.eqb c' percent then after_pushing [CHAR c'] (opt_log_value value next s'')
            else after_pushing (opt_pushValue value) (next s')
        | [] => after_pushing (opt_pushValue value) (next s')
        end
      else after_pushing [CHAR c] (opt_log_value value next s')
  end.

Fixpoint opt_log (args : list LogArg) s : Pushes :=
  match args with
  | [] => opt_log_literal s
  | value :: args => opt_log_value value (opt_log args) s
  end.

(** One turn of [flushQueue]. *)
Definition opt_flush_once : M Logger unit :=
  q ← gets lg_queue;
  let '(log_elem, q) := peek q in
  modify (set_lg_queue q);;
  match log_elem with
  | Some e =>
      modify (λ lg, mkLogger (lg_queue lg) (lg_file lg ++ write_element e) (lg_running lg));;
      q ← gets lg_queue; q ← lift (pop q); modify (set_lg_queue q)
  | None => mret tt
  end.

Lemma opt_flush_once_eq : opt_flush_once = flush_once.
Proof. done. Qed.

(** A string argument, cut to what its one element holds. *)
Definition truncate_arg (a : LogArg) : LogArg :=
  match a with
  | a_cstr s => a_cstr (take (opt_buffer_size - 1) s)
  | a_string s => a_cstr (take (opt_buffer_size - 1) (c_str s))
  | _ => a
  end.

Lemma opt_pushValue_written a : written (opt_pushValue a) = show_arg (truncate_arg a).
Proof. destruct a; cbn [opt_pushValue truncate_arg]; try apply pushValue_written; unfold opt_push_cstr; rewrite written_cons; apply app_nil_r. Qed.

Lemma opt_log_literal_text s : log_text (opt_log_literal s) = render [] s.
Proof.
  induction s as [|c|c c' s IH IH'] using text_ind; [done|..].
  - cbn. by destruct (Ascii.eqb c percent).
  - rewrite render_cons2. change (opt_log_literal (c :: c' :: s)) with
      (if Ascii.eqb c percent then
         if Ascii.eqb c' percent then after_pushing [CHAR c'] (opt_log_literal s)
         else ([], Some (Fatal "missing arguments to log()"))
       else after_pushing [CHAR c] (opt_log_literal (c' :: s))).
    destruct (Ascii.eqb c percent) eqn:Ec.
    + destruct (Ascii.eqb_spec c' percent) as [->|]; [|done]. apply Ascii.eqb_eq in Ec as ->.
      by rewrite log_text_after, IH, cons_app_fmap.
    + by rewrite log_text_after, IH', cons_app_fmap.
Qed.
Lemma opt_log_value_text a (next : text → Pushes) args s :
  (∀ s, log_text (next s) = render args s) →
  log_text (opt_log_value a next s) = render (truncate_arg a :: args) s.
Proof.
  intros Hn. induction s as [|c|c c' s IH IH'] using text_ind; [done|..].
  - cbn [opt_log_value render]. destruct (Ascii.eqb c percent); [|done].
    by rewrite !log_text_after, Hn, opt_pushValue_written.
  - rewrite render_cons2. change (opt_log_value a next (c :: c' :: s)) with
      (if Ascii.eqb c percent then
         if Ascii.eqb c' percent then after_pushing [CHAR c'] (opt_log_value a next s)
         else after_pushing (opt_pushValue a) (next (c' :: s))
       else after_pushing [CHAR c] (opt_log_value a next (c' :: s))).
    destruct (Ascii.eqb c percent) eqn:Ec.
    + destruct (Ascii.eqb_spec c' percent) as [->|]; [apply Ascii.eqb_eq in Ec as ->|]; rewrite log_text_after.
      * by rewrite IH, cons_app_fmap.
      * by rewrite Hn, opt_pushValue_written.
    + by rewrite log_text_after, IH', cons_app_fmap.
Qed.
Lemma opt_log_renders args s : log_text (opt_log args s) = render (truncate_arg <$> args) s.
Proof.
  revert s. induction args as [|a args IH]; intros s; cbn [opt_log].
  - apply opt_log_literal_text.
  - by apply (opt_log_value_text a (opt_log args)).
Qed.

(** A logger session of one call of OptLogger. *)
Lemma opt_call_written `{Cfg : Config} args fmt lg (s : log_session) :
  (opt_log args fmt).2 = None → Logger_new = Ok lg → rtc logger_step (lg, (opt_log args fmt).1) s → stopped s →
  Some (lg_file s.1) = render (truncate_arg <$> args) fmt.
Proof.
  intros Ho Hn Hs Hst. destruct (session_writes _ _ _ Hn Hs) as (_ & Hw & _). destruct (Hw Hst) as [_ ->].
  rewrite <- opt_log_renders. unfold log_text. by rewrite Ho.
Qed.

(** The optimised logger writes what the logger writes.  With the same
    format and arguments, string arguments cut to the 255 characters one
    element holds, OptLogger writes the same text, character by character, as
    Logger does in blocks, and stops the process on the same calls. *)
Theorem opt_logger_equivalent args s :
  log_text (opt_log args s) = log_text (log (truncate_arg <$> args) s).
Proof. by rewrite log_renders, opt_log_renders. Qed.
End opt_logging.
