(* ===== verification/MarketDataPublisher.v ===== *)
(** Exchange::MarketDataPublisher
    (Exchange/market_data/market_data_publisher.h and .cpp): numbers the
    updates of the matching engine, sends them on the incremental multicast
    stream and forwards them to the snapshot synthesizer.

    [net k] is what the kernel answers to the [k]-th [sendAndRecv] of a pass.
    [poll_publishes] states what leaves the process whatever it answers. *)

From S2P Require Import Prelude Types Wire Framing LFQueue Sockets McastSocket.

Record MarketDataPublisher := mkMarketDataPublisher {
  pub_outgoing_md_updates_ : LFQueue MEMarketUpdate;
  pub_snapshot_md_updates_ : LFQueue MDPMarketUpdate;
  incremental_socket_ : McastSocket;
  next_inc_seq_num_ : Z;
}.

Definition set_pub_outgoing v p : MarketDataPublisher :=
  mkMarketDataPublisher v (pub_snapshot_md_updates_ p) (incremental_socket_ p) (next_inc_seq_num_ p).
Definition set_pub_snapshot v p : MarketDataPublisher :=
  mkMarketDataPublisher (pub_outgoing_md_updates_ p) v (incremental_socket_ p) (next_inc_seq_num_ p).
Definition set_pub_seq v p : MarketDataPublisher :=
  mkMarketDataPublisher (pub_outgoing_md_updates_ p) (pub_snapshot_md_updates_ p) (incremental_socket_ p) v.
Definition inc_socket : lens MarketDataPublisher McastSocket :=
  Lens incremental_socket_ (λ v p, mkMarketDataPublisher (pub_outgoing_md_updates_ p)
    (pub_snapshot_md_updates_ p) v (next_inc_seq_num_ p)).
#[export] Instance inc_socket_ok : LensOk inc_socket.
Proof. split; [done|by intros []|done]. Qed.

(** Datagrams are flushed before one more message would cross this size. *)
Definition MDP_FLUSH_THRESHOLD_BYTES : Z := 1400.

Section MarketDataPublisher.
Context `{Config, NetConfig}.
Local Abbreviation MP := (M MarketDataPublisher).
Implicit Types (p : MarketDataPublisher) (u : MEMarketUpdate) (net : nat → SendResult * RecvResult).

(** The constructor; [created] is the descriptor the socket gets. *)
Definition MarketDataPublisher_new (market_updates : LFQueue MEMarketUpdate) (created : Z) :
  res MarketDataPublisher :=
  match LFQueue_new ME_MAX_MARKET_UPDATES with
  | Err f => Err f
  | Ok q =>
      match mc_init created true false McastSocket_new with
      | Err f => Err f
      | Ok (fd, s) =>
          if 0 <=? fd then Ok (mkMarketDataPublisher market_updates q s 1)
          else Err (Fatal "MDP incremental socket init failed")
      end
  end.

(** The body of the drain loop of [poll] for the update read; [k] counts the
    calls of [sendAndRecv]. *)
Definition publish_update net (k : nat) u : MP nat :=
  seq ← gets next_inc_seq_num_;
  zoom inc_socket (mc_send (le 8 seq));;
  zoom inc_socket (mc_send (wput u));;
  snap ← gets pub_snapshot_md_updates_;
  snap ← lift (push (mkMDPMarketUpdate seq u) snap);
  modify (set_pub_snapshot snap);;
  q ← gets pub_outgoing_md_updates_; q ← lift (pop q); modify (set_pub_outgoing q);;
  modify (set_pub_seq (u64 (seq + 1)));;
  idx ← gets (λ p, next_send_valid_index_ (incremental_socket_ p));
  if MDP_FLUSH_THRESHOLD_BYTES <? idx + Z.of_nat (wsize MDPMarketUpdate) then
    mc_sendAndRecv inc_socket None (net k).1 (net k).2;; mret (S k)
  else mret k.

Fixpoint drain_updates (fuel : nat) net (k : nat) : MP nat :=
  q ← gets pub_outgoing_md_updates_;
  let '(update, q) := peek q in
  modify (set_pub_outgoing q);;
  match update with
  | None => mret k
  | Some u =>
      match fuel with
      | O => fail Spin
      | S fuel => k ← publish_update net k u; drain_updates fuel net k
      end
  end.

(** [poll]; the queue never holds more than its capacity. *)
Definition pub_poll net : MP unit :=
  fuel ← gets (λ p, Z.to_nat (capacity (pub_outgoing_md_updates_ p)));
  k ← drain_updates fuel net 0;
  mc_sendAndRecv inc_socket None (net k).1 (net k).2;;
  mret tt.

(** [run]: one [poll] per turn while [run_] is set. *)
Definition pub_run (nets : list (nat → SendResult * RecvResult)) : MP unit := for_each pub_poll nets.
End MarketDataPublisher.

(** ** What goes on the wire *)

(** The bytes of a run of messages. *)
Definition encode (ms : list MDPMarketUpdate) : list byte := mjoin (wput <$> ms).

Lemma encode_app ms ms' : encode (ms ++ ms') = encode ms ++ encode ms'.
Proof. unfold encode. by rewrite fmap_app, join_app. Qed.

Lemma encode_length ms : length (encode ms) = (42 * length ms)%nat.
Proof.
  induction ms as [|m ms IH]; [done|]. change (encode (m :: ms)) with (wput m ++ encode ms).
  rewrite length_app, IH, wput_length. change (wsize MDPMarketUpdate) with 42%nat. cbn [length]. lia.
Qed.

Lemma encode_one m : encode [m] = wput m.
Proof. apply app_nil_r. Qed.

(** Updates numbered_from from [n], in the width of the counter. *)
Fixpoint numbered_from (n : Z) (us : list MEMarketUpdate) : list MDPMarketUpdate :=
  match us with
  | [] => []
  | u :: us => mkMDPMarketUpdate n u :: numbered_from (u64 (n + 1)) us
  end.

Lemma numbered_length n us : length (numbered_from n us) = length us.
Proof. revert n. induction us as [|u us IH]; intros n; [done|]. cbn. by rewrite IH. Qed.

Lemma numbered_lookup us : ∀ n i, is_u64 n →
  numbered_from n us !! i = (λ u, mkMDPMarketUpdate (u64 (n + Z.of_nat i)) u) <$> us !! i.
Proof.
  induction us as [|u us IH]; intros n i Hn; [done|]. destruct i as [|i]; cbn [numbered_from lookup list_lookup].
  - cbn. by rewrite Z.add_0_r, u64_id.
  - rewrite IH by auto with llx. destruct (us !! i); [|done]. cbn. do 2 f_equal.
    unfold u64. rewrite Zplus_mod_idemp_l. f_equal. lia.
Qed.

Lemma numbered_foldl us : ∀ n us',
  numbered_from n (us ++ us') = numbered_from n us ++ numbered_from (foldl (λ n _, u64 (n + 1)) n us) us'.
Proof. induction us as [|u us IH]; intros n us'; [done|]. cbn. by rewrite IH. Qed.

Section publish.
Context `{Cfg : Config, NCfg : NetConfig}.
Implicit Types (p : MarketDataPublisher) (us : list MEMarketUpdate) (ms rest : list MDPMarketUpdate)
  (net : nat → SendResult * RecvResult) (D : list (list byte)) (s : McastSocket).

(** The kernel takes every datagram; it never fails. *)
Definition prompt net : Prop := ∀ k, ∃ n, (net k).1 = Sent n.
Definition lossless net : Prop := ∀ k, (net k).1 ≠ SendError.

(** A socket that was given the messages [ms]: every datagram beyond [D] is a
    run of consecutive whole messages, in order and sent once; all of them
    when no send fails; at most [b] wait when the kernel is prompt, in which
    case no datagram exceeds 33 messages.  [L] and [Q] stand
    for the two assumptions on the kernel. *)
Record carries (L Q : Prop) D ms (b : nat) s runs rest : Prop := {
  ca_wire : datagrams_ s = D ++ (encode <$> runs);
  ca_buf : send_buffer_ s = encode rest;
  ca_order : mjoin runs ++ rest `sublist_of` ms;
  ca_all : L → mjoin runs ++ rest = ms;
  ca_size : Q → Forall (λ r, (0 < length r ≤ 33)%nat) runs ∧ (length rest ≤ b)%nat;
}.

Lemma carries_send L Q D ms b s runs rest m :
  carries L Q D ms b s runs rest →
  carries L Q D (ms ++ [m]) (S b) (set_mc_send (send_buffer_ s ++ wput m) s) runs (rest ++ [m]).
Proof.
  intros [Hw Hb Ho Ha Hs]. split; cbn.
  - exact Hw.
  - by rewrite Hb, encode_app, encode_one.
  - rewrite (assoc (++)). by apply sublist_app.
  - intros Hl. rewrite (assoc (++)). by rewrite Ha.
  - intros Hp. destruct (Hs Hp). split; [done|]. rewrite length_app. cbn. lia.
Qed.

Lemma carries_flush (L Q : Prop) D ms b s runs rest sent :
  (L → sent ≠ SendError) → (Q → ∃ n, sent = Sent n) → carries L Q D ms b s runs rest → (b ≤ 33)%nat →
  ∃ runs' rest', carries L Q D ms 0 (flushed sent s) runs' rest' ∧ rest' `sublist_of` rest.
Proof.
  intros HL HQ [Hw Hb Ho Ha Hs] H33. unfold flushed, next_send_valid_index_. rewrite Hb, encode_length.
  case Z.ltb_spec; intros Hlt.
  2:{ exists runs, rest. split; [|done]. assert (rest = []) as -> by (destruct rest; cbn in *; [done|lia]).
      split; try done. intros Hp. destruct (Hs Hp). split; [done|]. cbn. lia. }
  destruct sent as [n| |].
  - exists (runs ++ [rest]), []. split; [|apply sublist_nil_l]. split; cbn.
    + rewrite Hw, fmap_app, <- (assoc (++)). cbn. by rewrite Hb.
    + done.
    + by rewrite join_app, app_nil_r; cbn; rewrite app_nil_r.
    + intros Hl. rewrite join_app, app_nil_r. cbn. rewrite app_nil_r. by apply Ha.
    + intros Hp. destruct (Hs Hp) as [Hf Hr]. split; [|lia]. apply Forall_app. split; [done|].
      apply Forall_singleton. lia.
  - exists runs, rest. split; [|done]. split; try done. intros Hp. by destruct (HQ Hp).
  - exists runs, []. split; [|apply sublist_nil_l]. split; cbn.
    + done.
    + done.
    + rewrite app_nil_r. etransitivity; [|exact Ho]. by apply sublist_inserts_r.
    + intros Hl. by destruct (HL Hl).
    + intros Hp. by destruct (HQ Hp).
Qed.

Lemma carries_received L Q D ms b s runs rest r :
  carries L Q D ms b s runs rest → carries L Q D ms b (filled r s) runs rest.
Proof. by intros []. Qed.

Lemma wput_split n u : wput (mkMDPMarketUpdate n u) = le 8 n ++ wput u.
Proof. done. Qed.

(** The member operations of the loop body, on a publisher. *)
Lemma inc_sendAndRecv net k p :
  ∃ b, mc_sendAndRecv inc_socket None (net k).1 (net k).2 p =
    Ok (b, lset inc_socket (filled (net k).2 (flushed (net k).1 (incremental_socket_ p))) p).
Proof.
  pose proof (mc_sendAndRecv_spec inc_socket inc_socket_ok None (net k).1 (net k).2 p) as E. cbv zeta in E.
  revert E. case_decide; intros E; rewrite E; by eexists.
Qed.

(** A publisher with [us] to read, [sl] forwarded, [ms] given to its socket. *)
Record pub_rep (ni ns : Z) net (Q : Prop) D us sl ms (n : Z) (b : nat) p : Prop := {
  pr_out : q_rep (pub_outgoing_md_updates_ p) ni us;
  pr_snap : q_rep (pub_snapshot_md_updates_ p) ns sl;
  pr_seq : next_inc_seq_num_ p = n;
  pr_sock : ∃ runs rest, carries (lossless net) Q D ms b (incremental_socket_ p) runs rest;
}.

Lemma carries_room L Q D ms b s runs rest :
  carries L Q D ms b s runs rest → next_send_valid_index_ s ≤ 42 * Z.of_nat (length ms).
Proof.
  intros [_ Hb Ho _ _]. unfold next_send_valid_index_. rewrite Hb, encode_length.
  apply sublist_length in Ho. rewrite length_app in Ho. lia.
Qed.

(** The two [send]s leave one whole message in the buffer. *)
Lemma send_message n u p :
  let s := incremental_socket_ p in
  next_send_valid_index_ s + 42 ≤ McastBufferSize →
  ∃ s0, zoom inc_socket (mc_send (le 8 n)) p = Ok (tt, lset inc_socket s0 p) ∧
    zoom inc_socket (mc_send (wput u)) (lset inc_socket s0 p) =
      Ok (tt, lset inc_socket (set_mc_send (send_buffer_ s ++ wput (mkMDPMarketUpdate n u)) s) p).
Proof.
  intros s Hroom. exists (set_mc_send (send_buffer_ s ++ le 8 n) s). split.
  - apply zoom_Ok, mc_send_Ok. rewrite le_length. cbn [lget inc_socket]. fold s. lia.
  - rewrite wput_split, (assoc (++)).
    erewrite zoom_Ok; [|apply mc_send_Ok; rewrite lget_lset; unfold next_send_valid_index_ in *;
      cbn [send_buffer_ set_mc_send]; rewrite length_app, le_length, wput_length;
      change (wsize MEMarketUpdate) with 34%nat; lia].
    by rewrite lget_lset, lset_lset.
Qed.

Lemma publish_update_spec ni ns net Q D us sl ms n b p k u :
  (Q → prompt net) → pub_rep ni ns net Q D (u :: us) sl ms n b p → (b ≤ 32)%nat →
  fits ns (sl ++ [mkMDPMarketUpdate n u]) = true →
  42 * Z.of_nat (S (length ms)) ≤ McastBufferSize →
  ∃ k' p', publish_update net k u p = Ok (k', p') ∧
    pub_rep ni ns net Q D us (sl ++ [mkMDPMarketUpdate n u]) (ms ++ [mkMDPMarketUpdate n u]) (u64 (n + 1)) 32 p'.
Proof.
  intros HQ [Ho Hs <- (runs & rest & Hc)] Hb Hfit Hroom. set (n := next_inc_seq_num_ p) in *.
  pose proof (carries_room _ _ _ _ _ _ _ _ Hc) as Hidx. set (s := incremental_socket_ p) in *.
  set (m := mkMDPMarketUpdate n u) in *. set (s1 := set_mc_send (send_buffer_ s ++ wput m) s).
  destruct (send_message n u p) as (s0 & E1 & E2).
  { fold s. lia. }
  fold s m s1 in E1, E2. unfold publish_update. rewrite bind_gets. fold n.
  rewrite (bind_Ok _ _ _ _ _ E1), (bind_Ok _ _ _ _ _ E2).
  assert (Hc1 : carries (lossless net) Q D (ms ++ [m]) (S b) s1 runs (rest ++ [m])) by (by apply carries_send).
  rewrite bind_gets. cbn [pub_snapshot_md_updates_ lset inc_socket].
  pose proof (push_fits m _ _ _ Hs) as Hp. rewrite Hfit in Hp. destruct Hp as (snap & Hpush & Hsnap).
  erewrite bind_Ok; [|unfold lift; fold m; rewrite Hpush; reflexivity]. cbv beta.
  rewrite bind_modify, bind_gets. cbn [pub_outgoing_md_updates_ set_pub_snapshot].
  destruct (pop_spec _ _ _ Ho) as (q & Hpop & Hq).
  erewrite bind_Ok; [|unfold lift; rewrite Hpop; reflexivity]. cbv beta.
  rewrite !bind_modify, bind_gets. cbn [incremental_socket_ set_pub_seq set_pub_outgoing set_pub_snapshot].
  change (Z.of_nat (wsize MDPMarketUpdate)) with 42.
  unfold next_send_valid_index_. rewrite (ca_buf _ _ _ _ _ _ _ _ Hc1), encode_length.
  case Z.ltb_spec; unfold MDP_FLUSH_THRESHOLD_BYTES; intros Hthr.
  - destruct (inc_sendAndRecv net k (set_pub_seq (u64 (n + 1)) (set_pub_outgoing q
      (set_pub_snapshot snap (lset inc_socket s1 p))))) as [bb Hsr].
    erewrite bind_Ok; [|exact Hsr]. eexists _, _. split; [reflexivity|]. split; [done..|].
    destruct (carries_flush _ _ _ _ _ _ _ _ (net k).1 (λ H, H k) (λ H, HQ H k) Hc1) as (runs' & rest' & Hc2 & _); [lia|].
    exists runs', rest'. apply carries_received. destruct Hc2 as [? ? ? ? Hs2]. split; try done.
    intros Hpr. destruct (Hs2 Hpr). split; [done|lia].
  - eexists _, _. split; [reflexivity|]. split; [done..|]. exists runs, (rest ++ [m]).
    destruct Hc1 as [? ? ? ? Hs2]. split; try done. intros Hpr. destruct (Hs2 Hpr). split; [done|].
    rewrite length_app in *. cbn in *. lia.
Qed.

Lemma drain_updates_spec ni ns net Q D us : ∀ fuel k sl ms n p,
  (Q → prompt net) → (length us ≤ fuel)%nat → pub_rep ni ns net Q D us sl ms n 32 p → is_u64 n →
  fits ns (sl ++ numbered_from n us) = true → 42 * Z.of_nat (length ms + length us) ≤ McastBufferSize →
  ∃ k' p', drain_updates fuel net k p = Ok (k', p') ∧
    pub_rep ni ns net Q D [] (sl ++ numbered_from n us) (ms ++ numbered_from n us) (u64 (n + Z.of_nat (length us))) 32 p'.
Proof.
  induction us as [|u us IH]; intros fuel k sl ms n p HQ Hf [Ho Hs Hn Hc] Hn64 Hfit Hroom;
    destruct (peek_spec _ _ _ Ho) as [Hpk Hq].
  - assert (E : drain_updates fuel net k p = Ok (k, set_pub_outgoing (peek (pub_outgoing_md_updates_ p)).2 p)).
    { destruct fuel; cbn [drain_updates]; rewrite bind_gets;
        destruct (peek (pub_outgoing_md_updates_ p)) as [x q]; cbn in Hpk; subst x; by rewrite bind_modify. }
    eexists _, _. split; [exact E|]. cbn [numbered_from length]. rewrite !app_nil_r, Z.add_0_r, u64_id by done.
    by split.
  - destruct fuel as [|fuel]; cbn [length] in *; [lia|]. cbn [drain_updates]. rewrite bind_gets.
    destruct (peek (pub_outgoing_md_updates_ p)) as [x q] eqn:Ep. cbn in Hpk, Hq. subst x.
    rewrite bind_modify. cbn [numbered_from] in *. set (m := mkMDPMarketUpdate n u) in *.
    assert (Hfit1 : fits ns (sl ++ [m]) = true).
    { destruct (fits ns (sl ++ [m])) eqn:E; [done|].
      pose proof (fits_app_l ns (sl ++ [m]) (numbered_from (u64 (n + 1)) us) E) as E2.
      rewrite <- (assoc (++)) in E2. cbn [app] in E2. congruence. }
    destruct (publish_update_spec ni ns net Q D us sl ms n 32 (set_pub_outgoing q p) k u) as (k1 & p1 & H1 & Hr1);
      [done|by split|lia|done|lia|].
    rewrite (bind_Ok _ _ _ _ _ H1).
    destruct (IH fuel k1 (sl ++ [m]) (ms ++ [m]) (u64 (n + 1)) p1) as (k2 & p2 & H2 & Hr2);
      [done|lia|done|auto with llx|by rewrite <- (assoc (++))|rewrite length_app; cbn [length]; lia|].
    exists k2, p2. split; [exact H2|]. rewrite <- !(assoc (++)) in Hr2.
    replace (u64 (n + Z.of_nat (S (length us)))) with (u64 (u64 (n + 1) + Z.of_nat (length us))); [exact Hr2|].
    unfold u64. rewrite Zplus_mod_idemp_l. f_equal. lia.
Qed.

(** One [poll], with the messages tracked. *)
Lemma pub_poll_spec ni ns net us sl ms n p :
  q_rep (pub_outgoing_md_updates_ p) ni us → q_rep (pub_snapshot_md_updates_ p) ns sl →
  next_inc_seq_num_ p = n → is_u64 n → send_buffer_ (incremental_socket_ p) = encode ms →
  fits ns (sl ++ numbered_from n us) = true → 42 * Z.of_nat (length ms + length us) ≤ McastBufferSize →
  ∃ p' runs rest, pub_poll net p = Ok (tt, p') ∧
    q_rep (pub_outgoing_md_updates_ p') ni [] ∧
    q_rep (pub_snapshot_md_updates_ p') ns (sl ++ numbered_from n us) ∧
    next_inc_seq_num_ p' = u64 (n + Z.of_nat (length us)) ∧
    carries (lossless net) (prompt net ∧ (length ms ≤ 32)%nat) (datagrams_ (incremental_socket_ p))
      (ms ++ numbered_from n us) 0 (incremental_socket_ p') runs rest.
Proof.
  intros Ho Hs Hn Hn64 Hbuf Hfit Hroom. set (D := datagrams_ (incremental_socket_ p)).
  set (Q := prompt net ∧ (length ms ≤ 32)%nat). assert (HQ : Q → prompt net) by (by intros []).
  assert (Hrep : pub_rep ni ns net Q D us sl ms n 32 p).
  { split; [done..|]. exists [], ms. split; cbn; [by rewrite app_nil_r|done|done|done|].
    intros [_ Hms]. split; [constructor|done]. }
  assert (Hcap : (length us ≤ Z.to_nat (capacity (pub_outgoing_md_updates_ p)))%nat).
  { pose proof (q_rep_length _ _ _ Ho). lia. }
  destruct (drain_updates_spec ni ns net Q D us _ 0 sl ms n p HQ Hcap Hrep Hn64 Hfit Hroom)
    as (k & p1 & H1 & [Ho1 Hs1 Hn1 (runs & rest & Hc1)]).
  destruct (inc_sendAndRecv net k p1) as [b Hsr].
  destruct (carries_flush _ _ _ _ _ _ _ _ (net k).1 (λ H, H k) (λ H, HQ H k) Hc1) as (runs' & rest' & Hc2 & _); [lia|].
  apply (carries_received _ _ _ _ _ _ _ _ (net k).2) in Hc2.
  exists (lset inc_socket (filled (net k).2 (flushed (net k).1 (incremental_socket_ p1))) p1), runs', rest'.
  split_and!; [|exact Ho1|exact Hs1|exact Hn1|exact Hc2]. unfold pub_poll. rewrite bind_gets, (bind_Ok _ _ _ _ _ H1). cbv beta. by rewrite (bind_Ok _ _ _ _ _ Hsr).
Qed.

(** C25: what the publisher puts on the wire.  With [us] in the engine's
    queue, room for them in the snapshot queue and in the send buffer (which
    may hold messages a busy kernel refused before), one [poll] ends with the
    engine's queue empty and every update numbered_from consecutively and forwarded
    to the snapshot synthesizer in order.  Whatever the kernel answers, every
    new datagram is a run of whole messages and no message is sent twice or
    out of order; if no send fails outright, datagrams and buffer hold exactly
    those messages; if the kernel takes every datagram, none stays behind and
    none exceeds [MDP_FLUSH_THRESHOLD_BYTES], one Ethernet MTU. *)
Theorem poll_publishes ni ns net us sl ms n p :
  q_rep (pub_outgoing_md_updates_ p) ni us → q_rep (pub_snapshot_md_updates_ p) ns sl →
  next_inc_seq_num_ p = n → is_u64 n → send_buffer_ (incremental_socket_ p) = encode ms →
  fits ns (sl ++ numbered_from n us) = true → 42 * Z.of_nat (length ms + length us) ≤ McastBufferSize →
  ∃ p' runs rest, pub_poll net p = Ok (tt, p') ∧
    q_rep (pub_outgoing_md_updates_ p') ni [] ∧
    q_rep (pub_snapshot_md_updates_ p') ns (sl ++ numbered_from n us) ∧
    next_inc_seq_num_ p' = u64 (n + Z.of_nat (length us)) ∧
    datagrams_ (incremental_socket_ p') = datagrams_ (incremental_socket_ p) ++ (encode <$> runs) ∧
    send_buffer_ (incremental_socket_ p') = encode rest ∧
    mjoin runs ++ rest `sublist_of` ms ++ numbered_from n us ∧
    (lossless net → mjoin runs ++ rest = ms ++ numbered_from n us) ∧
    (prompt net → (length ms ≤ 32)%nat →
       rest = [] ∧ Forall (λ d, Z.of_nat (length (encode d)) ≤ MDP_FLUSH_THRESHOLD_BYTES) runs).
Proof.
  intros Ho Hs Hn Hn64 Hbuf Hfit Hroom.
  destruct (pub_poll_spec ni ns net us sl ms n p Ho Hs Hn Hn64 Hbuf Hfit Hroom)
    as (p' & runs & rest & H1 & Ho' & Hs' & Hn' & [Hw Hb Hsub Hall Hsz]).
  exists p', runs, rest. split_and!; try done. intros Hp Hms. destruct (Hsz (conj Hp Hms)) as [Hf Hr].
  split; [by destruct rest; cbn in *; [|lia]|]. eapply Forall_impl; [exact Hf|]. intros r Hr33. cbn in Hr33.
  rewrite encode_length. unfold MDP_FLUSH_THRESHOLD_BYTES. lia.
Qed.
End publish.

(** ** A busy kernel *)

(** [n] updates in the engine's queue, a socket just opened. *)
Definition loaded_publisher (n : nat) : res MarketDataPublisher :=
  q ← LFQueue_new (Z.of_nat n + 1); q ← push_all (replicate n inhabitant) q;
  @MarketDataPublisher_new small_footprint_profile q 3.

(** Refuse the first datagram, take the others. *)
Definition busy_once (k : nat) : SendResult * RecvResult :=
  (match k with O => SendWouldBlock | _ => Sent 0 end, RecvWouldBlock).

(** The sizes of the datagrams one [poll] of [n] updates sends. *)
Definition datagram_sizes (net : nat → SendResult * RecvResult) (n : nat) : res (list nat) :=
  p ← loaded_publisher n;
  '(_, p) ← @pub_poll net_small_footprint net p;
  mret (length <$> datagrams_ (incremental_socket_ p)).

(** The flush threshold is no bound on datagrams.  34 updates leave in two
    datagrams within it when the kernel takes both; if it refuses the first
    once ([EWOULDBLOCK]), the batch is kept and sent with the next message as
    one datagram of 1428 bytes, which is fragmented on Ethernet.  Nothing
    bounds how far a refused batch can grow. *)
Theorem busy_kernel_exceeds_mtu :
  datagram_sizes (λ _, (Sent 0, RecvWouldBlock)) 34 = Ok [1386; 42]%nat ∧
  datagram_sizes busy_once 34 = Ok [1428]%nat ∧ MDP_FLUSH_THRESHOLD_BYTES < 1428.
Proof. split_and!; vm_compute; reflexivity. Qed.
