(* ===== verification/MarketDataConsumer.v ===== *)
(** Trading::MarketDataConsumer
    (trading/market_data/market_data_consumer.h and .cpp): the client's end of
    the feed.  Incremental updates are published downstream in sequence; a
    gap starts a recovery that buffers them until a complete cycle of the
    snapshot stream has been replayed.

    [out_of_order_buf_] ([std::map]) is the list of its entries in key order.
    [created] and [joined] are what the socket calls of [init] return when the
    snapshot group is joined; [stale] is what the receive buffers hold past
    their valid bytes. *)

From S2P Require Import Prelude Types Wire Framing LFQueue Sockets McastSocket.

Record MarketDataConsumer := mkMarketDataConsumer {
  mdc_outgoing_md_updates_ : LFQueue MEMarketUpdate;
  mdc_incremental_socket_ : McastSocket;
  mdc_snapshot_socket_ : McastSocket;
  next_exp_inc_seq_num_ : Z;
  in_recovery_ : bool;
  out_of_order_buf_ : list (Z * MEMarketUpdate);
  snapshot_armed_ : bool;
  in_snapshot_ : bool;
  snapshot_last_seen_ : Z;
  pending_last_inc_seq_ : Z;
}.

Definition set_mdc_queue v c : MarketDataConsumer := mkMarketDataConsumer v
  (mdc_incremental_socket_ c) (mdc_snapshot_socket_ c) (next_exp_inc_seq_num_ c) (in_recovery_ c)
  (out_of_order_buf_ c) (snapshot_armed_ c) (in_snapshot_ c) (snapshot_last_seen_ c) (pending_last_inc_seq_ c).
Definition set_next v c : MarketDataConsumer := mkMarketDataConsumer (mdc_outgoing_md_updates_ c)
  (mdc_incremental_socket_ c) (mdc_snapshot_socket_ c) v (in_recovery_ c)
  (out_of_order_buf_ c) (snapshot_armed_ c) (in_snapshot_ c) (snapshot_last_seen_ c) (pending_last_inc_seq_ c).
Definition set_in_recovery v c : MarketDataConsumer := mkMarketDataConsumer (mdc_outgoing_md_updates_ c)
  (mdc_incremental_socket_ c) (mdc_snapshot_socket_ c) (next_exp_inc_seq_num_ c) v
  (out_of_order_buf_ c) (snapshot_armed_ c) (in_snapshot_ c) (snapshot_last_seen_ c) (pending_last_inc_seq_ c).
Definition set_buf v c : MarketDataConsumer := mkMarketDataConsumer (mdc_outgoing_md_updates_ c)
  (mdc_incremental_socket_ c) (mdc_snapshot_socket_ c) (next_exp_inc_seq_num_ c) (in_recovery_ c)
  v (snapshot_armed_ c) (in_snapshot_ c) (snapshot_last_seen_ c) (pending_last_inc_seq_ c).
Definition set_armed v c : MarketDataConsumer := mkMarketDataConsumer (mdc_outgoing_md_updates_ c)
  (mdc_incremental_socket_ c) (mdc_snapshot_socket_ c) (next_exp_inc_seq_num_ c) (in_recovery_ c)
  (out_of_order_buf_ c) v (in_snapshot_ c) (snapshot_last_seen_ c) (pending_last_inc_seq_ c).
Definition set_in_snapshot v c : MarketDataConsumer := mkMarketDataConsumer (mdc_outgoing_md_updates_ c)
  (mdc_incremental_socket_ c) (mdc_snapshot_socket_ c) (next_exp_inc_seq_num_ c) (in_recovery_ c)
  (out_of_order_buf_ c) (snapshot_armed_ c) v (snapshot_last_seen_ c) (pending_last_inc_seq_ c).
Definition set_last_seen v c : MarketDataConsumer := mkMarketDataConsumer (mdc_outgoing_md_updates_ c)
  (mdc_incremental_socket_ c) (mdc_snapshot_socket_ c) (next_exp_inc_seq_num_ c) (in_recovery_ c)
  (out_of_order_buf_ c) (snapshot_armed_ c) (in_snapshot_ c) v (pending_last_inc_seq_ c).
Definition set_pending v c : MarketDataConsumer := mkMarketDataConsumer (mdc_outgoing_md_updates_ c)
  (mdc_incremental_socket_ c) (mdc_snapshot_socket_ c) (next_exp_inc_seq_num_ c) (in_recovery_ c)
  (out_of_order_buf_ c) (snapshot_armed_ c) (in_snapshot_ c) (snapshot_last_seen_ c) v.

Definition incremental_sock : lens MarketDataConsumer McastSocket :=
  Lens mdc_incremental_socket_ (λ v c, mkMarketDataConsumer (mdc_outgoing_md_updates_ c)
    v (mdc_snapshot_socket_ c) (next_exp_inc_seq_num_ c) (in_recovery_ c) (out_of_order_buf_ c)
    (snapshot_armed_ c) (in_snapshot_ c) (snapshot_last_seen_ c) (pending_last_inc_seq_ c)).
Definition snapshot_sock : lens MarketDataConsumer McastSocket :=
  Lens mdc_snapshot_socket_ (λ v c, mkMarketDataConsumer (mdc_outgoing_md_updates_ c)
    (mdc_incremental_socket_ c) v (next_exp_inc_seq_num_ c) (in_recovery_ c) (out_of_order_buf_ c)
    (snapshot_armed_ c) (in_snapshot_ c) (snapshot_last_seen_ c) (pending_last_inc_seq_ c)).
#[export] Instance incremental_sock_ok : LensOk incremental_sock.
Proof. split; [done|by intros []|done]. Qed.
#[export] Instance snapshot_sock_ok : LensOk snapshot_sock.
Proof. split; [done|by intros []|done]. Qed.

(** [m[k] = v] on a [std::map]. *)
Fixpoint map_assign {A} (k : Z) (v : A) (l : list (Z * A)) : list (Z * A) :=
  match l with
  | [] => [(k, v)]
  | (k', v') :: l' =>
      if k <? k' then (k, v) :: l
      else if k =? k' then (k, v) :: l'
      else (k', v') :: map_assign k v l'
  end.

Section MarketDataConsumer.
Context `{NetConfig} (created : Z) (joined : bool).
Local Abbreviation MD := (M MarketDataConsumer).
Implicit Types (c : MarketDataConsumer) (msg : MDPMarketUpdate) (u : MEMarketUpdate).

(** The constructor: only the incremental group is joined. *)
Definition MarketDataConsumer_new (incoming_md_updates : LFQueue MEMarketUpdate) : res MarketDataConsumer :=
  match mc_init created joined true McastSocket_new with
  | Err f => Err f
  | Ok (fd, s) =>
      if 0 <=? fd then
        Ok (mkMarketDataConsumer incoming_md_updates s McastSocket_new 1 false [] false false 0 0)
      else Err (Fatal "MDC incremental socket init failed")
  end.

Definition publishDownstream u : MD unit :=
  q ← gets mdc_outgoing_md_updates_; q ← lift (push u q); modify (set_mdc_queue q).

(** [++next_exp_inc_seq_num_]. *)
Definition bump_next : MD unit := modify (λ c, set_next (u64 (next_exp_inc_seq_num_ c + 1)) c).

Definition startRecovery : MD unit :=
  in_recovery ← gets in_recovery_;
  if (in_recovery : bool) then mret tt
  else
    modify (set_in_recovery true);;
    modify (set_armed false);;
    modify (set_in_snapshot false);;
    modify (set_last_seen 0);;
    fd ← zoom snapshot_sock (mc_init created joined true);
    ASSERT (0 <=? fd) "MDC snapshot socket init failed".

(** The loop of [processIncremental]: publish the buffered messages that have
    become contiguous. *)
Fixpoint drain_contiguous (fuel : nat) : MD unit :=
  buf ← gets out_of_order_buf_;
  next ← gets next_exp_inc_seq_num_;
  match buf with
  | (k, u) :: buf =>
      if k =? next then
        match fuel with
        | O => fail Spin
        | S fuel => publishDownstream u;; modify (set_buf buf);; bump_next;; drain_contiguous fuel
        end
      else mret tt
  | [] => mret tt
  end.

Definition processIncremental msg : MD unit :=
  let seq := md_seq_num_ msg in
  in_recovery ← gets in_recovery_;
  if (in_recovery : bool) then
    modify (λ c, set_buf (map_assign seq (me_market_update_ msg) (out_of_order_buf_ c)) c)
  else
    next ← gets next_exp_inc_seq_num_;
    if seq =? next then
      publishDownstream (me_market_update_ msg);;
      bump_next;;
      fuel ← gets (λ c, length (out_of_order_buf_ c));
      drain_contiguous fuel
    else if seq <? next then mret tt
    else
      modify (λ c, set_buf (map_assign seq (me_market_update_ msg) (out_of_order_buf_ c)) c);;
      startRecovery.

(** The loop of [finishRecovery].  [it] stays at the first entry: every entry
    it leaves has been erased. *)
Fixpoint replay_buffer (fuel : nat) : MD unit :=
  buf ← gets out_of_order_buf_;
  next ← gets next_exp_inc_seq_num_;
  match buf with
  | [] => mret tt
  | (k, u) :: buf =>
      match fuel with
      | O => fail Spin
      | S fuel =>
          if k <? next then modify (set_buf buf);; replay_buffer fuel
          else if k =? next then
            publishDownstream u;; bump_next;; modify (set_buf buf);; replay_buffer fuel
          else mret tt
      end
  end.

Definition finishRecovery (last_inc_seq_num : Z) : MD unit :=
  modify (set_next (u64 (last_inc_seq_num + 1)));;
  fuel ← gets (λ c, length (out_of_order_buf_ c));
  replay_buffer fuel;;
  zoom snapshot_sock mc_destroy;;
  modify (set_armed false);;
  modify (set_in_snapshot false);;
  modify (set_in_recovery false).

Definition processSnapshot msg : MD unit :=
  in_recovery ← gets in_recovery_;
  if negb in_recovery then mret tt
  else
    let seq := md_seq_num_ msg in
    last_seen ← gets snapshot_last_seen_;
    let next_in_cycle := seq =? u64 (last_seen + 1) in
    match mu_type_ (me_market_update_ msg) with
    | MarketUpdateType.CLEAR =>
        modify (set_in_snapshot false);;
        modify (set_armed true);;
        modify (set_last_seen seq);;
        publishDownstream (me_market_update_ msg)
    | MarketUpdateType.SNAPSHOT_START =>
        armed ← gets snapshot_armed_;
        (if armed && next_in_cycle then modify (set_in_snapshot true);; modify (set_last_seen seq)
         else modify (set_in_snapshot false));;
        modify (set_armed false)
    | MarketUpdateType.ADD =>
        in_snapshot ← gets in_snapshot_;
        if (in_snapshot : bool) then
          if next_in_cycle then
            publishDownstream (me_market_update_ msg);; modify (set_last_seen seq)
          else modify (set_in_snapshot false)
        else mret tt
    | MarketUpdateType.SNAPSHOT_END =>
        in_snapshot ← gets in_snapshot_;
        if (in_snapshot : bool) then
          if next_in_cycle then
            modify (set_last_seen seq);;
            modify (set_pending (mu_order_id_ (me_market_update_ msg)));;
            pending ← gets pending_last_inc_seq_;
            finishRecovery pending
          else modify (set_in_snapshot false)
        else mret tt
    | _ => mret tt
    end.

(** The receive loops of [recvIncremental] and [recvSnapshot], from [offset].
    The test subtracts in [size_t]; a message is copied from the buffer
    whatever the valid index says, but never from past its end. *)
Fixpoint recv_messages (fuel : nat) (sock : lens MarketDataConsumer McastSocket)
  (stale : Z → MDPMarketUpdate) (process : MDPMarketUpdate → MD unit) (offset : Z) : MD Z :=
  idx ← gets (λ c, next_rcv_valid_index_ (lget sock c));
  let n := Z.of_nat (wsize MDPMarketUpdate) in
  if u64 (idx - offset) <? n then mret offset
  else match fuel with
       | O => fail Spin
       | S fuel =>
           if McastBufferSize <? offset + n then fail (UB "memcpy from past rcv_buffer_")
           else
             buf ← gets (λ c, rcv_buffer_ (lget sock c));
             process (if offset + n <=? idx then wget (drop (Z.to_nat offset) buf) else stale offset);;
             recv_messages fuel sock stale process (offset + n)
       end.

Definition recv_and_compact (sock : lens MarketDataConsumer McastSocket)
  (stale : Z → MDPMarketUpdate) (process : MDPMarketUpdate → MD unit) : MD unit :=
  offset ← recv_messages (Z.to_nat McastBufferSize) sock stale process 0;
  if 0 <? offset then
    zoom sock (modify (λ s, set_mc_rcv (drop (Z.to_nat offset) (rcv_buffer_ s)) s))
  else mret tt.

Definition recvIncremental (stale : Z → MDPMarketUpdate) : MD unit :=
  recv_and_compact incremental_sock stale processIncremental.
Definition recvSnapshot (stale : Z → MDPMarketUpdate) : MD unit :=
  recv_and_compact snapshot_sock stale processSnapshot.

(** One turn of [run]: [inc] and [snap] are the kernel's answers on the two
    sockets. *)
Definition mdc_run_once (stale : Z → MDPMarketUpdate) (inc snap : SendResult * RecvResult) : MD unit :=
  mc_sendAndRecv incremental_sock (Some (recvIncremental stale)) inc.1 inc.2;;
  in_recovery ← gets in_recovery_;
  if (in_recovery : bool) then
    mc_sendAndRecv snapshot_sock (Some (recvSnapshot stale)) snap.1 snap.2;; mret tt
  else mret tt.
End MarketDataConsumer.
