(* ===== verification/MarketDataConsumerProps.v ===== *)
(** The consumer follows the feed.

    [feed n] is the update the exchange publishes under sequence number [n],
    [snap s] what its snapshot stream carries under [s]; a downstream reader
    is any state [B] with a [step] function.  The network may lose, duplicate
    and reorder at will: a session is any list of deliveries.  The invariant
    [follows] says what the published updates add up to in each mode. *)

From S2P Require Import Prelude Types Wire Framing LFQueue Sockets McastSocket MarketDataConsumer.

(** ** The reorder buffer *)

Definition keys_sorted {A} (l : list (Z * A)) : Prop := StronglySorted Z.lt l.*1.

Lemma map_assign_elem {A} k (v : A) l x : x ∈ map_assign k v l → x = (k, v) ∨ x ∈ l.
Proof.
  induction l as [|[k' v'] l IH]; cbn [map_assign]; [rewrite list_elem_of_singleton; by left|].
  case Z.ltb_spec; [|case Z.eqb_spec]; rewrite !elem_of_cons; naive_solver.
Qed.

Lemma map_assign_sorted {A} k (v : A) l : keys_sorted l → keys_sorted (map_assign k v l).
Proof.
  unfold keys_sorted. induction l as [|[k' v'] l IH]; cbn [map_assign fmap list_fmap fst].
  - intros _. repeat constructor.
  - intros [Hl Hf]%StronglySorted_inv. case Z.ltb_spec; [|case Z.eqb_spec]; intros Hk; cbn [fmap list_fmap fst].
    + constructor; [by constructor|]. constructor; [done|]. eapply Forall_impl; [exact Hf|]. cbn. lia.
    + subst. by constructor.
    + intros Hge. constructor; [by apply IH|]. apply Forall_forall. intros j Hj.
      apply list_elem_of_fmap in Hj as ([j' w] & -> & Hj). apply map_assign_elem in Hj as [Hj|Hj].
      * simplify_eq. cbn. lia.
      * rewrite Forall_forall in Hf. apply Hf. by apply (list_elem_of_fmap_2 fst) in Hj.
Qed.

Lemma map_assign_length {A} k (v : A) l : (length (map_assign k v l) ≤ S (length l))%nat.
Proof.
  induction l as [|[k' v'] l IH]; cbn [map_assign length]; [done|].
  case Z.ltb_spec; [|case Z.eqb_spec]; cbn [length]; lia.
Qed.

(** Going through the buffer from [next]: stale entries are dropped, contiguous
    ones published, the rest kept; with the sequence number reached. *)
Fixpoint replayed (next : Z) (buf : list (Z * MEMarketUpdate)) : list MEMarketUpdate * Z * list (Z * MEMarketUpdate) :=
  match buf with
  | (k, u) :: rest =>
      if k <? next then replayed next rest
      else if k =? next then
        let '(us, n, b) := replayed (u64 (next + 1)) rest in (u :: us, n, b)
      else ([], next, buf)
  | [] => ([], next, [])
  end.

(** Sequence numbers stay below the top of their type, so that counters do not
    wrap. *)
Definition seq_ok (k : Z) : Prop := 1 ≤ k < 2 ^ 64 - 1.

Section consumer.
Context `{NCfg : NetConfig} (created : Z) (joined : bool).
Implicit Types (c : MarketDataConsumer) (u : MEMarketUpdate) (out : list MEMarketUpdate).

(** *** The loops are these functions *)

Lemma publishDownstream_spec u c n out :
  q_rep (mdc_outgoing_md_updates_ c) n out → fits n (out ++ [u]) = true →
  ∃ q, publishDownstream u c = Ok (tt, set_mdc_queue q c) ∧ q_rep q n (out ++ [u]).
Proof.
  intros Hq Hf. pose proof (push_fits u _ _ _ Hq) as Hp. rewrite Hf in Hp. destruct Hp as (q & Hp & Hr).
  exists q. split; [|done]. unfold publishDownstream. rewrite bind_gets.
  erewrite bind_Ok; [|unfold lift; rewrite Hp; reflexivity]. done.
Qed.

Lemma fits_cons_app n (out us : list MEMarketUpdate) u :
  fits n (out ++ u :: us) = true → fits n (out ++ [u]) = true ∧ fits n ((out ++ [u]) ++ us) = true.
Proof.
  rewrite <- (assoc (++)). intros Hf. split; [|done].
  destruct (fits n (out ++ [u])) eqn:E; [done|].
  apply (fits_app_l n _ us) in E. rewrite <- (assoc (++)) in E. cbn [app] in E. congruence.
Qed.

(** The state after publishing [us]: only queue, counter and buffer change. *)
Definition advanced q next buf c : MarketDataConsumer := set_buf buf (set_next next (set_mdc_queue q c)).

Lemma drain_contiguous_spec buf : ∀ fuel c n out us next' rest,
  (length buf ≤ fuel)%nat → out_of_order_buf_ c = buf → keys_sorted buf →
  Forall (λ e, seq_ok e.1 ∧ next_exp_inc_seq_num_ c ≤ e.1) buf →
  replayed (next_exp_inc_seq_num_ c) buf = (us, next', rest) →
  q_rep (mdc_outgoing_md_updates_ c) n out → fits n (out ++ us) = true →
  ∃ q, drain_contiguous fuel c = Ok (tt, advanced q next' rest c) ∧ q_rep q n (out ++ us).
Proof.
  induction buf as [|[k u] buf IH]; intros fuel c n out us next' rest Hf Hb Hs Hk Hc Hq Hfit.
  - cbn in Hc. simplify_eq. exists (mdc_outgoing_md_updates_ c). rewrite app_nil_r. split; [|done].
    destruct fuel; cbn [drain_contiguous]; rewrite !bind_gets, Hb; by destruct c; cbn in Hb; subst.
  - cbn [replayed] in Hc. apply Forall_cons in Hk as [[Hok Hle] Hk]. cbn [fst] in Hok, Hle.
    unfold keys_sorted in Hs. rewrite fmap_cons in Hs. apply StronglySorted_cons in Hs as [Hlt Hs].
    rewrite (proj2 (Z.ltb_ge _ _)) in Hc by lia.
    destruct (k =? next_exp_inc_seq_num_ c) eqn:E.
    + apply Z.eqb_eq in E. unfold seq_ok in Hok.
      destruct fuel as [|fuel]; [cbn in Hf; lia|]. cbn [length] in Hf.
      destruct (replayed (u64 (next_exp_inc_seq_num_ c + 1)) buf) as [[us1 n1] r1] eqn:E1. injection Hc as <- <- <-.
      apply fits_cons_app in Hfit as [Hf1 Hf2].
      destruct (publishDownstream_spec u c n out Hq Hf1) as (q & Hp & Hq1).
      edestruct (IH fuel (advanced q (u64 (next_exp_inc_seq_num_ c + 1)) buf c)) as (q2 & H2 & Hq2);
        [lia|reflexivity|exact Hs| |exact E1|exact Hq1|exact Hf2|].
      { cbn. rewrite u64_id by (unfold is_u64; lia). rewrite Forall_fmap in Hlt.
        rewrite Forall_forall in *. intros e He. specialize (Hk e He). specialize (Hlt e He).
        cbn in Hlt. split; [apply Hk|lia]. }
      exists q2. rewrite <- (assoc (++)) in Hq2. split; [|exact Hq2].
      cbn [drain_contiguous]. rewrite !bind_gets, Hb, (proj2 (Z.eqb_eq _ _) E), (bind_Ok _ _ _ _ _ Hp).
      unfold bump_next. rewrite !bind_modify. exact H2.
    + simplify_eq. exists (mdc_outgoing_md_updates_ c). rewrite app_nil_r. split; [|done].
      assert (Hskip : drain_contiguous fuel c = Ok (tt, c)).
      { destruct fuel; cbn [drain_contiguous]; rewrite !bind_gets, Hb, E; done. }
      rewrite Hskip. unfold advanced. rewrite <- Hb. by destruct c.
Qed.

Lemma replay_buffer_spec buf : ∀ fuel c n out us next' rest,
  (length buf ≤ fuel)%nat → out_of_order_buf_ c = buf →
  replayed (next_exp_inc_seq_num_ c) buf = (us, next', rest) →
  q_rep (mdc_outgoing_md_updates_ c) n out → fits n (out ++ us) = true →
  ∃ q, replay_buffer fuel c = Ok (tt, advanced q next' rest c) ∧ q_rep q n (out ++ us).
Proof.
  induction buf as [|[k u] buf IH]; intros fuel c n out us next' rest Hf Hb Hc Hq Hfit.
  - cbn in Hc. simplify_eq. exists (mdc_outgoing_md_updates_ c). rewrite app_nil_r. split; [|done].
    destruct fuel; cbn [replay_buffer]; rewrite !bind_gets, Hb; by destruct c; cbn in Hb; subst.
  - cbn [replayed] in Hc. destruct fuel as [|fuel]; [cbn in Hf; lia|]. cbn [length] in Hf.
    destruct (k <? next_exp_inc_seq_num_ c) eqn:El; [|destruct (k =? next_exp_inc_seq_num_ c) eqn:E].
    + edestruct (IH fuel (set_buf buf c)) as (q & H2 & Hq2); [lia|done|exact Hc|exact Hq|exact Hfit|].
      exists q. split; [|done]. cbn [replay_buffer]. by rewrite !bind_gets, Hb, El, bind_modify.
    + destruct (replayed (u64 (next_exp_inc_seq_num_ c + 1)) buf) as [[us1 n1] r1] eqn:E1. injection Hc as <- <- <-.
      apply fits_cons_app in Hfit as [Hf1 Hf2].
      destruct (publishDownstream_spec u c n out Hq Hf1) as (q & Hp & Hq1).
      edestruct (IH fuel (advanced q (u64 (next_exp_inc_seq_num_ c + 1)) buf c)) as (q2 & H2 & Hq2);
        [lia|reflexivity|exact E1|exact Hq1|exact Hf2|].
      exists q2. rewrite <- (assoc (++)) in Hq2. split; [|exact Hq2].
      cbn [replay_buffer]. rewrite !bind_gets, Hb, El, E, (bind_Ok _ _ _ _ _ Hp).
      unfold bump_next. rewrite !bind_modify. exact H2.
    + simplify_eq. exists (mdc_outgoing_md_updates_ c). rewrite app_nil_r. split; [|done].
      cbn [replay_buffer]. rewrite !bind_gets, Hb, El, E. unfold advanced. rewrite <- Hb. by destruct c.
Qed.

(** The state after a completed recovery. *)
Definition recovered q next buf c : MarketDataConsumer :=
  set_in_recovery false (set_in_snapshot false (set_armed false
    (lset snapshot_sock (set_mc_rcv [] (set_mc_send []
      (let s := mdc_snapshot_socket_ c in if 0 <=? fd_ s then set_mc_fd (-1) s else s)))
      (advanced q next buf c)))).

Lemma finishRecovery_spec last c n out us next' rest :
  replayed (u64 (last + 1)) (out_of_order_buf_ c) = (us, next', rest) →
  q_rep (mdc_outgoing_md_updates_ c) n out → fits n (out ++ us) = true →
  ∃ q, finishRecovery last c = Ok (tt, recovered q next' rest c) ∧ q_rep q n (out ++ us).
Proof.
  intros Hr Hq Hfit. unfold finishRecovery. rewrite bind_modify, bind_gets.
  destruct (replay_buffer_spec (out_of_order_buf_ c) (length (out_of_order_buf_ c)) (set_next (u64 (last + 1)) c)
    n out us next' rest) as (q & H1 & Hq1); [lia|done|done|done|done|].
  exists q. split; [|done]. cbn [out_of_order_buf_ set_next]. rewrite (bind_Ok _ _ _ _ _ H1).
  erewrite bind_Ok; [|apply zoom_Ok; reflexivity]. by rewrite !bind_modify.
Qed.
End consumer.

(** ** Sessions *)

Section session.
Context `{NCfg : NetConfig} (created : Z) (joined : bool).
Context {B : Type} (step : MEMarketUpdate → B → B) (b0 : B) (feed snap : Z → MEMarketUpdate).
(** The last sequence number of the feed. *)
Context (top : Z).
Implicit Types (c : MarketDataConsumer) (u : MEMarketUpdate) (out us : list MEMarketUpdate) (b : B).

Definition apply us b : B := foldl (λ b u, step u b) b us.
(** The reader after the first [n] updates. *)
Definition after (n : Z) : B := apply (feed <$> seqZ 1 n) b0.

(** CLEAR at [s], SNAPSHOT_START, then ADDs up to [e]; what it publishes. *)
Definition cycle_upto (s e : Z) : Prop :=
  mu_type_ (snap s) = MarketUpdateType.CLEAR ∧ mu_type_ (snap (s + 1)) = MarketUpdateType.SNAPSHOT_START ∧
  1 ≤ s ∧ s + 1 ≤ e ∧ ∀ i, s + 1 < i ≤ e → mu_type_ (snap i) = MarketUpdateType.ADD.
Definition image (s e : Z) : list MEMarketUpdate := snap s :: (snap <$> seqZ (s + 2) (e - (s + 1))).

Arguments image : simpl never.
Arguments apply : simpl never.

Definition inc_ok (n : Z) : Prop := 1 ≤ n ≤ top.

(** What the exchange promises of its snapshot stream: a CLEAR resets the
    reader, and a cycle closed by a SNAPSHOT_END that carries [n] rebuilds the
    state after [n] updates. *)
Record stream_ok : Prop := {
  so_top : 0 ≤ top < 2 ^ 64 - 1;
  so_clear : ∀ s us, mu_type_ (snap s) = MarketUpdateType.CLEAR → step (snap s) (apply us b0) = step (snap s) b0;
  so_cycle : ∀ s e, cycle_upto s e → mu_type_ (snap (e + 1)) = MarketUpdateType.SNAPSHOT_END →
    let n := mu_order_id_ (snap (e + 1)) in
    0 ≤ n ≤ top ∧ apply (image s e) b0 = after n;
}.

Inductive delivery := Inc (n : Z) | Snap (s : Z).
Definition deliver (d : delivery) : M MarketDataConsumer unit :=
  match d with
  | Inc n => processIncremental created joined (mkMDPMarketUpdate n (feed n))
  | Snap s => processSnapshot (mkMDPMarketUpdate s (snap s))
  end.
Definition delivery_ok (d : delivery) : Prop := match d with Inc n => inc_ok n | Snap s => seq_ok s end.

(** The invariant: queue of [n] slots, [out] published, at most [K] messages
    published or buffered. *)
Record follows (n : Z) (K : nat) out c : Prop := {
  fo_queue : q_rep (mdc_outgoing_md_updates_ c) n out;
  fo_sorted : keys_sorted (out_of_order_buf_ c);
  fo_buf : Forall (λ e, inc_ok e.1 ∧ e.2 = feed e.1) (out_of_order_buf_ c);
  fo_next : 1 ≤ next_exp_inc_seq_num_ c ≤ top + 1;
  fo_count : (length out + length (out_of_order_buf_ c) ≤ K)%nat;
  fo_excl : in_snapshot_ c = true → snapshot_armed_ c = false;
  fo_live : in_recovery_ c = false →
    apply out b0 = after (next_exp_inc_seq_num_ c - 1) ∧
    Forall (λ e, next_exp_inc_seq_num_ c < e.1) (out_of_order_buf_ c);
  fo_armed : in_recovery_ c = true → snapshot_armed_ c = true →
    seq_ok (snapshot_last_seen_ c) ∧ mu_type_ (snap (snapshot_last_seen_ c)) = MarketUpdateType.CLEAR ∧
    apply out b0 = step (snap (snapshot_last_seen_ c)) b0;
  fo_cycle : in_recovery_ c = true → in_snapshot_ c = true →
    seq_ok (snapshot_last_seen_ c) ∧ ∃ s, cycle_upto s (snapshot_last_seen_ c) ∧
      apply out b0 = apply (image s (snapshot_last_seen_ c)) b0;
}.

Lemma apply_app us us' b : apply (us ++ us') b = apply us' (apply us b).
Proof. apply foldl_app. Qed.

Lemma after_app k n : 0 ≤ k → 0 ≤ n → apply (feed <$> seqZ (k + 1) n) (after k) = after (k + n).
Proof.
  intros Hk Hn. unfold after. rewrite <- apply_app, <- fmap_app. f_equal. f_equal.
  rewrite (Z.add_comm k 1). by rewrite <- seqZ_app by lia.
Qed.

Lemma after_S k : 0 ≤ k → step (feed (k + 1)) (after k) = after (k + 1).
Proof. intros Hk. by rewrite <- (after_app k 1) by lia. Qed.

Lemma replayed_spec buf : ∀ next us next' rest,
  0 ≤ top < 2 ^ 64 - 1 → 1 ≤ next ≤ top + 1 → keys_sorted buf → Forall (λ e, inc_ok e.1 ∧ e.2 = feed e.1) buf →
  replayed next buf = (us, next', rest) →
  next ≤ next' ≤ top + 1 ∧ us = feed <$> seqZ next (next' - next) ∧
  Forall (λ e, next' < e.1) rest ∧ keys_sorted rest ∧ Forall (λ e, inc_ok e.1 ∧ e.2 = feed e.1) rest ∧
  (length us + length rest ≤ length buf)%nat.
Proof.
  induction buf as [|[k u] buf IH]; intros next us next' rest HT Hn Hs Hf E; cbn [replayed] in E.
  - injection E as <- <- <-. rewrite Z.sub_diag. split_and!; try done; try lia.
  - pose proof Hs as Hs0. pose proof Hf as Hf0.
    unfold keys_sorted in Hs. rewrite fmap_cons in Hs. apply StronglySorted_cons in Hs as [Hlt Hs].
    apply Forall_cons in Hf as [[Hok Hu] Hf]. cbn [fst snd] in *. unfold inc_ok in Hok.
    revert E. case Z.ltb_spec; [|case Z.eqb_spec]; intros Hk.
    + intros E. destruct (IH _ _ _ _ HT Hn Hs Hf E) as (? & ? & ? & ? & ? & ?). split_and!; try done; cbn; lia.
    + subst k. destruct (replayed (u64 (next + 1)) buf) as [[us1 n1] r1] eqn:E1. intros _ E.
      injection E as <- <- <-. rewrite u64_id in E1 by (unfold is_u64; lia).
      destruct (IH (next + 1) us1 n1 r1) as (Hn1 & -> & ? & ? & ? & ?); [done|lia|done|done|done|].
      split_and!; try done; try lia; [|cbn [length] in *; lia].
      rewrite (seqZ_cons next) by lia. rewrite fmap_cons. unfold Z.succ, Z.pred. subst u. do 3 f_equal. lia.
    + intros Hge E. injection E as <- <- <-. rewrite Z.sub_diag. split_and!; try done; try lia.
      apply Forall_cons. split; [cbn; lia|]. rewrite Forall_fmap in Hlt. eapply Forall_impl; [exact Hlt|].
      cbn. lia.
Qed.

Lemma fits_le n (l : list MEMarketUpdate) : Z.of_nat (length l) ≤ n - 1 → fits n l = true.
Proof. intros Hl. unfold fits. by apply Z.leb_le. Qed.

Lemma startRecovery_spec c :
  in_recovery_ c = false → 0 ≤ created → joined = true →
  ∃ s, startRecovery created joined c = Ok (tt, lset snapshot_sock s
    (set_last_seen 0 (set_in_snapshot false (set_armed false (set_in_recovery true c))))).
Proof.
  intros Hr Hc Hj. unfold startRecovery. rewrite bind_gets, Hr, !bind_modify.
  erewrite bind_Ok; [|apply zoom_Ok; unfold mc_init; rewrite Hj; reflexivity]. cbv beta.
  cbn [fd_ set_mc_fd]. rewrite (proj2 (Z.leb_le _ _)) by done. by eexists.
Qed.

(** Recovering from [c] to live mode: what [finishRecovery] and the steady
    state have in common. *)
Lemma live_follows n K out us c q next' rest :
  q_rep q n (out ++ us) → 1 ≤ next' ≤ top + 1 →
  keys_sorted rest → Forall (λ e, inc_ok e.1 ∧ e.2 = feed e.1) rest →
  (length (out ++ us) + length rest ≤ K)%nat →
  apply (out ++ us) b0 = after (next' - 1) → Forall (λ e, next' < e.1) rest →
  in_recovery_ c = false → (in_snapshot_ c = true → snapshot_armed_ c = false) →
  mdc_outgoing_md_updates_ c = q → next_exp_inc_seq_num_ c = next' →
  out_of_order_buf_ c = rest → follows n K (out ++ us) c.
Proof. intros ? ? ? ? ? ? ? Hr ? <- <- <-. split; try done; by rewrite Hr. Qed.

Lemma inc_follows n K out c k :
  0 ≤ top < 2 ^ 64 - 1 → follows n K out c → inc_ok k → Z.of_nat (S K) ≤ n - 1 → 0 ≤ created → joined = true →
  ∃ c' us, deliver (Inc k) c = Ok (tt, c') ∧ follows n (S K) (out ++ us) c'.
Proof.
  intros HT [Hq Hs Hf Hn Hcnt Hx Hl Ha Hi] Hk HK Hcr Hj. pose proof Hk as Hk'. unfold inc_ok in Hk'.
  unfold deliver, processIncremental. rewrite bind_gets. cbn [md_seq_num_ me_market_update_].
  set (buf' := map_assign k (feed k) (out_of_order_buf_ c)).
  assert (Hs' : keys_sorted buf') by (by apply map_assign_sorted).
  assert (Hf' : Forall (λ e, inc_ok e.1 ∧ e.2 = feed e.1) buf').
  { apply Forall_forall. intros e [->|He]%map_assign_elem; [done|]. rewrite Forall_forall in Hf. by apply Hf. }
  pose proof (map_assign_length k (feed k) (out_of_order_buf_ c)) as Hlen. fold buf' in Hlen.
  destruct (in_recovery_ c) eqn:Er.
  { eexists _, []. split; [reflexivity|]. rewrite app_nil_r. fold buf'. split; cbn; rewrite ?Er; try done; lia. }
  destruct (Hl eq_refl) as [Hout Hgt]. rewrite bind_gets. case Z.eqb_spec; [intros Heq|intros Hne; case Z.ltb_spec; intros Hlt].
  - subst k. set (next := next_exp_inc_seq_num_ c) in *.
    destruct (replayed (next + 1) (out_of_order_buf_ c)) as [[us next'] rest] eqn:E.
    destruct (replayed_spec _ (next + 1) _ _ _ HT ltac:(lia) Hs Hf E) as (Hn' & Hus & Hrest & Hsr & Hfr & Hlr).
    assert (Hfit : fits n ((out ++ [feed next]) ++ us) = true).
    { apply fits_le. rewrite !length_app. cbn [length]. lia. }
    assert (Hfit1 : fits n (out ++ [feed next]) = true).
    { apply fits_le. rewrite length_app. cbn [length]. lia. }
    destruct (publishDownstream_spec (feed next) c n out Hq Hfit1) as (q & Hp & Hq1).
    rewrite (bind_Ok _ _ _ _ _ Hp). unfold bump_next. rewrite bind_modify, bind_gets.
    destruct (drain_contiguous_spec (out_of_order_buf_ c) (length (out_of_order_buf_ c))
      (set_next (u64 (next + 1)) (set_mdc_queue q c)) n (out ++ [feed next]) us next' rest) as (q2 & H2 & Hq2);
      [lia|done|done| |cbn; by rewrite u64_id by (unfold is_u64; lia)|done|done|].
    { cbn. rewrite u64_id by (unfold is_u64; lia). rewrite Forall_forall in *. intros e He.
      specialize (Hf e He). specialize (Hgt e He). unfold inc_ok, seq_ok in *. cbn in *. lia. }
    eexists _, (feed next :: us). split; [exact H2|]. rewrite <- (assoc (++)) in Hq2. cbn [app] in Hq2.
    apply (live_follows n (S K) out (feed next :: us) _ q2 next' rest); try done; [lia|rewrite length_app; cbn [length]; lia|].
    rewrite apply_app, Hout. change (apply us (step (feed next) (after (next - 1))) = after (next' - 1)).
    replace (feed next) with (feed (next - 1 + 1)) by (f_equal; lia).
    rewrite after_S by lia. rewrite Hus. replace (seqZ (next + 1)) with (seqZ (next - 1 + 1 + 1)) by (f_equal; lia).
    rewrite after_app by lia. f_equal. lia.
  - eexists _, []. split; [reflexivity|]. rewrite app_nil_r. split; rewrite ?Er; try done; lia.
  - rewrite bind_modify. fold buf'.
    destruct (startRecovery_spec (set_buf buf' c) Er Hcr Hj) as [s Hst].
    eexists _, []. split; [exact Hst|]. rewrite app_nil_r. split; try done; cbn; lia.
Qed.

Lemma image_S s e : s + 1 ≤ e → image s (e + 1) = image s e ++ [snap (e + 1)].
Proof.
  intros He. unfold image. cbn [app]. f_equal. replace (e + 1 - (s + 1)) with (e - (s + 1) + 1) by lia.
  rewrite seqZ_app, fmap_app by lia. f_equal. replace (s + 2 + (e - (s + 1))) with (e + 1) by lia. done.
Qed.

Lemma image_start s : image s (s + 1) = [snap s].
Proof. unfold image. by rewrite Z.sub_diag. Qed.

Lemma u64_next k : seq_ok k → u64 (k + 1) = k + 1.
Proof. unfold seq_ok. intros Hk. apply u64_id. unfold is_u64. lia. Qed.

(** Steps of the snapshot assembly that publish nothing. *)
Lemma follows_mono n K out c : follows n K out c → follows n (S K) out c.
Proof. intros []. split; try done. lia. Qed.

Lemma abort_follows n K out c :
  follows n K out c → in_recovery_ c = true → follows n (S K) out (set_in_snapshot false c).
Proof. intros [] Hr. split; cbn; rewrite ?Hr; try done; [lia|]. auto. Qed.

Lemma snap_clear_follows n K out c k :
  stream_ok → follows n K out c → in_recovery_ c = true → seq_ok k → Z.of_nat (S K) ≤ n - 1 →
  mu_type_ (snap k) = MarketUpdateType.CLEAR →
  ∃ c', deliver (Snap k) c = Ok (tt, c') ∧ follows n (S K) (out ++ [snap k]) c' ∧
    in_recovery_ c' = true ∧ snapshot_armed_ c' = true ∧ snapshot_last_seen_ c' = k.
Proof.
  intros Hso [Hq Hs Hf Hn Hcnt Hx Hl Ha Hi] Hr Hk HK Ht.
  unfold deliver, processSnapshot. rewrite bind_gets, Hr. cbn [negb md_seq_num_ me_market_update_].
  rewrite bind_gets, Ht, !bind_modify.
  destruct (publishDownstream_spec (snap k) (set_last_seen k (set_armed true (set_in_snapshot false c))) n out)
    as (q & Hp & Hq1); [exact Hq| |].
  { apply fits_le. rewrite length_app. cbn [length]. lia. }
  eexists. split; [exact Hp|]. cbn. split; [|done].
  split; cbn; rewrite ?Hr; try done; [rewrite length_app; cbn [length]; lia|].
  intros _ _. split_and!; try done. rewrite apply_app. apply (so_clear Hso), Ht.
Qed.

Lemma snap_start_follows n K out c k :
  follows n K out c → in_recovery_ c = true → seq_ok k →
  mu_type_ (snap k) = MarketUpdateType.SNAPSHOT_START →
  ∃ c', deliver (Snap k) c = Ok (tt, c') ∧ follows n (S K) out c' ∧ in_recovery_ c' = true ∧
    (snapshot_armed_ c = true → k = snapshot_last_seen_ c + 1 → in_snapshot_ c' = true ∧ snapshot_last_seen_ c' = k).
Proof.
  intros [Hq Hs Hf Hn Hcnt Hx Hl Ha Hi] Hr Hk Ht.
  unfold deliver, processSnapshot. rewrite bind_gets, Hr. cbn [negb md_seq_num_ me_market_update_].
  rewrite !bind_gets, Ht, bind_gets. destruct (snapshot_armed_ c) eqn:Ea; cbn [andb].
  - destruct (Ha Hr eq_refl) as (Hls & Hcl & Hout). rewrite (u64_next _ Hls).
    case Z.eqb_spec; intros Heq.
    + rewrite bind_assoc, !bind_modify. eexists. split; [reflexivity|]. cbn. split; [|done].
      split; cbn; rewrite ?Hr; try done; [lia|]. intros _ _. split; [done|].
      exists (snapshot_last_seen_ c). subst k. split; [|by rewrite image_start].
      unfold seq_ok in *. split_and!; try done; lia.
    + rewrite !bind_modify. eexists. split; [reflexivity|]. cbn. split; [|done].
      split; cbn; rewrite ?Hr; try done; lia.
  - rewrite !bind_modify. eexists. split; [reflexivity|]. cbn. split; [|done].
    split; cbn; rewrite ?Hr; try done; lia.
Qed.

Lemma snap_add_follows n K out c k :
  follows n K out c → in_recovery_ c = true → seq_ok k → Z.of_nat (S K) ≤ n - 1 →
  mu_type_ (snap k) = MarketUpdateType.ADD →
  ∃ c' us, deliver (Snap k) c = Ok (tt, c') ∧ follows n (S K) (out ++ us) c' ∧ in_recovery_ c' = true ∧
    (in_snapshot_ c = true → k = snapshot_last_seen_ c + 1 → in_snapshot_ c' = true ∧ snapshot_last_seen_ c' = k).
Proof.
  intros HF Hr Hk HK Ht. pose proof HF as [Hq Hs Hf Hn Hcnt Hx Hl Ha Hi].
  unfold deliver, processSnapshot. rewrite bind_gets, Hr. cbn [negb md_seq_num_ me_market_update_].
  rewrite !bind_gets, Ht, bind_gets. destruct (in_snapshot_ c) eqn:Ei.
  - destruct (Hi Hr eq_refl) as (Hls & s & Hcy & Hout). rewrite (u64_next _ Hls).
    case Z.eqb_spec; intros Heq.
    + edestruct (publishDownstream_spec (snap k)) as (q & Hp & Hq1); [exact Hq| |].
      { apply fits_le. rewrite length_app. cbn [length]. lia. }
      rewrite (bind_Ok _ _ _ _ _ Hp). eexists _, [snap k]. split; [reflexivity|]. cbn. split; [|done].
      split; cbn; rewrite ?Hr, ?Ei; try done; [rewrite length_app; cbn [length]; lia|by rewrite (Hx eq_refl)|].
      intros _ _. split; [done|]. exists s. subst k. pose proof Hcy as (Hc1 & Hc2 & Hc3 & Hc4 & Hc5). split.
      * split_and!; try done; [lia|]. intros i Hi'. destruct (decide (i = snapshot_last_seen_ c + 1)) as [->|];
          [done|]. apply Hc5. lia.
      * by rewrite image_S, !apply_app, Hout by lia.
    + eexists _, []. split; [reflexivity|]. rewrite app_nil_r. cbn. split; [by apply abort_follows|done].
  - eexists _, []. split; [reflexivity|]. rewrite app_nil_r. split; [by apply follows_mono|done].
Qed.

Lemma snap_end_follows n K out c k :
  stream_ok → follows n K out c → in_recovery_ c = true → seq_ok k → Z.of_nat (S K) ≤ n - 1 →
  mu_type_ (snap k) = MarketUpdateType.SNAPSHOT_END →
  ∃ c' us, deliver (Snap k) c = Ok (tt, c') ∧ follows n (S K) (out ++ us) c' ∧
    (in_snapshot_ c = true → k = snapshot_last_seen_ c + 1 →
     in_recovery_ c' = false ∧ mu_order_id_ (snap k) < next_exp_inc_seq_num_ c').
Proof.
  intros Hso HF Hr Hk HK Ht. pose proof HF as [Hq Hs Hf Hn Hcnt Hx Hl Ha Hi].
  unfold deliver, processSnapshot. rewrite bind_gets, Hr. cbn [negb md_seq_num_ me_market_update_].
  rewrite !bind_gets, Ht, bind_gets. destruct (in_snapshot_ c) eqn:Ei.
  - destruct (Hi Hr eq_refl) as (Hls & s & Hcy & Hout). rewrite (u64_next _ Hls).
    case Z.eqb_spec; intros Heq.
    + subst k. destruct (so_cycle Hso s _ Hcy Ht) as [Hid Himg].
      set (id := mu_order_id_ (snap (snapshot_last_seen_ c + 1))) in *.
      rewrite !bind_modify, bind_gets. cbn [pending_last_inc_seq_ set_pending].
      destruct (replayed (id + 1) (out_of_order_buf_ c)) as [[us next'] rest] eqn:E.
      destruct (replayed_spec _ (id + 1) _ _ _ (so_top Hso) ltac:(lia) Hs Hf E) as (Hn' & Hus & Hrest & Hsr & Hfr & Hlr).
      destruct (finishRecovery_spec id (set_pending id (set_last_seen (snapshot_last_seen_ c + 1) c)) n out us next' rest)
        as (q & H1 & Hq1).
      { cbn. pose proof (so_top Hso). rewrite u64_id by (unfold is_u64; lia). exact E. }
      { exact Hq. }
      { apply fits_le. rewrite !length_app. lia. }
      eexists _, us. split; [exact H1|]. split; [|cbn; intros _ _; split; [done|lia]].
      apply (live_follows n (S K) out us _ q next' rest); try done; [lia|rewrite length_app; lia|].
      rewrite apply_app, Hout, Himg, Hus. rewrite after_app by lia. f_equal. lia.
    + eexists _, []. split; [reflexivity|]. rewrite app_nil_r. split; [by apply abort_follows|done].
  - eexists _, []. split; [reflexivity|]. rewrite app_nil_r. split; [by apply follows_mono|done].
Qed.

(** Outside recovery the snapshot stream is ignored. *)
Lemma snap_live_follows n K out c k :
  follows n K out c → in_recovery_ c = false → deliver (Snap k) c = Ok (tt, c) ∧ follows n (S K) out c.
Proof.
  intros HF Hr. split; [|by apply follows_mono].
  unfold deliver, processSnapshot. by rewrite bind_gets, Hr.
Qed.

Lemma snap_other_follows n K out c k :
  follows n K out c → in_recovery_ c = true →
  mu_type_ (snap k) ∉ [MarketUpdateType.CLEAR; MarketUpdateType.SNAPSHOT_START; MarketUpdateType.ADD;
    MarketUpdateType.SNAPSHOT_END] →
  deliver (Snap k) c = Ok (tt, c) ∧ follows n (S K) out c.
Proof.
  intros HF Hr Ht. split; [|by apply follows_mono].
  unfold deliver, processSnapshot. rewrite !bind_gets, Hr. cbn [negb md_seq_num_ me_market_update_].
  rewrite !bind_gets. destruct (mu_type_ (snap k)); try done; set_solver.
Qed.

Lemma deliver_follows n K out c d :
  stream_ok → follows n K out c → delivery_ok d → Z.of_nat (S K) ≤ n - 1 → 0 ≤ created → joined = true →
  ∃ c' us, deliver d c = Ok (tt, c') ∧ follows n (S K) (out ++ us) c'.
Proof.
  intros Hso HF Hd HK Hcr Hj. destruct d as [k|k]; [apply inc_follows; try done; apply Hso|]. cbn in Hd.
  destruct (in_recovery_ c) eqn:Hr.
  2:{ destruct (snap_live_follows n K out c k HF Hr). exists c, []. by rewrite app_nil_r. }
  destruct (decide (mu_type_ (snap k) ∈ [MarketUpdateType.CLEAR; MarketUpdateType.SNAPSHOT_START;
    MarketUpdateType.ADD; MarketUpdateType.SNAPSHOT_END])) as [Ht|Ht].
  2:{ destruct (snap_other_follows n K out c k HF Hr Ht). exists c, []. by rewrite app_nil_r. }
  rewrite !elem_of_cons, elem_of_nil in Ht. destruct Ht as [Ht|[Ht|[Ht|[Ht|[]]]]].
  - destruct (snap_clear_follows n K out c k Hso HF Hr Hd HK Ht) as (c' & ? & ? & _). by exists c', [snap k].
  - destruct (snap_start_follows n K out c k HF Hr Hd Ht) as (c' & ? & ? & _). exists c', []. by rewrite app_nil_r.
  - destruct (snap_add_follows n K out c k HF Hr Hd HK Ht) as (c' & us & ? & ? & _). by exists c', us.
  - destruct (snap_end_follows n K out c k Hso HF Hr Hd HK Ht) as (c' & us & ? & ? & _). by exists c', us.
Qed.

Lemma deliveries_follow n ds : ∀ K out c,
  stream_ok → follows n K out c → Forall delivery_ok ds → Z.of_nat (K + length ds) ≤ n - 1 →
  0 ≤ created → joined = true →
  ∃ c' us, for_each deliver ds c = Ok (tt, c') ∧ follows n (K + length ds) (out ++ us) c'.
Proof.
  induction ds as [|d ds IH]; intros K out c Hso HF Hf HK Hcr Hj.
  - exists c, []. by rewrite app_nil_r, Nat.add_0_r.
  - apply Forall_cons in Hf as [Hd Hf]. cbn [length] in HK.
    destruct (deliver_follows n K out c d Hso HF Hd) as (c1 & us1 & H1 & HF1); [lia|done|done|].
    destruct (IH (S K) _ _ Hso HF1 Hf) as (c2 & us2 & H2 & HF2); [lia|done|done|].
    exists c2, (us1 ++ us2). cbn [for_each length]. rewrite (bind_Ok _ _ _ _ _ H1). split; [done|].
    rewrite (assoc (++)), Nat.add_succ_r. exact HF2.
Qed.

(** *** A whole cycle *)

Definition snap_of (d : delivery) : option Z := match d with Snap s => Some s | Inc _ => None end.

(** How far the assembly of the cycle anchored at [s] has come: through [j],
    or not begun. *)
Definition assembling (s j : Z) c : Prop :=
  in_recovery_ c = true ∧
  (j = s - 1 ∨
   j = s ∧ snapshot_armed_ c = true ∧ snapshot_last_seen_ c = j ∨
   s < j ∧ in_snapshot_ c = true ∧ snapshot_last_seen_ c = j).

Lemma inc_assembling s j k c : assembling s j c →
  ∃ c', deliver (Inc k) c = Ok (tt, c') ∧ assembling s j c'.
Proof.
  intros [Hr Hj]. exists (set_buf (map_assign k (feed k) (out_of_order_buf_ c)) c).
  split; [|by split]. unfold deliver, processIncremental. by rewrite bind_gets, Hr.
Qed.

Lemma snap_assembling n K out s e j c :
  stream_ok → follows n K out c → assembling s j c → cycle_upto s e → seq_ok (j + 1) → s - 1 ≤ j < e →
  Z.of_nat (S K) ≤ n - 1 →
  ∃ c' us, deliver (Snap (j + 1)) c = Ok (tt, c') ∧ follows n (S K) (out ++ us) c' ∧ assembling s (j + 1) c'.
Proof.
  intros Hso HF [Hr Hj] (Hc1 & Hc2 & Hc3 & Hc4 & Hc5) Hk Hje HK.
  destruct (decide (j = s - 1)) as [->|Hns].
  { replace (s - 1 + 1) with s in * by lia.
    destruct (snap_clear_follows n K out c s Hso HF Hr Hk HK Hc1) as (c' & H1 & HF' & Hr' & Ha' & Hl').
    exists c', [snap s]. split; [done|]. split; [done|]. split; [done|]. right. by left. }
  destruct Hj as [?|[(-> & Ha & Hl)|(Hs & Hi & Hl)]]; [done| |].
  - destruct (snap_start_follows n K out c (s + 1) HF Hr Hk Hc2) as (c' & H1 & HF' & Hr' & Hc').
    destruct (Hc' Ha) as [Hi' Hl']; [by rewrite Hl|]. exists c', []. rewrite app_nil_r.
    split; [done|]. split; [done|]. split; [done|]. right. right. split; [lia|done].
  - destruct (snap_add_follows n K out c (j + 1) HF Hr Hk HK) as (c' & us & H1 & HF' & Hr' & Hc'); [apply Hc5; lia|].
    destruct (Hc' Hi) as [Hi' Hl']; [by rewrite Hl|]. exists c', us.
    split; [done|]. split; [done|]. split; [done|]. right. right. split; [lia|done].
Qed.

Lemma cycle_assembles n s e ds : ∀ K out c j,
  stream_ok → follows n K out c → assembling s j c → cycle_upto s e → s - 1 ≤ j ≤ e →
  omap snap_of ds = seqZ (j + 1) (e - j) → Forall delivery_ok ds →
  Z.of_nat (K + length ds) ≤ n - 1 → 0 ≤ created → joined = true →
  ∃ c' us, for_each deliver ds c = Ok (tt, c') ∧ follows n (K + length ds) (out ++ us) c' ∧ assembling s e c'.
Proof.
  induction ds as [|d ds IH]; intros K out c j Hso HF Has Hcy Hj Hom Hf HK Hcr Hjo.
  - assert (j = e) as ->.
    { destruct (decide (j = e)); [done|]. rewrite seqZ_cons in Hom by lia. done. }
    exists c, []. by rewrite app_nil_r, Nat.add_0_r.
  - apply Forall_cons in Hf as [Hd Hf]. cbn [length] in HK. destruct d as [k|k]; cbn in Hom, Hd.
    + destruct (inc_follows n K out c k (so_top Hso) HF Hd) as (c1 & us1 & H1 & HF1); [lia|done|done|].
      destruct (inc_assembling s j k c Has) as (c1' & H1' & Has1). rewrite H1 in H1'. injection H1' as <-.
      destruct (IH (S K) _ c1 j Hso HF1 Has1 Hcy Hj Hom Hf) as (c2 & us2 & H2 & HF2 & Has2); [lia|done|done|].
      exists c2, (us1 ++ us2). cbn [for_each length]. rewrite (bind_Ok _ _ _ _ _ H1). split; [done|].
      rewrite (assoc (++)), Nat.add_succ_r. done.
    + assert (j < e). { destruct (decide (j = e)) as [->|]; [by rewrite Z.sub_diag in Hom|lia]. }
      rewrite seqZ_cons in Hom by lia. injection Hom as -> Hom.
      destruct (snap_assembling n K out s e j c Hso HF Has Hcy Hd) as (c1 & us1 & H1 & HF1 & Has1); [lia|lia|].
      destruct (IH (S K) _ c1 (j + 1) Hso HF1 Has1 Hcy) as (c2 & us2 & H2 & HF2 & Has2);
        [lia| |done|lia|done|done|].
      { rewrite Hom. f_equal; lia. }
      exists c2, (us1 ++ us2). cbn [for_each length]. rewrite (bind_Ok _ _ _ _ _ H1). split; [done|].
      rewrite (assoc (++)), Nat.add_succ_r. done.
Qed.

(** *** Theorems *)

Lemma MarketDataConsumer_new_follows q n :
  0 ≤ top → q_rep q n [] → 0 ≤ created → joined = true →
  ∃ c, MarketDataConsumer_new created joined q = Ok c ∧ follows n 0 [] c.
Proof.
  intros HT Hq Hc Hj. unfold MarketDataConsumer_new.
  assert (∃ s, mc_init created joined true McastSocket_new = Ok (created, s)) as [s ->].
  { unfold mc_init. rewrite Hj. by eexists. }
  rewrite (proj2 (Z.leb_le _ _)) by done. eexists. split; [reflexivity|].
  split; cbn; try done; try lia; constructor.
Qed.


End session.
