(* ===== verification/MarketDataFeed.v ===== *)
(** The receive loops of the consumer, and the feed end to end.

    [recv_messages_spec] relates the byte loops to the message handlers.  For
    the incremental stream it gives the round trip from the publisher's
    datagrams; for the snapshot stream it shows that completing a recovery
    inside the loop empties the buffer under it, and the loop runs past its
    end. *)

From S2P Require Import Prelude Types Wire Framing LFQueue Sockets McastSocket.
From S2P Require Import MarketDataPublisher MarketDataConsumer MarketDataConsumerProps.

(** ** The receive loop *)

Section loop.
Context `{NCfg : NetConfig}.
Implicit Types (c : MarketDataConsumer) (bs pre : list byte) (stale : Z → MDPMarketUpdate).
Context (sock : lens MarketDataConsumer McastSocket) (process : MDPMarketUpdate → M MarketDataConsumer unit).
Context (alive : MarketDataConsumer → bool).
Hypothesis process_alive : ∀ m c c', alive c = true → process m c = Ok (tt, c') →
  rcv_buffer_ (lget sock c') = if alive c' then rcv_buffer_ (lget sock c) else [].
Hypothesis process_dead : ∀ m c, alive c = false → process m c = Ok (tt, c).
Hypothesis buffer_small : 0 < McastBufferSize < 2 ^ 63.
Local Set Default Proof Using "All".

Lemma for_each_dead ms c : alive c = false → for_each process ms c = Ok (tt, c).
Proof.
  intros Ha. induction ms as [|m ms IH]; [done|]. cbn. by rewrite (bind_Ok _ _ _ _ _ (process_dead m c Ha)).
Qed.

Lemma for_each_alive ms : ∀ c c',
  alive c = true → for_each process ms c = Ok (tt, c') → alive c' = true →
  rcv_buffer_ (lget sock c') = rcv_buffer_ (lget sock c).
Proof.
  induction ms as [|m ms IH]; intros c c' Ha E Ha'; [by injection E as <-|].
  apply bind_Ok_inv in E as ([] & c1 & E1 & E). pose proof (process_alive _ _ _ Ha E1) as Hb.
  destruct (alive c1) eqn:Ha1.
  - rewrite <- Hb. by apply IH.
  - rewrite (for_each_dead _ _ Ha1) in E. injection E as <-. congruence.
Qed.

(** Once the buffer has been emptied, the unsigned difference never drops
    below a message: the loop goes on until it leaves the buffer. *)
Lemma overrun fuel : ∀ stale offset c,
  alive c = false → rcv_buffer_ (lget sock c) = [] → 0 < offset ≤ McastBufferSize →
  McastBufferSize - offset < 42 * Z.of_nat fuel →
  recv_messages fuel sock stale process offset c = Err (UB "memcpy from past rcv_buffer_").
Proof.
  induction fuel as [|fuel IH]; intros stale offset c Ha Hb Ho Hf; [lia|]. cbn [recv_messages].
  unfold next_rcv_valid_index_. rewrite bind_gets, Hb. cbn [length].
  change (Z.of_nat (wsize MDPMarketUpdate)) with 42. change (Z.of_nat 0) with 0.
  assert (E : u64 (0 - offset) = 2 ^ 64 - offset).
  { unfold u64. replace (0 - offset) with (2 ^ 64 - offset + (-1) * 2 ^ 64) by lia.
    rewrite Z.mod_add by lia. rewrite Z.mod_small by lia. done. }
  rewrite E, (proj2 (Z.ltb_ge _ _)) by lia. case Z.ltb_spec; intros Hlt; [done|].
  rewrite bind_gets, (bind_Ok _ _ _ _ _ (process_dead _ c Ha)). apply IH; [done..|lia|lia].
Qed.

Lemma recv_messages_spec bs : ∀ fuel stale pre c,
  alive c = true → rcv_buffer_ (lget sock c) = pre ++ bs →
  Z.of_nat (length (pre ++ bs)) ≤ McastBufferSize →
  McastBufferSize - Z.of_nat (length pre) < 42 * Z.of_nat fuel →
  recv_messages fuel sock stale process (Z.of_nat (length pre)) c =
    match for_each process (frames MDPMarketUpdate bs) c with
    | Err f => Err f
    | Ok (_, c') =>
        if alive c' then Ok (Z.of_nat (length pre + 42 * frame_count (A := MDPMarketUpdate) bs), c')
        else Err (UB "memcpy from past rcv_buffer_")
    end.
Proof.
  induction bs as [bs Hs|bs Hl IH] using (frame_ind (A := MDPMarketUpdate)); intros fuel stale pre c Ha Hb Hm Hf.
  - rewrite (proj1 (frames_short _ Hs)), (frame_count_short _ Hs). cbn [for_each].
    unfold mret, M_ret. rewrite Ha.
    change (wsize MDPMarketUpdate) with 42%nat in Hs.
    assert (E : u64 (Z.of_nat (length (pre ++ bs)) - Z.of_nat (length pre)) = Z.of_nat (length bs)).
    { rewrite length_app. unfold u64. rewrite Z.mod_small by lia. lia. }
    rewrite Nat.mul_0_r, Nat.add_0_r.
    destruct fuel; cbn [recv_messages]; rewrite bind_gets; unfold next_rcv_valid_index_; rewrite Hb, E;
      change (Z.of_nat (wsize MDPMarketUpdate)) with 42; by rewrite (proj2 (Z.ltb_lt _ _)) by lia.
  - rewrite (proj1 (frames_step _ Hl)), (frame_count_step _ Hl).
    change (wsize MDPMarketUpdate) with 42%nat in *.
    assert (Hlen : length (pre ++ bs) = (length pre + length bs)%nat) by apply length_app.
    assert (E : u64 (Z.of_nat (length (pre ++ bs)) - Z.of_nat (length pre)) = Z.of_nat (length bs)).
    { unfold u64. rewrite Z.mod_small by lia. lia. }
    destruct fuel as [|fuel]; [lia|]. cbn [recv_messages for_each]. rewrite bind_gets.
    unfold next_rcv_valid_index_. rewrite Hb, E. change (Z.of_nat (wsize MDPMarketUpdate)) with 42.
    rewrite (proj2 (Z.ltb_ge _ _)) by lia. rewrite (proj2 (Z.ltb_ge _ _)) by lia.
    rewrite bind_gets, Hb, (proj2 (Z.leb_le _ _)) by lia.
    rewrite Nat2Z.id, drop_app_length. unfold mbind at 1 2, M_bind.
    destruct (process (wget bs) c) as [[[] c1]|f] eqn:E1; [|done].
    pose proof (process_alive _ _ _ Ha E1) as Hb1. destruct (alive c1) eqn:Ha1.
    + assert (Hsplit : pre ++ bs = (pre ++ take 42 bs) ++ drop 42 bs)
        by (by rewrite <- (assoc (++)), take_drop).
      assert (Hpre : length (pre ++ take 42 bs) = (length pre + 42)%nat)
        by (rewrite length_app, length_take; lia).
      replace (Z.of_nat (length pre) + 42) with (Z.of_nat (length (pre ++ take 42 bs))) by lia.
      rewrite IH; [|done|by rewrite Hb1, Hb|by rewrite <- Hsplit|lia].
      destruct (for_each _ _ _) as [[[] c2]|]; [|done]. destruct (alive c2); [|done].
      do 2 f_equal. rewrite Hpre. lia.
    + rewrite (for_each_dead _ _ Ha1), Ha1. by apply overrun; [..|lia|lia].
Qed.

(** The whole callback on a buffer. *)
Lemma recv_and_compact_spec stale c :
  let bs := rcv_buffer_ (lget sock c) in
  LensOk sock → alive c = true → Z.of_nat (length bs) ≤ McastBufferSize →
  recv_and_compact sock stale process c =
    match for_each process (frames MDPMarketUpdate bs) c with
    | Err f => Err f
    | Ok (_, c') =>
        if alive c' then
          Ok (tt, lset sock (set_mc_rcv (partial MDPMarketUpdate bs) (lget sock c')) c')
        else Err (UB "memcpy from past rcv_buffer_")
    end.
Proof.
  intros bs HL Ha Hm. unfold recv_and_compact. unfold mbind at 1, M_bind.
  pose proof (recv_messages_spec bs (Z.to_nat McastBufferSize) stale [] c Ha eq_refl Hm) as E.
  cbn [length app] in E. change (Z.of_nat 0) with 0 in E. rewrite E by lia. clear E.
  destruct (for_each process (frames MDPMarketUpdate bs) c) as [[[] c']|] eqn:Ef; [|done].
  destruct (alive c') eqn:Ha'; [|done].
  pose proof (for_each_alive _ _ _ Ha Ef Ha') as Hbuf. fold bs in Hbuf.
  unfold partial. cbn [length] in *. change (wsize MDPMarketUpdate) with 42%nat. rewrite Nat.add_0_l, (Nat.mul_comm _ 42).
  set (k := (42 * frame_count (A := MDPMarketUpdate) bs)%nat). case Z.ltb_spec; intros Hk.
  - erewrite zoom_Ok; [|reflexivity]. by rewrite Hbuf, Nat2Z.id.
  - assert (k = 0%nat) as -> by lia. rewrite drop_0, <- Hbuf.
    assert (set_mc_rcv (rcv_buffer_ (lget sock c')) (lget sock c') = lget sock c') as -> by (by destruct (lget sock c')).
    by rewrite lset_lget.
Qed.
End loop.

Section recv.
Context `{NCfg : NetConfig} (created : Z) (joined : bool).
Implicit Types (c : MarketDataConsumer) (stale : Z → MDPMarketUpdate).

Lemma publishDownstream_keeps {T} (f : MarketDataConsumer → T) u :
  (∀ q c, f (set_mdc_queue q c) = f c) → keeps f (publishDownstream u).
Proof. intros Hf. unfold publishDownstream. keeps. Qed.

Lemma drain_contiguous_keeps_inc fuel : keeps mdc_incremental_socket_ (drain_contiguous fuel).
Proof.
  induction fuel as [|fuel IH]; cbn [drain_contiguous]; unfold bump_next;
    keeps; by apply publishDownstream_keeps.
Qed.

Lemma processIncremental_keeps msg : keeps mdc_incremental_socket_ (processIncremental created joined msg).
Proof.
  unfold processIncremental, startRecovery, bump_next. pose proof drain_contiguous_keeps_inc.
  keeps; by apply publishDownstream_keeps.
Qed.

(** A snapshot message leaves the socket alone, or ends the recovery and
    destroys it. *)
Lemma processSnapshot_socket msg c c' :
  in_recovery_ c = true → processSnapshot msg c = Ok (tt, c') →
  in_recovery_ c' = true ∧ mdc_snapshot_socket_ c' = mdc_snapshot_socket_ c ∨
  in_recovery_ c' = false ∧ rcv_buffer_ (mdc_snapshot_socket_ c') = [].
Proof.
  intros Hr. set (f := λ c, (in_recovery_ c, mdc_snapshot_socket_ c)).
  assert (Hpub : ∀ u, keeps f (publishDownstream u)) by (intros u; by apply publishDownstream_keeps).
  assert (Hleft : ∀ m : M MarketDataConsumer unit, keeps f m → m c = Ok (tt, c') →
    in_recovery_ c' = true ∧ mdc_snapshot_socket_ c' = mdc_snapshot_socket_ c).
  { intros m Hm E. specialize (Hm _ _ _ E). unfold f in Hm. injection Hm as -> ->. done. }
  unfold processSnapshot. rewrite bind_gets, Hr. cbn [negb]. rewrite bind_gets.
  destruct (mu_type_ _); intros E; try (left; eapply Hleft; [|exact E]; keeps; fail).
  - rewrite bind_gets in E. destruct (in_snapshot_ c); [|left; eapply Hleft; [|exact E]; keeps].
    destruct (_ =? _); [|left; eapply Hleft; [|exact E]; keeps].
    right. rewrite !bind_modify, bind_gets in E. unfold finishRecovery in E. rewrite bind_modify, bind_gets in E.
    apply bind_Ok_inv in E as ([] & c1 & _ & E). apply bind_Ok_inv in E as ([] & c2 & E2 & E).
    rewrite !bind_modify in E. injection E as <-. injection E2 as <-. by cbn.
Qed.


(** ** The incremental stream *)

Lemma recvIncremental_spec stale c :
  0 < McastBufferSize < 2 ^ 63 →
  let bs := rcv_buffer_ (mdc_incremental_socket_ c) in
  Z.of_nat (length bs) ≤ McastBufferSize →
  recvIncremental created joined stale c =
    match for_each (processIncremental created joined) (frames MDPMarketUpdate bs) c with
    | Err f => Err f
    | Ok (_, c') => Ok (tt, lset incremental_sock
        (set_mc_rcv (partial MDPMarketUpdate bs) (mdc_incremental_socket_ c')) c')
    end.
Proof.
  intros HM bs Hb. unfold recvIncremental.
  rewrite (recv_and_compact_spec _ _ (λ _, true)); [done| |done|done|apply _|done|done].
  intros m c1 c2 _ E. cbn. by rewrite (processIncremental_keeps _ _ _ _ E).
Qed.

(** C29: completing a recovery corrupts the receive loop.  [recvSnapshot] on a
    consumer that is recovering behaves like the message handlers on the
    frames of its buffer, and keeps the partial tail, as long as they leave it
    recovering.  But when one of them ends the recovery, [finishRecovery]
    destroys the socket whose buffer is being read: the valid index drops to 0
    under the loop, the unsigned difference wraps, and the loop copies
    messages from past the end of the receive buffer. *)
Theorem recvSnapshot_overruns stale c :
  0 < McastBufferSize < 2 ^ 63 → in_recovery_ c = true →
  let bs := rcv_buffer_ (mdc_snapshot_socket_ c) in
  Z.of_nat (length bs) ≤ McastBufferSize →
  recvSnapshot stale c =
    match for_each processSnapshot (frames MDPMarketUpdate bs) c with
    | Err f => Err f
    | Ok (_, c') =>
        if in_recovery_ c' then
          Ok (tt, lset snapshot_sock (set_mc_rcv (partial MDPMarketUpdate bs) (mdc_snapshot_socket_ c')) c')
        else Err (UB "memcpy from past rcv_buffer_")
    end.
Proof.
  intros HM Hr bs Hb. unfold recvSnapshot.
  rewrite (recv_and_compact_spec _ _ in_recovery_); [done| | |done|apply _|done|done].
  - intros m c1 c2 Hr1 E. cbn. destruct (processSnapshot_socket _ _ _ Hr1 E) as [[-> ->]|[-> ->]]; done.
  - intros m c1 Hr1. unfold processSnapshot. by rewrite bind_gets, Hr1.
Qed.

(** *** End to end *)

(** A consumer in steady state, nothing buffered. *)
Record steady (ni n : Z) (out : list MEMarketUpdate) c : Prop := {
  st_queue : q_rep (mdc_outgoing_md_updates_ c) ni out;
  st_next : next_exp_inc_seq_num_ c = n;
  st_mode : in_recovery_ c = false;
  st_buf : out_of_order_buf_ c = [];
}.
Definition idle (s : McastSocket) : Prop := send_buffer_ s = [] ∧ rcv_buffer_ s = [].

Lemma processIncremental_next ni n out c u :
  steady ni n out c → is_u64 (n + 1) → fits ni (out ++ [u]) = true →
  ∃ c', processIncremental created joined (mkMDPMarketUpdate n u) c = Ok (tt, c') ∧ steady ni (n + 1) (out ++ [u]) c' ∧
    mdc_incremental_socket_ c' = mdc_incremental_socket_ c.
Proof.
  intros [Hq Hn Hr Hb] Hn64 Hf. unfold processIncremental. rewrite bind_gets, Hr, bind_gets.
  cbn [md_seq_num_ me_market_update_]. rewrite Hn, Z.eqb_refl.
  destruct (publishDownstream_spec u c ni out Hq Hf) as (q & Hp & Hq').
  rewrite (bind_Ok _ _ _ _ _ Hp). unfold bump_next. rewrite bind_modify, bind_gets.
  cbn [out_of_order_buf_ set_next set_mdc_queue]. rewrite Hb. cbn [length drain_contiguous].
  eexists. rewrite !bind_gets. cbn [out_of_order_buf_ set_next set_mdc_queue]. rewrite Hb.
  split; [reflexivity|]. split; [|done]. split; try done. cbn. by rewrite Hn, u64_id.
Qed.

Lemma processIncremental_batch ni us : ∀ n out c,
  steady ni n out c → 0 ≤ n → n + Z.of_nat (length us) < 2 ^ 64 → fits ni (out ++ us) = true →
  ∃ c', for_each (processIncremental created joined) (numbered_from n us) c = Ok (tt, c') ∧
    steady ni (n + Z.of_nat (length us)) (out ++ us) c' ∧ mdc_incremental_socket_ c' = mdc_incremental_socket_ c.
Proof.
  induction us as [|u us IH]; intros n out c Hst Hn Hlt Hf.
  - exists c. cbn [length]. by rewrite Z.add_0_r, app_nil_r.
  - cbn [length] in *. apply fits_cons_app in Hf as [Hf1 Hf2].
    destruct (processIncremental_next ni n out c u Hst) as (c1 & H1 & Hst1 & Hs1); [unfold is_u64; lia|done|].
    destruct (IH (n + 1) (out ++ [u]) c1 Hst1) as (c2 & H2 & Hst2 & Hs2); [lia|lia|done|].
    exists c2. cbn [numbered_from for_each]. rewrite u64_id by (unfold is_u64; lia).
    rewrite (bind_Ok _ _ _ _ _ H1). split; [exact H2|]. split; [|congruence].
    replace (n + Z.of_nat (S (length us))) with (n + 1 + Z.of_nat (length us)) by lia.
    rewrite <- (assoc (++)) in Hst2. exact Hst2.
Qed.

(** A datagram arrives on the incremental socket. *)
Definition receive stale (d : list byte) : M MarketDataConsumer unit :=
  mc_sendAndRecv incremental_sock (Some (recvIncremental created joined stale)) (Sent 0) (RecvData d 0);; mret tt.

Lemma receive_callback stale d c :
  idle (mdc_incremental_socket_ c) → d ≠ [] → Z.of_nat (length d) ≤ McastBufferSize →
  receive stale d c = (recvIncremental created joined stale;; mret tt)
    (lset incremental_sock (set_mc_rcv d (mdc_incremental_socket_ c)) c).
Proof.
  intros [Hs Hr] Hd Hl. unfold receive. set (s := mdc_incremental_socket_ c) in *.
  assert (Hflush : flushed (Sent 0) s = s) by (unfold flushed, next_send_valid_index_; by rewrite Hs).
  assert (Hrecv : mc_received (RecvData d 0) s = d).
  { unfold mc_received, next_rcv_valid_index_. rewrite Hr. cbn [length]. apply take_ge. lia. }
  pose proof (mc_sendAndRecv_spec incremental_sock incremental_sock_ok (Some (recvIncremental created joined stale))
    (Sent 0) (RecvData d 0) c) as E.
  cbv zeta in E. change (lget incremental_sock c) with s in E. rewrite Hflush, Hrecv, decide_False in E by done.
  unfold mbind at 1, M_bind. rewrite E. unfold filled. rewrite Hrecv, Hr. cbn [app].
  unfold mbind, M_bind. by destruct (recvIncremental _ _ _ _) as [[[] ?]|].
Qed.

Lemma numbered_valid us : ∀ n,
  Forall mu_valid us → 0 ≤ n → n + Z.of_nat (length us) < 2 ^ 64 → Forall wvalid (numbered_from n us).
Proof.
  induction us as [|u us IH]; intros n Hv Hn Hlt; [constructor|]. apply Forall_cons in Hv as [Hu Hv].
  cbn [numbered_from length] in *. constructor; [split; [cbn; unfold is_u64; lia|exact Hu]|].
  rewrite u64_id by (unfold is_u64; lia). apply IH; [done|lia|lia].
Qed.

Lemma receive_run stale ni us n out c :
  0 < McastBufferSize < 2 ^ 63 → Forall mu_valid us → us ≠ [] →
  steady ni n out c → idle (mdc_incremental_socket_ c) → 0 ≤ n → n + Z.of_nat (length us) < 2 ^ 64 →
  fits ni (out ++ us) = true → Z.of_nat (length (encode (numbered_from n us))) ≤ McastBufferSize →
  ∃ c', receive stale (encode (numbered_from n us)) c = Ok (tt, c') ∧
    steady ni (n + Z.of_nat (length us)) (out ++ us) c' ∧ idle (mdc_incremental_socket_ c').
Proof.
  intros HM Hv Hne Hst Hid Hn Hlt Hf Hl. set (d := encode _) in *.
  assert (Hd : d ≠ []).
  { intros E. apply (f_equal length) in E. unfold d in E. rewrite encode_length, numbered_length in E.
    destruct us; cbn [length] in E; [done|lia]. }
  destruct (frames_puts (numbered_from n us) [] (numbered_valid us n Hv Hn Hlt)) as [Hfr Hpt]; [cbn; lia|].
  rewrite app_nil_r in Hfr, Hpt. fold (encode (numbered_from n us)) in Hfr, Hpt. fold d in Hfr, Hpt.
  set (c1 := lset incremental_sock (set_mc_rcv d (mdc_incremental_socket_ c)) c).
  destruct (processIncremental_batch ni us n out c1) as (c2 & H2 & Hst2 & Hs2); [by destruct Hst|done|done|done|].
  pose proof (recvIncremental_spec stale c1 HM Hl) as E.
  change (rcv_buffer_ (mdc_incremental_socket_ c1)) with d in E.
  rewrite Hfr, H2, Hpt in E. eexists. split; [|split].
  - rewrite (receive_callback stale d c Hid Hd Hl). by rewrite (bind_Ok _ _ _ _ _ E).
  - by destruct Hst2.
  - split; [|done]. cbn. rewrite Hs2. cbn. apply Hid.
Qed.

(** Runs of consecutive messages cut out of a numbered stream. *)
Lemma numbered_from_app us us' n : is_u64 n →
  numbered_from n (us ++ us') = numbered_from n us ++ numbered_from (u64 (n + Z.of_nat (length us))) us'.
Proof.
  revert n. induction us as [|u us IH]; intros n Hn; cbn [app numbered_from length].
  - by rewrite Z.add_0_r, u64_id.
  - f_equal. rewrite IH by auto with llx. f_equal. unfold u64. rewrite Zplus_mod_idemp_l. f_equal. f_equal. lia.
Qed.

Lemma receive_empty stale c : idle (mdc_incremental_socket_ c) → receive stale [] c = Ok (tt, c).
Proof.
  intros [Hs Hr]. unfold receive.
  pose proof (mc_sendAndRecv_spec incremental_sock incremental_sock_ok (Some (recvIncremental created joined stale))
    (Sent 0) (RecvData [] 0) c) as E. cbv zeta in E. cbn [lget incremental_sock] in E.
  assert (Hflush : flushed (Sent 0) (mdc_incremental_socket_ c) = mdc_incremental_socket_ c)
    by (unfold flushed, next_send_valid_index_; by rewrite Hs).
  assert (Hrecv : mc_received (RecvData [] 0) (mdc_incremental_socket_ c) = []) by (cbn; apply take_nil).
  rewrite Hflush, Hrecv, decide_True, (filled_nothing _ _ Hrecv) in E by done.
  unfold mbind, M_bind. rewrite E. change (mdc_incremental_socket_ c) with (lget incremental_sock c).
  by rewrite lset_lget.
Qed.

Lemma receive_runs stale ni runs : ∀ us n out c,
  0 < McastBufferSize < 2 ^ 63 → mjoin runs = numbered_from n us → Forall mu_valid us →
  steady ni n out c → idle (mdc_incremental_socket_ c) → 0 ≤ n → n + Z.of_nat (length us) < 2 ^ 64 →
  fits ni (out ++ us) = true → Forall (λ r, Z.of_nat (length (encode r)) ≤ McastBufferSize) runs →
  ∃ c', for_each (receive stale) (encode <$> runs) c = Ok (tt, c') ∧
    steady ni (n + Z.of_nat (length us)) (out ++ us) c' ∧ idle (mdc_incremental_socket_ c').
Proof.
  induction runs as [|r runs IH]; intros us n out c HM E Hv Hst Hid Hn Hlt Hf Hl.
  - destruct us; [|done]. exists c. cbn [length]. by rewrite Z.add_0_r, app_nil_r.
  - apply Forall_cons in Hl as [Hr Hl]. change (mjoin (r :: runs)) with (r ++ mjoin runs) in E.
    set (k := length r). assert (Hus : us = take k us ++ drop k us) by (by rewrite take_drop).
    assert (Hk : (k ≤ length us)%nat).
    { apply (f_equal length) in E. rewrite length_app, numbered_length in E. unfold k. lia. }
    assert (Hlk : length (take k us) = k) by (rewrite length_take; lia).
    rewrite Hus, numbered_from_app in E by (unfold is_u64; lia).
    apply app_inj_1 in E as [Er E]; [|by rewrite numbered_length, Hlk].
    rewrite Hlk, u64_id in E by (unfold is_u64; lia).
    rewrite Hus in Hv, Hf. apply Forall_app in Hv as [Hv1 Hv2]. rewrite (assoc (++)) in Hf.
    assert (Hf1 : fits ni (out ++ take k us) = true).
    { destruct (fits ni (out ++ take k us)) eqn:Ef; [done|]. by rewrite fits_app_l in Hf. }
    assert (∃ c1, receive stale (encode r) c = Ok (tt, c1) ∧
      steady ni (n + Z.of_nat k) (out ++ take k us) c1 ∧ idle (mdc_incremental_socket_ c1)) as (c1 & H1 & Hst1 & Hid1).
    { destruct (decide (take k us = [])) as [E0|Hne].
      - rewrite E0 in Er, Hlk |- *. rewrite Er, app_nil_r, <- Hlk. cbn [length]. rewrite Z.add_0_r.
        exists c. by rewrite receive_empty.
      - destruct (receive_run stale ni (take k us) n out c) as (c1 & H1 & ?); try done;
          [rewrite Hlk; lia|by rewrite <- Er|].
        rewrite <- Er in H1. rewrite Hlk in *. by exists c1. }
    destruct (IH (drop k us) (n + Z.of_nat k) (out ++ take k us) c1) as (c2 & H2 & Hst2 & Hid2); try done;
      [lia|rewrite length_drop; lia|].
    exists c2. rewrite fmap_cons. cbn [for_each]. rewrite (bind_Ok _ _ _ _ _ H1).
    split; [exact H2|]. split; [|done]. rewrite length_drop, <- (assoc (++)), <- Hus in Hst2.
    by replace (n + Z.of_nat (length us)) with (n + Z.of_nat k + Z.of_nat (length us - k)) by lia.
Qed.

(** C26: the feed, end to end, when nothing is lost.  With [us] queued by the
    matching engine, one [poll] of the publisher on a prompt kernel, and the
    delivery of its datagrams in order to a consumer in step with it, publish
    exactly [us] downstream: numbering, packing into datagrams, parsing and
    sequencing cancel out, and both sides stay in step. *)
Theorem feed_end_to_end ni ns no net stale us sl n p out c :
  1400 ≤ McastBufferSize < 2 ^ 63 → prompt net →
  q_rep (pub_outgoing_md_updates_ p) ni us → q_rep (pub_snapshot_md_updates_ p) ns sl →
  next_inc_seq_num_ p = n → 0 ≤ n → n + Z.of_nat (length us) < 2 ^ 64 → Forall mu_valid us →
  send_buffer_ (incremental_socket_ p) = [] → datagrams_ (incremental_socket_ p) = [] →
  fits ns (sl ++ numbered_from n us) = true → 42 * Z.of_nat (length us) ≤ McastBufferSize →
  steady no n out c → idle (mdc_incremental_socket_ c) → fits no (out ++ us) = true →
  ∃ p' c', pub_poll net p = Ok (tt, p') ∧
    for_each (receive stale) (datagrams_ (incremental_socket_ p')) c = Ok (tt, c') ∧
    q_rep (mdc_outgoing_md_updates_ c') no (out ++ us) ∧
    steady no (next_inc_seq_num_ p') (out ++ us) c' ∧ in_recovery_ c' = false.
Proof.
  intros HM Hpr Ho Hs Hn Hn0 Hlt Hv Hsd Hdg Hfit Hroom Hst Hid Hf.
  destruct (pub_poll_spec ni ns net us sl [] n p Ho Hs Hn) as (p' & runs & rest & H1 & _ & _ & Hn' & [Hw _ _ Hall Hsz]);
    [unfold is_u64; lia|by rewrite Hsd|done|done|].
  destruct Hsz as [Hruns Hrest]; [split; [done|cbn; lia]|].
  assert (rest = []) as -> by (destruct rest; cbn in Hrest; [done|lia]).
  rewrite app_nil_r in Hall. rewrite Hdg in Hw. cbn [app] in Hw, Hall.
  destruct (receive_runs stale no runs us n out c) as (c' & H2 & Hst' & _); try done; [lia| | |].
  - apply Hall. intros k E. destruct (Hpr k). congruence.
  - eapply Forall_impl; [exact Hruns|]. intros r Hr. cbn in Hr. rewrite encode_length. lia.
  - exists p', c'. rewrite Hw, Hn', u64_id by (unfold is_u64; lia). destruct Hst'. by split_and!.
Qed.
End recv.
