(* ===== verification/SnapshotSynthesizer.v ===== *)
(** Exchange::SnapshotSynthesizer
    (Exchange/market_data/snapshot_synthesizer.h and .cpp): rebuilds the
    resting orders of every ticker from the numbered incremental updates, and
    publishes them periodically on the snapshot stream.

    [ticker_orders_] maps (ticker, order id) to a pointer into [order_pool_];
    a null entry is absent.  [net k] is what the kernel answers to the
    [sendAndRecv] that follows the message numbered [k]; the clock is read into
    an argument.  [image_rep] states which orders the structure holds, counting
    the pool blocks that nothing points to any more ([leaked]). *)

From S2P Require Import Prelude Types Wire Framing MemPool LFQueue Sockets McastSocket MarketDataPublisher.

Record SnapshotSynthesizer := mkSnapshotSynthesizer {
  snapshot_md_updates_ : LFQueue MDPMarketUpdate;
  snapshot_socket_ : McastSocket;
  ticker_orders_ : gmap (Z * Z) Z;
  order_pool_ : MemPool MEMarketUpdate;
  last_inc_seq_num_ : Z;
  next_snap_seq_num_ : Z;
  last_snapshot_time_ : Nanos;
  snapshot_update_ : MDPMarketUpdate;
}.

Definition set_ss_queue v s : SnapshotSynthesizer := mkSnapshotSynthesizer v (snapshot_socket_ s)
  (ticker_orders_ s) (order_pool_ s) (last_inc_seq_num_ s) (next_snap_seq_num_ s) (last_snapshot_time_ s) (snapshot_update_ s).
Definition set_ss_orders v s : SnapshotSynthesizer := mkSnapshotSynthesizer (snapshot_md_updates_ s) (snapshot_socket_ s)
  v (order_pool_ s) (last_inc_seq_num_ s) (next_snap_seq_num_ s) (last_snapshot_time_ s) (snapshot_update_ s).
Definition set_ss_pool v s : SnapshotSynthesizer := mkSnapshotSynthesizer (snapshot_md_updates_ s) (snapshot_socket_ s)
  (ticker_orders_ s) v (last_inc_seq_num_ s) (next_snap_seq_num_ s) (last_snapshot_time_ s) (snapshot_update_ s).
Definition set_ss_last_inc v s : SnapshotSynthesizer := mkSnapshotSynthesizer (snapshot_md_updates_ s) (snapshot_socket_ s)
  (ticker_orders_ s) (order_pool_ s) v (next_snap_seq_num_ s) (last_snapshot_time_ s) (snapshot_update_ s).
Definition set_ss_time v s : SnapshotSynthesizer := mkSnapshotSynthesizer (snapshot_md_updates_ s) (snapshot_socket_ s)
  (ticker_orders_ s) (order_pool_ s) (last_inc_seq_num_ s) (next_snap_seq_num_ s) v (snapshot_update_ s).
Definition set_ss_update n v s : SnapshotSynthesizer := mkSnapshotSynthesizer (snapshot_md_updates_ s) (snapshot_socket_ s)
  (ticker_orders_ s) (order_pool_ s) (last_inc_seq_num_ s) n (last_snapshot_time_ s) v.
Definition snap_socket : lens SnapshotSynthesizer McastSocket :=
  Lens snapshot_socket_ (λ v s, mkSnapshotSynthesizer (snapshot_md_updates_ s) v (ticker_orders_ s) (order_pool_ s)
    (last_inc_seq_num_ s) (next_snap_seq_num_ s) (last_snapshot_time_ s) (snapshot_update_ s)).
#[export] Instance snap_socket_ok : LensOk snap_socket.
Proof. split; [done|by intros []|done]. Qed.

Definition set_mu_type t (u : MEMarketUpdate) : MEMarketUpdate := mkMEMarketUpdate t (mu_ticker_id_ u)
  (mu_side_ u) (mu_price_ u) (mu_qty_ u) (mu_order_id_ u) (mu_priority_ u).
Definition set_mu_qty q (u : MEMarketUpdate) : MEMarketUpdate := mkMEMarketUpdate (mu_type_ u) (mu_ticker_id_ u)
  (mu_side_ u) (mu_price_ u) q (mu_order_id_ u) (mu_priority_ u).
Definition set_mu_order_id i (u : MEMarketUpdate) : MEMarketUpdate := mkMEMarketUpdate (mu_type_ u) (mu_ticker_id_ u)
  (mu_side_ u) (mu_price_ u) (mu_qty_ u) i (mu_priority_ u).

(** 60 seconds. *)
Definition SNAPSHOT_INTERVAL : Nanos := 60 * (1000 * 1000 * 1000).

Section SnapshotSynthesizer.
Context `{Config, NetConfig}.
Local Abbreviation MS := (M SnapshotSynthesizer).
Implicit Types (s : SnapshotSynthesizer) (u : MEMarketUpdate) (net : Z → SendResult * RecvResult).

Definition SnapshotSynthesizer_new (snapshot_md_updates : LFQueue MDPMarketUpdate) (created : Z) :
  res SnapshotSynthesizer :=
  match mc_init created true false McastSocket_new with
  | Err f => Err f
  | Ok (fd, s) =>
      if 0 <=? fd then
        Ok (mkSnapshotSynthesizer snapshot_md_updates s ∅ (mp_new ME_MAX_ORDER_IDS) 0 1 0 inhabitant)
      else Err (Fatal "SnapshotSynthesizer socket init failed")
  end.

Definition addToSnapshot (update : MDPMarketUpdate) : MS unit :=
  let mu := me_market_update_ update in
  modify (set_ss_last_inc (md_seq_num_ update));;
  let ticker_id := mu_ticker_id_ mu in
  let order_id := mu_order_id_ mu in
  let indexes_book :=
    bool_decide (mu_type_ mu = MarketUpdateType.ADD) || bool_decide (mu_type_ mu = MarketUpdateType.MODIFY) ||
    bool_decide (mu_type_ mu = MarketUpdateType.CANCEL) in
  if indexes_book && ((ME_MAX_TICKERS <=? ticker_id) || (ME_MAX_ORDER_IDS <=? order_id)) then mret tt
  else
    match mu_type_ mu with
    | MarketUpdateType.ADD =>
        P ← gets order_pool_;
        '(order, P) ← lift (allocate mu P);
        modify (set_ss_pool P);;
        modify (λ s, set_ss_orders (<[ (ticker_id, order_id) := order ]> (ticker_orders_ s)) s)
    | MarketUpdateType.MODIFY =>
        orders ← gets ticker_orders_;
        match orders !! (ticker_id, order_id) with
        | Some order => modify (λ s, set_ss_pool (pool_mod (set_mu_qty (mu_qty_ mu)) order (order_pool_ s)) s)
        | None => mret tt
        end
    | MarketUpdateType.CANCEL =>
        orders ← gets ticker_orders_;
        match orders !! (ticker_id, order_id) with
        | Some order =>
            P ← gets order_pool_;
            P ← lift (deallocate order P);
            modify (set_ss_pool P);;
            modify (λ s, set_ss_orders (delete (ticker_id, order_id) (ticker_orders_ s)) s)
        | None => mret tt
        end
    | _ => mret tt
    end.

(** One message of a cycle: number it, send it, flush. *)
Definition send_snapshot_update net u : MS unit :=
  seq ← gets next_snap_seq_num_;
  modify (set_ss_update (u64 (seq + 1)) (mkMDPMarketUpdate seq u));;
  zoom snap_socket (mc_send (wput (mkMDPMarketUpdate seq u)));;
  mc_sendAndRecv snap_socket None (net seq).1 (net seq).2;;
  mret tt.

(** The inner loop's body. *)
Definition publish_order net (ticker oid : Z) : MS unit :=
  orders ← gets ticker_orders_;
  match orders !! (ticker, oid) with
  | None => mret tt
  | Some order =>
      u ← gets (λ s, pool_get (order_pool_ s) order);
      send_snapshot_update net (set_mu_type MarketUpdateType.ADD u)
  end.

(** [now] is the time read at the end. *)
Definition publishSnapshot net (now : Nanos) : MS unit :=
  send_snapshot_update net (set_mu_type MarketUpdateType.CLEAR inhabitant);;
  u ← gets (λ s, me_market_update_ (snapshot_update_ s));
  send_snapshot_update net (set_mu_type MarketUpdateType.SNAPSHOT_START u);;
  for_each (λ ticker, for_each (publish_order net ticker) (seqZ 0 ME_MAX_ORDER_IDS)) (seqZ 0 ME_MAX_TICKERS);;
  last_inc ← gets last_inc_seq_num_;
  send_snapshot_update net (set_mu_order_id last_inc (set_mu_type MarketUpdateType.SNAPSHOT_END inhabitant));;
  modify (set_ss_time now).

(** One turn of [run]; [now] is the clock at the test, [now'] after a publication. *)
Definition ss_run_once net (now now' : Nanos) : MS unit :=
  q ← gets snapshot_md_updates_;
  let '(update, q) := peek q in
  modify (set_ss_queue q);;
  last ← gets last_snapshot_time_;
  match update with
  | None =>
      if (0 <? last) && (SNAPSHOT_INTERVAL <? now - last) then publishSnapshot net now' else mret tt
  | Some update =>
      addToSnapshot update;;
      q ← gets snapshot_md_updates_; q ← lift (pop q); modify (set_ss_queue q);;
      if last =? 0 then modify (set_ss_time now)
      else if SNAPSHOT_INTERVAL <? now - last then publishSnapshot net now'
      else mret tt
  end.
End SnapshotSynthesizer.

(** ** The orders held *)

Section image.
Context `{Cfg : Config, NCfg : NetConfig}.
Implicit Types (s : SnapshotSynthesizer) (u : MEMarketUpdate) (m : gmap (Z * Z) MEMarketUpdate) (leaked : list Z).

Definition key_of u : Z * Z := (mu_ticker_id_ u, mu_order_id_ u).
Definition in_tables u : bool := (mu_ticker_id_ u <? ME_MAX_TICKERS) && (mu_order_id_ u <? ME_MAX_ORDER_IDS).

(** The effect of an update on the orders held. *)
Definition image_update u m : gmap (Z * Z) MEMarketUpdate :=
  if in_tables u then
    match mu_type_ u with
    | MarketUpdateType.ADD => <[ key_of u := u ]> m
    | MarketUpdateType.MODIFY => alter (set_mu_qty (mu_qty_ u)) (key_of u) m
    | MarketUpdateType.CANCEL => delete (key_of u) m
    | _ => m
    end
  else m.

Definition pointers s : list Z := (map_to_list (ticker_orders_ s)).*2.

Record image_rep m leaked s : Prop := {
  im_pool : pool_ok (order_pool_ s) (leaked ++ pointers s);
  im_size : mp_size (order_pool_ s) = ME_MAX_ORDER_IDS;
  im_get : ∀ k, m !! k = pool_get (order_pool_ s) <$> (ticker_orders_ s !! k);
}.

Lemma pointers_insert (k : Z * Z) (i : Z) (T : gmap (Z * Z) Z) :
  (map_to_list (<[ k := i ]> T)).*2 ≡ₚ i :: (map_to_list (delete k T)).*2.
Proof. by rewrite <- insert_delete_eq, map_to_list_insert by apply lookup_delete_eq. Qed.

Lemma pointers_delete (k : Z * Z) (i : Z) (T : gmap (Z * Z) Z) :
  T !! k = Some i → (map_to_list T).*2 ≡ₚ i :: (map_to_list (delete k T)).*2.
Proof. intros Hk. by rewrite <- (map_to_list_delete T k i Hk). Qed.

Lemma pointer_elem (k : Z * Z) (i : Z) (T : gmap (Z * Z) Z) : T !! k = Some i → i ∈ (map_to_list T).*2.
Proof. intros Hk. apply list_elem_of_fmap. exists (k, i). by rewrite elem_of_map_to_list. Qed.

(** A block is live under one key only. *)
Lemma pointers_inj (l : list Z) (T : gmap (Z * Z) Z) (k k' : Z * Z) (i : Z) :
  NoDup (l ++ (map_to_list T).*2) → T !! k = Some i → T !! k' = Some i → k = k'.
Proof.
  intros Hnd Hk Hk'. destruct (decide (k = k')) as [|Hne]; [done|]. exfalso.
  apply NoDup_app_inv in Hnd as (_ & Hnd & _). rewrite (pointers_delete _ _ _ Hk) in Hnd.
  apply NoDup_cons in Hnd as [Hni _]. apply Hni. apply (pointer_elem k'). by rewrite lookup_delete_ne.
Qed.

(** Evaluate the test of the update type, once the type is known. *)
Ltac indexes v :=
  match goal with
  | |- context [bool_decide ?a || bool_decide ?b || bool_decide ?c] =>
      change (bool_decide a || bool_decide b || bool_decide c) with v
  end.

(** How many blocks are in use. *)
Definition in_use leaked s : Z := Z.of_nat (length leaked + base.size (ticker_orders_ s)).

Lemma in_use_length leaked s : in_use leaked s = Z.of_nat (length (leaked ++ pointers s)).
Proof. unfold in_use, pointers. by rewrite length_app, length_fmap, length_map_to_list. Qed.

Definition after_update seq P T s : SnapshotSynthesizer := set_ss_orders T (set_ss_pool P (set_ss_last_inc seq s)).

Lemma add_image m leaked s seq u :
  image_rep m leaked s → mu_type_ u = MarketUpdateType.ADD → in_tables u = true →
  if in_use leaked s <? ME_MAX_ORDER_IDS
  then ∃ P T leaked', addToSnapshot (mkMDPMarketUpdate seq u) s = Ok (tt, after_update seq P T s) ∧
    image_rep (<[ key_of u := u ]> m) leaked' (after_update seq P T s) ∧
    leaked' = leaked ++ match ticker_orders_ s !! key_of u with Some i => [i] | None => [] end
  else addToSnapshot (mkMDPMarketUpdate seq u) s = Err (Fatal "MemPool exhausted").
Proof.
  intros [Hp Hsz Hg] Ht Hin. unfold in_tables in Hin. apply andb_true_iff in Hin as [H1 H2].
  rewrite in_use_length.
  unfold addToSnapshot. rewrite bind_modify. cbn [me_market_update_ md_seq_num_]. rewrite Ht.
  indexes true. cbn [andb].
  rewrite Z.leb_antisym, H1, Z.leb_antisym, H2. cbn [negb orb]. rewrite bind_gets.
  cbn [order_pool_ set_ss_last_inc]. case Z.ltb_spec; intros Hlt.
  - destruct (allocate_spec u (order_pool_ s) _ Hp) as (i & P & Ha & Hni & Hp' & Hsz' & Hget); [lia|].
    erewrite bind_Ok; [|unfold lift; rewrite Ha; reflexivity]. cbv beta iota. rewrite bind_modify.
    eexists P, _, _. split; [reflexivity|]. split; [|reflexivity]. split; cbn; [|by rewrite Hsz'|].
    + unfold pointers in *. cbn [ticker_orders_ after_update set_ss_orders set_ss_pool set_ss_last_inc].
      change (mu_ticker_id_ u, mu_order_id_ u) with (key_of u). rewrite pointers_insert.
      destruct (ticker_orders_ s !! key_of u) as [j|] eqn:Ek.
      * rewrite <- (assoc (++)). cbn [app]. rewrite (pointers_delete _ _ _ Ek) in Hp'.
        eapply pool_ok_perm; [|exact Hp']. by rewrite !Permutation_middle, (Permutation_swap i j).
      * rewrite app_nil_r, delete_id by done. eapply pool_ok_perm; [|exact Hp']. by rewrite Permutation_middle.
    + intros k. change (mu_ticker_id_ u, mu_order_id_ u) with (key_of u). destruct (decide (k = key_of u)) as [->|Hne].
      * rewrite !lookup_insert_eq. cbn. by rewrite Hget, decide_True.
      * rewrite !lookup_insert_ne by done. rewrite Hg. destruct (ticker_orders_ s !! k) as [j|] eqn:Ek; [|done].
        cbn. rewrite Hget, decide_False; [done|]. intros ->. apply Hni, elem_of_app. right. by eapply pointer_elem.
  - rewrite (bind_Err _ _ _ (Fatal "MemPool exhausted")); [done|]. unfold lift. rewrite (allocate_full u _ _ Hp); [done|].
    pose proof (pool_ok_capacity _ _ Hp). lia.
Qed.

Lemma same_image m leaked s seq u :
  image_rep m leaked s → addToSnapshot (mkMDPMarketUpdate seq u) s = Ok (tt, set_ss_last_inc seq s) →
  ∃ P T leaked', addToSnapshot (mkMDPMarketUpdate seq u) s = Ok (tt, after_update seq P T s) ∧
    image_rep m leaked' (after_update seq P T s) ∧ leaked' = leaked ++ [].
Proof.
  intros [Hp Hsz Hg] E. exists (order_pool_ s), (ticker_orders_ s), leaked.
  rewrite app_nil_r, E. by split.
Qed.

Lemma modify_image m leaked s seq u :
  image_rep m leaked s → mu_type_ u = MarketUpdateType.MODIFY → in_tables u = true →
  ∃ P T leaked', addToSnapshot (mkMDPMarketUpdate seq u) s = Ok (tt, after_update seq P T s) ∧
    image_rep (alter (set_mu_qty (mu_qty_ u)) (key_of u) m) leaked' (after_update seq P T s) ∧ leaked' = leaked ++ [].
Proof.
  intros Hrep Ht Hin. unfold in_tables in Hin. apply andb_true_iff in Hin as [H1 H2].
  assert (E : addToSnapshot (mkMDPMarketUpdate seq u) s = match ticker_orders_ s !! key_of u with
    | Some i => Ok (tt, set_ss_pool (pool_mod (set_mu_qty (mu_qty_ u)) i (order_pool_ s)) (set_ss_last_inc seq s))
    | None => Ok (tt, set_ss_last_inc seq s) end).
  { unfold addToSnapshot. rewrite bind_modify. cbn [me_market_update_ md_seq_num_]. rewrite Ht.
    indexes true. cbn [andb].
    rewrite Z.leb_antisym, H1, Z.leb_antisym, H2. cbn [negb orb]. rewrite bind_gets.
    change (mu_ticker_id_ u, mu_order_id_ u) with (key_of u). cbn [ticker_orders_ set_ss_last_inc]. by case_match. }
  pose proof Hrep as [Hp Hsz Hg]. destruct (ticker_orders_ s !! key_of u) as [i|] eqn:Ek.
  - exists (pool_mod (set_mu_qty (mu_qty_ u)) i (order_pool_ s)), (ticker_orders_ s), leaked.
    rewrite app_nil_r, E. split; [done|]. split; [|done].
    split; [by apply pool_ok_mod|done|]. intros k. cbn. destruct (decide (k = key_of u)) as [->|Hne].
    + rewrite lookup_alter_eq, Hg, Ek. cbn. by rewrite pool_get_mod, decide_True.
    + rewrite lookup_alter_ne, Hg by done. destruct (ticker_orders_ s !! k) as [j|] eqn:Ej; [|done]. cbn.
      rewrite pool_get_mod, decide_False; [done|]. intros ->. apply Hne.
      eapply pointers_inj; [apply (po_nodup _ _ Hp)|done..].
  - rewrite alter_id by (intros x Hx; rewrite Hg, Ek in Hx; done). by apply same_image.
Qed.

Lemma cancel_image m leaked s seq u :
  image_rep m leaked s → mu_type_ u = MarketUpdateType.CANCEL → in_tables u = true →
  ∃ P T leaked', addToSnapshot (mkMDPMarketUpdate seq u) s = Ok (tt, after_update seq P T s) ∧
    image_rep (delete (key_of u) m) leaked' (after_update seq P T s) ∧ leaked' = leaked ++ [].
Proof.
  intros Hrep Ht Hin. unfold in_tables in Hin. apply andb_true_iff in Hin as [H1 H2].
  pose proof Hrep as [Hp Hsz Hg]. destruct (ticker_orders_ s !! key_of u) as [i|] eqn:Ek.
  - assert (Hperm : leaked ++ pointers s ≡ₚ i :: leaked ++ (map_to_list (delete (key_of u) (ticker_orders_ s))).*2).
    { unfold pointers. by rewrite (pointers_delete _ _ _ Ek), Permutation_middle. }
    rewrite Hperm in Hp. destruct (deallocate_spec i (order_pool_ s) _ Hp) as (P & Hd & Hp' & Hsz' & Hget).
    exists P, (delete (key_of u) (ticker_orders_ s)), leaked. split_and!; [| |by rewrite app_nil_r].
    + unfold addToSnapshot. rewrite bind_modify. cbn [me_market_update_ md_seq_num_]. rewrite Ht.
      indexes true. cbn [andb].
      rewrite Z.leb_antisym, H1, Z.leb_antisym, H2. cbn [negb orb]. rewrite bind_gets.
      change (mu_ticker_id_ u, mu_order_id_ u) with (key_of u). cbn [ticker_orders_ set_ss_last_inc].
      rewrite Ek, bind_gets. cbn [order_pool_ set_ss_last_inc].
      erewrite bind_Ok; [|unfold lift; rewrite Hd; reflexivity]. cbv beta. by rewrite bind_modify.
    + split; cbn; [done|by rewrite Hsz'|]. intros k. destruct (decide (k = key_of u)) as [->|Hne].
      * by rewrite !lookup_delete_eq.
      * rewrite !lookup_delete_ne, Hg by done. destruct (ticker_orders_ s !! k); [|done]. cbn. by rewrite Hget.
  - rewrite delete_id by (by rewrite Hg, Ek). apply same_image; [done|].
    unfold addToSnapshot. rewrite bind_modify. cbn [me_market_update_ md_seq_num_]. rewrite Ht.
    indexes true. cbn [andb].
    rewrite Z.leb_antisym, H1, Z.leb_antisym, H2. cbn [negb orb]. rewrite bind_gets.
    change (mu_ticker_id_ u, mu_order_id_ u) with (key_of u). cbn [ticker_orders_ set_ss_last_inc]. by rewrite Ek.
Qed.

Lemma other_image s seq u :
  in_tables u = false ∨ mu_type_ u ∉ [MarketUpdateType.ADD; MarketUpdateType.MODIFY; MarketUpdateType.CANCEL] →
  addToSnapshot (mkMDPMarketUpdate seq u) s = Ok (tt, set_ss_last_inc seq s).
Proof.
  intros Hu. unfold addToSnapshot. rewrite bind_modify. cbn [me_market_update_ md_seq_num_].
  assert (Hb : (ME_MAX_TICKERS <=? mu_ticker_id_ u) || (ME_MAX_ORDER_IDS <=? mu_order_id_ u) = negb (in_tables u)).
  { unfold in_tables. by rewrite negb_andb, <- !Z.leb_antisym. }
  rewrite Hb. destruct Hu as [->|Hu]; cbn [negb].
  - rewrite andb_true_r. by destruct (mu_type_ u).
  - destruct (mu_type_ u); try (exfalso; set_solver); indexes false; done.
Qed.

Lemma addToSnapshot_spec m leaked s seq u :
  image_rep m leaked s →
  let add := bool_decide (mu_type_ u = MarketUpdateType.ADD) && in_tables u in
  if add && negb (in_use leaked s <? ME_MAX_ORDER_IDS)
  then addToSnapshot (mkMDPMarketUpdate seq u) s = Err (Fatal "MemPool exhausted")
  else ∃ P T leaked', addToSnapshot (mkMDPMarketUpdate seq u) s = Ok (tt, after_update seq P T s) ∧
    image_rep (image_update u m) leaked' (after_update seq P T s) ∧
    leaked' = leaked ++ match (if add then ticker_orders_ s !! key_of u else None) with Some i => [i] | None => [] end.
Proof.
  intros Hrep add. subst add. unfold image_update. destruct (in_tables u) eqn:Hin.
  - rewrite andb_true_r. case_bool_decide as Ht; cbn [andb].
    + rewrite Ht. pose proof (add_image m leaked s seq u Hrep Ht Hin) as Ha.
      by destruct (in_use leaked s <? ME_MAX_ORDER_IDS).
    + destruct (mu_type_ u) eqn:E; try done; try (apply same_image; [done|apply other_image; right; rewrite E; set_solver]).
      * by apply modify_image.
      * by apply cancel_image.
  - rewrite andb_false_r. cbn [andb]. apply same_image; [done|]. apply other_image. by left.
Qed.

(** C27: the synthesizer's structure is exactly the map of resting orders.
    Applying an update to a synthesizer that holds the orders [m] ends with it
    holding [image_update u m] (ids out of range and unknown orders change
    nothing) and [last_inc_seq_num_] set; no block is handed out twice or freed
    wrongly.  The one fault is an ADD that finds the pool, shared by all
    tickers, in full use, and the one leak an ADD on an id still live. *)
Theorem addToSnapshot_refines m leaked s seq u :
  image_rep m leaked s →
  let add := bool_decide (mu_type_ u = MarketUpdateType.ADD) && in_tables u in
  if add && negb (in_use leaked s <? ME_MAX_ORDER_IDS)
  then addToSnapshot (mkMDPMarketUpdate seq u) s = Err (Fatal "MemPool exhausted")
  else ∃ P T leaked', addToSnapshot (mkMDPMarketUpdate seq u) s = Ok (tt, after_update seq P T s) ∧
    image_rep (image_update u m) leaked' (after_update seq P T s) ∧
    leaked' = leaked ++ match (if add then ticker_orders_ s !! key_of u else None) with Some i => [i] | None => [] end.
Proof. apply addToSnapshot_spec. Qed.
End image.

(** ** The cycle sent *)

Section cycle.
Context `{Cfg : Config, NCfg : NetConfig}.
Implicit Types (s : SnapshotSynthesizer) (u : MEMarketUpdate) (m : gmap (Z * Z) MEMarketUpdate)
  (ms : list MDPMarketUpdate) (net : Z → SendResult * RecvResult).

Definition as_add u : MEMarketUpdate := set_mu_type MarketUpdateType.ADD u.
(** The orders of a ticker among the ids [oids], in their order. *)
Definition held m (oids : list Z) (ticker : Z) : list MEMarketUpdate := omap (λ oid, m !! (ticker, oid)) oids.
Definition cycle_adds m : list MEMarketUpdate :=
  as_add <$> (seqZ 0 ME_MAX_TICKERS ≫= held m (seqZ 0 ME_MAX_ORDER_IDS)).
Definition clear_update : MEMarketUpdate := set_mu_type MarketUpdateType.CLEAR inhabitant.
Definition start_update : MEMarketUpdate := set_mu_type MarketUpdateType.SNAPSHOT_START clear_update.
Definition end_update (last : Z) : MEMarketUpdate :=
  set_mu_order_id last (set_mu_type MarketUpdateType.SNAPSHOT_END inhabitant).
(** CLEAR, SNAPSHOT_START, the orders by ticker and id, SNAPSHOT_END. *)
Definition snapshot_cycle m (last : Z) : list MEMarketUpdate :=
  clear_update :: start_update :: cycle_adds m ++ [end_update last].

Section send.
Context (L Q : Prop) (net : Z → SendResult * RecvResult) (D : list (list byte)).
Context (m : gmap (Z * Z) MEMarketUpdate) (leaked : list Z) (last : Z) (total : Z).
Hypothesis net_lossless : L → ∀ k, (net k).1 ≠ SendError.
Hypothesis net_prompt : Q → ∀ k, ∃ n, (net k).1 = Sent n.
(** The send buffer never fills: it has room for everything, or never has to. *)
Hypothesis roomy : 42 * total ≤ McastBufferSize ∨ Q ∧ 42 ≤ McastBufferSize.

(** In the middle of a cycle: [ms] sent, [n] comes next. *)
Record in_cycle (n : Z) ms s : Prop := {
  ic_image : image_rep m leaked s;
  ic_last : last_inc_seq_num_ s = last;
  ic_seq : next_snap_seq_num_ s = n;
  ic_sock : ∃ runs rest, carries L Q D ms 0 (snapshot_socket_ s) runs rest;
}.
Local Set Default Proof Using "All".

Lemma snap_sendAndRecv k s :
  ∃ b, mc_sendAndRecv snap_socket None (net k).1 (net k).2 s =
    Ok (b, lset snap_socket (filled (net k).2 (flushed (net k).1 (snapshot_socket_ s))) s).
Proof.
  pose proof (mc_sendAndRecv_spec snap_socket snap_socket_ok None (net k).1 (net k).2 s) as E. cbv zeta in E.
  revert E. case_decide; intros E; rewrite E; by eexists.
Qed.

Lemma send_snapshot_update_spec n ms s u :
  in_cycle n ms s → Z.of_nat (S (length ms)) ≤ total →
  ∃ s', send_snapshot_update net u s = Ok (tt, s') ∧
    in_cycle (u64 (n + 1)) (ms ++ [mkMDPMarketUpdate n u]) s' ∧
    me_market_update_ (snapshot_update_ s') = u.
Proof.
  intros [[Hp Hsz Hg] Hl Hn (runs & rest & Hc)] Ht. unfold send_snapshot_update. rewrite bind_gets, bind_modify, Hn.
  set (msg := mkMDPMarketUpdate n u). set (s1 := set_ss_update _ _ s). set (k := snapshot_socket_ s).
  assert (Hidx : next_send_valid_index_ k + 42 ≤ McastBufferSize).
  { pose proof (carries_room _ _ _ _ _ _ _ _ Hc) as Hroom. fold k in Hroom. destruct roomy as [Hr|[HQ Hr]]; [lia|].
    destruct (ca_size _ _ _ _ _ _ _ _ Hc HQ) as [_ Hr0]. unfold next_send_valid_index_.
    rewrite (ca_buf _ _ _ _ _ _ _ _ Hc : send_buffer_ k = _), encode_length. lia. }
  assert (E : zoom snap_socket (mc_send (wput msg)) s1 =
    Ok (tt, lset snap_socket (set_mc_send (send_buffer_ k ++ wput msg) k) s1)).
  { apply zoom_Ok, mc_send_Ok. rewrite wput_length. change (Z.of_nat (wsize MDPMarketUpdate)) with 42.
    exact Hidx. }
  rewrite (bind_Ok _ _ _ _ _ E). pose proof (carries_send _ _ _ _ _ _ _ _ msg Hc) as Hc1.
  destruct (snap_sendAndRecv n (lset snap_socket (set_mc_send (send_buffer_ k ++ wput msg) k) s1)) as [b Hsr].
  rewrite (bind_Ok _ _ _ _ _ Hsr).
  destruct (carries_flush _ _ _ _ _ _ _ _ (net n).1 (λ H, net_lossless H n) (λ H, net_prompt H n) Hc1)
    as (runs' & rest' & Hc2 & _); [lia|].
  eexists. split; [reflexivity|]. split; [|done]. split; [by split|done|done|].
  exists runs', rest'. by apply carries_received.
Qed.

Lemma publish_orders_spec ticker oids : ∀ n ms s,
  in_cycle n ms s → Z.of_nat (length ms + length (held m oids ticker)) ≤ total →
  ∃ s', for_each (publish_order net ticker) oids s = Ok (tt, s') ∧
    let us := as_add <$> held m oids ticker in
    in_cycle (foldl (λ n _, u64 (n + 1)) n us) (ms ++ numbered_from n us) s'.
Proof.
  induction oids as [|oid oids IH]; intros n ms s Hc Ht.
  - exists s. split; [done|]. cbn. by rewrite app_nil_r.
  - cbn [for_each]. pose proof (im_get _ _ _ (ic_image _ _ _ Hc) (ticker, oid)) as Hg.
    assert (Hh : held m (oid :: oids) ticker = match m !! (ticker, oid) with
      Some u => u :: held m oids ticker | None => held m oids ticker end) by done.
    rewrite Hh in Ht |- *. clear Hh. destruct (ticker_orders_ s !! (ticker, oid)) as [i|] eqn:Ei.
    + cbn in Hg. rewrite Hg in Ht |- *. cbn [length] in Ht.
      destruct (send_snapshot_update_spec n ms s (as_add (pool_get (order_pool_ s) i)) Hc) as (s1 & H1 & Hc1 & _); [lia|].
      destruct (IH _ _ _ Hc1) as (s2 & H2 & Hc2); [rewrite length_app; cbn [length]; lia|].
      assert (E : publish_order net ticker oid s = Ok (tt, s1)).
      { unfold publish_order. by rewrite bind_gets, Ei, bind_gets. }
      exists s2. split.
      * by rewrite (bind_Ok _ _ _ _ _ E).
      * cbv zeta in Hc2. rewrite <- app_assoc in Hc2. exact Hc2.
    + cbn in Hg. rewrite Hg in Ht |- *. destruct (IH _ _ _ Hc Ht) as (s2 & H2 & Hc2). exists s2. split; [|done].
      assert (E : publish_order net ticker oid s = Ok (tt, s)).
      { unfold publish_order. by rewrite bind_gets, Ei. }
      by rewrite (bind_Ok _ _ _ _ _ E).
Qed.

Lemma publish_tickers_spec oids tickers : ∀ n ms s,
  in_cycle n ms s → Z.of_nat (length ms + length (tickers ≫= held m oids)) ≤ total →
  ∃ s', for_each (λ ticker, for_each (publish_order net ticker) oids) tickers s = Ok (tt, s') ∧
    let us := as_add <$> (tickers ≫= held m oids) in
    in_cycle (foldl (λ n _, u64 (n + 1)) n us) (ms ++ numbered_from n us) s'.
Proof.
  induction tickers as [|t tickers IH]; intros n ms s Hc Ht.
  - exists s. split; [done|]. cbn. by rewrite app_nil_r.
  - cbn [for_each]. rewrite bind_cons, length_app in Ht. rewrite bind_cons.
    destruct (publish_orders_spec t oids n ms s Hc) as (s1 & H1 & Hc1); [lia|]. cbv zeta in Hc1.
    destruct (IH _ _ _ Hc1) as (s2 & H2 & Hc2); [rewrite length_app, numbered_length, length_fmap; lia|].
    exists s2. split; [by rewrite (bind_Ok _ _ _ _ _ H1)|]. cbv zeta in *.
    rewrite fmap_app, foldl_app, numbered_foldl, (assoc (++)). exact Hc2.
Qed.

(** The whole publication. *)
Lemma publishSnapshot_spec now n s :
  in_cycle n [] s → Z.of_nat (length (snapshot_cycle m last)) ≤ total →
  ∃ s' n', publishSnapshot net now s = Ok (tt, s') ∧
    in_cycle n' (numbered_from n (snapshot_cycle m last)) s' ∧ last_snapshot_time_ s' = now.
Proof.
  intros Hc Ht. unfold snapshot_cycle in *. cbn [length] in Ht. rewrite length_app in Ht. cbn [length] in Ht.
  unfold cycle_adds in *. rewrite length_fmap in Ht. set (os := seqZ 0 ME_MAX_TICKERS ≫= _) in *.
  unfold publishSnapshot.
  destruct (send_snapshot_update_spec n [] s clear_update Hc) as (s1 & H1 & Hc1 & Hu1); [cbn; lia|].
  rewrite (bind_Ok _ _ _ _ _ H1), bind_gets, Hu1. cbn [app] in Hc1.
  destruct (send_snapshot_update_spec _ _ s1 start_update Hc1) as (s2 & H2 & Hc2 & _); [cbn; lia|].
  rewrite (bind_Ok _ _ _ _ _ H2).
  destruct (publish_tickers_spec (seqZ 0 ME_MAX_ORDER_IDS) (seqZ 0 ME_MAX_TICKERS) _ _ s2 Hc2) as (s3 & H3 & Hc3);
    [cbn [length app]; fold os; lia|].
  rewrite (bind_Ok _ _ _ _ _ H3), bind_gets, (ic_last _ _ _ Hc3). cbv zeta in Hc3. fold os in Hc3.
  destruct (send_snapshot_update_spec _ _ s3 (end_update last) Hc3) as (s4 & H4 & Hc4 & _);
    [rewrite length_app, numbered_length, length_fmap; cbn [length app]; lia|].
  rewrite (bind_Ok _ _ _ _ _ H4). eexists _, _. split; [reflexivity|]. split; [|done].
  cbn [numbered_from]. rewrite numbered_foldl. cbn [numbered_from].
  cbn [app] in Hc4. destruct Hc4 as [Hi4 Hl4 Hn4 Hs4].
  split; [by destruct Hi4; split|done|done|done].
Qed.
End send.

(** The kernel's answers, by message number. *)
Definition snap_prompt net : Prop := ∀ k, ∃ n, (net k).1 = Sent n.
Definition snap_lossless net : Prop := ∀ k, (net k).1 ≠ SendError.

(** C28: a published snapshot is a complete cycle.  [publishSnapshot] on a
    synthesizer that holds the orders [m] sends, under consecutive numbers,
    CLEAR, SNAPSHOT_START, one ADD per order held, by ticker and id, and a
    SNAPSHOT_END carrying the last incremental number applied; the orders stay
    as they are.  Whatever the kernel answers each datagram is a run of whole
    messages, in order and sent once; if no send fails outright, datagrams and
    send buffer hold the whole cycle, and a prompt kernel has all of it. *)
Theorem publishSnapshot_cycle net now m leaked n s :
  image_rep m leaked s → next_snap_seq_num_ s = n → send_buffer_ (snapshot_socket_ s) = [] →
  let msgs := numbered_from n (snapshot_cycle m (last_inc_seq_num_ s)) in
  42 * Z.of_nat (length msgs) ≤ McastBufferSize ∨ snap_prompt net ∧ 42 ≤ McastBufferSize →
  ∃ s' runs rest, publishSnapshot net now s = Ok (tt, s') ∧ image_rep m leaked s' ∧
    last_inc_seq_num_ s' = last_inc_seq_num_ s ∧ last_snapshot_time_ s' = now ∧
    datagrams_ (snapshot_socket_ s') = datagrams_ (snapshot_socket_ s) ++ (encode <$> runs) ∧
    send_buffer_ (snapshot_socket_ s') = encode rest ∧
    mjoin runs ++ rest `sublist_of` msgs ∧
    (snap_lossless net → mjoin runs ++ rest = msgs) ∧ (snap_prompt net → rest = []).
Proof.
  intros Hi Hn Hb msgs Hroom. unfold msgs in Hroom. rewrite numbered_length in Hroom.
  destruct (publishSnapshot_spec (snap_lossless net) (snap_prompt net) net (datagrams_ (snapshot_socket_ s)) m leaked
    (last_inc_seq_num_ s) (Z.of_nat (length (snapshot_cycle m (last_inc_seq_num_ s)))) (λ H, H) (λ H, H) Hroom now n s)
    as (s' & n' & H1 & [Hi' Hl' _ (runs & rest & [Hw Hbf Ho Ha Hs])] & Ht); [|done|].
  - split; [done..|]. exists [], []. split; cbn; [by rewrite app_nil_r|done|done|done|]. by split.
  - exists s', runs, rest. split_and!; try done. intros Hp. destruct (Hs Hp) as [_ Hr].
    by destruct rest; cbn in Hr; [|lia].
Qed.
End cycle.
