(* ===== verification/FIFOSequencer.v ===== *)
(** Exchange::FIFOSequencer (Exchange/order_server/fifo_sequencer.h): buffers
    the requests of one poll cycle and publishes them to the matching engine in
    the order of their kernel receive times. *)

From S2P Require Import Prelude Types LFQueue.

Definition ME_MAX_PENDING_REQUESTS : Z := 1024.

Record RecvTimeClientRequest := mkRecvTimeClientRequest {
  recv_time_ : Nanos;
  request_ : MEClientRequest;
  arrival_index_ : Z;
}.
#[export] Instance RecvTimeClientRequest_eq_dec : EqDecision RecvTimeClientRequest.
Proof. solve_decision. Defined.

(** [operator<]. *)
Definition rtcr_ltb (a b : RecvTimeClientRequest) : bool :=
  (recv_time_ a <? recv_time_ b) ||
  ((recv_time_ a =? recv_time_ b) && (arrival_index_ a <? arrival_index_ b)).
Definition rtcr_lt (a b : RecvTimeClientRequest) : Prop := rtcr_ltb a b = true.
Definition rtcr_le (a b : RecvTimeClientRequest) : Prop := rtcr_ltb b a = false.
#[export] Instance rtcr_le_dec : RelDecision rtcr_le.
Proof. intros a b. unfold rtcr_le. apply _. Defined.

(** [pending]: the first [pending_size_] entries of [pending_client_requests_]. *)
Record FIFOSequencer := mkFIFOSequencer {
  seq_incoming_requests_ : LFQueue MEClientRequest;
  pending : list RecvTimeClientRequest;
}.

Definition pending_size_ (s : FIFOSequencer) : Z := Z.of_nat (length (pending s)).

Definition FIFOSequencer_new (incoming_requests : LFQueue MEClientRequest) : FIFOSequencer :=
  mkFIFOSequencer incoming_requests [].

Definition addClientRequest (rx_time : Nanos) (request : MEClientRequest) : M FIFOSequencer unit :=
  size ← gets pending_size_;
  if ME_MAX_PENDING_REQUESTS <=? size then fail (Fatal "FIFOSequencer overflow")
  else modify (λ s, mkFIFOSequencer (seq_incoming_requests_ s)
         (pending s ++ [mkRecvTimeClientRequest rx_time request size])).

(** [std::sort] by [operator<]: the entries are pairwise comparable, so any
    sorting algorithm gives this list ([sort_unique]). *)
Definition sorted_requests (l : list RecvTimeClientRequest) : list RecvTimeClientRequest :=
  merge_sort rtcr_le l.

Definition sequenceAndPublish : M FIFOSequencer unit :=
  size ← gets pending_size_;
  if size =? 0 then mret tt
  else
    entries ← gets (λ s, sorted_requests (pending s));
    q ← gets seq_incoming_requests_;
    q ← lift (push_all (request_ <$> entries) q);
    put (mkFIFOSequencer q []).

(** ** Order *)

Lemma rtcr_ltb_spec a b :
  rtcr_ltb a b = true ↔ recv_time_ a < recv_time_ b ∨
    (recv_time_ a = recv_time_ b ∧ arrival_index_ a < arrival_index_ b).
Proof. unfold rtcr_ltb. rewrite orb_true_iff, andb_true_iff, !Z.ltb_lt, Z.eqb_eq. done. Qed.

Lemma rtcr_le_spec a b :
  rtcr_le a b ↔ recv_time_ a < recv_time_ b ∨
    (recv_time_ a = recv_time_ b ∧ arrival_index_ a ≤ arrival_index_ b).
Proof. unfold rtcr_le. rewrite <- not_true_iff_false, rtcr_ltb_spec. lia. Qed.

#[export] Instance rtcr_le_total : Total rtcr_le.
Proof. intros a b. rewrite !rtcr_le_spec. lia. Qed.
#[export] Instance rtcr_le_trans : Transitive rtcr_le.
Proof. intros a b c. rewrite !rtcr_le_spec. lia. Qed.

(** The entries of one cycle carry their position. *)
Definition numbered_from (n : Z) (l : list RecvTimeClientRequest) : Prop :=
  arrival_index_ <$> l = (λ i, n + Z.of_nat i) <$> seq 0 (length l).

Record seq_wf (s : FIFOSequencer) : Prop := {
  sw_numbered : numbered_from 0 (pending s);
  sw_size : pending_size_ s ≤ ME_MAX_PENDING_REQUESTS;
}.

Lemma numbered_snoc l rx r :
  numbered_from 0 l → numbered_from 0 (l ++ [mkRecvTimeClientRequest rx r (Z.of_nat (length l))]).
Proof.
  unfold numbered_from. intros E. rewrite length_app, seq_app, !fmap_app, E. done.
Qed.

Lemma numbered_NoDup n l : numbered_from n l → NoDup (arrival_index_ <$> l).
Proof. unfold numbered_from. intros ->. apply NoDup_fmap_2; [intros i j; lia|apply NoDup_seq]. Qed.

Lemma numbered_strict n l : numbered_from n l → StronglySorted (λ a b, arrival_index_ a < arrival_index_ b) l.
Proof.
  unfold numbered_from. intros E.
  assert (Hs : StronglySorted Z.lt (arrival_index_ <$> l)).
  { rewrite E. generalize (length l) as k, 0%nat as i. induction k as [|k IH]; intros i; [constructor|].
    cbn. constructor; [apply IH|]. apply Forall_fmap, Forall_forall. intros j Hj%elem_of_seq. cbn. lia. }
  clear E. induction l as [|a l IH]; [constructor|]. rewrite fmap_cons in Hs.
  apply StronglySorted_cons in Hs as [Hf Hs]. rewrite Forall_fmap in Hf. apply StronglySorted_cons.
  split; [exact Hf|by apply IH].
Qed.

Lemma sort_perm l : sorted_requests l ≡ₚ l.
Proof. apply merge_sort_Permutation. Qed.

Lemma sort_sorted l : StronglySorted rtcr_le (sorted_requests l).
Proof. apply (StronglySorted_merge_sort rtcr_le). Qed.

(** Pairwise distinct indices make the order strict. *)
Lemma sorted_strict l :
  NoDup (arrival_index_ <$> l) → StronglySorted rtcr_le l → StronglySorted rtcr_lt l.
Proof.
  induction l as [|a l IH]; [constructor|]. rewrite fmap_cons, NoDup_cons. intros [Ha Hn].
  rewrite !StronglySorted_cons. intros [Hf Hs]. split; [|by apply IH].
  rewrite Forall_forall in Hf |- *. intros b Hb. specialize (Hf b Hb). apply rtcr_le_spec in Hf.
  unfold rtcr_lt. rewrite rtcr_ltb_spec. assert (arrival_index_ a ≠ arrival_index_ b); [|lia].
  intros E. apply Ha. rewrite E. by apply list_elem_of_fmap_2.
Qed.

(** Any sorted arrangement of the entries is [sorted_requests]. *)
Lemma sort_unique l l' :
  NoDup (arrival_index_ <$> l) → l' ≡ₚ l → StronglySorted rtcr_le l' → l' = sorted_requests l.
Proof.
  intros Hn Hp Hs. apply (StronglySorted_unique_strong rtcr_le); [|done|apply sort_sorted|by rewrite sort_perm].
  intros a b Ha Hb Hab Hba. rewrite Hp in Ha. rewrite sort_perm in Hb.
  eapply NoDup_fmap_elem_inj; [exact Hn|done|done|]. rewrite !rtcr_le_spec in *. lia.
Qed.

(** Entries of one receive time keep their order. *)
Lemma sort_stable l t :
  StronglySorted (λ a b, arrival_index_ a < arrival_index_ b) l →
  filter (λ a, recv_time_ a = t) (sorted_requests l) = filter (λ a, recv_time_ a = t) l.
Proof.
  intros Hs. set (P := λ a, recv_time_ a = t).
  assert (Hsub : ∀ (R : relation RecvTimeClientRequest) k, StronglySorted R k → StronglySorted R (filter P k)).
  { intros R k Hk. eapply StronglySorted_sublist; [apply sublist_filter|exact Hk]. }
  apply (StronglySorted_unique_strong rtcr_le).
  - intros a b Ha Hb Hab Hba. apply list_elem_of_filter in Ha as [Ht Ha]. apply list_elem_of_filter in Hb as [Ht' Hb].
    rewrite sort_perm in Ha. unfold P in *. rewrite !rtcr_le_spec in *.
    eapply (NoDup_fmap_elem_inj arrival_index_ l); [|done|done|lia]. clear -Hs.
    induction l as [|c l IH]; [constructor|]. apply StronglySorted_cons in Hs as [Hf Hs].
    rewrite fmap_cons. apply NoDup_cons. split; [|by apply IH].
    intros (d & E & Hd)%list_elem_of_fmap. rewrite Forall_forall in Hf. specialize (Hf d Hd). lia.
  - apply Hsub, sort_sorted.
  - assert (H1 := Hsub _ _ Hs). assert (H2 : Forall P (filter P l)).
    { apply Forall_forall. intros a Ha. by apply list_elem_of_filter in Ha as [? _]. }
    clear -H1 H2. induction (filter P l) as [|a k IH]; [constructor|].
    apply StronglySorted_cons in H1 as [Hf H1]. apply Forall_cons in H2 as [Ha H2].
    apply StronglySorted_cons. split; [|by apply IH]. rewrite Forall_forall in Hf, H2 |- *.
    intros b Hb. specialize (Hf b Hb). specialize (H2 b Hb). unfold P in *. rewrite rtcr_le_spec. lia.
  - by rewrite sort_perm.
Qed.

(** ** Theorems *)

Lemma addClientRequest_spec s rx r :
  seq_wf s →
  if pending_size_ s <? ME_MAX_PENDING_REQUESTS
  then ∃ s', addClientRequest rx r s = Ok (tt, s') ∧ seq_wf s' ∧
    seq_incoming_requests_ s' = seq_incoming_requests_ s ∧
    pending s' = pending s ++ [mkRecvTimeClientRequest rx r (pending_size_ s)]
  else addClientRequest rx r s = Err (Fatal "FIFOSequencer overflow").
Proof.
  intros [Hn Hs]. unfold addClientRequest. rewrite bind_gets.
  case Z.ltb_spec; case Z.leb_spec; try lia; intros Hlt Hlt'; [|done].
  eexists. split; [reflexivity|]. split_and!; [|done..]. split; cbn.
  - by apply numbered_snoc.
  - unfold pending_size_ in *. cbn. rewrite length_app. cbn. lia.
Qed.

(** C15: fair sequencing.  At the end of a poll cycle every buffered request is
    published exactly once, in strict order of kernel receive time and, at equal
    times, of arrival; so requests read from one socket in one read keep their
    order.  The buffer is left empty, and the process exits only if the engine's
    queue cannot take the batch. *)
Theorem sequenceAndPublish_fair s n l :
  seq_wf s → q_rep (seq_incoming_requests_ s) n l → fits n l = true →
  let out := sorted_requests (pending s) in
  out ≡ₚ pending s ∧ StronglySorted rtcr_lt out ∧
  (∀ t, filter (λ a, recv_time_ a = t) out = filter (λ a, recv_time_ a = t) (pending s)) ∧
  if fits n (l ++ (request_ <$> out))
  then ∃ q, sequenceAndPublish s = Ok (tt, mkFIFOSequencer q []) ∧ q_rep q n (l ++ (request_ <$> out))
  else sequenceAndPublish s = Err (Fatal "LFQueue overflow").
Proof.
  intros [Hn Hs] Hq Hf out. split_and!.
  - apply sort_perm.
  - apply sorted_strict, sort_sorted. unfold out. rewrite sort_perm. by eapply numbered_NoDup.
  - intros t. by eapply sort_stable, numbered_strict.
  - pose proof (push_all_spec (request_ <$> out) _ _ _ Hq Hf) as Hp.
    unfold sequenceAndPublish. rewrite bind_gets. unfold pending_size_.
    case Z.eqb_spec; intros E.
    + unfold out in *. destruct s as [q [|? ?]]; [|cbn in E; lia]. cbn in *. rewrite app_nil_r, Hf. by exists q.
    + rewrite !bind_gets. fold out. destruct (fits n (l ++ (request_ <$> out))).
      * destruct Hp as (q & Hp & Hq'). exists q. split; [|done]. unfold lift. by rewrite Hp.
      * unfold lift. by rewrite Hp.
Qed.
