(* ===== verification/OrderServer.v ===== *)
(** Exchange::OrderServer (Exchange/order_server/order_server.h and .cpp): the
    TCP gateway of the exchange.  Client requests are parsed off the sockets,
    checked against the client's session (owning socket, sequence number) and
    handed to the FIFO sequencer; the matching engine's responses are numbered
    and written to the client's socket.

    Logging and latency probes are left out; nothing reads them back. *)

From S2P Require Import Prelude Types Wire Framing Sockets LFQueue FIFOSequencer.

Record OrderServer := mkOrderServer {
  fifo_sequencer_ : FIFOSequencer;
  incoming_responses_ : LFQueue MEClientResponse;
  cid_next_outgoing_seq_num_ : list Z;
  cid_next_exp_seq_num_ : list Z;
  cid_tcp_socket_ : list (option Z);
}.

Section OrderServer.
Context `{Config, NetConfig}.
Local Abbreviation OS := (M (Server OrderServer)).

(** The constructor. *)
Definition OrderServer_new client_requests client_responses : Server OrderServer :=
  let n := Z.to_nat ME_MAX_NUM_CLIENTS in
  mkServer (mkTCPServer ∅ [] [] [] [])
    (mkOrderServer (FIFOSequencer_new client_requests) client_responses
       (replicate n 1) (replicate n 1) (replicate n None)).

Definition on_app (f : OrderServer → OrderServer) : OS unit :=
  modify (λ s, mkServer (srv_tcp s) (f (srv_app s))).
Definition set_sequencer v o := mkOrderServer v (incoming_responses_ o)
  (cid_next_outgoing_seq_num_ o) (cid_next_exp_seq_num_ o) (cid_tcp_socket_ o).
Definition set_incoming v o := mkOrderServer (fifo_sequencer_ o) v
  (cid_next_outgoing_seq_num_ o) (cid_next_exp_seq_num_ o) (cid_tcp_socket_ o).
Definition set_outgoing_seq v o := mkOrderServer (fifo_sequencer_ o) (incoming_responses_ o)
  v (cid_next_exp_seq_num_ o) (cid_tcp_socket_ o).
Definition set_exp_seq v o := mkOrderServer (fifo_sequencer_ o) (incoming_responses_ o)
  (cid_next_outgoing_seq_num_ o) v (cid_tcp_socket_ o).
Definition set_cid_socket v o := mkOrderServer (fifo_sequencer_ o) (incoming_responses_ o)
  (cid_next_outgoing_seq_num_ o) (cid_next_exp_seq_num_ o) v.

(** Calls into the sequencer. *)
Definition on_sequencer (m : M FIFOSequencer unit) : OS unit :=
  q ← gets (λ s, fifo_sequencer_ (srv_app s));
  '(_, q) ← lift (m q);
  on_app (set_sequencer q).

(** [array[i]]; out of range is undefined. *)
Definition at_index {A} (f : OrderServer → list A) (i : Z) : OS A :=
  x ← gets (λ s, f (srv_app s) !! Z.to_nat i);
  match x with Some x => mret x | None => fail (UB "array index") end.

(** The disconnect callback: every session of [socket] starts afresh. *)
Definition drop_session (socket : Z) (o : OrderServer) : OrderServer :=
  let mine (c : option Z) := bool_decide (c = Some socket) in
  mkOrderServer (fifo_sequencer_ o) (incoming_responses_ o)
    (zip_with (λ c (n : Z), if mine c then 1 else n) (cid_tcp_socket_ o) (cid_next_outgoing_seq_num_ o))
    (zip_with (λ c (n : Z), if mine c then 1 else n) (cid_tcp_socket_ o) (cid_next_exp_seq_num_ o))
    ((λ c, if mine c then None else c) <$> cid_tcp_socket_ o).
Definition disconnectCallback (socket : Z) : OS unit := on_app (drop_session socket).

(** The body of the parse loop of [recvCallback] for one request. *)
Definition recvRequest (socket : Z) (rx_time : Nanos) (request : OMClientRequest) : OS unit :=
  let r := me_client_request_ request in
  if negb (bool_decide (rq_type_ r = ClientRequestType.NEW)) &&
     negb (bool_decide (rq_type_ r = ClientRequestType.CANCEL)) then mret tt
  else
    let client_id := rq_client_id_ r in
    if ME_MAX_NUM_CLIENTS <=? client_id then mret tt
    else
      c ← at_index cid_tcp_socket_ client_id;
      (match c with
       | None => on_app (λ o, set_cid_socket (<[ Z.to_nat client_id := Some socket ]> (cid_tcp_socket_ o)) o)
       | Some _ => mret tt
       end);;
      c ← at_index cid_tcp_socket_ client_id;
      if negb (bool_decide (c = Some socket)) then mret tt
      else
        expected ← at_index cid_next_exp_seq_num_ client_id;
        if negb (omrq_seq_num_ request =? expected) then mret tt
        else
          on_app (λ o, set_exp_seq (<[ Z.to_nat client_id := u64 (expected + 1) ]> (cid_next_exp_seq_num_ o)) o);;
          on_sequencer (addClientRequest rx_time r).

(** The parse loop: [while (next_rcv_valid_index - offset >= sizeof)]. *)
Fixpoint recvLoop (fuel : nat) (socket : Z) (rx_time : Nanos) (buffer : list byte) (offset : nat) : OS nat :=
  if (wsize OMClientRequest <=? length buffer - offset)%nat then
    match fuel with
    | O => fail Spin
    | S fuel =>
        recvRequest socket rx_time (wget (drop offset buffer));;
        recvLoop fuel socket rx_time buffer (offset + wsize OMClientRequest)
    end
  else mret offset.

Definition recvCallback (socket : Z) (rx_time : Nanos) : OS unit :=
  s ← sock_get socket;
  let buffer := rcv_buffer s in
  offset ← recvLoop (length buffer) socket rx_time buffer 0;
  if (0 <? offset)%nat then sock_run socket (modify (set_rcv_buffer (drop offset buffer)))
  else mret tt.

Definition recvFinishedCallback : OS unit := on_sequencer sequenceAndPublish.

(** One response: numbered and sent when its client has a live session. *)
Definition sendResponse (response : MEClientResponse) : OS unit :=
  let client_id := rs_client_id_ response in
  n ← gets (λ s, Z.of_nat (length (cid_tcp_socket_ (srv_app s))));
  if client_id <? n then
    c ← at_index cid_tcp_socket_ client_id;
    match c with
    | None => mret tt
    | Some p =>
        seq ← at_index cid_next_outgoing_seq_num_ client_id;
        sock_run p (tcp_send (le 8 seq));;
        sock_run p (tcp_send (wput response));;
        on_app (λ o, set_outgoing_seq
                       (<[ Z.to_nat client_id := u64 (seq + 1) ]> (cid_next_outgoing_seq_num_ o)) o)
    end
  else mret tt.

(** The response loop of [run]: until the queue is empty. *)
Fixpoint drainResponses (fuel : nat) : OS unit :=
  q ← gets (λ s, incoming_responses_ (srv_app s));
  let '(response, q) := peek q in
  on_app (set_incoming q);;
  match response with
  | None => mret tt
  | Some response =>
      match fuel with
      | O => fail Spin
      | S fuel =>
          sendResponse response;;
          q ← gets (λ s, incoming_responses_ (srv_app s));
          q ← lift (pop q);
          on_app (set_incoming q);;
          drainResponses fuel
      end
  end.

(** One turn of [run]: poll, receive, then drain the response queue. *)
Definition run_once (events : list Event) (accepted : list Accepted)
    (net net' : Z → RecvResult * (nat → SendResult)) : OS unit :=
  poll disconnectCallback events accepted;;
  sendAndRecv recvCallback recvFinishedCallback net net';;
  n ← gets (λ s, LFQueue.size (incoming_responses_ (srv_app s)));
  drainResponses (Z.to_nat n).
End OrderServer.
