(* ===== verification/OrderServerRefines.v ===== *)
(** OrderServer keeps the session protocol: [recvCallback] admits exactly the
    requests [admits] specifies, whatever the segmentation of the TCP stream,
    and the whole server never uses a freed socket. *)

From S2P Require Import Prelude Types Wire Framing Sockets SocketsSafe LFQueue FIFOSequencer.
From S2P Require Import OrderServer.

(** ** Sessions *)

Record Sessions := mkSessions {
  ss_socket : list (option Z);
  ss_expected : list Z;
}.

Section spec.
Context `{Config}.
Implicit Types (ss : Sessions) (m : OMClientRequest) (o : OrderServer).

Definition client_of m : nat := Z.to_nat (rq_client_id_ (me_client_request_ m)).

Definition wire_type (t : ClientRequestType.t) : bool :=
  bool_decide (t = ClientRequestType.NEW) || bool_decide (t = ClientRequestType.CANCEL).

(** The first message of a client claims its session for the socket. *)
Definition claim socket m ss : Sessions :=
  match ss_socket ss !! client_of m with
  | Some None => mkSessions (<[ client_of m := Some socket ]> (ss_socket ss)) (ss_expected ss)
  | _ => ss
  end.

(** Whether a request read from [socket] is admitted, and the sessions after it. *)
Definition admits (socket : Z) m ss : bool * Sessions :=
  let r := me_client_request_ m in
  if negb (wire_type (rq_type_ r)) || (ME_MAX_NUM_CLIENTS <=? rq_client_id_ r) then (false, ss)
  else
    let ss := claim socket m ss in
    if bool_decide (ss_socket ss !! client_of m = Some (Some socket)) &&
       bool_decide (ss_expected ss !! client_of m = Some (omrq_seq_num_ m))
    then (true, mkSessions (ss_socket ss) (<[ client_of m := u64 (omrq_seq_num_ m + 1) ]> (ss_expected ss)))
    else (false, ss).

(** The admitted ones among the messages read, in order. *)
Fixpoint admit_all (socket : Z) (ms : list OMClientRequest) ss : list OMClientRequest * Sessions :=
  match ms with
  | [] => ([], ss)
  | m :: ms =>
      let '(ok, ss) := admits socket m ss in
      let '(adm, ss) := admit_all socket ms ss in
      (if (ok : bool) then m :: adm else adm, ss)
  end.

Lemma admit_all_app socket ms ms' ss :
  admit_all socket (ms ++ ms') ss =
    ((admit_all socket ms ss).1 ++ (admit_all socket ms' (admit_all socket ms ss).2).1,
     (admit_all socket ms' (admit_all socket ms ss).2).2).
Proof.
  revert ss. induction ms as [|m ms IH]; intros ss; cbn [app admit_all].
  - cbn. by destruct (admit_all socket ms' ss).
  - destruct (admits socket m ss) as [ok ss1]. rewrite IH.
    destruct (admit_all socket ms ss1) as [adm ss2]. cbn. by destruct ok.
Qed.

(** The entries the sequencer gets for the admitted requests. *)
Definition sequenced (rx_time : Nanos) (n : nat) (ms : list OMClientRequest) : list RecvTimeClientRequest :=
  imap (λ i m, mkRecvTimeClientRequest rx_time (me_client_request_ m) (Z.of_nat (n + i))) ms.

Definition sessions o : Sessions := mkSessions (cid_tcp_socket_ o) (cid_next_exp_seq_num_ o).

(** The server after its sessions and its pending requests changed. *)
Definition app_with o ss (pend : list RecvTimeClientRequest) : OrderServer :=
  mkOrderServer (mkFIFOSequencer (seq_incoming_requests_ (fifo_sequencer_ o)) pend)
    (incoming_responses_ o) (cid_next_outgoing_seq_num_ o) (ss_expected ss) (ss_socket ss).

Definition pending_of o : list RecvTimeClientRequest := pending (fifo_sequencer_ o).

Record os_wf o : Prop := {
  ow_sockets : length (cid_tcp_socket_ o) = Z.to_nat ME_MAX_NUM_CLIENTS;
  ow_expected : length (cid_next_exp_seq_num_ o) = Z.to_nat ME_MAX_NUM_CLIENTS;
  ow_outgoing : length (cid_next_outgoing_seq_num_ o) = Z.to_nat ME_MAX_NUM_CLIENTS;
  ow_pending : seq_wf (fifo_sequencer_ o);
}.
End spec.

Section recv.
Context `{Config, NetConfig}.
Implicit Types (s : Server OrderServer) (o : OrderServer) (ss : Sessions) (m : OMClientRequest).
Local Set Default Proof Using "All".

Definition with_app s o : Server OrderServer := mkServer (srv_tcp s) o.

Lemma app_with_id o : app_with o (sessions o) (pending_of o) = o.
Proof. by destruct o as [[] ? ? ? ?]. Qed.

Lemma at_index_Ok {A} (f : OrderServer → list A) i s x :
  f (srv_app s) !! Z.to_nat i = Some x → at_index f i s = Ok (x, s).
Proof. intros E. unfold at_index. by rewrite bind_gets, E. Qed.

Lemma claim_length socket m ss : length (ss_socket (claim socket m ss)) = length (ss_socket ss).
Proof. unfold claim. repeat case_match; cbn; by rewrite ?length_insert. Qed.
Lemma claim_expected socket m ss : ss_expected (claim socket m ss) = ss_expected ss.
Proof. unfold claim. by repeat case_match. Qed.

(** One request: admitted ones reach the sequencer. *)
Lemma recvRequest_spec socket rx m s :
  os_wf (srv_app s) → 0 ≤ rq_client_id_ (me_client_request_ m) →
  let o := srv_app s in
  let '(ok, ss) := admits socket m (sessions o) in
  if (ok : bool) then
    if pending_size_ (fifo_sequencer_ o) <? ME_MAX_PENDING_REQUESTS
    then recvRequest socket rx m s =
      Ok (tt, with_app s (app_with o ss (pending_of o ++ sequenced rx (length (pending_of o)) [m])))
    else recvRequest socket rx m s = Err (Fatal "FIFOSequencer overflow")
  else recvRequest socket rx m s = Ok (tt, with_app s (app_with o ss (pending_of o))).
Proof.
  intros [Hso Hex Hout Hpe] Hc. set (o := srv_app s) in *. cbv zeta. unfold admits, recvRequest.
  set (r := me_client_request_ m) in *. unfold wire_type. rewrite negb_orb.
  assert (Hid : s = with_app s (app_with o (sessions o) (pending_of o))).
  { rewrite app_with_id. by destruct s. }
  destruct (negb _ && negb _); [cbn [orb]; by rewrite Hid at 1|]. cbn [orb].
  case Z.leb_spec; intros Hlt; [by rewrite Hid at 1|].
  change (Z.to_nat (rq_client_id_ r)) with (client_of m).
  destruct (lookup_lt_is_Some_2 (cid_tcp_socket_ o) (client_of m)) as [c Hcs].
  { unfold client_of. fold r. lia. }
  destruct (lookup_lt_is_Some_2 (cid_next_exp_seq_num_ o) (client_of m)) as [n Hn].
  { unfold client_of. fold r. lia. }
  rewrite (bind_Ok _ _ _ _ _ (at_index_Ok _ _ _ _ Hcs)).
  set (ss := claim socket m (sessions o)).
  set (s1 := with_app s (app_with o ss (pending_of o))).
  assert (Hclaim : (match c with
     | None => on_app (λ o, set_cid_socket (<[ client_of m := Some socket ]> (cid_tcp_socket_ o)) o)
     | Some _ => mret tt end) s = Ok (tt, s1)).
  { unfold s1, ss, claim. cbn [ss_socket sessions]. rewrite Hcs. destruct c as [p|].
    - by rewrite Hid at 1.
    - by destruct s as [? [[] ? ? ? ?]]. }
  rewrite (bind_Ok _ _ _ _ _ Hclaim).
  assert (∃ c1, ss_socket ss !! client_of m = Some c1) as [c1 Hc1].
  { apply lookup_lt_is_Some_2. unfold ss. rewrite claim_length. cbn. unfold client_of. fold r. lia. }
  assert (Hexp : ss_expected ss = cid_next_exp_seq_num_ o).
  { apply claim_expected. }
  rewrite (bind_Ok _ _ _ _ _ (at_index_Ok cid_tcp_socket_ (rq_client_id_ r) s1 c1 Hc1)).
  rewrite Hc1, Hexp, Hn.
  assert (E1 : bool_decide (Some c1 = Some (Some socket)) = bool_decide (c1 = Some socket)).
  { apply bool_decide_ext. split; congruence. }
  rewrite E1. destruct (decide (c1 = Some socket)) as [Hown|Hown];
    [rewrite !(bool_decide_true (c1 = Some socket)) by done|by rewrite !(bool_decide_false (c1 = Some socket)) by done].
  cbn [negb andb].
  assert (Hn1 : cid_next_exp_seq_num_ (srv_app s1) !! Z.to_nat (rq_client_id_ r) = Some n) by (cbn; by rewrite Hexp).
  rewrite (bind_Ok _ _ _ _ _ (at_index_Ok _ _ _ _ Hn1)).
  assert (E2 : bool_decide (Some n = Some (omrq_seq_num_ m)) = (omrq_seq_num_ m =? n)).
  { destruct (Z.eqb_spec (omrq_seq_num_ m) n);
      [by rewrite bool_decide_true by congruence|by rewrite bool_decide_false by congruence]. }
  rewrite E2. case Z.eqb_spec; intros Hseq; cbn [negb]; [|done]. subst n.
  set (ss' := mkSessions (ss_socket ss) _). erewrite bind_Ok; [|reflexivity]. cbv beta.
  pose proof (addClientRequest_spec (fifo_sequencer_ o) rx r Hpe) as Hadd.
  assert (Hss' : <[ client_of m := u64 (omrq_seq_num_ m + 1) ]> (ss_expected ss) = ss_expected ss').
  { unfold ss'. by rewrite Hexp. }
  unfold on_sequencer. rewrite bind_gets. cbn [srv_app with_app s1 fifo_sequencer_ set_exp_seq app_with].
  assert (Eq : mkFIFOSequencer (seq_incoming_requests_ (fifo_sequencer_ o)) (pending_of o) = fifo_sequencer_ o).
  { unfold pending_of. by destruct (fifo_sequencer_ o). }
  rewrite Eq. destruct (_ <? _).
  - destruct Hadd as (q & Hq & _ & Hi & Hp). unfold lift. erewrite bind_Ok; [|by rewrite Hq].
    cbv beta iota. destruct q as [qi qp]. cbn in Hi, Hp. subst qi qp. unfold on_app, modify. cbn. do 2 f_equal.
    unfold with_app, app_with, set_sequencer, set_exp_seq. cbn. by rewrite Nat.add_0_r, Hexp.
  - unfold lift. erewrite bind_Err; [done|]. by rewrite Hadd.
Qed.

Lemma admit_lengths socket m ss :
  length (ss_socket (admits socket m ss).2) = length (ss_socket ss) ∧
  length (ss_expected (admits socket m ss).2) = length (ss_expected ss).
Proof.
  unfold admits. case_match; [done|]. cbv zeta. case_match; cbn; by rewrite ?length_insert, claim_length, claim_expected.
Qed.

Lemma admitted_size rx n ms : length (sequenced rx n ms) = length ms.
Proof. apply length_imap. Qed.

Lemma sequenced_cons rx n m ms :
  sequenced rx n (m :: ms) = sequenced rx n [m] ++ sequenced rx (S n) ms.
Proof.
  unfold sequenced. rewrite imap_cons. cbn. f_equal. apply imap_ext. intros i x _. cbn. do 2 f_equal. lia.
Qed.

Lemma sequenced_wf o ss rx ms :
  os_wf o → length (ss_socket ss) = length (cid_tcp_socket_ o) →
  length (ss_expected ss) = length (cid_next_exp_seq_num_ o) →
  Z.of_nat (length (pending_of o) + length ms) ≤ ME_MAX_PENDING_REQUESTS →
  os_wf (app_with o ss (pending_of o ++ sequenced rx (length (pending_of o)) ms)).
Proof.
  intros [Hso Hex Hout [Hn Hs]] E1 E2 Hle. split; cbn; try congruence. split; cbn.
  - unfold numbered_from in *. unfold pending_of in *. rewrite fmap_app, length_app, admitted_size, seq_app, fmap_app, Hn.
    f_equal. cbn. unfold sequenced. rewrite fmap_imap. clear.
    generalize (length (pending (fifo_sequencer_ o))) as n. induction ms as [|m ms IH]; intros n; [done|].
    rewrite imap_cons. cbn. f_equal; [lia|]. rewrite <- IH. apply imap_ext. intros i x _. cbn. lia.
  - unfold pending_size_. cbn. rewrite length_app, admitted_size. lia.
Qed.

(** The parse loop runs over the frames of the buffer. *)
Definition client_id_nonneg m : Prop := 0 ≤ rq_client_id_ (me_client_request_ m).

Lemma recvLoop_short fuel socket rx buffer offset s :
  (length (drop offset buffer) < wsize OMClientRequest)%nat →
  recvLoop fuel socket rx buffer offset s = Ok (offset, s).
Proof. rewrite length_drop. intros Hl. destruct fuel; cbn [recvLoop]; by rewrite (proj2 (Nat.leb_gt _ _)). Qed.

Lemma recvLoop_step fuel socket rx buffer offset :
  (wsize OMClientRequest ≤ length (drop offset buffer))%nat →
  recvLoop (S fuel) socket rx buffer offset =
    (recvRequest socket rx (wget (drop offset buffer));;
     recvLoop fuel socket rx buffer (offset + wsize OMClientRequest)).
Proof. rewrite length_drop. intros Hl. cbn [recvLoop]. by rewrite (proj2 (Nat.leb_le _ _)). Qed.

Lemma recvLoop_spec socket rx buffer : ∀ fuel offset s,
  (length buffer - offset ≤ fuel)%nat → os_wf (srv_app s) →
  Forall client_id_nonneg (frames OMClientRequest (drop offset buffer)) →
  let o := srv_app s in
  let '(adm, ss) := admit_all socket (frames OMClientRequest (drop offset buffer)) (sessions o) in
  if Z.of_nat (length (pending_of o) + length adm) <=? ME_MAX_PENDING_REQUESTS
  then ∃ off, recvLoop fuel socket rx buffer offset s =
      Ok (off, with_app s (app_with o ss (pending_of o ++ sequenced rx (length (pending_of o)) adm))) ∧
      drop off buffer = partial OMClientRequest (drop offset buffer)
  else recvLoop fuel socket rx buffer offset s = Err (Fatal "FIFOSequencer overflow").
Proof.
  pose proof (wire_size (A := OMClientRequest)) as Hpos.
  induction fuel as [|fuel IH]; intros offset s Hf Hw Hids; cbv zeta.
  all: pose proof (sw_size _ (ow_pending _ Hw)) as Hsz; unfold pending_size_ in Hsz.
  all: destruct (decide (length (drop offset buffer) < wsize OMClientRequest)%nat) as [Hl|Hl].
  1, 3: rewrite recvLoop_short by done; destruct (frames_short (A := OMClientRequest) _ Hl) as [-> ->];
    cbn [admit_all sessions length]; rewrite (proj2 (Z.leb_le _ _)) by (unfold pending_of; lia);
    exists offset; split; [|done]; cbn; rewrite app_nil_r, app_with_id; by destruct s.
  { rewrite length_drop in Hl. lia. }
  apply Nat.nlt_ge in Hl. rewrite recvLoop_step by done.
  destruct (frames_step (A := OMClientRequest) _ Hl) as [Efr Epart]. rewrite Efr in Hids |- *. rewrite Epart.
  rewrite drop_drop in Hids |- *. apply Forall_cons in Hids as [Hm Hids].
  set (m := wget (drop offset buffer)) in *. cbn [admit_all].
  pose proof (recvRequest_spec socket rx m s Hw Hm) as Hreq. cbv zeta in Hreq.
  destruct (admit_lengths socket m (sessions (srv_app s))) as [Hl1 Hl2].
  destruct (admits socket m (sessions (srv_app s))) as [ok ss1]. cbn [snd sessions ss_socket ss_expected] in Hl1, Hl2.
  set (o := srv_app s) in *. rewrite length_drop in Hl.
  assert (Hstep : ∀ pend, os_wf (app_with o ss1 pend) →
    let o1 := app_with o ss1 pend in
    let '(adm, ss) := admit_all socket (frames OMClientRequest (drop (offset + wsize OMClientRequest) buffer)) ss1 in
    if Z.of_nat (length pend + length adm) <=? ME_MAX_PENDING_REQUESTS
    then ∃ off, recvLoop fuel socket rx buffer (offset + wsize OMClientRequest) (with_app s o1) =
        Ok (off, with_app s (app_with o ss (pend ++ sequenced rx (length pend) adm))) ∧
        drop off buffer = partial OMClientRequest (drop (offset + wsize OMClientRequest) buffer)
    else recvLoop fuel socket rx buffer (offset + wsize OMClientRequest) (with_app s o1)
           = Err (Fatal "FIFOSequencer overflow")).
  { intros pend Hw1. assert (Hg : (length buffer - (offset + wsize OMClientRequest) ≤ fuel)%nat) by lia.
    pose proof (IH (offset + wsize OMClientRequest)%nat (with_app s (app_with o ss1 pend)) Hg Hw1 Hids) as IH1.
    cbv zeta in IH1 |- *. cbn [srv_app with_app] in IH1.
    assert (Es : sessions (app_with o ss1 pend) = ss1) by (by destruct ss1). rewrite Es in IH1. exact IH1. }
  destruct ok.
  - unfold pending_size_ in Hreq. fold (pending_of o) in Hreq, Hsz.
    destruct (Z.ltb_spec (Z.of_nat (length (pending_of o))) ME_MAX_PENDING_REQUESTS) as [Hlt|Hge].
    + assert (Hw1 : os_wf (app_with o ss1 (pending_of o ++ sequenced rx (length (pending_of o)) [m]))).
      { apply sequenced_wf; try done. cbn. lia. }
      specialize (Hstep _ Hw1). cbv zeta in Hstep. rewrite (bind_Ok _ _ _ _ _ Hreq).
      destruct (admit_all _ _ ss1) as [adm ss]. rewrite length_app in Hstep. cbn [length] in Hstep |- *.
      rewrite admitted_size in Hstep. cbn [length] in Hstep.
      replace (length (pending_of o) + 1 + length adm)%nat with (length (pending_of o) + S (length adm))%nat in Hstep by lia.
      destruct (_ <=? _); [|done]. destruct Hstep as (off & Hrun & Hoff). exists off. split; [|done].
      rewrite Hrun. rewrite (sequenced_cons _ _ _ adm), <- (assoc (++)). by rewrite Nat.add_1_r.
    + rewrite (bind_Err _ _ _ _ Hreq). destruct (admit_all _ _ ss1) as [adm ss]. cbn [length].
      rewrite (proj2 (Z.leb_gt _ _)) by lia. done.
  - assert (Hw1 : os_wf (app_with o ss1 (pending_of o))).
    { rewrite <- (app_nil_r (pending_of o)). apply (sequenced_wf o ss1 rx []); try done. cbn. fold (pending_of o) in Hsz. lia. }
    specialize (Hstep _ Hw1). cbv zeta in Hstep. rewrite (bind_Ok _ _ _ _ _ Hreq).
    destruct (admit_all _ _ ss1) as [adm ss]. done.
Qed.

Definition set_socket (p : Z) (x : TCPSocket) s : Server OrderServer :=
  mkServer (mkTCPServer (<[ p := x ]> (heap (srv_tcp s))) (sockets (srv_tcp s)) (rcv_sockets (srv_tcp s))
    (send_sockets (srv_tcp s)) (disconnected_sockets (srv_tcp s))) (srv_app s).

Lemma sock_run_modify p x f s :
  heap (srv_tcp s) !! p = Some x → sock_run p (modify f) s = Ok (tt, set_socket p (f x) s).
Proof. intros Hx. unfold sock_run, sock_get. rewrite bind_assoc, bind_gets, Hx. done. Qed.

Lemma frames_ids_nonneg bs : bytes_ok bs → Forall client_id_nonneg (frames OMClientRequest bs).
Proof.
  intros Hb. apply Forall_fmap, Forall_forall. intros i _. unfold compose, client_id_nonneg.
  pose proof (wget_valid (A := OMClientRequest) (drop (i * wsize OMClientRequest) bs)) as Hv.
  destruct (Hv ltac:(by apply Forall_drop)) as [_ Hr]. apply Hr.
Qed.

Lemma recvCallback_spec socket rx x s :
  heap (srv_tcp s) !! socket = Some x → bytes_ok (rcv_buffer x) → os_wf (srv_app s) →
  let o := srv_app s in
  let '(adm, ss) := admit_all socket (frames OMClientRequest (rcv_buffer x)) (sessions o) in
  if Z.of_nat (length (pending_of o) + length adm) <=? ME_MAX_PENDING_REQUESTS
  then recvCallback socket rx s =
    Ok (tt, set_socket socket (set_rcv_buffer (partial OMClientRequest (rcv_buffer x)) x)
              (with_app s (app_with o ss (pending_of o ++ sequenced rx (length (pending_of o)) adm))))
  else recvCallback socket rx s = Err (Fatal "FIFOSequencer overflow").
Proof.
  intros Hx Hb Hw. cbv zeta.
  pose proof (recvLoop_spec socket rx (rcv_buffer x) (length (rcv_buffer x)) 0 s) as Hloop.
  rewrite drop_0 in Hloop. specialize (Hloop ltac:(lia) Hw (frames_ids_nonneg _ Hb)). cbv zeta in Hloop.
  assert (Hget : sock_get socket s = Ok (x, s)) by (unfold sock_get; by rewrite bind_gets, Hx).
  unfold recvCallback. rewrite (bind_Ok _ _ _ _ _ Hget). cbv zeta.
  destruct (admit_all _ _ _) as [adm ss]. destruct (_ <=? ME_MAX_PENDING_REQUESTS).
  - destruct Hloop as (off & Hrun & Hoff). rewrite (bind_Ok _ _ _ _ _ Hrun), <- Hoff.
    case Nat.ltb_spec; intros Hlt; [by apply sock_run_modify|].
    assert (off = 0%nat) as -> by lia. rewrite drop_0. unfold set_socket.
    assert (Ex : set_rcv_buffer (rcv_buffer x) x = x) by (by destruct x).
    rewrite Ex, insert_id by done. by destruct s as [[] ?].
  - by rewrite (bind_Err _ _ _ _ Hloop).
Qed.

(** *** Segmentation *)

(** One read of [bytes] from the socket. *)
Definition receive (socket : Z) (rx : Nanos) (bytes : list byte) : M (Server OrderServer) unit :=
  sock_run socket (modify (λ x, set_rcv_buffer (rcv_buffer x ++ bytes) x));; recvCallback socket rx.

Lemma receive_spec socket rx x bytes s :
  heap (srv_tcp s) !! socket = Some x → bytes_ok (rcv_buffer x) → bytes_ok bytes → os_wf (srv_app s) →
  let o := srv_app s in
  let '(adm, ss) := admit_all socket (frames OMClientRequest (rcv_buffer x ++ bytes)) (sessions o) in
  if Z.of_nat (length (pending_of o) + length adm) <=? ME_MAX_PENDING_REQUESTS
  then receive socket rx bytes s =
    Ok (tt, set_socket socket (set_rcv_buffer (partial OMClientRequest (rcv_buffer x ++ bytes)) x)
              (with_app s (app_with o ss (pending_of o ++ sequenced rx (length (pending_of o)) adm))))
  else receive socket rx bytes s = Err (Fatal "FIFOSequencer overflow").
Proof.
  intros Hx Hb Hb' Hw. cbv zeta. unfold receive. rewrite (bind_Ok _ _ _ _ _ (sock_run_modify _ _ _ _ Hx)).
  set (x' := set_rcv_buffer (rcv_buffer x ++ bytes) x).
  pose proof (recvCallback_spec socket rx x' (set_socket socket x' s)) as Hrecv. cbv zeta in Hrecv.
  specialize (Hrecv ltac:(cbn; by rewrite lookup_insert_eq) ltac:(by apply bytes_ok_app) Hw).
  cbn [rcv_buffer set_rcv_buffer x' srv_app set_socket] in Hrecv.
  destruct (admit_all _ _ _) as [adm ss]. destruct (_ <=? _); [|done]. rewrite Hrecv.
  unfold set_socket. cbn. by rewrite insert_insert_eq.
Qed.

Lemma sequenced_app rx n ms ms' :
  sequenced rx n (ms ++ ms') = sequenced rx n ms ++ sequenced rx (n + length ms) ms'.
Proof.
  unfold sequenced. rewrite imap_app. f_equal. apply imap_ext. intros i m _. cbn. do 2 f_equal. lia.
Qed.

Lemma partial_bytes_ok bs : bytes_ok bs → bytes_ok (partial OMClientRequest bs).
Proof. apply Forall_drop. Qed.

Lemma admit_all_lengths socket ms : ∀ ss,
  length (ss_socket (admit_all socket ms ss).2) = length (ss_socket ss) ∧
  length (ss_expected (admit_all socket ms ss).2) = length (ss_expected ss).
Proof.
  induction ms as [|m ms IH]; intros ss; [done|]. cbn [admit_all].
  destruct (admit_lengths socket m ss) as [E1 E2]. destruct (admits socket m ss) as [ok ss1].
  destruct (IH ss1) as [E3 E4]. destruct (admit_all socket ms ss1). cbn in *. split; congruence.
Qed.

(** C14: the gateway does not depend on TCP segmentation.  Receiving a stretch of
    the byte stream in two reads, cut anywhere (in the middle of a message
    too), leaves exactly the server that one read of the whole leaves: same
    admitted requests in the same order, same sessions, same partial message
    kept for the next read, and the same overflow. *)
Theorem recv_segmentation_independent socket rx x bs1 bs2 s :
  heap (srv_tcp s) !! socket = Some x → bytes_ok (rcv_buffer x) → bytes_ok bs1 → bytes_ok bs2 →
  os_wf (srv_app s) →
  (receive socket rx bs1;; receive socket rx bs2) s = receive socket rx (bs1 ++ bs2) s.
Proof.
  intros Hx Hb Hb1 Hb2 Hw. set (o := srv_app s).
  pose proof (receive_spec socket rx x (bs1 ++ bs2) s Hx Hb) as Hall. cbv zeta in Hall.
  specialize (Hall ltac:(by apply bytes_ok_app) Hw).
  pose proof (receive_spec socket rx x bs1 s Hx Hb Hb1 Hw) as H1. cbv zeta in H1. fold o in Hall, H1.
  rewrite (app_assoc (rcv_buffer x)) in Hall.
  destruct (frames_app (A := OMClientRequest) (rcv_buffer x ++ bs1) bs2) as [Ef Ep].
  rewrite Ef, Ep, admit_all_app in Hall.
  pose proof (admit_all_lengths socket (frames OMClientRequest (rcv_buffer x ++ bs1)) (sessions o)) as [El1 El2].
  destruct (admit_all socket (frames OMClientRequest (rcv_buffer x ++ bs1)) (sessions o)) as [adm1 ss1].
  cbn [fst snd] in Hall, El1, El2. rewrite length_app in Hall.
  destruct (Z.leb_spec (Z.of_nat (length (pending_of o) + length adm1)) ME_MAX_PENDING_REQUESTS) as [Hle|Hgt].
  - rewrite (bind_Ok _ _ _ _ _ H1).
    set (x1 := set_rcv_buffer (partial OMClientRequest (rcv_buffer x ++ bs1)) x).
    set (o1 := app_with o ss1 (pending_of o ++ sequenced rx (length (pending_of o)) adm1)).
    assert (Hw1 : os_wf o1) by (by apply sequenced_wf).
    pose proof (receive_spec socket rx x1 bs2 (set_socket socket x1 (with_app s o1))) as H2. cbv zeta in H2.
    specialize (H2 ltac:(cbn; by rewrite lookup_insert_eq)
      ltac:(apply partial_bytes_ok; by apply bytes_ok_app) Hb2 Hw1).
    cbn [srv_app set_socket with_app rcv_buffer set_rcv_buffer x1] in H2.
    assert (Es : sessions o1 = ss1) by (by destruct ss1). rewrite Es in H2.
    destruct (admit_all socket _ ss1) as [adm2 ss2]. cbn [fst snd] in Hall.
    assert (Ep1 : pending_of o1 = pending_of o ++ sequenced rx (length (pending_of o)) adm1) by done.
    rewrite Ep1, length_app, admitted_size, Nat.add_assoc in *.
    destruct (_ <=? _); [|by rewrite H2, Hall]. rewrite H2, Hall.
    unfold set_socket. cbn. rewrite insert_insert_eq, sequenced_app, (assoc (++)). done.
  - rewrite (bind_Err _ _ _ _ H1). rewrite (proj2 (Z.leb_gt _ _)) in Hall by lia. by rewrite Hall.
Qed.
End recv.
