(* ===== verification/OrderServerSafe.v ===== *)
(** Sessions and lifetimes of OrderServer: what is admitted carries consecutive
    sequence numbers of its session, and a turn of [run] never touches a freed
    socket, an array out of range or a message of a type the matching engine
    cannot take. *)

From S2P Require Import Prelude Types Wire Framing Sockets SocketsSafe LFQueue FIFOSequencer.
From S2P Require Import OrderServer OrderServerRefines.

Section sessions.
Context `{Config, NetConfig}.
Implicit Types (s : Server OrderServer) (o : OrderServer) (ss : Sessions) (m : OMClientRequest).
Local Set Default Proof Using "All".

Lemma claim_socket_mono socket m ss c p :
  ss_socket ss !! c = Some (Some p) → ss_socket (claim socket m ss) !! c = Some (Some p).
Proof.
  intros Hc. unfold claim. destruct (ss_socket ss !! client_of m) as [[q|]|] eqn:E; try done. cbn.
  rewrite list_lookup_insert_ne; [done|]. intros <-. congruence.
Qed.

Lemma admit_socket_mono socket m ss c p :
  ss_socket ss !! c = Some (Some p) → ss_socket (admits socket m ss).2 !! c = Some (Some p).
Proof.
  intros Hc. pose proof (claim_socket_mono socket m ss c p Hc). unfold admits. case_match; [done|].
  cbv zeta. by case_match.
Qed.

Lemma admit_all_socket_mono socket ms : ∀ ss c p,
  ss_socket ss !! c = Some (Some p) → ss_socket (admit_all socket ms ss).2 !! c = Some (Some p).
Proof.
  induction ms as [|m ms IH]; intros ss c p Hc; [done|]. cbn [admit_all].
  pose proof (admit_socket_mono socket m ss c p Hc) as H1. destruct (admits socket m ss) as [ok ss1].
  specialize (IH ss1 c p H1). by destruct (admit_all socket ms ss1).
Qed.

(** What admission of one message means. *)
Lemma admit_true socket m ss ss' :
  admits socket m ss = (true, ss') →
  wire_type (rq_type_ (me_client_request_ m)) = true ∧
  rq_client_id_ (me_client_request_ m) < ME_MAX_NUM_CLIENTS ∧
  ss_socket ss' !! client_of m = Some (Some socket) ∧
  ss_expected ss !! client_of m = Some (omrq_seq_num_ m) ∧
  ss_expected ss' = <[ client_of m := u64 (omrq_seq_num_ m + 1) ]> (ss_expected ss).
Proof.
  unfold admits. destruct (wire_type _); [|done]. cbn [negb orb]. case Z.leb_spec; [done|]. intros Hlt.
  cbv zeta. case_bool_decide as E1; [|done]. case_bool_decide as E2; [|done]. cbn [andb]. intros [= <-].
  cbn. rewrite claim_expected in *. done.
Qed.

Lemma admit_false socket m ss ss' : admits socket m ss = (false, ss') → ss_expected ss' = ss_expected ss.
Proof.
  unfold admits. case_match; [by intros [= <-]|]. cbv zeta. case_match; [done|]. intros [= <-]. apply claim_expected.
Qed.

(** Consecutive numbers from [e], modulo the width of [size_t]. *)
Definition consecutive (e : Z) (n : nat) : list Z := (λ i, u64 (e + Z.of_nat i)) <$> seq 0 n.

Lemma consecutive_S e n : is_u64 e → consecutive e (S n) = e :: consecutive (u64 (e + 1)) n.
Proof.
  intros He. unfold consecutive. cbn [seq fmap list_fmap]. rewrite Z.add_0_r, u64_id by done. f_equal.
  rewrite <- (fmap_S_seq 0), <- list_fmap_compose. apply list_fmap_ext. intros _ i _. cbn.
  unfold u64. rewrite Zplus_mod_idemp_l. f_equal. lia.
Qed.

Definition of_client (c : nat) (ms : list OMClientRequest) : list OMClientRequest :=
  filter (λ m, client_of m = c) ms.

Lemma admit_all_consecutive socket c ms : ∀ ss e,
  ss_expected ss !! c = Some e → is_u64 e →
  let adm := of_client c (admit_all socket ms ss).1 in
  omrq_seq_num_ <$> adm = consecutive e (length adm).
Proof.
  induction ms as [|m ms IH]; intros ss e He Hu; [done|]. cbv zeta. cbn [admit_all].
  destruct (admits socket m ss) as [[] ss1] eqn:Ea.
  - apply admit_true in Ea as (_ & _ & _ & Hexp & Hexp').
    destruct (decide (client_of m = c)) as [<-|Hne].
    + assert (omrq_seq_num_ m = e) as Em by congruence.
      specialize (IH ss1 (u64 (e + 1))). rewrite Hexp', Em, list_lookup_insert_eq in IH by (by eapply lookup_lt_Some).
      specialize (IH eq_refl (u64_range _)). cbv zeta in IH. destruct (admit_all socket ms ss1) as [adm ss2].
      cbn [fst] in *. unfold of_client in *. rewrite filter_cons_True by done.
      rewrite fmap_cons, Em, IH. cbn [length]. by rewrite consecutive_S.
    + specialize (IH ss1 e). rewrite Hexp', list_lookup_insert_ne in IH by done. specialize (IH He Hu).
      destruct (admit_all socket ms ss1) as [adm ss2]. cbn [fst] in *. unfold of_client in *.
      by rewrite filter_cons_False by done.
  - specialize (IH ss1 e). rewrite (admit_false _ _ _ _ Ea) in IH. specialize (IH He Hu).
    by destruct (admit_all socket ms ss1) as [adm ss2].
Qed.

Lemma admit_all_ok socket ms : ∀ ss,
  let '(adm, ss') := admit_all socket ms ss in
  adm `sublist_of` ms ∧
  Forall (λ m, wire_type (rq_type_ (me_client_request_ m)) = true ∧
               rq_client_id_ (me_client_request_ m) < ME_MAX_NUM_CLIENTS ∧
               ss_socket ss' !! client_of m = Some (Some socket)) adm.
Proof.
  induction ms as [|m ms IH]; intros ss; cbn [admit_all]; [by split|].
  destruct (admits socket m ss) as [ok ss1] eqn:Ea. specialize (IH ss1).
  pose proof (admit_all_socket_mono socket ms ss1) as Hmono.
  destruct (admit_all socket ms ss1) as [adm ss2]. destruct IH as [Hs Hf]. destruct ok.
  - apply admit_true in Ea as (Ht & Hc & Hso & _ & _). split; [by apply sublist_skip|].
    constructor; [|done]. split_and!; [done|done|]. by apply Hmono.
  - split; [by apply sublist_cons|done].
Qed.

(** C13: the session protocol.  What a read hands to the sequencer is a
    subsequence of the messages read, all of them NEW or CANCEL of a client
    within bounds whose session belongs to the socket that sent them; for
    every client they carry the expected sequence number and its successors,
    with no gap and no repetition. *)
Theorem recvCallback_session socket rx x s s' :
  heap (srv_tcp s) !! socket = Some x → bytes_ok (rcv_buffer x) → os_wf (srv_app s) →
  recvCallback socket rx s = Ok (tt, s') →
  ∃ adm, pending_of (srv_app s') =
      pending_of (srv_app s) ++ sequenced rx (length (pending_of (srv_app s))) adm ∧
    adm `sublist_of` frames OMClientRequest (rcv_buffer x) ∧
    Forall (λ m, wire_type (rq_type_ (me_client_request_ m)) = true ∧
                 rq_client_id_ (me_client_request_ m) < ME_MAX_NUM_CLIENTS ∧
                 cid_tcp_socket_ (srv_app s') !! client_of m = Some (Some socket)) adm ∧
    ∀ c e, cid_next_exp_seq_num_ (srv_app s) !! c = Some e → is_u64 e →
      omrq_seq_num_ <$> of_client c adm = consecutive e (length (of_client c adm)).
Proof.
  intros Hx Hb Hw Hrun. pose proof (recvCallback_spec socket rx x s Hx Hb Hw) as Hs. cbv zeta in Hs.
  pose proof (admit_all_ok socket (frames OMClientRequest (rcv_buffer x)) (sessions (srv_app s))) as Hok.
  assert (Hcons := λ c, admit_all_consecutive socket c (frames OMClientRequest (rcv_buffer x)) (sessions (srv_app s))).
  destruct (admit_all _ _ _) as [adm ss]. cbn [fst] in Hcons. destruct (_ <=? _); [|congruence].
  rewrite Hrun in Hs. injection Hs as ->. exists adm. destruct Hok as [Hsub Hf]. split_and!; try done.
Qed.
End sessions.

(** ** Lifetimes *)

Section lifetimes.
Context `{Cfg : Config, !ConfigOk Cfg, NetConfig}.
Implicit Types (s : Server OrderServer) (o : OrderServer) (D : gset Z).
Local Set Default Proof Using "All".

(** The server's own invariant: well-formed, and every session's socket lives. *)
Record os_ok o D : Prop := {
  oo_wf : os_wf o;
  oo_live : ∀ p, Some p ∈ cid_tcp_socket_ o → p ∈ D;
  oo_queue : ∃ n l, q_rep (incoming_responses_ o) n l;
}.

Definition app_keeps s s' : Prop := srv_tcp s' = srv_tcp s ∧ os_ok (srv_app s') (live s').

Lemma wp_at_index {A} (f : OrderServer → list A) i (Q : A → Server OrderServer → Prop) s :
  (Z.to_nat i < length (f (srv_app s)))%nat → (∀ x, f (srv_app s) !! Z.to_nat i = Some x → Q x s) →
  wp (at_index f i) Q s.
Proof.
  intros [x Hx]%lookup_lt_is_Some_2 HQ. unfold at_index. wsteps. rewrite Hx. wsteps. by apply HQ.
Qed.

Lemma wp_on_app (f : OrderServer → OrderServer) (Q : unit → Server OrderServer → Prop) s :
  Q tt (mkServer (srv_tcp s) (f (srv_app s))) → wp (on_app f) Q s.
Proof. done. Qed.

Lemma wp_on_sequencer m (Q : FIFOSequencer → Prop) s :
  wp m (λ _ q, Q q) (fifo_sequencer_ (srv_app s)) →
  wp (on_sequencer m) (λ _ s', ∃ q, Q q ∧ s' = mkServer (srv_tcp s) (set_sequencer q (srv_app s))) s.
Proof.
  intros Hm. unfold on_sequencer. wsteps. apply wp_lift. unfold wp in Hm.
  destruct (m _) as [[[] q]|[]]; try done. apply wp_on_app. by exists q.
Qed.

Lemma addClientRequest_safe rx r q : seq_wf q → wp (addClientRequest rx r) (λ _ q', seq_wf q') q.
Proof.
  intros Hq. pose proof (addClientRequest_spec q rx r Hq) as Hs. destruct (_ <? _).
  - destruct Hs as (q' & Hrun & Hw & _). by eapply wp_Ok.
  - unfold wp. by rewrite Hs.
Qed.

Lemma push_fatal {T} `{Inhabited T} (v : T) q : match push v q with Ok _ => True | Err f => ∃ m, f = Fatal m end.
Proof. unfold push, updateWriteIndex. repeat case_match; try done; simplify_eq; by eexists. Qed.

Lemma push_all_fatal {T} `{Inhabited T} (vs : list T) : ∀ q,
  match push_all vs q with Ok _ => True | Err f => ∃ m, f = Fatal m end.
Proof.
  induction vs as [|v vs IH]; intros q; [done|]. cbn [push_all]. pose proof (push_fatal v q).
  destruct (push v q); [apply IH|done].
Qed.

Lemma sequenceAndPublish_safe q : seq_wf q → wp sequenceAndPublish (λ _ q', seq_wf q') q.
Proof.
  intros Hq. unfold sequenceAndPublish. wsteps. case_match; wsteps; [done|]. apply wp_lift.
  pose proof (push_all_fatal (request_ <$> sorted_requests (pending q)) (seq_incoming_requests_ q)) as Hp.
  destruct (push_all _ _); [|by destruct Hp as [m ->]]. wsteps. by split.
Qed.

Lemma os_ok_sequencer o D q : os_ok o D → seq_wf q → os_ok (set_sequencer q o) D.
Proof. intros [[? ? ? ?] ? ?] Hq. by split. Qed.

Lemma elem_of_insert_socket (l : list (option Z)) i c p : Some p ∈ <[ i := c ]> l → c = Some p ∨ Some p ∈ l.
Proof.
  intros [j Hj]%list_elem_of_lookup. apply list_lookup_insert_Some in Hj as [(_ & ? & _)|[_ Hj]]; [by left|right].
  by eapply list_elem_of_lookup_2.
Qed.

Lemma os_ok_socket o D i p : os_ok o D → p ∈ D → os_ok (set_cid_socket (<[ i := Some p ]> (cid_tcp_socket_ o)) o) D.
Proof.
  intros [[? ? ? ?] Hl ?] Hp. split; [|cbn|done]; [split; cbn; rewrite ?length_insert; done|].
  intros q [[= ->]|Hq]%elem_of_insert_socket; [done|by apply Hl].
Qed.

(** The owner's callbacks. *)

Lemma recvRequest_safe socket rx m s :
  os_ok (srv_app s) (live s) → socket ∈ live s → wp (recvRequest socket rx m) (λ _ s', app_keeps s s') s.
Proof.
  intros Hok Hp. unfold recvRequest. case_match; [by apply wp_ret|]. case_match eqn:Hlt; [by apply wp_ret|].
  apply Z.leb_gt in Hlt. pose proof cfg_clients as Hcl.
  pose proof (oo_wf _ _ Hok) as Hwf.
  assert (Hi : (Z.to_nat (rq_client_id_ (me_client_request_ m)) < Z.to_nat ME_MAX_NUM_CLIENTS)%nat) by lia.
  apply wp_bind, wp_at_index; [by rewrite (ow_sockets _ Hwf)|]. intros c Hc.
  apply wp_bind. eapply (wp_mono _ (λ _ s1, app_keeps s s1)).
  { destruct c; [by apply wp_ret|]. apply wp_on_app. split; [done|]. by apply os_ok_socket. }
  intros [] s1 [Ht1 Hok1]. pose proof (oo_wf _ _ Hok1) as Hwf1.
  apply wp_bind, wp_at_index; [by rewrite (ow_sockets _ Hwf1)|]. intros c1 _.
  case_match; [by apply wp_ret|]. apply wp_bind, wp_at_index; [by rewrite (ow_expected _ Hwf1)|]. intros e _.
  case_match; [by apply wp_ret|]. apply wp_bind, wp_on_app.
  set (s2 := mkServer _ _). assert (Hok2 : os_ok (srv_app s2) (live s1)).
  { destruct Hok1 as [[? ? ? ?] ? ?]. split; [|done..]. split; cbn; rewrite ?length_insert; done. }
  eapply wp_mono; [apply wp_on_sequencer, addClientRequest_safe, Hok2|].
  cbn. intros _ s3 (q & Hq & ->). split; [done|]. by apply os_ok_sequencer.
Qed.

Lemma recvLoop_safe socket rx buffer : ∀ fuel offset s,
  (length buffer - offset ≤ fuel)%nat → os_ok (srv_app s) (live s) → socket ∈ live s →
  wp (recvLoop fuel socket rx buffer offset) (λ _ s', app_keeps s s') s.
Proof.
  pose proof (wire_size (A := OMClientRequest)) as Hpos.
  induction fuel as [|fuel IH]; intros offset s Hf Hok Hp; cbn [recvLoop];
    case Nat.leb_spec; intros Hle; try (by apply wp_ret); [lia|].
  apply wp_bind. eapply wp_mono; [by apply recvRequest_safe|]. intros [] s1 [Ht1 Hok1].
  assert (El : live s1 = live s) by (unfold live; by rewrite Ht1).
  eapply wp_mono; [apply IH; [lia|done|by rewrite El]|]. intros n s2 [Ht2 Hok2].
  split; [by rewrite Ht2|done].
Qed.

#[export] Instance OrderServer_owner : Owner recvCallback recvFinishedCallback disconnectCallback os_ok.
Proof.
  split.
  - intros o D D' [? Hl ?] Hsub. split; [done| |done]. intros p Hp. by apply Hsub, Hl.
  - intros p rx s Hp Hok. unfold recvCallback. apply wp_bind. apply wp_sock_get; [done|]. intros x Hx.
    apply wp_bind. eapply wp_mono; [apply recvLoop_safe; [lia|done..]|]. intros off s1 [Ht1 Hok1].
    assert (El : live s1 = live s) by (unfold live; by rewrite Ht1).
    assert (Hn1 : same_net s s1) by (unfold same_net; by rewrite El, Ht1).
    case_match; [|by apply wp_ret]. eapply wp_mono; [apply wp_sock_run; [by rewrite El|done]|].
    cbn. intros _ s2 [Hn2 Ha2]. split; [by eapply same_net_trans|]. rewrite Ha2.
    by destruct Hn2 as [-> _].
  - intros s Hok. eapply wp_mono; [apply wp_on_sequencer, sequenceAndPublish_safe, Hok|].
    cbn. intros _ s1 (q & Hq & ->). split; [by split_and!|]. by apply os_ok_sequencer.
  - intros p s [[Hs He Ho Hq] Hl Hr]. apply wp_on_app. split; [done|]. cbn. split; [split| |done]; cbn.
    + by rewrite length_fmap.
    + rewrite length_zip_with. lia.
    + rewrite length_zip_with. lia.
    + done.
    + intros q (c & Ec & Hin)%list_elem_of_fmap. case_bool_decide as Hc; [done|]. subst c.
      apply minus_live; [by apply Hl|congruence].
Qed.

(** *** Responses *)

Definition keeps_queue s s' : Prop :=
  server_ok os_ok s' ∧ incoming_responses_ (srv_app s') = incoming_responses_ (srv_app s).

Lemma wp_tcp_send data (x : TCPSocket) : wp (tcp_send data) (λ _ _, True) x.
Proof. unfold tcp_send. case_match; wsteps; done. Qed.

Lemma send_safe p data s :
  server_ok os_ok s → p ∈ live s →
  wp (sock_run p (tcp_send data)) (λ _ s', server_ok os_ok s' ∧ srv_app s' = srv_app s ∧ live s' = live s) s.
Proof.
  intros Hs Hp. eapply wp_mono; [apply wp_sock_run; [done|apply wp_tcp_send]|].
  cbn. intros _ s1 [Hn Ha]. split_and!; [|done|by destruct Hn].
  eapply (same_net_ok os_ok); [exact Hs|exact Hn|]. rewrite Ha. destruct Hn as [-> _]. apply Hs.
Qed.

Lemma sendResponse_safe r s :
  server_ok os_ok s → wp (sendResponse r) (λ _ s', keeps_queue s s') s.
Proof.
  intros [Ht Hok]. unfold sendResponse. wsteps. case Z.ltb_spec; intros Hlt; [|by apply wp_ret].
  pose proof (oo_wf _ _ Hok) as Hwf. pose proof cfg_clients as Hcl. rewrite (ow_sockets _ Hwf) in Hlt.
  assert (Hi : (Z.to_nat (rs_client_id_ r) < Z.to_nat ME_MAX_NUM_CLIENTS)%nat) by lia.
  apply wp_bind, wp_at_index; [by rewrite (ow_sockets _ Hwf)|]. intros [p|] Hc; [|by apply wp_ret].
  apply wp_bind, wp_at_index; [by rewrite (ow_outgoing _ Hwf)|]. intros n Hn.
  assert (Hp : p ∈ live s) by (apply (oo_live _ _ Hok); by eapply list_elem_of_lookup_2).
  apply wp_bind. eapply wp_mono; [by apply send_safe|]. intros [] s1 (Hs1 & Ea1 & El1).
  apply wp_bind. eapply wp_mono; [apply send_safe; [done|by rewrite El1]|]. intros [] s2 ([Ht2 Hok2] & Ea2 & El2).
  apply wp_on_app. split; [|cbn; by rewrite Ea2, Ea1]. split; [done|].
  destruct Hok2 as [[? ? ? ?] ? ?]. split; [|done..]. split; cbn; rewrite ?length_insert; done.
Qed.

Lemma set_incoming_ok q s n l :
  server_ok os_ok s → q_rep q n l → server_ok os_ok (mkServer (srv_tcp s) (set_incoming q (srv_app s))).
Proof. intros [Ht [[? ? ? ?] Hl Hq]] Hr. split; [done|]. split; [done|done|]. by exists n, l. Qed.

Lemma drainResponses_safe fuel : ∀ s n l,
  server_ok os_ok s → q_rep (incoming_responses_ (srv_app s)) n l → (length l ≤ fuel)%nat →
  wp (drainResponses fuel) (λ _ s', server_ok os_ok s' ∧ q_rep (incoming_responses_ (srv_app s')) n []) s.
Proof.
  induction fuel as [|fuel IH]; intros s n l Hs Hq Hf;
    destruct (peek_spec _ _ _ Hq) as [Hpeek Hq1]; cbn [drainResponses]; wsteps;
    destruct (peek (incoming_responses_ (srv_app s))) as [o q1]; cbn [fst snd] in Hpeek, Hq1; subst o;
    destruct l as [|r l]; try (cbn in Hf; lia).
  1, 2: apply wp_bind, wp_on_app; cbn [head]; wsteps; split; [by eapply set_incoming_ok|done].
  apply wp_bind, wp_on_app. cbn [head]. pose proof (set_incoming_ok _ _ _ _ Hs Hq1) as Hs1.
  apply wp_bind. eapply wp_mono; [by apply sendResponse_safe|]. intros [] s2 [Hs2 Eq2]. wsteps.
  cbn [srv_app set_incoming incoming_responses_] in Eq2. rewrite Eq2.
  destruct (pop_spec _ _ _ Hq1) as (q2 & Hpop & Hq2). apply wp_lift. rewrite Hpop.
  apply wp_bind, wp_on_app. eapply (wp_mono (A := unit)).
  - apply (IH _ n l); [by eapply set_incoming_ok|exact Hq2|cbn in Hf; lia].
  - by intros [] s3.
Qed.


Lemma OrderServer_new_ok req resp n :
  q_rep resp n [] → server_ok os_ok (OrderServer_new req resp).
Proof.
  intros Hq. split.
  - split; cbn; try (intros p Hp; by apply not_elem_of_nil in Hp); [|constructor].
    rewrite dom_empty_L. apply not_elem_of_empty.
  - split; [split; cbn; rewrite ?length_replicate; try done| |by exists n, []].
    cbn. intros p Hp%elem_of_replicate. by destruct Hp.
Qed.
End lifetimes.
