(* ===== verification/OrderGateway.v ===== *)
(** Trading::OrderGateway (trading/order_gw/order_gateway.h and .cpp): the
    trading client's end of the order session.

    Requests of the strategy are numbered and written to the socket; responses
    are cut out of the byte stream, checked against the client id and the
    expected sequence number, and published to the strategy's queue.

    [gateway_session] is the contract of the two directions over any number of
    turns and any segmentation; OrderPath.v joins it to the OrderServer at the
    other end.
    Connecting is not modelled: the constructor's [connect] succeeds or the
    process exits. *)

From S2P Require Import Prelude Types Wire Framing Sockets SocketStream LFQueue.

Record OrderGateway := mkOrderGateway {
  og_outgoing_requests_ : LFQueue MEClientRequest;
  og_incoming_responses_ : LFQueue MEClientResponse;
  og_client_id_ : ClientId;
  tcp_socket_ : TCPSocket;
  next_outgoing_seq_num_ : Z;
  next_exp_incoming_seq_num_ : Z;
}.

Definition set_og_requests v g := mkOrderGateway v (og_incoming_responses_ g) (og_client_id_ g) (tcp_socket_ g)
  (next_outgoing_seq_num_ g) (next_exp_incoming_seq_num_ g).
Definition set_og_responses v g := mkOrderGateway (og_outgoing_requests_ g) v (og_client_id_ g) (tcp_socket_ g)
  (next_outgoing_seq_num_ g) (next_exp_incoming_seq_num_ g).
Definition set_og_socket v g := mkOrderGateway (og_outgoing_requests_ g) (og_incoming_responses_ g) (og_client_id_ g) v
  (next_outgoing_seq_num_ g) (next_exp_incoming_seq_num_ g).
Definition set_og_outgoing v g := mkOrderGateway (og_outgoing_requests_ g) (og_incoming_responses_ g) (og_client_id_ g)
  (tcp_socket_ g) v (next_exp_incoming_seq_num_ g).
Definition set_og_expected v g := mkOrderGateway (og_outgoing_requests_ g) (og_incoming_responses_ g) (og_client_id_ g)
  (tcp_socket_ g) (next_outgoing_seq_num_ g) v.

Section OrderGateway.
Context `{Config, NetConfig}.
Local Abbreviation OG := (M OrderGateway).

(** The constructor, connected on descriptor [f]. *)
Definition OrderGateway_new (client_id : ClientId) client_requests client_responses (f : Z) : OrderGateway :=
  mkOrderGateway client_requests client_responses client_id (TCPSocket_new f) 1 1.

Definition og_tcp : lens OrderGateway TCPSocket := Lens tcp_socket_ set_og_socket.

Definition sendRequest (req : MEClientRequest) : OG unit :=
  seq ← gets next_outgoing_seq_num_;
  zoom og_tcp (tcp_send (le 8 seq));;
  zoom og_tcp (tcp_send (wput req));;
  modify (set_og_outgoing (u64 (seq + 1))).

Definition processResponse (msg : OMClientResponse) : OG unit :=
  cid ← gets og_client_id_;
  if negb (rs_client_id_ (me_client_response_ msg) =? cid) then mret tt
  else
    expected ← gets next_exp_incoming_seq_num_;
    if negb (omrs_seq_num_ msg =? expected) then mret tt
    else
      modify (set_og_expected (u64 (expected + 1)));;
      q ← gets og_incoming_responses_;
      q ← lift (push (me_client_response_ msg) q);
      modify (set_og_responses q).

(** The parse loop: [while (next_rcv_valid_index - offset >= sizeof)]. *)
Fixpoint og_recvLoop (fuel : nat) (buffer : list byte) (offset : nat) : OG nat :=
  if (wsize OMClientResponse <=? length buffer - offset)%nat then
    match fuel with
    | O => fail Spin
    | S fuel =>
        processResponse (wget (drop offset buffer));;
        og_recvLoop fuel buffer (offset + wsize OMClientResponse)
    end
  else mret offset.

Definition og_recvCallback (rx_time : Nanos) : OG unit :=
  s ← gets tcp_socket_;
  let buffer := rcv_buffer s in
  offset ← og_recvLoop (length buffer) buffer 0;
  if (0 <? offset)%nat then zoom og_tcp (modify (set_rcv_buffer (drop offset buffer))) else mret tt.

(** [while (off + sizeof(OMClientResponse) <= len)]. *)
Fixpoint onBytes_loop (fuel : nat) (data : list byte) (off : nat) : OG unit :=
  if (off + wsize OMClientResponse <=? length data)%nat then
    match fuel with
    | O => fail Spin
    | S fuel =>
        processResponse (wget (drop off data));;
        onBytes_loop fuel data (off + wsize OMClientResponse)
    end
  else mret tt.
Definition onBytesForTest (data : list byte) : OG unit := onBytes_loop (length data) data 0.

(** The request loop of [run]: until the queue is empty. *)
Fixpoint drainRequests (fuel : nat) : OG unit :=
  q ← gets og_outgoing_requests_;
  let '(req, q) := peek q in
  modify (set_og_requests q);;
  match req with
  | None => mret tt
  | Some req =>
      match fuel with
      | O => fail Spin
      | S fuel =>
          sendRequest req;;
          q ← gets og_outgoing_requests_;
          q ← lift (pop q);
          modify (set_og_requests q);;
          drainRequests fuel
      end
  end.

(** One turn of [run]; [r] and [kernel] are what the socket answers. *)
Definition og_run_once (r : RecvResult) (kernel : nat → SendResult) : OG unit :=
  n ← gets (λ g, LFQueue.size (og_outgoing_requests_ g));
  drainRequests (Z.to_nat n);;
  tcp_sendAndRecv (gets tcp_socket_) (zoom og_tcp) og_recvCallback r kernel;; mret tt.
End OrderGateway.

(** ** Specification *)

(** The requests [reqs] on the wire, numbered from [seq]. *)
Definition numbered_requests (seq : Z) (reqs : list MEClientRequest) : list OMClientRequest :=
  imap (λ i r, mkOMClientRequest (u64 (seq + Z.of_nat i)) r) reqs.

(** What client [cid], expecting [exp], takes of the messages [ms]. *)
Fixpoint accepted_responses (cid : ClientId) (ms : list OMClientResponse) (exp : Z) : list MEClientResponse * Z :=
  match ms with
  | [] => ([], exp)
  | m :: ms =>
      if (rs_client_id_ (me_client_response_ m) =? cid) && (omrs_seq_num_ m =? exp) then
        let '(l, exp) := accepted_responses cid ms (u64 (exp + 1)) in (me_client_response_ m :: l, exp)
      else accepted_responses cid ms exp
  end.

Lemma numbered_requests_cons seq r reqs :
  numbered_requests seq (r :: reqs) = mkOMClientRequest (u64 seq) r :: numbered_requests (seq + 1) reqs.
Proof.
  unfold numbered_requests. rewrite imap_cons, Z.add_0_r. f_equal. apply imap_ext. intros i x _. cbn. do 2 f_equal. lia.
Qed.
Lemma numbered_requests_u64 seq reqs : numbered_requests (u64 seq) reqs = numbered_requests seq reqs.
Proof. apply imap_ext. intros i x _. cbn. f_equal. apply Zplus_mod_idemp_l. Qed.
Lemma numbered_requests_app seq l k :
  numbered_requests seq (l ++ k) = numbered_requests seq l ++ numbered_requests (seq + Z.of_nat (length l)) k.
Proof. unfold numbered_requests. rewrite imap_app. f_equal. apply imap_ext. intros i x _. cbn. do 2 f_equal. lia. Qed.
Lemma accepted_responses_app cid ms ms' exp :
  accepted_responses cid (ms ++ ms') exp =
    ((accepted_responses cid ms exp).1 ++ (accepted_responses cid ms' (accepted_responses cid ms exp).2).1,
     (accepted_responses cid ms' (accepted_responses cid ms exp).2).2).
Proof.
  revert exp. induction ms as [|m ms IH]; intros exp; cbn [app accepted_responses].
  - cbn. by destruct (accepted_responses cid ms' exp).
  - destruct (_ && _); [|apply IH]. rewrite IH. by destruct (accepted_responses cid ms _).
Qed.

Section spec.
Context `{Config, NetConfig}.
Implicit Types (g : OrderGateway) (s : TCPSocket).

Lemma tcp_send_wp data s :
  wp (tcp_send data) (λ _ s', s' = set_send_buffer (send_buffer s ++ data) s) s.
Proof.
  unfold tcp_send. case Z.ltb_spec; intros Hl; [by wsteps|].
  destruct data; [|cbn in Hl; lia]. wsteps. rewrite app_nil_r. by destruct s.
Qed.

(** *** Requests *)

Lemma sendRequest_spec req g :
  wp (sendRequest req) (λ _ g', g' = set_og_outgoing (u64 (next_outgoing_seq_num_ g + 1))
    (set_og_socket (set_send_buffer (send_buffer (tcp_socket_ g) ++ wput (mkOMClientRequest (next_outgoing_seq_num_ g) req))
      (tcp_socket_ g)) g)) g.
Proof.
  unfold sendRequest. wsteps. apply wp_zoom. eapply wp_mono; [apply tcp_send_wp|]. intros [] s1 ->. wsteps.
  apply wp_zoom. eapply wp_mono; [apply tcp_send_wp|]. intros [] s2 ->. wsteps.
  cbn [lget lset og_tcp tcp_socket_ set_og_socket send_buffer set_send_buffer]. rewrite <- app_assoc. done.
Qed.

Lemma drainRequests_spec fuel : ∀ g n l,
  q_rep (og_outgoing_requests_ g) n l → (length l ≤ fuel)%nat → is_u64 (next_outgoing_seq_num_ g) →
  wp (drainRequests fuel) (λ _ g', ∃ q, q_rep q n [] ∧
    g' = set_og_requests q (set_og_outgoing (u64 (next_outgoing_seq_num_ g + Z.of_nat (length l)))
      (set_og_socket (set_send_buffer
        (send_buffer (tcp_socket_ g) ++ bytes_of (numbered_requests (next_outgoing_seq_num_ g) l)) (tcp_socket_ g)) g))) g.
Proof.
  induction fuel as [|fuel IH]; intros g n l Hq Hf Hseq;
    destruct (peek_spec _ _ _ Hq) as [Hpeek Hq1]; cbn [drainRequests]; wsteps;
    destruct (peek (og_outgoing_requests_ g)) as [o q1]; cbn [fst snd] in Hpeek, Hq1; subst o;
    destruct l as [|r l]; try (cbn in Hf; lia); cbn [head]; wsteps.
  1, 2: exists q1; split; [done|]; rewrite app_nil_r, Z.add_0_r, u64_id by exact Hseq; destruct g as [? ? ? [] ? ?]; reflexivity.
  eapply wp_mono; [apply sendRequest_spec|]. intros [] g1 ->. wsteps.
  destruct (pop_spec _ _ _ Hq1) as (q2 & Hpop & Hq2). apply wp_lift. cbn [og_outgoing_requests_ set_og_outgoing set_og_socket set_og_requests].
  rewrite Hpop. wsteps.
  match goal with |- wp _ _ ?g2 => pose proof (IH g2 n l Hq2 ltac:(cbn in Hf; lia) (u64_range _)) as IH1 end.
  eapply wp_mono; [exact IH1|]. intros [] g3 (q & Hq3 & ->). exists q. split; [done|].
  cbn [next_outgoing_seq_num_ tcp_socket_ send_buffer set_send_buffer set_og_outgoing set_og_socket set_og_requests].
  rewrite numbered_requests_cons, bytes_of_cons, numbered_requests_u64, (u64_id (next_outgoing_seq_num_ g)) by done.
  rewrite <- app_assoc. replace (u64 (next_outgoing_seq_num_ g + Z.of_nat (length (r :: l))))
    with (u64 (u64 (next_outgoing_seq_num_ g + 1) + Z.of_nat (length l))); [done|].
  unfold u64. rewrite Zplus_mod_idemp_l. f_equal. cbn [length]. lia.
Qed.

(** *** Responses *)

Lemma processResponse_spec msg g n l :
  q_rep (og_incoming_responses_ g) n l →
  let acc := accepted_responses (og_client_id_ g) [msg] (next_exp_incoming_seq_num_ g) in
  wp (processResponse msg) (λ _ g', ∃ q, q_rep q n (l ++ acc.1) ∧ g' = set_og_responses q (set_og_expected acc.2 g)) g.
Proof.
  intros Hq acc. subst acc. cbn [accepted_responses].
  assert (Hsame : ∃ q, q_rep q n (l ++ []) ∧ g = set_og_responses q (set_og_expected (next_exp_incoming_seq_num_ g) g)).
  { exists (og_incoming_responses_ g). rewrite app_nil_r. by destruct g. }
  unfold processResponse. wsteps. destruct (_ =? og_client_id_ g); cbn [andb negb fst snd]; [|by wsteps].
  wsteps. destruct (_ =? next_exp_incoming_seq_num_ g); cbn [andb negb fst snd]; [|by wsteps].
  wsteps. pose proof (push_spec (me_client_response_ msg) _ _ _ Hq) as Hp. apply wp_lift.
  cbn [og_incoming_responses_ set_og_expected]. destruct (_ <? _); [|by rewrite Hp].
  destruct Hp as (q & -> & Hq'). wsteps. by exists q.
Qed.

(** Both parse loops hand over the frames of the buffer. *)
Definition took g n l (ms : list OMClientResponse) g' : Prop :=
  let acc := accepted_responses (og_client_id_ g) ms (next_exp_incoming_seq_num_ g) in
  ∃ q, q_rep q n (l ++ acc.1) ∧ g' = set_og_responses q (set_og_expected acc.2 g).

Lemma took_nil g n l : q_rep (og_incoming_responses_ g) n l → took g n l [] g.
Proof. intros Hq. exists (og_incoming_responses_ g). cbn. rewrite app_nil_r. by destruct g. Qed.

Lemma took_cons g n l m ms g1 g2 :
  took g n l [m] g1 → took g1 n (l ++ (accepted_responses (og_client_id_ g) [m] (next_exp_incoming_seq_num_ g)).1) ms g2 →
  took g n l (m :: ms) g2.
Proof.
  intros (q1 & H1 & ->) (q2 & H2 & ->). unfold took in *. change (m :: ms) with ([m] ++ ms). rewrite accepted_responses_app.
  exists q2. cbn [fst snd og_client_id_ next_exp_incoming_seq_num_ set_og_responses set_og_expected] in *.
  rewrite app_assoc. by split.
Qed.

Lemma og_recvLoop_spec buffer : ∀ fuel offset g n l,
  (length buffer - offset ≤ fuel)%nat → q_rep (og_incoming_responses_ g) n l →
  wp (og_recvLoop fuel buffer offset) (λ off g',
    drop off buffer = partial OMClientResponse (drop offset buffer) ∧ (offset ≤ off)%nat ∧
    took g n l (frames OMClientResponse (drop offset buffer)) g') g.
Proof.
  pose proof (wire_size (A := OMClientResponse)) as Hpos.
  induction fuel as [|fuel IH]; intros offset g n l Hf Hq; cbn [og_recvLoop];
    case Nat.leb_spec; rewrite <- (length_drop buffer offset); intros Hl;
    try (rewrite length_drop in Hl; lia).
  1, 3: destruct (frames_short (A := OMClientResponse) _ Hl) as [-> ->]; wsteps; split_and!; try done; by apply took_nil.
  destruct (frames_step (A := OMClientResponse) _ Hl) as [-> ->]. rewrite drop_drop. rewrite length_drop in Hl. wsteps.
  eapply wp_mono; [by apply processResponse_spec|]. intros [] g1 Hg1. pose proof Hg1 as (q1 & Hq1 & E1).
  assert (Hi1 : og_incoming_responses_ g1 = q1) by (by rewrite E1). rewrite <- Hi1 in Hq1.
  eapply wp_mono; [apply (IH (offset + wsize OMClientResponse)%nat g1 n _ ltac:(lia) Hq1)|]. intros off g2 (Ho & Hle & Ht). split_and!; [done|lia|].
  by eapply took_cons.
Qed.

Lemma onBytes_loop_spec data : ∀ fuel off g n l,
  (length data - off ≤ fuel)%nat → q_rep (og_incoming_responses_ g) n l →
  wp (onBytes_loop fuel data off) (λ _ g', took g n l (frames OMClientResponse (drop off data)) g') g.
Proof.
  pose proof (wire_size (A := OMClientResponse)) as Hpos.
  induction fuel as [|fuel IH]; intros off g n l Hf Hq; cbn [onBytes_loop];
    case Nat.leb_spec; intros Hl; try lia.
  1, 3: destruct (frames_short (A := OMClientResponse) (drop off data)) as [-> _]; [rewrite length_drop; lia|]; wsteps; by apply took_nil.
  destruct (frames_step (A := OMClientResponse) (drop off data)) as [-> _]; [rewrite length_drop; lia|]. rewrite drop_drop. wsteps.
  eapply wp_mono; [by apply processResponse_spec|]. intros [] g1 Hg1. pose proof Hg1 as (q1 & Hq1 & E1).
  assert (Hi1 : og_incoming_responses_ g1 = q1) by (by rewrite E1). rewrite <- Hi1 in Hq1.
  eapply wp_mono; [apply (IH (off + wsize OMClientResponse)%nat g1 n _ ltac:(lia) Hq1)|]. intros [] g2 Ht. by eapply took_cons.
Qed.

Lemma og_recvCallback_spec rx g n l :
  q_rep (og_incoming_responses_ g) n l →
  let buf := rcv_buffer (tcp_socket_ g) in
  wp (og_recvCallback rx) (λ _ g', ∃ g1, took g n l (frames OMClientResponse buf) g1 ∧
    g' = set_og_socket (set_rcv_buffer (partial OMClientResponse buf) (tcp_socket_ g)) g1) g.
Proof.
  intros Hq buf. unfold og_recvCallback. wsteps. fold buf.
  eapply wp_mono; [apply (og_recvLoop_spec buf (length buf) 0 g n l ltac:(lia) Hq)|]. intros off g1 (Ho & _ & Ht).
  rewrite drop_0 in Ho, Ht. rewrite <- Ho.
  assert (Es : tcp_socket_ g1 = tcp_socket_ g) by (by destruct Ht as (q & _ & ->)).
  case Nat.ltb_spec; intros Hoff.
  - apply wp_zoom. wsteps. exists g1. split; [done|]. by rewrite <- Es.
  - wsteps. exists g1. split; [done|]. assert (off = 0%nat) as -> by lia. rewrite drop_0. subst buf.
    rewrite <- Es. by destruct g1 as [? ? ? [] ? ?].
Qed.

(** *** Turns

    Before a turn the strategy's thread publishes [t_requests] and takes up to
    [t_taken] responses; [t_recv] and [t_kernel] are what the socket answers in
    the turn. *)
Record turn := mkTurn {
  t_requests : list MEClientRequest;
  t_taken : nat;
  t_recv : RecvResult;
  t_kernel : nat → SendResult;
}.

Fixpoint take_from (k : nat) (q : LFQueue MEClientResponse) : res (list MEClientResponse * LFQueue MEClientResponse) :=
  match k with
  | O => Ok ([], q)
  | S k =>
      match peek q with
      | (None, q) => Ok ([], q)
      | (Some r, q) => q ← pop q; '(l, q) ← take_from k q; Ok (r :: l, q)
      end
  end.

Definition og_turn (t : turn) : M OrderGateway (list MEClientResponse) :=
  q ← gets og_outgoing_requests_; q ← lift (push_all (t_requests t) q); modify (set_og_requests q);;
  q ← gets og_incoming_responses_; '(l, q) ← lift (take_from (t_taken t) q); modify (set_og_responses q);;
  og_run_once (t_recv t) (t_kernel t);; mret l.

(** What the strategy takes over the turns. *)
Fixpoint og_turns (ts : list turn) : M OrderGateway (list MEClientResponse) :=
  match ts with
  | [] => mret []
  | t :: ts => l ← og_turn t; l' ← og_turns ts; mret (l ++ l')
  end.

Lemma take_from_spec k : ∀ q n l, q_rep q n l → ∃ q', take_from k q = Ok (take k l, q') ∧ q_rep q' n (drop k l).
Proof.
  induction k as [|k IH]; intros q n l Hq; [by exists q|]. cbn [take_from].
  destruct (peek_spec _ _ _ Hq) as [Hpeek Hq1]. destruct (peek q) as [o q1]. cbn [fst snd] in Hpeek, Hq1. subst o.
  destruct l as [|r l]; cbn [head]; [by exists q1|]. destruct (pop_spec _ _ _ Hq1) as (q2 & -> & Hq2). cbn [mbind res_bind].
  destruct (IH q2 n l Hq2) as (q3 & -> & Hq3). by exists q3.
Qed.

Definition received (t : turn) : list byte := match t_recv t with RecvData bytes _ => bytes | _ => [] end.

(** The bytes the kernel takes over the turns, [buf] being buffered before. *)
Fixpoint sent_over (ts : list turn) (buf : list byte) (seq : Z) : list byte :=
  match ts with
  | [] => []
  | t :: ts =>
      let buf := buf ++ bytes_of (numbered_requests seq (t_requests t)) in
      let out := taken (t_kernel t) buf in
      out ++ sent_over ts (drop (length out) buf) (u64 (seq + Z.of_nat (length (t_requests t))))
  end.

(** The gateway between turns: its queues, and its socket's buffers as long as
    it can send. *)
Record og_between g (buf rcv : list byte) (seq exp : Z) (resps : list MEClientResponse) : Prop := {
  ob_requests : ∃ n, q_rep (og_outgoing_requests_ g) n [];
  ob_responses : ∃ n, q_rep (og_incoming_responses_ g) n resps;
  ob_seq : next_outgoing_seq_num_ g = seq ∧ is_u64 seq;
  ob_exp : next_exp_incoming_seq_num_ g = exp;
  ob_rcv : rcv_buffer (tcp_socket_ g) = rcv;
  ob_send : send_disconnected (tcp_socket_ g) = false → send_buffer (tcp_socket_ g) = buf;
}.

Lemma flush_wp kernel s : kernel_ok kernel →
  wp (flush kernel) (λ _ s', rcv_buffer s' = rcv_buffer s ∧
    (send_disconnected s' = false → send_disconnected s = false ∧
      send_buffer s' = drop (length (taken kernel (send_buffer s))) (send_buffer s))) s.
Proof.
  intros Hk. destruct (flush_takes s kernel Hk) as (s' & Hf & Hb). destruct (flush_spec s kernel Hk) as (s2 & Hf2 & Hr & _).
  rewrite Hf in Hf2. injection Hf2 as <-. by eapply wp_Ok.
Qed.

(** The socket's half of a turn: the frames of [buf] taken, and what the kernel
    takes of the send buffer gone from it. *)
Definition polled g n l (buf : list byte) kernel g' : Prop :=
  let s := tcp_socket_ g in
  ∃ g1 s', took g n l (frames OMClientResponse buf) g1 ∧ g' = set_og_socket s' g1 ∧
    rcv_buffer s' = partial OMClientResponse buf ∧
    (send_disconnected s' = false → send_disconnected s = false ∧
      send_buffer s' = drop (length (taken kernel (send_buffer s))) (send_buffer s)).

Lemma polled_flush kernel g n l buf g1 s1 (b : bool) :
  kernel_ok kernel → took g n l (frames OMClientResponse buf) g1 → rcv_buffer s1 = partial OMClientResponse buf →
  (send_disconnected s1 = false → send_disconnected (tcp_socket_ g) = false) → send_buffer s1 = send_buffer (tcp_socket_ g) →
  wp (zoom og_tcp (flush kernel);; mret b) (λ _ g', polled g n l buf kernel g') (set_og_socket s1 g1).
Proof.
  intros Hk Ht Er Ed Es. wsteps. apply wp_zoom. eapply wp_mono; [by apply flush_wp|].
  intros [] s2 [Er2 Hs2]. cbn [lget og_tcp tcp_socket_ set_og_socket] in Er2, Hs2. wsteps. exists g1, s2. split; [done|].
  split; [done|]. split; [by rewrite Er2|]. intros Hd. destruct (Hs2 Hd) as [Hd1 Hb]. rewrite Es in Hb. auto.
Qed.

Lemma og_poll_spec r kernel g n l :
  kernel_ok kernel → q_rep (og_incoming_responses_ g) n l →
  let s := tcp_socket_ g in
  let buf := rcv_buffer s ++ match r with RecvData bytes _ => bytes | _ => [] end in
  (length (rcv_buffer s) < wsize OMClientResponse)%nat →
  wp (tcp_sendAndRecv (gets tcp_socket_) (zoom og_tcp) og_recvCallback r kernel) (λ _ g', polled g n l buf kernel g') g.
Proof.
  intros Hk Hq s buf Hshort. unfold tcp_sendAndRecv. wsteps. fold s.
  assert (Hnone : ∀ s1 (b : bool), rcv_buffer s1 = rcv_buffer s → send_buffer s1 = send_buffer s →
    (send_disconnected s1 = false → send_disconnected s = false) →
    wp (zoom og_tcp (flush kernel);; mret b) (λ _ g', polled g n l (rcv_buffer s) kernel g') (set_og_socket s1 g)).
  { intros s1 b E1 E2 E3. destruct (frames_short (A := OMClientResponse) _ Hshort) as [F1 F2].
    apply polled_flush; try done; [rewrite F1; by apply took_nil|by rewrite F2]. }
  assert (Hid : g = set_og_socket s g) by (by destruct g).
  destruct r as [bytes time| | |]; subst buf; rewrite ?app_nil_r.
  - wsteps. apply wp_zoom. wsteps. set (s1 := set_rcv_buffer (rcv_buffer s ++ bytes) s).
    eapply wp_mono; [apply (og_recvCallback_spec time (set_og_socket s1 g) n l Hq)|].
    intros [] g2 (g1 & (q & Hq1 & ->) & ->). wsteps.
    apply wp_bind_inv, (polled_flush kernel g n l _ (set_og_responses q (set_og_expected (accepted_responses (og_client_id_ g)
       (frames OMClientResponse (rcv_buffer s ++ bytes)) (next_exp_incoming_seq_num_ g)).2 g))); try done. by exists q.
  - wsteps. case_match; [apply wp_zoom; wsteps|rewrite Hid; wsteps]; by apply wp_bind_inv, Hnone.
  - wsteps. rewrite Hid. by apply wp_bind_inv, Hnone.
  - wsteps. apply wp_zoom. wsteps. by apply wp_bind_inv, Hnone.
Qed.

Lemma og_turn_spec t g buf rcv seq exp resps :
  kernel_ok (t_kernel t) → og_between g buf rcv seq exp resps →
  let buf' := buf ++ bytes_of (numbered_requests seq (t_requests t)) in
  let acc := accepted_responses (og_client_id_ g) (frames OMClientResponse (rcv ++ received t)) exp in
  (length rcv < wsize OMClientResponse)%nat →
  wp (og_turn t) (λ l g',
    l = take (t_taken t) resps ∧
    og_between g' (drop (length (taken (t_kernel t) buf')) buf') (partial OMClientResponse (rcv ++ received t))
      (u64 (seq + Z.of_nat (length (t_requests t)))) acc.2 (drop (t_taken t) resps ++ acc.1) ∧
    og_client_id_ g' = og_client_id_ g ∧
    (send_disconnected (tcp_socket_ g') = false → send_disconnected (tcp_socket_ g) = false)) g.
Proof.
  intros Hk [[n Hq] [m Hr] [Hs Hu] He Hrc Hb] buf' acc Hshort. unfold og_turn. wsteps. apply wp_lift.
  pose proof (push_all_spec (t_requests t) _ _ _ Hq) as Hp. destruct (q_rep_length _ _ _ Hq) as (Hn & _ & Hl).
  specialize (Hp ltac:(unfold fits; cbn; apply Z.leb_le; lia)). cbn [app] in Hp.
  destruct (fits n (t_requests t)); [|by rewrite Hp]. destruct Hp as (q1 & -> & Hq1). wsteps. apply wp_lift.
  destruct (take_from_spec (t_taken t) _ _ _ Hr) as (q0 & Et & Hr0). change (og_incoming_responses_ (set_og_requests q1 g)) with (og_incoming_responses_ g).
  rewrite Et. wsteps. unfold og_run_once. wsteps.
  set (g1 := set_og_responses q0 (set_og_requests q1 g)). change (og_outgoing_requests_ g1) with q1.
  eapply wp_mono.
  { apply (drainRequests_spec _ g1 n (t_requests t)); [exact Hq1| |by change (next_outgoing_seq_num_ g1) with (next_outgoing_seq_num_ g); rewrite Hs].
    change (og_outgoing_requests_ g1) with q1. rewrite (size_spec _ _ _ Hq1). lia. }
  intros [] g2 (q2 & Hq2 & ->). change (next_outgoing_seq_num_ g1) with (next_outgoing_seq_num_ g). rewrite Hs.
  wsteps. set (g2 := set_og_requests q2 _). pose proof (og_poll_spec (t_recv t) (t_kernel t) g2 m _ Hk Hr0) as Hpoll. cbv zeta in Hpoll.
  change (rcv_buffer (tcp_socket_ g2)) with (rcv_buffer (tcp_socket_ g)) in Hpoll. rewrite Hrc in Hpoll.
  eapply wp_mono; [by apply Hpoll|]. intros b g3 (g4 & s' & (q3 & Hq3 & ->) & -> & Er & Hsd). wsteps.
  change (og_client_id_ g2) with (og_client_id_ g) in Hq3. change (next_exp_incoming_seq_num_ g2) with (next_exp_incoming_seq_num_ g) in Hq3.
  rewrite He in Hq3. split; [done|]. split; [|split; [done|by intros Hd; apply Hsd]]. split.
  - by exists n.
  - by exists m.
  - split; [done|apply u64_range].
  - cbn. by rewrite He.
  - exact Er.
  - intros Hd. destruct (Hsd Hd) as [Hd' Hb']. etransitivity; [exact Hb'|].
    change (send_buffer (tcp_socket_ g2)) with (send_buffer (tcp_socket_ g) ++ bytes_of (numbered_requests seq (t_requests t))).
    by rewrite (Hb Hd').
Qed.

Lemma og_turns_spec ts : ∀ g buf rcv seq exp resps,
  Forall (λ t, kernel_ok (t_kernel t)) ts → og_between g buf rcv seq exp resps → (length rcv < wsize OMClientResponse)%nat →
  wp (og_turns ts) (λ l g',
    (∃ m held, q_rep (og_incoming_responses_ g') m held ∧
       l ++ held = resps ++ (accepted_responses (og_client_id_ g) (frames OMClientResponse (rcv ++ (ts ≫= received))) exp).1) ∧
    (send_disconnected (tcp_socket_ g') = false →
       sent_over ts buf seq ++ send_buffer (tcp_socket_ g') = buf ++ bytes_of (numbered_requests seq (ts ≫= t_requests))) ∧
    (send_disconnected (tcp_socket_ g') = false → send_disconnected (tcp_socket_ g) = false)) g.
Proof.
  induction ts as [|t ts IH]; intros g buf rcv seq exp resps Hk Hg Hshort.
  - cbn [og_turns]. wsteps. rewrite !app_nil_r. destruct (frames_short (A := OMClientResponse) _ Hshort) as [-> _].
    destruct (ob_responses _ _ _ _ _ _ Hg) as [m Hr]. split; [exists m, resps; by rewrite app_nil_r|].
    split; [|done]. intros Hd. by apply (ob_send _ _ _ _ _ _ Hg).
  - apply Forall_cons in Hk as [Hkt Hk]. cbn [og_turns]. wsteps.
    eapply wp_mono; [by apply (og_turn_spec t g buf rcv seq exp resps)|]. intros l g1 (-> & Hg1 & Hc1 & Hd1). wsteps.
    eapply wp_mono; [apply (IH _ _ _ _ _ _ Hk Hg1), partial_short|]. intros l' g2 ((m & held & Hq & E) & Hb & Hd). wsteps.
    rewrite Hc1 in E. split; [|split].
    + exists m, held. split; [done|]. rewrite <- app_assoc, E, <- app_assoc, (app_assoc (take _ _)), take_drop. f_equal. rewrite bind_cons, (app_assoc rcv).
      destruct (frames_app (A := OMClientResponse) (rcv ++ received t) (ts ≫= received)) as [-> _].
      rewrite accepted_responses_app. done.
    + intros Hl. specialize (Hb Hl). rewrite bind_cons, numbered_requests_app, bytes_of_app. cbn [sent_over].
      rewrite <- app_assoc, Hb, numbered_requests_u64, app_assoc, taken_split, app_assoc. done.
    + auto.
Qed.

(** Both directions of the gateway, over any turns.  Whatever the socket
    answers - partial sends, full buffers, reads cut anywhere - the turns run
    (or the process exits on a full buffer or queue); the strategy receives
    exactly the responses of the byte stream that are addressed to its client
    and carry the consecutive sequence numbers 1, 2, 3, ..., in order; and
    while the connection can send, the bytes on the wire followed by those
    buffered are the strategy's requests, in order, numbered from 1. *)
Theorem gateway_session ts cid q_req q_resp f n m :
  Forall (λ t, kernel_ok (t_kernel t)) ts → q_rep q_req n [] → q_rep q_resp m [] →
  wp (og_turns ts) (λ l g,
    (∃ m held, q_rep (og_incoming_responses_ g) m held ∧
       l ++ held = (accepted_responses cid (frames OMClientResponse (ts ≫= received)) 1).1) ∧
    (send_disconnected (tcp_socket_ g) = false →
       sent_over ts [] 1 ++ send_buffer (tcp_socket_ g) = bytes_of (numbered_requests 1 (ts ≫= t_requests))))
    (OrderGateway_new cid q_req q_resp f).
Proof.
  intros Hk Hq Hr.
  pose proof (og_turns_spec ts (OrderGateway_new cid q_req q_resp f) [] [] 1 1 []) as Hts.
  eapply wp_mono; [apply Hts; [done| |cbn; lia]|].
  - split; try done; [by exists n|by exists m].
  - intros l g (H1 & H2 & _). by split.
Qed.
End spec.
