(* ===== verification/OrderPath.v ===== *)
(** The order session end to end: OrderGateway on one side of a TCP
    connection, OrderServer on the other.

    Requests the strategy queues reach the exchange's sequencer, responses of
    the matching engine reach the strategy, each once and in order, as far as
    the connection has carried the bytes, however it cut them. *)

From S2P Require Import Prelude Types Wire Framing Sockets SocketsSafe SocketStream LFQueue FIFOSequencer OrderServer OrderServerRefines OrderServerSafe OrderGateway.

Section requests.
Context `{Cfg : Config, Net : NetConfig}.
Implicit Types (ss : Sessions) (s : Server OrderServer).
Local Set Default Proof Using "All".

(** A well-formed request of client [cid]. *)
Definition request_of (cid : ClientId) (r : MEClientRequest) : Prop :=
  rq_client_id_ r = cid ∧ wire_type (rq_type_ r) = true ∧ wvalid r.

Lemma admits_next socket cid seq r ss :
  0 ≤ cid < ME_MAX_NUM_CLIENTS → request_of cid r →
  (ss_socket ss !! Z.to_nat cid = Some None ∨ ss_socket ss !! Z.to_nat cid = Some (Some socket)) →
  ss_expected ss !! Z.to_nat cid = Some (u64 seq) →
  ∃ ss', admits socket (mkOMClientRequest (u64 seq) r) ss = (true, ss') ∧
    ss_socket ss' !! Z.to_nat cid = Some (Some socket) ∧ ss_expected ss' !! Z.to_nat cid = Some (u64 (seq + 1)).
Proof.
  intros Hc (Er & Ht & _) Hs He. unfold admits. cbn [me_client_request_ omrq_seq_num_]. rewrite Ht, Er.
  rewrite (proj2 (Z.leb_gt _ _)) by lia. cbn [negb orb]. cbv zeta.
  set (m := mkOMClientRequest (u64 seq) r). assert (Ec : client_of m = Z.to_nat cid) by (unfold client_of; by rewrite <- Er).
  rewrite claim_expected, Ec.
  assert (Hcl : ss_socket (claim socket m ss) !! Z.to_nat cid = Some (Some socket)).
  { unfold claim. rewrite Ec. destruct Hs as [E|E]; rewrite E; [|done]. cbn. apply list_lookup_insert_eq. by eapply lookup_lt_Some. }
  rewrite !bool_decide_true by done. eexists. split; [reflexivity|]. split; [done|]. cbn [ss_expected].
  rewrite list_lookup_insert_eq by (by eapply lookup_lt_Some). unfold u64. by rewrite Zplus_mod_idemp_l.
Qed.

Lemma admit_numbered socket cid reqs : ∀ seq ss,
  0 ≤ cid < ME_MAX_NUM_CLIENTS → Forall (request_of cid) reqs →
  (ss_socket ss !! Z.to_nat cid = Some None ∨ ss_socket ss !! Z.to_nat cid = Some (Some socket)) →
  ss_expected ss !! Z.to_nat cid = Some (u64 seq) →
  (admit_all socket (numbered_requests seq reqs) ss).1 = numbered_requests seq reqs.
Proof.
  induction reqs as [|r reqs IH]; intros seq ss Hc Hf Hs He; [done|]. apply Forall_cons in Hf as [Hr Hf].
  rewrite numbered_requests_cons. cbn [admit_all].
  destruct (admits_next socket cid seq r ss Hc Hr Hs He) as (ss' & -> & Hs' & He').
  specialize (IH (seq + 1) ss' Hc Hf (or_intror Hs') He'). destruct (admit_all _ _ ss'). cbn in *. by rewrite IH.
Qed.

Lemma numbered_requests_valid seq cid reqs : Forall (request_of cid) reqs → Forall wvalid (numbered_requests seq reqs).
Proof.
  intros Hf. apply Forall_lookup. intros i m Hm. unfold numbered_requests in Hm. rewrite list_lookup_imap in Hm.
  apply fmap_Some in Hm as (r & Hr & ->). split; [apply u64_range|]. by apply (Forall_lookup_1 _ _ _ _ Hf Hr).
Qed.

Lemma numbered_take seq k reqs : take k (numbered_requests seq reqs) = numbered_requests seq (take k reqs).
Proof.
  revert seq k. induction reqs as [|r reqs IH]; intros seq [|k]; try done.
  rewrite numbered_requests_cons. cbn [take]. by rewrite numbered_requests_cons, IH.
Qed.
Lemma numbered_payload seq reqs : me_client_request_ <$> numbered_requests seq reqs = reqs.
Proof.
  revert seq. induction reqs as [|r reqs IH]; intros seq; [done|].
  rewrite numbered_requests_cons, fmap_cons, IH. done.
Qed.
Lemma sequenced_payload rx n ms : request_ <$> sequenced rx n ms = me_client_request_ <$> ms.
Proof.
  unfold sequenced. revert n. induction ms as [|m ms IH]; intros n; [done|]. rewrite imap_cons, !fmap_cons. cbn [request_].
  f_equal. rewrite <- (IH (S n)). f_equal. apply imap_ext. intros i x _. cbn. f_equal. lia.
Qed.

End requests.

(** ** Responses *)

Section responses.
Context `{Cfg : Config, !ConfigOk Cfg, Net : NetConfig}.
Implicit Types (s : Server OrderServer) (rs : list MEClientResponse) (table : list (option Z)) (out : list Z).
Local Set Default Proof Using "All".

Definition rs_client (r : MEClientResponse) : nat := Z.to_nat (rs_client_id_ r).

(** The messages written to socket [p] for the responses [rs], each client's
    numbered from its entry of [out]. *)
Fixpoint responses_on (p : Z) table out rs : list OMClientResponse :=
  match rs with
  | [] => []
  | r :: rs =>
      match table !! rs_client r, out !! rs_client r with
      | Some (Some q), Some n =>
          (if decide (q = p) then [mkOMClientResponse n r] else []) ++
          responses_on p table (<[ rs_client r := u64 (n + 1) ]> out) rs
      | _, _ => responses_on p table out rs
      end
  end.

(** Each client on [p] takes its own responses. *)
Lemma accepted_responses_on p table cid rs : ∀ out n,
  0 ≤ cid → table !! Z.to_nat cid = Some (Some p) → out !! Z.to_nat cid = Some n → Forall (λ r, 0 ≤ rs_client_id_ r) rs →
  (accepted_responses cid (responses_on p table out rs) n).1 = filter (λ r, rs_client_id_ r = cid) rs.
Proof.
  induction rs as [|r rs IH]; intros out n Hc Ht Ho Hf; [done|]. apply Forall_cons in Hf as [Hr Hf].
  cbn [responses_on]. rewrite filter_cons. destruct (decide (rs_client_id_ r = cid)) as [E|E].
  - unfold rs_client. rewrite E, Ht, Ho. rewrite decide_True by done. cbn [app accepted_responses me_client_response_ omrs_seq_num_].
    rewrite (proj2 (Z.eqb_eq _ _) E), Z.eqb_refl. cbn [andb].
    specialize (IH (<[ Z.to_nat cid := u64 (n + 1) ]> out) (u64 (n + 1)) Hc Ht). rewrite <- IH; [|by apply list_lookup_insert_eq, lookup_lt_Some with n|done].
    by destruct (accepted_responses _ _ _).
  - assert (Hne : rs_client r ≠ Z.to_nat cid) by (unfold rs_client; lia).
    destruct (table !! rs_client r) as [[q|]|]; [|by apply IH..]. destruct (out !! rs_client r) as [k|]; [|by apply IH].
    assert (Ho' : (<[ rs_client r := u64 (k + 1) ]> out : list Z) !! Z.to_nat cid = Some n) by (by rewrite list_lookup_insert_ne).
    case_decide; [|by apply IH]. cbn [app accepted_responses me_client_response_].
    rewrite (proj2 (Z.eqb_neq _ _) E). cbn [andb]. by apply IH.
Qed.

Lemma responses_on_valid p table out rs : Forall wvalid rs → Forall is_u64 out → Forall wvalid (responses_on p table out rs).
Proof.
  intros Hf. revert out. induction Hf as [|r rs Hr _ IH]; intros out Ho; [constructor|]. cbn [responses_on].
  destruct (table !! rs_client r) as [[q|]|]; [|by apply IH..]. destruct (out !! rs_client r) as [n|] eqn:En; [|by apply IH].
  apply Forall_app. split.
  - case_decide; [|constructor]. apply Forall_singleton. split; [|done]. by apply (Forall_lookup_1 _ _ _ _ Ho En).
  - apply IH, Forall_insert; [done|apply u64_range].
Qed.

(** Sending grows the send buffers by the messages of [responses_on]. *)
Definition grown s rs s' : Prop :=
  ∀ p x, heap (srv_tcp s) !! p = Some x → ∃ x', heap (srv_tcp s') !! p = Some x' ∧
    send_buffer x' = send_buffer x ++ bytes_of (responses_on p (cid_tcp_socket_ (srv_app s)) (cid_next_outgoing_seq_num_ (srv_app s)) rs).

Lemma sock_run_send p data x s : heap (srv_tcp s) !! p = Some x →
  wp (sock_run p (tcp_send data)) (λ _ s', s' = set_socket p (set_send_buffer (send_buffer x ++ data) x) s) s.
Proof.
  intros Hx. unfold sock_run, sock_get. wsteps. rewrite Hx. wsteps. pose proof (tcp_send_wp data x) as Hs. unfold wp in Hs.
  apply wp_lift. destruct (tcp_send data x) as [[[] x']|[]]; try done. subst x'. done.
Qed.

(** One response: what it does to the sockets and to the numbering. *)
Lemma sendResponse_spec r s :
  server_ok os_ok s → 0 ≤ rs_client_id_ r →
  wp (sendResponse r) (λ _ s', server_ok os_ok s' ∧ incoming_responses_ (srv_app s') = incoming_responses_ (srv_app s) ∧
    cid_tcp_socket_ (srv_app s') = cid_tcp_socket_ (srv_app s) ∧
    match cid_tcp_socket_ (srv_app s) !! rs_client r, cid_next_outgoing_seq_num_ (srv_app s) !! rs_client r with
    | Some (Some q), Some n => cid_next_outgoing_seq_num_ (srv_app s') = <[ rs_client r := u64 (n + 1) ]> (cid_next_outgoing_seq_num_ (srv_app s)) ∧
        ∃ x, heap (srv_tcp s) !! q = Some x ∧
          heap (srv_tcp s') = <[ q := set_send_buffer (send_buffer x ++ wput (mkOMClientResponse n r)) x ]> (heap (srv_tcp s))
    | _, _ => s' = s
    end) s.
Proof.
  intros Hs Hr. pose proof (sendResponse_safe r s Hs) as Hsafe. unfold wp in Hsafe |- *.
  destruct (sendResponse r s) as [[[] s']|] eqn:E; [|done]. destruct Hsafe as [Hs' Hi]. split; [done|]. split; [done|].
  revert E. unfold sendResponse. rewrite bind_gets. destruct Hs as [_ Hok]. pose proof (oo_wf _ _ Hok) as Hwf.
  case Z.ltb_spec; intros Hlt.
  2:{ intros [= <-]. split; [done|]. rewrite lookup_ge_None_2; [done|]. unfold rs_client. lia. }
  destruct (lookup_lt_is_Some_2 (cid_tcp_socket_ (srv_app s)) (rs_client r)) as [c Hc]; [unfold rs_client; lia|].
  destruct (lookup_lt_is_Some_2 (cid_next_outgoing_seq_num_ (srv_app s)) (rs_client r)) as [n Hn].
  { rewrite (ow_outgoing _ Hwf). rewrite (ow_sockets _ Hwf) in Hlt. unfold rs_client. pose proof cfg_clients. lia. }
  rewrite (bind_Ok _ _ _ _ _ (at_index_Ok cid_tcp_socket_ (rs_client_id_ r) s c Hc)), Hc, Hn.
  destruct c as [q|]; [|by intros [= <-]].
  rewrite (bind_Ok _ _ _ _ _ (at_index_Ok cid_next_outgoing_seq_num_ (rs_client_id_ r) s n Hn)).
  assert (Hq : q ∈ live s) by (apply (oo_live _ _ Hok); by eapply list_elem_of_lookup_2).
  unfold live in Hq. apply elem_of_dom in Hq as [x Hx].
  intros ([] & s1 & H1 & E)%bind_Ok_inv. pose proof (sock_run_send q (le 8 n) x s Hx) as W1. unfold wp in W1. rewrite H1 in W1. subst s1.
  set (x1 := set_send_buffer _ x) in *. apply bind_Ok_inv in E as ([] & s2 & H2 & E).
  pose proof (sock_run_send q (wput r) x1 (set_socket q x1 s) ltac:(cbn; apply lookup_insert_eq)) as W2. unfold wp in W2. rewrite H2 in W2. subst s2.
  injection E as <-. split; [done|]. split; [done|]. exists x. split; [done|].
  cbn [srv_tcp heap set_socket]. rewrite insert_insert_eq. f_equal. subst x1. cbn [send_buffer set_send_buffer]. by rewrite <- app_assoc.
Qed.

Lemma grown_cons s r rs s1 s2 :
  cid_tcp_socket_ (srv_app s1) = cid_tcp_socket_ (srv_app s) →
  match cid_tcp_socket_ (srv_app s) !! rs_client r, cid_next_outgoing_seq_num_ (srv_app s) !! rs_client r with
  | Some (Some q), Some n => cid_next_outgoing_seq_num_ (srv_app s1) = <[ rs_client r := u64 (n + 1) ]> (cid_next_outgoing_seq_num_ (srv_app s)) ∧
      ∃ x, heap (srv_tcp s) !! q = Some x ∧
        heap (srv_tcp s1) = <[ q := set_send_buffer (send_buffer x ++ wput (mkOMClientResponse n r)) x ]> (heap (srv_tcp s))
  | _, _ => s1 = s
  end → grown s1 rs s2 → grown s (r :: rs) s2.
Proof.
  intros Et Hstep Hg p y Hy. cbn [responses_on]. unfold grown in Hg. rewrite Et in Hg.
  destruct (cid_tcp_socket_ (srv_app s) !! rs_client r) as [[q|]|]; try (subst s1; by apply Hg).
  destruct (cid_next_outgoing_seq_num_ (srv_app s) !! rs_client r) as [n|]; [|subst s1; by apply Hg].
  destruct Hstep as (En & x & Hx & Eh). rewrite En, Eh in Hg. destruct (decide (q = p)) as [->|Hne].
  - rewrite Hy in Hx. injection Hx as <-. destruct (Hg p _ (lookup_insert_eq _ _ _)) as (x' & Hx' & Eb). exists x'. split; [done|].
    rewrite Eb. cbn [send_buffer set_send_buffer app]. by rewrite bytes_of_cons, app_assoc.
  - destruct (Hg p y) as (x' & Hx' & Eb); [by rewrite lookup_insert_ne|]. by exists x'.
Qed.

Lemma drainResponses_grown fuel : ∀ s n rs,
  server_ok os_ok s → q_rep (incoming_responses_ (srv_app s)) n rs → (length rs ≤ fuel)%nat → Forall (λ r, 0 ≤ rs_client_id_ r) rs →
  wp (drainResponses fuel) (λ _ s', grown s rs s') s.
Proof.
  assert (Hnil : ∀ s q, grown s [] (mkServer (srv_tcp s) (set_incoming q (srv_app s)))).
  { intros s q p x Hx. exists x. by rewrite app_nil_r. }
  induction fuel as [|fuel IH]; intros s n rs Hs Hq Hf Hr;
    destruct (peek_spec _ _ _ Hq) as [Hpeek Hq1]; cbn [drainResponses]; wsteps;
    destruct (peek (incoming_responses_ (srv_app s))) as [o q1]; cbn [fst snd] in Hpeek, Hq1; subst o;
    destruct rs as [|r rs]; try (cbn in Hf; lia).
  1, 2: apply wp_bind, wp_on_app; cbn [head]; wsteps; apply Hnil.
  apply wp_bind, wp_on_app. cbn [head]. pose proof (set_incoming_ok _ _ _ _ Hs Hq1) as Hs1. apply Forall_cons in Hr as [Hr0 Hr].
  set (s1 := mkServer (srv_tcp s) (set_incoming q1 (srv_app s))) in *.
  apply wp_bind. eapply wp_mono; [by apply (sendResponse_spec r s1)|]. intros [] s2 (Hs2 & Eq2 & Et2 & Hstep). wsteps.
  rewrite Eq2. change (incoming_responses_ (srv_app s1)) with q1.
  destruct (pop_spec _ _ _ Hq1) as (q2 & Hpop & Hq2). apply wp_lift. rewrite Hpop. apply wp_bind, wp_on_app.
  eapply (wp_mono (A := unit)); [apply (IH _ n rs); [by eapply set_incoming_ok|exact Hq2|cbn in Hf; lia|done]|].
  intros [] s3 Hg. by apply (grown_cons s1 r rs s2).
Qed.

(** C35: the response path.  Let the order server drain its queue of responses
    from the matching engine, with client [cid] connected and expecting
    number 1, and let a gateway of that client run any turns in which its
    socket reads a prefix of what the server wrote.  Then the strategy has
    received a prefix of the responses addressed to its client, in the order
    of the matching engine, other clients' left out; all of them when all the
    bytes have arrived. *)
Theorem responses_reach_strategy s n rs cid p x :
  server_ok os_ok s → q_rep (incoming_responses_ (srv_app s)) n rs → Forall wvalid rs →
  Forall is_u64 (cid_next_outgoing_seq_num_ (srv_app s)) → 0 ≤ cid →
  cid_tcp_socket_ (srv_app s) !! Z.to_nat cid = Some (Some p) → cid_next_outgoing_seq_num_ (srv_app s) !! Z.to_nat cid = Some 1 →
  heap (srv_tcp s) !! p = Some x → send_buffer x = [] →
  wp (drainResponses (length rs)) (λ _ s', ∃ x', heap (srv_tcp s') !! p = Some x' ∧
    ∀ ts q_req q_resp f n1 n2 rest,
      Forall (λ t, kernel_ok (t_kernel t)) ts → q_rep q_req n1 [] → q_rep q_resp n2 [] →
      (ts ≫= received) ++ rest = send_buffer x' →
      wp (og_turns ts) (λ l g, ∃ m held, q_rep (og_incoming_responses_ g) m held ∧
        l ++ held `prefix_of` filter (λ r, rs_client_id_ r = cid) rs ∧
        (rest = [] → l ++ held = filter (λ r, rs_client_id_ r = cid) rs))
      (OrderGateway_new cid q_req q_resp f)) s.
Proof.
  intros Hs Hq Hv Ho Hc Ht Hn Hx Hb.
  assert (Hnn : Forall (λ r, 0 ≤ rs_client_id_ r) rs) by (eapply Forall_impl; [exact Hv|]; intros r [_ Hr _ _ _ _ _ _ _]; apply Hr).
  eapply wp_mono; [by apply (drainResponses_grown _ s n rs)|]. intros [] s' Hg. destruct (Hg p x Hx) as (x' & Hx' & E).
  exists x'. split; [done|]. intros ts q_req q_resp f n1 n2 rest Hk Hq1 Hq2 Er. rewrite E, Hb in Er. cbn [app] in Er.
  eapply wp_mono; [apply (og_turns_spec ts (OrderGateway_new cid q_req q_resp f) [] [] 1 1 []); [done| |cbn; lia]|].
  { split; try done; [by exists n1|by exists n2]. }
  intros l g ((m & held & Hm & El) & _ & _). exists m, held. split; [done|]. cbn [app og_client_id_ OrderGateway_new] in El. rewrite El.
  rewrite <- (accepted_responses_on p _ cid rs _ 1 Hc Ht Hn Hnn).
  pose proof (frames_prefix _ _ _ (responses_on_valid p (cid_tcp_socket_ (srv_app s)) _ rs Hv Ho) Er) as Hfr.
  set (ms := responses_on p _ _ rs) in *. rewrite Hfr. split.
  - set (k := (_ `div` _)%nat). rewrite <- (take_drop k ms) at 2. rewrite accepted_responses_app. by eexists.
  - intros ->. rewrite app_nil_r in Er. rewrite Er in *. destruct (frames_puts ms [] ltac:(by apply responses_on_valid)) as [Ef _]; [cbn; lia|].
    rewrite app_nil_r in Ef. fold (bytes_of ms) in Ef. by rewrite <- Hfr, Ef.
Qed.
End responses.
