(* ===== verification/MatchingEngine.v ===== *)
(** Exchange::MatchingEngine (Exchange/matcher/matching_engine.h and .cpp):
    lazily created books per ticker, fed from the client-request queue and
    writing to the response and market-update queues.

    A book hands its messages to the engine in program order; the engine
    writes each to its queue ([send_all]).  A queue overflow is [Fatal] and
    ends the process, so writing the messages of one book operation after the
    operation and not during it gives the same queues in every run that
    survives. *)

From S2P Require Import Prelude Types LFQueue MEOrder OrderBookSpec MEOrderBook.

Record MatchingEngine := mkMatchingEngine {
  ticker_order_books_ : gmap Z MEOrderBook;
  incoming_requests_ : LFQueue MEClientRequest;
  outgoing_responses_ : LFQueue MEClientResponse;
  market_updates_ : LFQueue MEMarketUpdate;
}.

Section MatchingEngine.
Context `{Config}.
Local Abbreviation ME := (M MatchingEngine).

Definition set_books v e : MatchingEngine := mkMatchingEngine v (incoming_requests_ e)
  (outgoing_responses_ e) (market_updates_ e).
Definition set_requests v e : MatchingEngine := mkMatchingEngine (ticker_order_books_ e) v
  (outgoing_responses_ e) (market_updates_ e).
Definition set_responses v e : MatchingEngine := mkMatchingEngine (ticker_order_books_ e)
  (incoming_requests_ e) v (market_updates_ e).
Definition set_updates v e : MatchingEngine := mkMatchingEngine (ticker_order_books_ e)
  (incoming_requests_ e) (outgoing_responses_ e) v.

(** The constructor: no books yet. *)
Definition MatchingEngine_new client_requests client_responses market_updates : MatchingEngine :=
  mkMatchingEngine ∅ client_requests client_responses market_updates.

Definition sendMarketUpdate (market_update : MEMarketUpdate) : ME unit :=
  q ← gets market_updates_; q ← lift (push market_update q); modify (set_updates q).

Definition sendClientResponse (client_response : MEClientResponse) : ME unit :=
  q ← gets outgoing_responses_; q ← lift (push client_response q); modify (set_responses q).

Fixpoint send_all (out : list Out) : ME unit :=
  match out with
  | [] => mret tt
  | Resp r :: out => sendClientResponse r;; send_all out
  | Upd u :: out => sendMarketUpdate u;; send_all out
  end.

Definition rejectClientRequest (client_request : MEClientRequest) : ME unit :=
  sendClientResponse (rejected (rq_client_id_ client_request) (rq_order_id_ client_request)
    (rq_ticker_id_ client_request) (rq_side_ client_request) (rq_price_ client_request)).

(** Call a member of the book of [tid]. *)
Definition on_book (tid : Z) (m : M MEOrderBook unit) : ME unit :=
  books ← gets ticker_order_books_;
  match books !! tid with
  | None => fail (UB "null order book")
  | Some b =>
      '(_, b) ← lift (m b);
      modify (set_books (<[ tid := mkMEOrderBook (book_ticker_id_ b) (lb b)
                                     (next_market_order_id_ b) [] ]> books));;
      send_all (matching_engine_ b)
  end.

Definition processClientRequest (client_request : MEClientRequest) : ME unit :=
  let tid := rq_ticker_id_ client_request in
  if ME_MAX_TICKERS <=? tid then rejectClientRequest client_request
  else
    books ← gets ticker_order_books_;
    (match books !! tid with
     | None => modify (set_books (<[ tid := MEOrderBook_new tid ]> books))
     | Some _ => mret tt
     end);;
    match rq_type_ client_request with
    | ClientRequestType.NEW =>
        on_book tid (add (rq_client_id_ client_request) (rq_order_id_ client_request)
          (rq_ticker_id_ client_request) (rq_side_ client_request) (rq_price_ client_request)
          (rq_qty_ client_request))
    | ClientRequestType.CANCEL =>
        on_book tid (cancel (rq_client_id_ client_request) (rq_order_id_ client_request)
          (rq_ticker_id_ client_request))
    | _ => rejectClientRequest client_request
    end.

(** One turn of the loop of [run]; [true] when the poison pill ends it. *)
Definition run_once : ME bool :=
  q ← gets incoming_requests_;
  let '(req, q) := peek q in
  modify (set_requests q);;
  match req with
  | None => mret false
  | Some r =>
      if decide (rq_type_ r = ClientRequestType.SHUTDOWN) then
        q ← gets incoming_requests_; q ← lift (pop q); modify (set_requests q);; mret true
      else
        processClientRequest r;;
        q ← gets incoming_requests_; q ← lift (pop q); modify (set_requests q);; mret false
  end.

(** [run], for at most [fuel] turns; [true] when it has returned. *)
Fixpoint run (fuel : nat) : ME bool :=
  match fuel with
  | O => mret false
  | S fuel => done ← run_once; if (done : bool) then mret true else run fuel
  end.

(** [stop]: the poison pill. *)
Definition stop : ME unit :=
  q ← gets incoming_requests_;
  q ← lift (push (mkMEClientRequest ClientRequestType.SHUTDOWN ClientId_INVALID
                    TickerId_INVALID OrderId_INVALID Side.INVALID Price_INVALID Qty_INVALID) q);
  modify (set_requests q).

(** ** Specification *)

Definition empty_book : SBook := mkSBook [] [] 1.

Definition s_reject (r : MEClientRequest) : list Out :=
  [Resp (rejected (rq_client_id_ r) (rq_order_id_ r) (rq_ticker_id_ r) (rq_side_ r) (rq_price_ r))].

Definition s_book (tid : Z) (books : gmap Z SBook) : SBook := default empty_book (books !! tid).

Definition s_process (r : MEClientRequest) (books : gmap Z SBook) : list Out * gmap Z SBook :=
  let tid := rq_ticker_id_ r in
  if ME_MAX_TICKERS <=? tid then (s_reject r, books)
  else
    let s := s_book tid books in
    let '(ev, s') :=
      match rq_type_ r with
      | ClientRequestType.NEW => s_add (rq_client_id_ r) (rq_order_id_ r) tid (rq_side_ r)
                                   (rq_price_ r) (rq_qty_ r) s
      | ClientRequestType.CANCEL => s_cancel (rq_client_id_ r) (rq_order_id_ r) tid s
      | _ => (s_reject r, s)
      end in
    (ev, <[ tid := s' ]> books).
End MatchingEngine.
