(* ===== verification/MatchingEngineRefines.v ===== *)
(** The matching engine implements [s_process]: for every request a client can
    send with a side of BUY or SELL, [processClientRequest] terminates, stays
    in defined behaviour and sends exactly the specified messages; the only
    other outcome is a [Fatal] exit when a queue or an order pool is full. *)

From S2P Require Import Prelude Types MemPool LevelBook LevelBookRep LevelBookOps LFQueue.
From S2P Require Import MEOrder OrderBookSpec OrderBookInv MEOrderBook MEOrderBookMatching.
From S2P Require Import MEOrderBookRefines MatchingEngine.

Section engine.
Context `{Cfg : Config, !ConfigOk Cfg}.
Implicit Types (e : MatchingEngine) (books : gmap Z SBook) (r : MEClientRequest).
Local Set Default Proof Using "All".

(** A request as it comes off the wire, with a side of the protocol. *)
Definition request_ok r : Prop :=
  0 ≤ rq_ticker_id_ r ∧ 0 ≤ rq_client_id_ r ∧ 0 ≤ rq_order_id_ r ∧
  is_u64 (rq_price_ r) ∧ is_u32 (rq_qty_ r) ∧
  (rq_type_ r = ClientRequestType.NEW → valid_side (rq_side_ r)).

Definition book_rep (N : Z) (b : MEOrderBook) (s : SBook) : Prop :=
  Represents b s ∧ book_wf s ∧ s_next s ≤ N ∧ matching_engine_ b = [].

(** [nr], [nu]: the capacities of the two output queues. *)
Record engine_rep (nr nu N : Z) e books resp upd : Prop := {
  er_books : ∀ tid, option_Forall2 (book_rep N) (ticker_order_books_ e !! tid) (books !! tid);
  er_resp : q_rep (outgoing_responses_ e) nr resp;
  er_upd : q_rep (market_updates_ e) nu upd;
}.

Lemma sendClientResponse_Ok m e q' :
  push m (outgoing_responses_ e) = Ok q' → sendClientResponse m e = Ok (tt, set_responses q' e).
Proof. intros Hq. unfold sendClientResponse, mbind, M_bind, gets, lift. by rewrite Hq. Qed.
Lemma sendClientResponse_Err m e f :
  push m (outgoing_responses_ e) = Err f → sendClientResponse m e = Err f.
Proof. intros Hq. unfold sendClientResponse, mbind, M_bind, gets, lift. by rewrite Hq. Qed.
Lemma sendMarketUpdate_Ok m e q' :
  push m (market_updates_ e) = Ok q' → sendMarketUpdate m e = Ok (tt, set_updates q' e).
Proof. intros Hq. unfold sendMarketUpdate, mbind, M_bind, gets, lift. by rewrite Hq. Qed.
Lemma sendMarketUpdate_Err m e f :
  push m (market_updates_ e) = Err f → sendMarketUpdate m e = Err f.
Proof. intros Hq. unfold sendMarketUpdate, mbind, M_bind, gets, lift. by rewrite Hq. Qed.

Lemma send_all_spec nr nu N books out : ∀ e resp upd,
  engine_rep nr nu N e books resp upd →
  fits nr resp = true → fits nu upd = true →
  if fits nr (resp ++ responses out) && fits nu (upd ++ updates out)
  then ∃ e', send_all out e = Ok (tt, e') ∧
         engine_rep nr nu N e' books (resp ++ responses out) (upd ++ updates out) ∧
         ticker_order_books_ e' = ticker_order_books_ e ∧
         incoming_requests_ e' = incoming_requests_ e
  else send_all out e = Err (Fatal "LFQueue overflow").
Proof.
  induction out as [|[m|m] out IH]; intros e resp upd [Hb Hr Hu] Hfr Hfu.
  - change (responses []) with (@nil MEClientResponse). change (updates []) with (@nil MEMarketUpdate).
    rewrite !app_nil_r, Hfr, Hfu. by exists e.
  - change (updates (Resp m :: out)) with (updates out).
    replace (resp ++ responses (Resp m :: out)) with ((resp ++ [m]) ++ responses out)
      by (by rewrite <- (assoc (++))).
    change (send_all (Resp m :: out)) with (sendClientResponse m;; send_all out).
    pose proof (push_fits m _ _ _ Hr) as Hp. destruct (fits nr (resp ++ [m])) eqn:Ef.
    + destruct Hp as (q' & Hq & Hrep).
      rewrite (bind_Ok _ _ _ _ _ (sendClientResponse_Ok m e q' Hq)).
      exact (IH (set_responses q' e) (resp ++ [m]) upd ltac:(by split) Ef Hfu).
    + rewrite fits_app_l by done. apply bind_Err. by apply sendClientResponse_Err.
  - change (responses (Upd m :: out)) with (responses out).
    replace (upd ++ updates (Upd m :: out)) with ((upd ++ [m]) ++ updates out)
      by (by rewrite <- (assoc (++))).
    change (send_all (Upd m :: out)) with (sendMarketUpdate m;; send_all out).
    pose proof (push_fits m _ _ _ Hu) as Hp. destruct (fits nu (upd ++ [m])) eqn:Ef.
    + destruct Hp as (q' & Hq & Hrep).
      rewrite (bind_Ok _ _ _ _ _ (sendMarketUpdate_Ok m e q' Hq)).
      exact (IH (set_updates q' e) resp (upd ++ [m]) ltac:(by split) Hfr Ef).
    + rewrite (fits_app_l nu), andb_false_r by done. apply bind_Err. by apply sendMarketUpdate_Err.
Qed.

Lemma book_rep_mono N b s : book_rep N b s → book_rep (N + 1) b s.
Proof. intros (? & ? & ? & ?). split_and!; try done; lia. Qed.

(** What the specified outcome of a request needs of the capacities. *)
Definition process_fits nr nu r books resp upd : bool :=
  let '(ev, books') := s_process r books in
  fits nr (resp ++ responses ev) && fits nu (upd ++ updates ev) &&
  (Z.of_nat (length (book_orders (s_book (rq_ticker_id_ r) books'))) <=? ME_MAX_ORDER_IDS).

Lemma on_book_spec nr nu N e books resp upd tid (m : M MEOrderBook unit) b s ev s' :
  engine_rep nr nu N e books resp upd → fits nr resp = true → fits nu upd = true →
  ticker_order_books_ e !! tid = Some b → books !! tid = Some s →
  (if Z.of_nat (length (book_orders s')) <=? ME_MAX_ORDER_IDS
   then ∃ b', m b = Ok (tt, b') ∧ Represents b' s' ∧ matching_engine_ b' = matching_engine_ b ++ ev
   else m b = Err (Fatal "MemPool exhausted")) →
  book_wf s' → s_next s' ≤ N + 1 →
  if fits nr (resp ++ responses ev) && fits nu (upd ++ updates ev) &&
     (Z.of_nat (length (book_orders s')) <=? ME_MAX_ORDER_IDS)
  then ∃ e', on_book tid m e = Ok (tt, e') ∧
         engine_rep nr nu (N + 1) e' (<[ tid := s' ]> books) (resp ++ responses ev) (upd ++ updates ev) ∧
         incoming_requests_ e' = incoming_requests_ e
  else ∃ msg, on_book tid m e = Err (Fatal msg).
Proof.
  intros [Hb Hr Hu] Hfr Hfu Hbt Hst Hm Hwf Hnx. unfold on_book. rewrite bind_gets, Hbt.
  destruct (Z.of_nat (length (book_orders s')) <=? ME_MAX_ORDER_IDS).
  2:{ rewrite andb_false_r. eexists. apply bind_Err. unfold lift. by rewrite Hm. }
  rewrite andb_true_r. destruct Hm as (b' & Hrun & Hrep & Heng).
  pose proof (Hb tid) as Hbk. rewrite Hbt, Hst in Hbk. inversion Hbk as [? ? (_ & _ & _ & Hlog)|]; subst.
  rewrite Hlog in Heng. cbn in Heng.
  erewrite bind_Ok; [|unfold lift; rewrite Hrun; reflexivity]. cbv beta iota. rewrite bind_modify, Heng.
  set (bn := mkMEOrderBook _ _ _ _). set (e1 := set_books _ e).
  assert (He1 : engine_rep nr nu (N + 1) e1 (<[ tid := s' ]> books) resp upd).
  { split; [|done..]. intros t. subst e1. cbn. destruct (decide (t = tid)) as [->|Hne].
    - rewrite !lookup_insert_eq. constructor. split_and!; try done.
      destruct Hrep as (bids & asks & Hrs). exists bids, asks. by destruct Hrs.
    - rewrite !lookup_insert_ne by done. pose proof (Hb t) as Ht.
      inversion Ht; constructor. by apply book_rep_mono. }
  pose proof (send_all_spec _ _ _ _ ev _ _ _ He1 Hfr Hfu) as Hsend.
  destruct (fits nr (resp ++ responses ev) && fits nu (upd ++ updates ev)).
  - destruct Hsend as (e' & Hs & Hrep' & _ & Hin). by exists e'.
  - by eexists.
Qed.

Lemma book_orders_le N b s : book_rep N b s → Z.of_nat (length (book_orders s)) ≤ ME_MAX_ORDER_IDS.
Proof.
  intros ((bids & asks & Hr) & _). rewrite (rep_book_orders _ _ _ _ _ Hr), length_fmap.
  rewrite <- (rs_orders _ _ _ _ _ Hr). eapply rep_orders_capacity, Hr.
Qed.

Lemma engine_count nr nu N e books resp upd tid :
  engine_rep nr nu N e books resp upd →
  Z.of_nat (length (book_orders (s_book tid books))) ≤ ME_MAX_ORDER_IDS.
Proof.
  intros [Hb _ _]. pose proof (Hb tid) as Ht. unfold s_book. inversion Ht as [b s Hbs|]; cbn.
  - by eapply book_orders_le.
  - pose proof cfg_order_ids. lia.
Qed.

Lemma reject_spec nr nu N e books resp upd r :
  engine_rep nr nu N e books resp upd → fits nr resp = true → fits nu upd = true →
  if fits nr (resp ++ responses (s_reject r)) && fits nu (upd ++ updates (s_reject r))
  then ∃ e', rejectClientRequest r e = Ok (tt, e') ∧
         engine_rep nr nu N e' books (resp ++ responses (s_reject r)) (upd ++ updates (s_reject r)) ∧
         incoming_requests_ e' = incoming_requests_ e
  else ∃ msg, rejectClientRequest r e = Err (Fatal msg).
Proof.
  intros He Hfr Hfu. pose proof (send_all_spec _ _ _ _ (s_reject r) _ _ _ He Hfr Hfu) as Hs.
  assert (E : send_all (s_reject r) e = rejectClientRequest r e).
  { cbn. unfold rejectClientRequest, mbind, M_bind, mret, M_ret.
    destruct (sendClientResponse _ e) as [[[] ?]|]; done. }
  rewrite E in Hs. destruct (_ && _); [|by eexists].
  destruct Hs as (e' & ? & ? & _ & ?). by exists e'.
Qed.

Lemma engine_rep_mono nr nu N e books resp upd :
  engine_rep nr nu N e books resp upd → engine_rep nr nu (N + 1) e books resp upd.
Proof.
  intros [Hb Hr Hu]. split; try done. intros tid. pose proof (Hb tid) as Ht.
  inversion Ht; constructor. by apply book_rep_mono.
Qed.

Lemma new_book_rep N tid : 1 ≤ N → book_rep N (MEOrderBook_new tid) empty_book.
Proof.
  intros HN. split_and!; [apply MEOrderBook_new_represents|apply empty_book_wf|done|done].
Qed.

(** The lazy creation of the book. *)
Lemma lazy_book nr nu N e books resp upd tid :
  engine_rep nr nu N e books resp upd → 1 ≤ N →
  ∃ e' b, (match ticker_order_books_ e !! tid with
           | None => modify (set_books (<[ tid := MEOrderBook_new tid ]> (ticker_order_books_ e)))
           | Some _ => mret tt
           end : M MatchingEngine unit) e = Ok (tt, e') ∧
    engine_rep nr nu N e' (<[ tid := s_book tid books ]> books) resp upd ∧
    ticker_order_books_ e' !! tid = Some b ∧ book_rep N b (s_book tid books) ∧
    incoming_requests_ e' = incoming_requests_ e.
Proof.
  intros [Hb Hr Hu] HN. pose proof (Hb tid) as Ht. unfold s_book.
  inversion Ht as [b s Hbs Eb Es|Eb Es]; cbn.
  - exists e, b. rewrite insert_id by done. by split_and!.
  - eexists _, (MEOrderBook_new tid). split; [reflexivity|]. split_and!.
    + split; [|done..]. intros t. cbn. destruct (decide (t = tid)) as [->|].
      * rewrite !lookup_insert_eq. constructor. by apply new_book_rep.
      * rewrite !lookup_insert_ne by done. apply Hb.
    + cbn. by rewrite lookup_insert_eq.
    + by apply new_book_rep.
    + done.
Qed.

Lemma process_spec nr nu N e books resp upd r :
  engine_rep nr nu N e books resp upd → fits nr resp = true → fits nu upd = true →
  request_ok r → 1 ≤ N < 2 ^ 64 - 1 →
  if process_fits nr nu r books resp upd
  then ∃ e', processClientRequest r e = Ok (tt, e') ∧
         engine_rep nr nu (N + 1) e' (s_process r books).2
           (resp ++ responses (s_process r books).1) (upd ++ updates (s_process r books).1) ∧
         incoming_requests_ e' = incoming_requests_ e
  else ∃ msg, processClientRequest r e = Err (Fatal msg).
Proof.
  intros He Hfr Hfu (Htid & Hcid & Hoid & Hpr & Hq & Hside) HN.
  set (tid := rq_ticker_id_ r) in *.
  unfold process_fits, s_process, processClientRequest. fold tid.
  destruct (ME_MAX_TICKERS <=? tid).
  { cbn [fst snd]. rewrite (proj2 (Z.leb_le _ _)) by (by eapply engine_count). rewrite andb_true_r.
    apply reject_spec; [|done..]. by apply engine_rep_mono. }
  destruct (lazy_book _ _ _ _ _ _ _ tid He) as (e1 & b & Hlazy & He1 & Hb1 & Hrep & Hin); [lia|].
  rewrite bind_gets. rewrite (bind_Ok _ _ _ _ _ Hlazy).
  destruct Hrep as (Hrep & Hwf & Hnx & _). set (s := s_book tid books) in *.
  assert (Hbooks : ∀ s', <[ tid := s' ]> (<[ tid := s ]> books) = <[ tid := s' ]> books).
  { intros s'. apply insert_insert_eq. }
  assert (Hsel : ∀ s', s_book tid (<[ tid := s' ]> books) = s').
  { intros s'. unfold s_book. by rewrite lookup_insert_eq. }
  assert (Hrej : if fits nr (resp ++ responses (s_reject r)) && fits nu (upd ++ updates (s_reject r))
      && (Z.of_nat (length (book_orders (s_book tid (<[ tid := s ]> books)))) <=? ME_MAX_ORDER_IDS)
    then ∃ e', rejectClientRequest r e1 = Ok (tt, e') ∧
      engine_rep nr nu (N + 1) e' (<[ tid := s ]> books) (resp ++ responses (s_reject r))
        (upd ++ updates (s_reject r)) ∧ incoming_requests_ e' = incoming_requests_ e
    else ∃ msg, rejectClientRequest r e1 = Err (Fatal msg)).
  { rewrite (proj2 (Z.leb_le _ _)) by (by eapply engine_count). rewrite andb_true_r, <- Hin.
    apply reject_spec; [|done..]. by apply engine_rep_mono. }
  assert (Hlk : <[ tid := s ]> books !! tid = Some s) by apply lookup_insert_eq.
  assert (Hnx1 : 1 ≤ s_next s) by apply Hwf.
  destruct (rq_type_ r) eqn:Ety; try exact Hrej.
  - specialize (Hside eq_refl).
    pose proof (add_spec b s (rq_side_ r) (rq_client_id_ r) (rq_order_id_ r) tid (rq_price_ r)
      (rq_qty_ r) Hrep Hwf Hside Hq) as Hadd.
    pose proof (s_add_wf (rq_client_id_ r) (rq_order_id_ r) tid (rq_side_ r) (rq_price_ r)
      (rq_qty_ r) s Hwf Hside Hq Hpr Hcid Hoid ltac:(lia)) as Hwf'.
    pose proof (s_add_next (rq_client_id_ r) (rq_order_id_ r) tid (rq_side_ r) (rq_price_ r)
      (rq_qty_ r) s Hside ltac:(lia)) as Hnx'.
    destruct (s_add _ _ _ _ _ _ s) as [ev s']. cbn [fst snd] in *. rewrite Hsel, <- Hbooks, <- Hin.
    eapply on_book_spec; try done. lia.
  - pose proof (cancel_spec b s (rq_client_id_ r) (rq_order_id_ r) tid Hrep Hwf) as Hcan.
    pose proof (s_cancel_wf (rq_client_id_ r) (rq_order_id_ r) tid s Hwf) as Hwf'.
    pose proof (s_cancel_next (rq_client_id_ r) (rq_order_id_ r) tid s) as Hnx'.
    destruct (s_cancel _ _ _ s) as [ev s']. cbn [fst snd] in *. rewrite Hsel, <- Hbooks, <- Hin.
    eapply on_book_spec; try done; [|lia].
    destruct Hcan as (b' & Hrun & Hrep' & Hlog). rewrite (proj2 (Z.leb_le _ _)); [by exists b'|].
    destruct Hrep' as (bids & asks & Hr). rewrite (rep_book_orders _ _ _ _ _ Hr), length_fmap.
    rewrite <- (rs_orders _ _ _ _ _ Hr). eapply rep_orders_capacity, Hr.
Qed.

(** *** The loop *)

Fixpoint s_process_all (reqs : list MEClientRequest) books : list Out * gmap Z SBook :=
  match reqs with
  | [] => ([], books)
  | r :: reqs =>
      let '(ev, books) := s_process r books in
      let '(ev', books) := s_process_all reqs books in (ev ++ ev', books)
  end.

Fixpoint run_fits nr nu (reqs : list MEClientRequest) books resp upd : bool :=
  match reqs with
  | [] => true
  | r :: reqs =>
      let '(ev, books') := s_process r books in
      process_fits nr nu r books resp upd &&
      run_fits nr nu reqs books' (resp ++ responses ev) (upd ++ updates ev)
  end.

Definition SHUTDOWN_req r : Prop := rq_type_ r = ClientRequestType.SHUTDOWN.

Lemma run_once_request ni nr nu N e books resp upd r reqs :
  engine_rep nr nu N e books resp upd → fits nr resp = true → fits nu upd = true →
  q_rep (incoming_requests_ e) ni (r :: reqs) → ¬ SHUTDOWN_req r →
  request_ok r → 1 ≤ N < 2 ^ 64 - 1 →
  if process_fits nr nu r books resp upd
  then ∃ e', run_once e = Ok (false, e') ∧
         engine_rep nr nu (N + 1) e' (s_process r books).2
           (resp ++ responses (s_process r books).1) (upd ++ updates (s_process r books).1) ∧
         q_rep (incoming_requests_ e') ni reqs
  else ∃ msg, run_once e = Err (Fatal msg).
Proof.
  intros He Hfr Hfu Hin Hns Hok HN. destruct (peek_spec _ _ _ Hin) as [Hpk Hin'].
  unfold run_once. rewrite bind_gets. destruct (peek (incoming_requests_ e)) as [x q] eqn:Eq.
  cbn [fst snd] in Hpk, Hin'. subst x. cbn [head]. rewrite bind_modify, decide_False by done.
  assert (He1 : engine_rep nr nu N (set_requests q e) books resp upd) by (by destruct He).
  pose proof (process_spec _ _ _ _ _ _ _ r He1 Hfr Hfu Hok HN) as Hp.
  destruct (process_fits _ _ _ _ _ _).
  - destruct Hp as (e1 & Hrun & He' & Hq). cbn [incoming_requests_ set_requests] in Hq.
    rewrite (bind_Ok _ _ _ _ _ Hrun), bind_gets, Hq.
    destruct (pop_spec _ _ _ Hin') as (q' & Hpop & Hq').
    erewrite bind_Ok; [|unfold lift; rewrite Hpop; reflexivity].
    rewrite bind_modify. eexists. split; [reflexivity|]. by destruct He'.
  - destruct Hp as [msg Hp]. exists msg. by apply bind_Err.
Qed.

Lemma run_once_pill ni nr nu N e books resp upd pill rest :
  engine_rep nr nu N e books resp upd → q_rep (incoming_requests_ e) ni (pill :: rest) → SHUTDOWN_req pill →
  ∃ e', run_once e = Ok (true, e') ∧ engine_rep nr nu N e' books resp upd ∧ q_rep (incoming_requests_ e') ni rest.
Proof.
  intros He Hin Hpill. destruct (peek_spec _ _ _ Hin) as [Hpk Hin'].
  destruct (pop_spec _ _ _ Hin') as (q' & Hpop & Hq').
  unfold run_once. rewrite bind_gets. destruct (peek (incoming_requests_ e)) as [x q] eqn:Eq.
  cbn [fst snd head] in *. subst x. rewrite bind_modify, decide_True, bind_gets by done.
  erewrite bind_Ok; [|unfold lift; cbn [incoming_requests_ set_requests]; rewrite Hpop; reflexivity].
  rewrite bind_modify. eexists. split; [reflexivity|]. by destruct He.
Qed.

(** A turn on an empty queue. *)
Lemma run_once_idle ni nr nu N e books resp upd :
  engine_rep nr nu N e books resp upd → q_rep (incoming_requests_ e) ni [] →
  ∃ e', run_once e = Ok (false, e') ∧ engine_rep nr nu N e' books resp upd ∧ q_rep (incoming_requests_ e') ni [].
Proof.
  intros He Hin. destruct (peek_spec _ _ _ Hin) as [Hpk Hin'].
  unfold run_once. rewrite bind_gets. destruct (peek (incoming_requests_ e)) as [x q] eqn:Eq.
  cbn [fst snd head] in *. subst x. rewrite bind_modify. eexists. split; [reflexivity|]. by destruct He.
Qed.

(** [stop] puts the poison pill behind what is queued. *)
Definition the_pill : MEClientRequest :=
  mkMEClientRequest ClientRequestType.SHUTDOWN ClientId_INVALID TickerId_INVALID OrderId_INVALID Side.INVALID
    Price_INVALID Qty_INVALID.

Lemma stop_spec ni nr nu N e books resp upd reqs :
  engine_rep nr nu N e books resp upd → q_rep (incoming_requests_ e) ni reqs →
  if fits ni (reqs ++ [the_pill])
  then ∃ e', stop e = Ok (tt, e') ∧ engine_rep nr nu N e' books resp upd ∧
         q_rep (incoming_requests_ e') ni (reqs ++ [the_pill])
  else stop e = Err (Fatal "LFQueue overflow").
Proof.
  intros He Hin. pose proof (push_fits the_pill _ _ _ Hin) as Hp. unfold stop. fold the_pill. rewrite bind_gets.
  destruct (fits ni (reqs ++ [the_pill])).
  - destruct Hp as (q & Hq & Hrep). erewrite bind_Ok by (unfold lift; by rewrite Hq).
    eexists. split; [reflexivity|]. by destruct He.
  - apply bind_Err. unfold lift. by rewrite Hp.
Qed.

Lemma run_spec ni nr nu pill rest : SHUTDOWN_req pill → ∀ reqs fuel N e books resp upd,
  engine_rep nr nu N e books resp upd → fits nr resp = true → fits nu upd = true →
  q_rep (incoming_requests_ e) ni (reqs ++ pill :: rest) →
  Forall (λ r, request_ok r ∧ ¬ SHUTDOWN_req r) reqs →
  1 ≤ N → N + Z.of_nat (length reqs) < 2 ^ 64 - 1 → (length reqs < fuel)%nat →
  let '(ev, books') := s_process_all reqs books in
  if run_fits nr nu reqs books resp upd
  then ∃ e' N', run fuel e = Ok (true, e') ∧
         engine_rep nr nu N' e' books' (resp ++ responses ev) (upd ++ updates ev) ∧
         q_rep (incoming_requests_ e') ni rest
  else ∃ msg, run fuel e = Err (Fatal msg).
Proof.
  intros Hpill. induction reqs as [|r reqs IH]; intros fuel N e books resp upd He Hfr Hfu Hin Hf HN Hlt Hfuel;
    (destruct fuel as [|fuel]; [cbn in Hfuel; lia|]); cbn [s_process_all run_fits run].
  - change (responses []) with (@nil MEClientResponse). change (updates []) with (@nil MEMarketUpdate).
    rewrite !app_nil_r. destruct (run_once_pill _ _ _ _ _ _ _ _ _ _ He Hin Hpill) as (e' & H1 & He' & Hin').
    exists e', N. by rewrite (bind_Ok _ _ _ _ _ H1).
  - apply Forall_cons in Hf as [[Hok Hns] Hf]. cbn [length] in Hlt, Hfuel.
    pose proof (run_once_request ni nr nu N e books resp upd r (reqs ++ pill :: rest) He Hfr Hfu Hin
      Hns Hok ltac:(lia)) as Hstep.
    unfold process_fits in *. destruct (s_process r books) as [ev books1] eqn:Ep.
    destruct (s_process_all reqs books1) as [ev' books'] eqn:Ea.
    cbn [fst snd] in Hstep.
    destruct (fits nr (resp ++ responses ev)) eqn:F1; cbn [andb] in Hstep |- *;
      [|destruct Hstep as [msg Hs]; exists msg; by apply bind_Err].
    destruct (fits nu (upd ++ updates ev)) eqn:F2; cbn [andb] in Hstep |- *;
      [|destruct Hstep as [msg Hs]; exists msg; by apply bind_Err].
    destruct (_ <=? ME_MAX_ORDER_IDS); cbn [andb] in Hstep |- *;
      [|destruct Hstep as [msg Hs]; exists msg; by apply bind_Err].
    destruct Hstep as (e1 & Hrun & He1 & Hin1). rewrite (bind_Ok _ _ _ _ _ Hrun). cbn [negb].
    specialize (IH fuel (N + 1) e1 books1 _ _ He1 F1 F2 Hin1 Hf ltac:(lia) ltac:(lia) ltac:(lia)).
    rewrite Ea in IH. rewrite responses_app, updates_app, (app_assoc resp), (app_assoc upd). exact IH.
Qed.

(** The matching engine implements the reference auction.  On a state that
    represents abstract books, a request of any type, with any identifiers off
    the wire (a NEW order having side BUY or SELL), is processed to the end, the
    books represent the specified ones and exactly the specified responses and
    market updates are appended to the queues, in order; if a queue or the order
    pool cannot hold the specified result the process exits, and nothing else
    can happen: no undefined behaviour, no endless loop. *)
Theorem processClientRequest_refines nr nu N e books resp upd r :
  engine_rep nr nu N e books resp upd → fits nr resp = true → fits nu upd = true →
  request_ok r → 1 ≤ N < 2 ^ 64 - 1 →
  if process_fits nr nu r books resp upd
  then ∃ e', processClientRequest r e = Ok (tt, e') ∧
         engine_rep nr nu (N + 1) e' (s_process r books).2
           (resp ++ responses (s_process r books).1) (upd ++ updates (s_process r books).1) ∧
         incoming_requests_ e' = incoming_requests_ e
  else ∃ msg, processClientRequest r e = Err (Fatal msg).
Proof. apply process_spec. Qed.

(** C4: the engine's thread.  With the queued requests [reqs] before a poison
    pill, [run] returns after at most one turn per request and one for the pill,
    having applied the requests in their order and sent the specified messages;
    requests behind the pill stay queued.  Exits only when a capacity is
    exceeded. *)
Theorem run_refines ni nr nu pill rest reqs fuel N e books resp upd :
  SHUTDOWN_req pill →
  engine_rep nr nu N e books resp upd → fits nr resp = true → fits nu upd = true →
  q_rep (incoming_requests_ e) ni (reqs ++ pill :: rest) →
  Forall (λ r, request_ok r ∧ ¬ SHUTDOWN_req r) reqs →
  1 ≤ N → N + Z.of_nat (length reqs) < 2 ^ 64 - 1 → (length reqs < fuel)%nat →
  let '(ev, books') := s_process_all reqs books in
  if run_fits nr nu reqs books resp upd
  then ∃ e' N', run fuel e = Ok (true, e') ∧
         engine_rep nr nu N' e' books' (resp ++ responses ev) (upd ++ updates ev) ∧
         q_rep (incoming_requests_ e') ni rest
  else ∃ msg, run fuel e = Err (Fatal msg).
Proof. intros Hp. intros. by apply (run_spec ni nr nu pill rest Hp reqs fuel N e). Qed.

(** C6: a book refines the reference auction for a new order, from any state
    reached: same messages, same resulting book, and the one fault is an order
    pool too small for the result. *)
Theorem add_refines b s sd cid oid tid price qty :
  Represents b s → book_wf s → valid_side sd → is_u32 qty →
  let r := s_add cid oid tid sd price qty s in
  if Z.of_nat (length (book_orders r.2)) <=? ME_MAX_ORDER_IDS
  then ∃ b', add cid oid tid sd price qty b = Ok (tt, b') ∧ Represents b' r.2 ∧
         matching_engine_ b' = matching_engine_ b ++ r.1
  else add cid oid tid sd price qty b = Err (Fatal "MemPool exhausted").
Proof. intros. by apply add_spec. Qed.

(** C19: a cancel never fails: it removes the client's live order, and only it,
    with a CANCEL update carrying its remaining quantity, or answers
    CANCEL_REJECTED and changes nothing. *)
Theorem cancel_refines b s cid oid tid :
  Represents b s → book_wf s →
  let r := s_cancel cid oid tid s in
  ∃ b', cancel cid oid tid b = Ok (tt, b') ∧ Represents b' r.2 ∧
    matching_engine_ b' = matching_engine_ b ++ r.1.
Proof. intros. by apply cancel_spec. Qed.
End engine.

(** ** Sides that are neither BUY nor SELL

    [add] does not validate the side it takes off the wire.  An order with side
    INVALID is inserted before the asks whatever its price; once such a level
    has been the head of the asks, a BUY can rest in a SELL level, and removing
    it clears the wrong head pointer. *)
Section invalid_side.
#[local] Existing Instance default_profile.

(** Four orders and three cancels by two clients. *)
Definition corrupting_requests : M MEOrderBook unit :=
  add 1 1 0 Side.SELL 100 10;; add 1 2 0 Side.INVALID 200 10;; add 2 1 0 Side.BUY 100 10;;
  cancel 1 2 0;; cancel 1 1 0;; cancel 2 1 0.

Definition last_response (r : res (unit * MEOrderBook)) : option MEClientResponse :=
  match r with Ok (_, b) => last (responses (matching_engine_ b)) | Err _ => None end.
Definition live_orders (r : res (unit * MEOrderBook)) : option nat :=
  match r with Ok (_, b) => Some (base.size (order_index_ (lb b))) | Err _ => None end.

End invalid_side.
