(* ===== verification/EngineTyped.v ===== *)
(** The engine is well typed: whatever it computes fits the fields of the
    wire structs.

    [out_typed]: every field of a message within its width, every enumeration
    one of its values, so that the message survives encoding.  The typing of
    the inputs, [rq_valid], and of the resting orders, [book_wf], gives it for
    the outputs of [s_add] and [s_cancel]; [s_process_typed] is the
    preservation lemma, and with [run_spec] it holds of the pointer code. *)

From S2P Require Import Prelude Types Wire LevelBook LevelBookRep LFQueue MEOrder.
From S2P Require Import OrderBookSpec OrderBookInv MEOrderBook MEOrderBookMatching MEOrderBookRefines MatchingEngine MatchingEngineRefines.

Section typed.
Context `{Cfg : Config, !ConfigOk Cfg}.
Implicit Types (sd : Side.t) (s : SBook) (o : MEOrder) (os : list MEOrder) (ls : list SLevel) (r : MEClientRequest).
Implicit Types (e : MatchingEngine) (books : gmap Z SBook).
Local Set Default Proof Using "All".

(** The market updates of a live book: never INVALID or a snapshot marker,
    and always of one side. *)
Definition live_update (u : MEMarketUpdate) : Prop :=
  valid_side (mu_side_ u) ∧
  mu_type_ u ∈ [MarketUpdateType.ADD; MarketUpdateType.MODIFY; MarketUpdateType.CANCEL; MarketUpdateType.TRADE].

Definition out_typed (x : Out) : Prop :=
  match x with Resp m => rs_valid m | Upd u => mu_valid u ∧ live_update u end.

Definition order_typed o : Prop :=
  valid_side (o_side_ o) ∧ is_u32 (client_id_ o) ∧ is_u64 (client_order_id_ o) ∧ is_u64 (o_price_ o) ∧
  0 < qty_ o < 2 ^ 32 ∧ is_u64 (market_order_id_ o) ∧ is_u64 (priority_ o).

Definition aggressor_typed (a : Aggressor) : Prop :=
  is_u32 (ag_client a) ∧ is_u64 (ag_oid a) ∧ is_u32 (ag_ticker a) ∧ valid_side (ag_side a) ∧ is_u64 (ag_moid a).

Lemma valid_side_wire sd : valid_side sd → side_valid sd.
Proof. by intros [-> | ->]. Qed.

Lemma order_update_typed ty tid o q :
  is_u32 tid → order_typed o → is_u32 q →
  ty ∈ [MarketUpdateType.ADD; MarketUpdateType.MODIFY; MarketUpdateType.CANCEL; MarketUpdateType.TRADE] →
  out_typed (Upd (order_update ty tid o q)).
Proof.
  intros Ht (Hs & _ & _ & Hp & _ & Hm & Hpr) Hq Hty. split; [|by split].
  split; cbn; try done; [|by apply valid_side_wire].
  rewrite !elem_of_cons in Hty. by destruct Hty as [->|[->|[->|[->|?%not_elem_of_nil]]]].
Qed.

Lemma fill_events_typed a o leaves :
  aggressor_typed a → order_typed o → 0 < leaves < 2 ^ 32 → Forall out_typed (fill_events a o leaves).
Proof.
  intros (Hc & Hoi & Ht & Hsd & Hmo) Ho Hl. pose proof Ho as (Hs & Hcl & Hco & Hp & Hq & Hm & Hpr).
  set (fill := leaves `min` qty_ o). assert (Hf : 0 < fill ≤ leaves ∧ fill ≤ qty_ o) by lia.
  assert (Hw : is_u32 fill ∧ is_u32 (leaves - fill) ∧ is_u32 (qty_ o - fill) ∧ is_u32 (qty_ o)).
  { unfold is_u32. lia. }
  destruct Hw as (Hw1 & Hw2 & Hw3 & Hw4).
  unfold fill_events. fold fill.
  constructor; [|constructor; [|constructor; [|constructor; [|constructor]]]].
  - split; cbn; try done. by apply valid_side_wire.
  - split; cbn; try done. by apply valid_side_wire.
  - split; [split; cbn; try done; by apply valid_side_wire|split; [done|cbn; set_solver]].
  - assert (Hq' : qty_ (set_qty (qty_ o - fill) o) = qty_ o - fill) by done. rewrite Hq'.
    case Z.eqb_spec; intros E; apply order_update_typed; try done; try set_solver.
    unfold order_typed. cbn. split_and!; try done; lia.
Qed.

Lemma fill_orders_typed a os : ∀ leaves ev rest lv,
  aggressor_typed a → Forall order_typed os → 0 ≤ leaves < 2 ^ 32 →
  fill_orders a leaves os = (ev, rest, lv) → Forall out_typed ev ∧ 0 ≤ lv ≤ leaves.
Proof.
  induction os as [|o os IH]; intros leaves ev rest lv Ha Ho Hl E; cbn [fill_orders] in E.
  - simplify_eq. split; [constructor|lia].
  - apply Forall_cons in Ho as [Hoo Ho]. pose proof Hoo as (_ & _ & _ & _ & Hq & _).
    destruct (Z.leb_spec leaves 0); [simplify_eq; split; [constructor|lia]|].
    destruct (Z.leb_spec (qty_ o) leaves).
    + destruct (fill_orders a (leaves - qty_ o) os) as [[ev1 r1] lv1] eqn:E1. simplify_eq.
      destruct (IH (leaves - qty_ o) _ _ _ Ha Ho ltac:(lia) E1) as [Hev Hlv].
      split; [|lia]. apply Forall_app. split; [|done]. apply fill_events_typed; [done..|lia].
    + simplify_eq. split; [|lia]. apply fill_events_typed; [done..|lia].
Qed.

Lemma sweep_typed a ls : ∀ leaves ev rest lv,
  aggressor_typed a → Forall order_typed (all_orders ls) → 0 ≤ leaves < 2 ^ 32 →
  sweep a leaves ls = (ev, rest, lv) → Forall out_typed ev ∧ 0 ≤ lv ≤ leaves.
Proof.
  induction ls as [|l ls IH]; intros leaves ev rest lv Ha Ho Hl E; cbn [sweep] in E.
  - simplify_eq. split; [constructor|lia].
  - unfold all_orders in Ho. rewrite bind_cons in Ho. apply Forall_app in Ho as [Hol Ho].
    destruct (_ || _); [simplify_eq; split; [constructor|lia]|].
    destruct (fill_orders a leaves (l_orders l)) as [[ev1 os] lv1] eqn:E1.
    destruct (fill_orders_typed a _ _ _ _ _ Ha Hol Hl E1) as [Hev Hlv].
    destruct os as [|o os]; [|by simplify_eq].
    destruct (sweep a lv1 ls) as [[ev2 r2] lv2] eqn:E2. simplify_eq.
    destruct (IH lv1 _ _ _ Ha Ho ltac:(lia) E2) as [Hev2 Hlv2]. split; [by apply Forall_app|lia].
Qed.

(** The resting orders of a well-formed book are typed. *)
Lemma order_wf_typed sd price next o :
  valid_side sd → is_u64 price → next < 2 ^ 64 → order_wf sd price next o → order_typed o.
Proof.
  pose proof cfg_clients. pose proof cfg_order_ids.
  intros Hv Hp Hn (<- & <- & Hq & Hc & Ho & Hpr & Hm). unfold order_typed, is_u32, is_u64 in *.
  split_and!; try done; lia.
Qed.

Lemma side_wf_typed sd next ls :
  valid_side sd → next < 2 ^ 64 → side_wf sd next ls → Forall order_typed (all_orders ls).
Proof.
  intros Hv Hn [Hf _]. rewrite Forall_forall in Hf. apply Forall_forall. intros o Ho.
  apply list_elem_of_bind in Ho as (l & Ho & Hl). destruct (Hf l Hl) as (Hp & _ & Hos & _).
  rewrite Forall_forall in Hos. by eapply order_wf_typed, Hos.
Qed.

Lemma book_orders_typed s : book_wf s → s_next s < 2 ^ 64 → Forall order_typed (book_orders s).
Proof.
  intros [_ Hb Ha _ _ _] Hn. apply Forall_app.
  split; [apply (side_wf_typed Side.BUY (s_next s))|apply (side_wf_typed Side.SELL (s_next s))];
    try done; [by left|by right].
Qed.

Lemma next_priority_u64 price ls : is_u64 (next_priority price ls).
Proof.
  unfold next_priority. destruct (filter _ ls) as [|l ?]; [done|].
  destruct (last (l_orders l)); [apply u64_range|done].
Qed.

Lemma s_add_typed cid oid tid sd price qty s :
  book_wf s → 1 ≤ s_next s < 2 ^ 64 → valid_side sd → is_u32 cid → is_u64 oid → is_u32 tid →
  is_u64 price → is_u32 qty → Forall out_typed (s_add cid oid tid sd price qty s).1.
Proof.
  intros Hw Hn Hv Hc Ho Ht Hp Hq. unfold s_add. destruct (negb _).
  { apply Forall_singleton. split; cbn; try done. by apply valid_side_wire. }
  assert (Hm : is_u64 (s_next s)) by (unfold is_u64; lia).
  destruct (sweep _ qty (s_levels (opp sd) s)) as [[ev rst] lv] eqn:Es.
  apply sweep_typed in Es; [|done| |exact Hq].
  2:{ pose proof (book_orders_typed s Hw ltac:(lia)) as Hbo. rewrite (book_orders_perm sd s Hv) in Hbo.
      by apply Forall_app in Hbo as [_ Hbo]. }
  destruct Es as [Hev Hlv]. unfold is_u32 in Hq.
  assert (Hacc : out_typed (Resp (accepted cid oid tid sd price qty (s_next s)))).
  { split; cbn; try done. by apply valid_side_wire. }
  destruct (Z.ltb_spec 0 lv); cbn [fst]; [|by constructor].
  apply (Forall_app _ (_ :: ev)). split; [by constructor|]. apply Forall_singleton.
  apply order_update_typed; [done| |unfold is_u32; lia|set_solver].
  unfold order_typed. cbn. split_and!; try done; try lia; apply next_priority_u64.
Qed.

Lemma s_cancel_typed cid oid tid s :
  book_wf s → s_next s < 2 ^ 64 → is_u32 cid → is_u64 oid → is_u32 tid →
  Forall out_typed (s_cancel cid oid tid s).1.
Proof.
  intros Hw Hn Hc Ho Ht. unfold s_cancel.
  destruct (if id_ok cid oid then list_find _ _ else None) as [[i o]|] eqn:Ef.
  2:{ apply Forall_singleton. by split. }
  destruct (id_ok cid oid); [|done]. apply list_find_Some in Ef as (Hin & Hk & _).
  apply list_elem_of_lookup_2 in Hin. pose proof (book_orders_typed s Hw Hn) as Hf.
  rewrite Forall_forall in Hf. specialize (Hf o Hin). pose proof Hf as (Hs & Hcl & Hco & Hp & Hq & Hm & _).
  constructor; [|constructor; [|constructor]].
  - apply order_update_typed; try done; [unfold is_u32; lia|set_solver].
  - split; cbn; try done. by apply valid_side_wire.
Qed.

(** *** The engine *)

(** A request as the wire delivers it. *)
Definition request_typed r : Prop := request_ok r ∧ rq_valid r.

Definition books_typed (N : Z) books : Prop :=
  ∀ tid s, books !! tid = Some s → book_wf s ∧ s_next s ≤ N.

Lemma s_book_typed N tid books : books_typed N books → 1 ≤ N → book_wf (s_book tid books) ∧ s_next (s_book tid books) ≤ N.
Proof.
  intros Hb HN. unfold s_book. destruct (books !! tid) as [s|] eqn:E; [by apply (Hb tid)|].
  split; [apply empty_book_wf|done].
Qed.

Lemma s_reject_typed r : rq_valid r → Forall out_typed (s_reject r).
Proof. intros []. apply Forall_singleton. by split. Qed.

(** Preservation: a typed request on typed books gives typed messages. *)
Lemma s_process_typed N r books :
  books_typed N books → 1 ≤ N < 2 ^ 64 - 1 → request_typed r →
  Forall out_typed (s_process r books).1 ∧ books_typed (N + 1) (s_process r books).2.
Proof.
  intros Hb HN [(Htid & Hcid & Hoid & Hpr & Hq & Hside) Hr]. unfold s_process. set (tid := rq_ticker_id_ r).
  assert (Hmono : books_typed (N + 1) books).
  { intros t s Hs. destruct (Hb t s Hs). split; [done|lia]. }
  destruct (ME_MAX_TICKERS <=? tid); [by split; [apply s_reject_typed|]|].
  destruct (s_book_typed N tid books Hb ltac:(lia)) as [Hw Hn]. pose proof (wf_next _ Hw).
  assert (Hins : ∀ s', book_wf s' → s_next s' ≤ N + 1 → books_typed (N + 1) (<[ tid := s' ]> books)).
  { intros s' Hw' Hn' t s. destruct (decide (t = tid)) as [->|].
    - rewrite lookup_insert_eq. by intros [= <-].
    - rewrite lookup_insert_ne by done. apply Hmono. }
  pose proof (s_reject_typed r Hr) as Hrej. destruct Hr.
  destruct (rq_type_ r) eqn:Ety; try (split; [exact Hrej|apply Hins; [done|lia]]).
  - specialize (Hside eq_refl).
    pose proof (s_add_typed (rq_client_id_ r) (rq_order_id_ r) tid (rq_side_ r) (rq_price_ r) (rq_qty_ r)
      _ Hw ltac:(lia) Hside ltac:(done) ltac:(done) ltac:(done) ltac:(done) ltac:(done)) as Hev.
    pose proof (s_add_wf (rq_client_id_ r) (rq_order_id_ r) tid (rq_side_ r) (rq_price_ r) (rq_qty_ r)
      _ Hw Hside Hq Hpr Hcid Hoid ltac:(lia)) as Hw'.
    pose proof (s_add_next (rq_client_id_ r) (rq_order_id_ r) tid (rq_side_ r) (rq_price_ r) (rq_qty_ r)
      (s_book tid books) Hside ltac:(lia)) as Hn'.
    destruct (s_add _ _ _ _ _ _ _) as [ev s']. cbn [fst snd] in *. split; [done|]. apply Hins; [done|lia].
  - pose proof (s_cancel_typed (rq_client_id_ r) (rq_order_id_ r) tid _ Hw ltac:(lia) ltac:(done) ltac:(done)
      ltac:(done)) as Hev.
    pose proof (s_cancel_wf (rq_client_id_ r) (rq_order_id_ r) tid _ Hw) as Hw'.
    pose proof (s_cancel_next (rq_client_id_ r) (rq_order_id_ r) tid (s_book tid books)) as Hn'.
    destruct (s_cancel _ _ _ _) as [ev s']. cbn [fst snd] in *. split; [done|]. apply Hins; [done|lia].
Qed.

Lemma s_process_all_typed reqs : ∀ N books,
  books_typed N books → 1 ≤ N → N + Z.of_nat (length reqs) < 2 ^ 64 - 1 → Forall request_typed reqs →
  Forall out_typed (s_process_all reqs books).1.
Proof.
  induction reqs as [|r reqs IH]; intros N books Hb HN Hlen Hf; [constructor|].
  apply Forall_cons in Hf as [Hr Hf]. cbn [length s_process_all] in *.
  destruct (s_process_typed N r books Hb ltac:(lia) Hr) as [Hev Hb'].
  destruct (s_process r books) as [ev books1]. cbn [fst snd] in *.
  specialize (IH (N + 1) books1 Hb' ltac:(lia) ltac:(lia) Hf).
  destruct (s_process_all reqs books1) as [ev' books']. cbn [fst] in *. by apply Forall_app.
Qed.

Lemma responses_typed ev : Forall out_typed ev → Forall rs_valid (responses ev).
Proof. induction 1 as [|[m|m] ev Hx _ IH]; [constructor|by constructor|exact IH]. Qed.
Lemma updates_typed ev : Forall out_typed ev → Forall (λ u, mu_valid u ∧ live_update u) (updates ev).
Proof. induction 1 as [|[m|m] ev Hx _ IH]; [constructor|exact IH|by constructor]. Qed.

Lemma engine_books_typed nr nu N e books resp upd :
  engine_rep nr nu N e books resp upd → books_typed N books.
Proof.
  intros [Hb _ _] tid s Hs. pose proof (Hb tid) as Ht. rewrite Hs in Ht.
  inversion Ht as [b s' (_ & Hw & Hn & _)|]; subst. done.
Qed.

(** The typing of the engine's state: its books are well formed, and what
    waits in its output queues is typed. *)
Definition engine_typed nr nu N e books resp upd : Prop :=
  engine_rep nr nu N e books resp upd ∧ fits nr resp = true ∧ fits nu upd = true ∧
  Forall rs_valid resp ∧ Forall (λ u, mu_valid u ∧ live_update u) upd.

(** C10: the engine is type sound.  From a well-typed state, with typed requests
    before the poison pill, [run] does not go wrong: when the queues and order
    pools can hold the specified outcome it returns in a well-typed state (every
    book well formed; every response and update in the queues within the widths
    and enumerations of its wire struct, the updates of a live kind with side
    BUY or SELL); otherwise the process exits. *)
Theorem engine_type_sound ni nr nu N e books resp upd pill reqs rest fuel :
  engine_typed nr nu N e books resp upd → SHUTDOWN_req pill →
  q_rep (incoming_requests_ e) ni (reqs ++ pill :: rest) →
  Forall (λ r, request_typed r ∧ ¬ SHUTDOWN_req r) reqs →
  1 ≤ N → N + Z.of_nat (length reqs) < 2 ^ 64 - 1 → (length reqs < fuel)%nat →
  if run_fits nr nu reqs books resp upd
  then ∃ e' N' books' resp' upd', run fuel e = Ok (true, e') ∧
         engine_typed nr nu N' e' books' resp' upd' ∧ q_rep (incoming_requests_ e') ni rest
  else ∃ msg, run fuel e = Err (Fatal msg).
Proof.
  intros (He & Hfr & Hfu & Hrt & Hut) Hpill Hin Hreqs HN Hlen Hfuel.
  assert (Hok : Forall (λ r, request_ok r ∧ ¬ SHUTDOWN_req r) reqs).
  { eapply Forall_impl; [exact Hreqs|]. by intros r [[? _] ?]. }
  assert (Hty : Forall request_typed reqs).
  { eapply Forall_impl; [exact Hreqs|]. by intros r [? _]. }
  pose proof (run_spec ni nr nu pill rest Hpill reqs fuel N e books resp upd He Hfr Hfu Hin Hok HN Hlen Hfuel) as Hrun.
  pose proof (s_process_all_typed reqs N books (engine_books_typed _ _ _ _ _ _ _ He) HN Hlen Hty) as Hev.
  destruct (s_process_all reqs books) as [ev books']. cbn [fst] in Hev.
  destruct (run_fits nr nu reqs books resp upd); [|done].
  destruct Hrun as (e' & N' & Hrun & He' & Hin').
  exists e', N', books', (resp ++ responses ev), (upd ++ updates ev). split_and!; try done.
  destruct He' as [Hb Hr Hu]. split_and!; [by split|..].
  - pose proof (q_rep_length _ _ _ Hr). apply Z.leb_le. lia.
  - pose proof (q_rep_length _ _ _ Hu). apply Z.leb_le. lia.
  - apply Forall_app. split; [done|by apply responses_typed].
  - apply Forall_app. split; [done|by apply updates_typed].
Qed.
End typed.
