(* ===== verification/ExchangeCore.v ===== *)
(** TestExchange (bindings/python/exchange_core.cpp): the harness through which
    the Python tests drive the matching engine's books synchronously.

    It owns the queues, an engine and its own array of books; the books write
    through the engine to the queues, and the getters drain the queues and walk
    the books.  The request queue and the engine's thread stay unused.
    [books_[ticker_id]] is a raw array access.  [get_perf_stats], over the
    latency trackers that the book model leaves out, is not here.

    ExchangeCoreRefines.v compares the harness with the engine it stands for. *)

From S2P Require Import Prelude Types MemPool CircularList LevelBook LevelBookRep LevelBookOps LFQueue.
From S2P Require Import MEOrder OrderBookSpec OrderBookInv MEOrderBook MEOrderBookMatching.
From S2P Require Import MatchingEngine MatchingEngineRefines HarnessLevels.

Record TestExchange := mkTestExchange {
  engine_ : MatchingEngine;
  books_ : gmap Z MEOrderBook;
}.

Section TestExchange.
Context `{Cfg : Config}.
Local Abbreviation MX := (M TestExchange).

Definition set_engine v x : TestExchange := mkTestExchange v (books_ x).
Definition set_x_books v x : TestExchange := mkTestExchange (engine_ x) v.
Definition engine_lens : lens TestExchange MatchingEngine := Lens engine_ set_engine.

(** The constructor. *)
Definition TestExchange_new : res TestExchange :=
  req_q ← LFQueue_new ME_MAX_CLIENT_UPDATES;
  resp_q ← LFQueue_new ME_MAX_CLIENT_UPDATES;
  upd_q ← LFQueue_new ME_MAX_MARKET_UPDATES;
  Ok (mkTestExchange (MatchingEngine_new req_q resp_q upd_q) ∅).

Definition ensure_book (ticker_id : Z) : MX unit :=
  if ME_MAX_TICKERS <=? ticker_id then fail (UB "books_ out of range")
  else
    books ← gets books_;
    match books !! ticker_id with
    | None => modify (set_x_books (<[ ticker_id := MEOrderBook_new ticker_id ]> books))
    | Some _ => mret tt
    end.

(** A call of a member of [books_[ticker_id]], whose messages go through the
    engine. *)
Definition on_books (ticker_id : Z) (m : M MEOrderBook unit) : MX unit :=
  books ← gets books_;
  match books !! ticker_id with
  | None => fail (UB "null order book")
  | Some b =>
      '(_, b) ← lift (m b);
      modify (set_x_books (<[ ticker_id := mkMEOrderBook (book_ticker_id_ b) (lb b)
                                (next_market_order_id_ b) [] ]> books));;
      zoom engine_lens (send_all (matching_engine_ b))
  end.

Definition bad_side (side : string) : string :=
  "Invalid side: '" +:+ side +:+ "'. Must be 'BUY' or 'SELL'.".

Definition add_order (client_id order_id ticker_id : Z) (side : string) (price qty : Z) : MX (PyResult unit) :=
  ensure_book ticker_id;;
  match parse_side side with
  | None => mret (Raised (bad_side side))
  | Some sd => on_books ticker_id (add client_id order_id ticker_id sd price qty);; mret (Returned tt)
  end.

Definition cancel_order (client_id order_id ticker_id : Z) : MX unit :=
  ensure_book ticker_id;;
  on_books ticker_id (cancel client_id order_id ticker_id).

(** *** Draining the queues *)

Fixpoint drain_queue {T} (fuel : nat) (q : LFQueue T) : res (list T * LFQueue T) :=
  let '(o, q) := peek q in
  match o with
  | None => Ok ([], q)
  | Some x =>
      q ← pop q;
      match fuel with
      | O => Err Spin
      | S fuel => '(l, q) ← drain_queue fuel q; Ok (x :: l, q)
      end
  end.

Definition response_dict (r : MEClientResponse) : PyDict :=
  [("type", PyStr (clientResponseTypeToString (rs_type_ r)));
   ("client_id", PyInt (rs_client_id_ r)); ("ticker_id", PyInt (rs_ticker_id_ r));
   ("client_order_id", PyInt (rs_client_order_id_ r)); ("market_order_id", PyInt (rs_market_order_id_ r));
   ("side", PyStr (sideToString (rs_side_ r))); ("price", PyInt (rs_price_ r));
   ("exec_qty", PyInt (rs_exec_qty_ r)); ("leaves_qty", PyInt (rs_leaves_qty_ r))]%string.

Definition update_dict (u : MEMarketUpdate) : PyDict :=
  [("type", PyStr (marketUpdateTypeToString (mu_type_ u))); ("ticker_id", PyInt (mu_ticker_id_ u));
   ("side", PyStr (sideToString (mu_side_ u))); ("price", PyInt (mu_price_ u)); ("qty", PyInt (mu_qty_ u));
   ("order_id", PyInt (mu_order_id_ u)); ("priority", PyInt (mu_priority_ u))]%string.

Definition get_responses : MX (list PyDict) :=
  q ← gets (λ x, outgoing_responses_ (engine_ x));
  '(l, q) ← lift (drain_queue (Z.to_nat (LFQueue.size q)) q);
  zoom engine_lens (modify (set_responses q));;
  mret (response_dict <$> l).

Definition get_market_updates : MX (list PyDict) :=
  q ← gets (λ x, market_updates_ (engine_ x));
  '(l, q) ← lift (drain_queue (Z.to_nat (LFQueue.size q)) q);
  zoom engine_lens (modify (set_updates q));;
  mret (update_dict <$> l).

(** *** Book state *)

(** The scan of all price slots, on the book's pointer structure. *)
Fixpoint scan_levels (slots : list Z) (side : Side.t) : M (LBook MEOrder (Z * Z)) (list PriceLevel) :=
  match slots with
  | [] => mret []
  | i :: slots =>
      oap ← gets (getOrdersAtPrice i);
      match oap with
      | None => scan_levels slots side
      | Some _ =>
          l ← level_get oap;
          if Side.eqb (side_ l) side then
            p ← tally_level qty_ l;
            ps ← scan_levels slots side;
            mret (p :: ps)
          else scan_levels slots side
      end
  end.

(** The comparators of [std::sort]; equal prices do not occur. *)
Definition bid_le (a b : PriceLevel) : Prop := pl_price b ≤ pl_price a.
Definition ask_le (a b : PriceLevel) : Prop := pl_price a ≤ pl_price b.
#[export] Instance bid_le_dec : RelDecision bid_le.
Proof. intros a b. unfold bid_le. apply _. Defined.
#[export] Instance ask_le_dec : RelDecision ask_le.
Proof. intros a b. unfold ask_le. apply _. Defined.

Definition sort_levels (side : Side.t) (levels : list PriceLevel) : list PriceLevel :=
  if Side.eqb side Side.BUY then merge_sort bid_le levels else merge_sort ask_le levels.

Definition collect_levels (side : Side.t) : M MEOrderBook (list PriceLevel) :=
  levels ← on_lb (scan_levels (seqZ 0 ME_MAX_PRICE_LEVELS) side);
  mret (sort_levels side levels).

Definition get_levels (side : Side.t) (ticker_id : Z) : MX (list PriceLevel) :=
  ensure_book ticker_id;;
  books ← gets books_;
  match books !! ticker_id with
  | None => fail (UB "null order book")
  | Some b => '(levels, _) ← lift (collect_levels side b); mret levels
  end.
Definition get_bid_levels : Z → MX (list PriceLevel) := get_levels Side.BUY.
Definition get_ask_levels : Z → MX (list PriceLevel) := get_levels Side.SELL.

Definition best_of (levels : list PriceLevel) : PyValue :=
  match levels with [] => PyNone | l :: _ => PyInt (pl_price l) end.
Definition get_best_bid (ticker_id : Z) : MX PyValue := levels ← get_bid_levels ticker_id; mret (best_of levels).
Definition get_best_ask (ticker_id : Z) : MX PyValue := levels ← get_ask_levels ticker_id; mret (best_of levels).

(** [py::cast<int64_t>]: a [cast_error] when the value does not fit. *)
Definition cast_int64 (n : Z) : PyResult Z :=
  if bool_decide (-2 ^ 63 ≤ n < 2 ^ 63) then Returned n else Raised "cast_error".

Definition spread_of (bb ba : PyValue) : PyResult PyValue :=
  match bb, ba with
  | PyInt b, PyInt a =>
      match cast_int64 a, cast_int64 b with
      | Returned a, Returned b => Returned (PyInt (a - b))
      | Raised w, _ | _, Raised w => Raised w
      end
  | _, _ => Returned PyNone
  end.
Definition get_spread (ticker_id : Z) : MX (PyResult PyValue) :=
  bb ← get_best_bid ticker_id;
  ba ← get_best_ask ticker_id;
  mret (spread_of bb ba).

Definition TestExchange_repr : string := "TestExchange(tickers=" +:+ pretty ME_MAX_TICKERS +:+ ")".
Definition PriceLevel_repr (l : PriceLevel) : string :=
  "PriceLevel(side=" +:+ pl_side l +:+ ", price=" +:+ pretty (pl_price l) +:+ ", total_qty=" +:+
  pretty (pl_total_qty l) +:+ ", order_count=" +:+ pretty (pl_order_count l) +:+ ")".
End TestExchange.
