(* ===== verification/ExchangeCoreRefines.v ===== *)
(** The Python harness of the exchange is faithful: a sequence of calls of
    [TestExchange] has the outcome that the matching engine has on the requests
    they stand for, and the getters show it.

    Section [levels]: the scan of the price slots, the tally of each level and
    the sort give the side of the represented book, best level first.  Section
    [harness]: a call is [processClientRequest] on the engine that owns the
    harness's books ([call_engine]), so [process_spec] carries over. *)

From S2P Require Import Prelude Types MemPool CircularList LevelBook LevelBookRep LevelBookOps LFQueue.
From S2P Require Import MEOrder OrderBookSpec OrderBookInv MEOrderBook MEOrderBookMatching.
From S2P Require Import MatchingEngine MatchingEngineRefines HarnessLevels ExchangeCore.

(** ** The levels a getter shows *)

Section levels.
Context `{Cfg : Config, !ConfigOk Cfg}.
Implicit Types (b : LB) (sd : Side.t) (own oth gs : list GL) (g : GL) (s : SBook).
Local Set Default Proof Using "All".

(** The levels of a side as Python sees them, best first. *)
Definition shown_side (sd : Side.t) (s : SBook) : list PriceLevel :=
  (λ l, shown_level qty_ sd (l_price l) (l_orders l)) <$> s_levels sd s.

Lemma slot_in_range i : 0 ≤ i < ME_MAX_PRICE_LEVELS → slot i = i.
Proof. intros. apply Z.mod_small. lia. Qed.

(** The level found in slot [i]. *)
Lemma slot_level sd b own oth i :
  RepX sd [] b own oth → 0 ≤ i < ME_MAX_PRICE_LEVELS →
  match getOrdersAtPrice i b with
  | Some p => ∃ g, g ∈ own ++ oth ∧ g_ptr g = p ∧ slot (g_price g) = i
  | None => ∀ g, g ∈ own ++ oth → slot (g_price g) ≠ i
  end.
Proof.
  intros Hr Hi. unfold getOrdersAtPrice. rewrite (slot_in_range i Hi).
  rewrite (r_pmap _ _ _ _ _ Hr). destruct (pmap _ !! i) as [p|] eqn:E.
  - apply elem_of_list_to_map_2, list_elem_of_fmap in E as (g & [= -> ->] & Hg). by exists g.
  - intros g Hg <-. by rewrite (pmap_lookup (K:=Z*Z) _ _ (r_slots _ _ _ _ _ Hr) Hg) in E.
Qed.

Lemma slot_inj sd b own oth g g' :
  RepX sd [] b own oth → g ∈ own ++ oth → g' ∈ own ++ oth →
  slot (g_price g) = slot (g_price g') → g = g'.
Proof.
  intros Hr Hg Hg'. exact (NoDup_fmap_elem_inj _ _ _ _ (r_slots _ _ _ _ _ Hr) Hg Hg').
Qed.

Lemma level_hdr_side sd b own oth g :
  RepX sd [] b own oth → g ∈ oth → side_ (pool_get (orders_at_price_pool_ b) (g_ptr g)) = opp sd.
Proof.
  intros Hr Hg. destruct (r_oth _ _ _ _ _ Hr) as (_ & _ & Hf).
  rewrite Forall_forall in Hf. apply (Hf g Hg).
Qed.

Lemma scan_levels_spec sd b own oth :
  RepX sd [] b own oth → ∀ slots,
  Forall (λ i, 0 ≤ i < ME_MAX_PRICE_LEVELS) slots → NoDup slots →
  ∃ gs, scan_levels slots sd b = Ok (shown_glevel qty_ sd <$> gs, b) ∧ NoDup gs ∧
    ∀ g, g ∈ gs ↔ g ∈ own ∧ slot (g_price g) ∈ slots.
Proof.
  intros Hr. induction slots as [|i slots IH]; intros Hf Hn; cbn [scan_levels].
  { exists []. split_and!; [done|constructor|set_solver]. }
  apply Forall_cons in Hf as [Hi Hf]. apply NoDup_cons in Hn as [Hni Hn].
  destruct (IH Hf Hn) as (gs & Hscan & Hnd & Hin). rewrite bind_gets.
  pose proof (slot_level sd b own oth i Hr Hi) as Hs.
  destruct (getOrdersAtPrice i b) as [p|].
  2:{ exists gs. split_and!; [done|done|]. intros g. rewrite Hin, elem_of_cons.
      split; [tauto|]. intros [Hg [E|]]; [|done]. by apply Hs in E; [|set_solver]. }
  destruct Hs as (g & Hg & <- & Eslot).
  erewrite bind_Ok; [|reflexivity]. apply elem_of_app in Hg as [Hg|Hg].
  - apply list_elem_of_split in Hg as Hsp. destruct Hsp as (l1 & l2 & Ho).
    assert (Hside : side_ (pool_get (orders_at_price_pool_ b) (g_ptr g)) = sd).
    { rewrite Ho in Hr. apply (rep_mid sd [] b l1 g l2 oth Hr). }
    assert (Heq : Side.eqb sd sd = true) by (by apply bool_decide_true). rewrite Hside, Heq.
    rewrite (bind_Ok _ _ _ _ _ (tally_level_spec qty_ sd b own oth l1 g l2 Hr Ho)).
    rewrite (bind_Ok _ _ _ _ _ Hscan). exists (g :: gs). split_and!; [done| |].
    + apply NoDup_cons. split; [|done]. rewrite Hin, Eslot. tauto.
    + intros g'. rewrite !elem_of_cons, Hin. split.
      * intros [->|[? ?]]; [|tauto]. split; [done|by left].
      * intros [Hg' [E|E]]; [left|by right]. eapply slot_inj; [exact Hr|set_solver..|congruence].
  - rewrite (level_hdr_side sd b own oth g Hr Hg).
    assert (Hne : Side.eqb (opp sd) sd = false).
    { destruct (r_side _ _ _ _ _ Hr) as [-> | ->]; done. }
    rewrite Hne. exists gs. split_and!; [done|done|].
    intros g'. rewrite Hin, elem_of_cons. split; [tauto|]. intros [Hg' [E|]]; [|done]. exfalso.
    assert (g' = g) as ->. { eapply slot_inj; [exact Hr|set_solver..|congruence]. }
    pose proof (r_slots _ _ _ _ _ Hr) as Hsl. unfold lslots in Hsl. rewrite fmap_app in Hsl.
    apply NoDup_app in Hsl as (_ & Hd & _). apply (Hd (slot (g_price g))); by apply (list_elem_of_fmap_2 (λ g, slot (g_price g))).
Qed.

(** All slots: every level of the side, once. *)
Lemma scan_all sd b own oth :
  RepX sd [] b own oth →
  ∃ gs, scan_levels (seqZ 0 ME_MAX_PRICE_LEVELS) sd b = Ok (shown_glevel qty_ sd <$> gs, b) ∧ gs ≡ₚ own.
Proof.
  intros Hr. destruct (scan_levels_spec sd b own oth Hr (seqZ 0 ME_MAX_PRICE_LEVELS))
    as (gs & Hs & Hnd & Hin).
  - rewrite Forall_forall. intros i Hi. apply elem_of_seqZ in Hi. lia.
  - apply NoDup_seqZ.
  - exists gs. split; [done|]. apply NoDup_Permutation; [done| |].
    + pose proof (r_slots _ _ _ _ _ Hr) as Hsl. unfold lslots in Hsl. rewrite fmap_app in Hsl.
      apply NoDup_app in Hsl as (Hsl & _ & _). by apply NoDup_fmap_1 in Hsl.
    + intros g. rewrite Hin, elem_of_seqZ. split; [tauto|]. intros Hg. split; [done|].
      pose proof (Z.mod_pos_bound (g_price g) ME_MAX_PRICE_LEVELS). pose proof cfg_levels.
      change (slot (g_price g)) with (g_price g `mod` ME_MAX_PRICE_LEVELS). lia.
Qed.

#[local] Instance bid_le_trans : Transitive bid_le.
Proof. intros x y z. unfold bid_le. lia. Qed.
#[local] Instance bid_le_total : Total bid_le.
Proof. intros x y. unfold bid_le. lia. Qed.
#[local] Instance ask_le_trans : Transitive ask_le.
Proof. intros x y z. unfold ask_le. lia. Qed.
#[local] Instance ask_le_total : Total ask_le.
Proof. intros x y. unfold ask_le. lia. Qed.

(** Any arrangement of strictly sorted levels is sorted back. *)
Lemma sort_levels_unique sd next (ls : list SLevel) ps :
  valid_side sd → side_wf sd next ls →
  ps ≡ₚ (λ l, shown_level qty_ sd (l_price l) (l_orders l)) <$> ls →
  sort_levels sd ps = (λ l, shown_level qty_ sd (l_price l) (l_orders l)) <$> ls.
Proof.
  intros Hv [_ Hss]. set (f := λ l, _). intros Hp.
  assert (Hnd : NoDup ((λ x, pl_price (f x)) <$> ls)).
  { clear Hp. induction Hss as [|l ls' Hl IH Hf]; [constructor|]. cbn. apply NoDup_cons.
    split; [|exact IH]. intros Hi. apply list_elem_of_fmap in Hi as (k & E & Hk). cbn in E.
    rewrite Forall_forall in Hf. specialize (Hf k Hk). unfold better in Hf.
    destruct (Side.eqb sd Side.BUY); lia. }
  assert (Hinj : ∀ x y, x ∈ f <$> ls → y ∈ f <$> ls → pl_price x = pl_price y → x = y).
  { intros x y Hx Hy. eapply (NoDup_fmap_elem_inj pl_price); [|done..]. by rewrite <- list_fmap_compose. }
  assert (Hsorted : ∀ (R : relation PriceLevel),
    (∀ l k, better sd l k → R (f l) (f k)) → StronglySorted R (f <$> ls)).
  { intros R HR. clear Hp Hnd Hinj. induction Hss as [|l ls' Hl IH Hf]; [constructor|]. constructor; [done|].
    apply Forall_fmap. eapply Forall_impl; [exact Hf|]. intros k Hk. by apply HR. }
  destruct Hv as [-> | ->].
  - change (merge_sort bid_le ps = f <$> ls). symmetry. apply (StronglySorted_unique_strong bid_le).
    + intros x y Hx Hy Hxy Hyx. unfold bid_le in Hxy, Hyx. rewrite merge_sort_Permutation, Hp in Hy.
      apply Hinj; [done|done|lia].
    + apply Hsorted. intros l k Hlk. change (l_price k < l_price l) in Hlk. unfold bid_le. cbn. lia.
    + apply (StronglySorted_merge_sort bid_le).
    + by rewrite merge_sort_Permutation, Hp.
  - change (merge_sort ask_le ps = f <$> ls). symmetry. apply (StronglySorted_unique_strong ask_le).
    + intros x y Hx Hy Hxy Hyx. unfold ask_le in Hxy, Hyx. rewrite merge_sort_Permutation, Hp in Hy.
      apply Hinj; [done|done|lia].
    + apply Hsorted. intros l k Hlk. change (l_price l < l_price k) in Hlk. unfold ask_le. cbn. lia.
    + apply (StronglySorted_merge_sort ask_le).
    + by rewrite merge_sort_Permutation, Hp.
Qed.

(** [collect_levels] shows the side of the abstract book, best level first. *)
Lemma collect_levels_spec sd (b : MEOrderBook) s :
  Represents b s → book_wf s → valid_side sd →
  collect_levels sd b = Ok (shown_side sd s, b).
Proof.
  intros Hrep Hw Hv. destruct (represents_side sd b s Hrep Hv) as (own & oth & Hr).
  destruct (scan_all sd (lb b) own oth (rs_rep _ _ _ _ _ Hr)) as (gs & Hs & Hp).
  unfold collect_levels. rewrite (bind_Ok _ _ _ _ _ (on_lb_Ok _ _ _ _ Hs)), with_lb_id.
  change (Ok (sort_levels sd (shown_glevel qty_ sd <$> gs), b) = Ok (shown_side sd s, b)).
  do 2 f_equal. unfold shown_side. apply (sort_levels_unique sd (s_next s)); [done| |].
  - destruct Hw, Hv as [-> | ->]; done.
  - rewrite Hp, <- (rs_own _ _ _ _ _ Hr), <- list_fmap_compose. done.
Qed.
End levels.

(** ** The harness is the engine

    [as_engine x]: the engine with the harness's array of books as its own. *)

Section harness.
Context `{Cfg : Config, !ConfigOk Cfg}.
Implicit Types (x : TestExchange) (e : MatchingEngine) (books : gmap Z SBook) (s : SBook).
Local Set Default Proof Using "All".

Definition as_engine x : MatchingEngine := set_books (books_ x) (engine_ x).
Definition of_engine x e : TestExchange :=
  mkTestExchange (set_books (ticker_order_books_ (engine_ x)) e) (ticker_order_books_ e).

(** The outcome of an engine operation, seen in the harness. *)
Definition via_engine {A} (m : M MatchingEngine A) : M TestExchange A := λ x,
  match m (as_engine x) with Ok (a, e) => Ok (a, of_engine x e) | Err f => Err f end.

Lemma send_all_books out : ∀ e bs,
  send_all out (set_books bs e) =
  match send_all out e with Ok (a, e') => Ok (a, set_books bs e') | Err f => Err f end.
Proof.
  induction out as [|[m|m] out IH]; intros e bs; [done|..]; cbn [send_all].
  - unfold sendClientResponse, mbind, M_bind, gets, lift, modify in *. cbn.
    destruct (push m (outgoing_responses_ e)) as [q|]; [|done]. exact (IH (set_responses q e) bs).
  - unfold sendMarketUpdate, mbind, M_bind, gets, lift, modify in *. cbn.
    destruct (push m (market_updates_ e)) as [q|]; [|done]. exact (IH (set_updates q e) bs).
Qed.

Lemma send_all_keeps out : ∀ e a e',
  send_all out e = Ok (a, e') → ticker_order_books_ e' = ticker_order_books_ e.
Proof.
  intros e a e' Hs. pose proof (send_all_books out e (ticker_order_books_ e)) as Hb.
  replace (set_books (ticker_order_books_ e) e) with e in Hb by (by destruct e).
  rewrite Hs in Hb. injection Hb as E. by rewrite E.
Qed.

Lemma on_books_engine tid m x : on_books tid m x = via_engine (on_book tid m) x.
Proof.
  unfold on_books, via_engine, on_book. rewrite !bind_gets. cbn [as_engine set_books ticker_order_books_].
  destruct (books_ x !! tid) as [b|]; [|done]. destruct (m b) as [[u b']|f] eqn:Em.
  2: done.
  erewrite (bind_Ok (lift _) _ x) by reflexivity. erewrite (bind_Ok (lift _)) by reflexivity. cbv beta iota. rewrite !bind_modify.
  set (bs := <[ tid := _ ]> (books_ x)). change (set_books bs (as_engine x)) with (set_books bs (engine_ x)).
  rewrite send_all_books. unfold zoom. cbn [lget engine_lens set_x_books engine_].
  destruct (send_all _ (engine_ x)) as [[a e']|f] eqn:Es; [|done].
  apply send_all_keeps in Es. do 2 f_equal. unfold of_engine. cbn. rewrite <- Es. by destruct e'.
Qed.

Lemma ensure_book_engine tid x :
  tid < ME_MAX_TICKERS →
  ensure_book tid x =
  Ok (tt, of_engine x (set_books (if books_ x !! tid then books_ x
                                  else <[ tid := MEOrderBook_new tid ]> (books_ x)) (as_engine x))).
Proof.
  intros Ht. unfold ensure_book. rewrite (proj2 (Z.leb_gt _ _)) by lia. rewrite bind_gets.
  destruct x as [e bs]. destruct (bs !! tid) eqn:E; cbn; rewrite E; by destruct e.
Qed.

(** One call of the harness's interface, with the arguments that pybind11
    has converted to their widths. *)
Inductive Call :=
  | AddOrder (client_id order_id ticker_id : Z) (side : string) (price qty : Z)
  | CancelOrder (client_id order_id ticker_id : Z).

Definition call (c : Call) : M TestExchange (PyResult unit) :=
  match c with
  | AddOrder cid oid tid side price qty => add_order cid oid tid side price qty
  | CancelOrder cid oid tid => cancel_order cid oid tid;; mret (Returned tt)
  end.

Definition call_ticker (c : Call) : Z :=
  match c with AddOrder _ _ tid _ _ _ | CancelOrder _ _ tid => tid end.

(** The request the call stands for, if its side parses. *)
Definition call_request (c : Call) : option MEClientRequest :=
  match c with
  | AddOrder cid oid tid side price qty =>
      (λ sd, mkMEClientRequest ClientRequestType.NEW cid tid oid sd price qty) <$> parse_side side
  | CancelOrder cid oid tid =>
      Some (mkMEClientRequest ClientRequestType.CANCEL cid tid oid Side.INVALID Price_INVALID Qty_INVALID)
  end.

Definition call_result (c : Call) : PyResult unit :=
  match c with
  | AddOrder _ _ _ side _ _ => if parse_side side then Returned tt else Raised (bad_side side)
  | CancelOrder _ _ _ => Returned tt
  end.

Definition call_ok (c : Call) : Prop :=
  match c with
  | AddOrder cid oid tid _ price qty =>
      is_u32 cid ∧ is_u64 oid ∧ 0 ≤ tid < ME_MAX_TICKERS ∧ is_u64 price ∧ is_u32 qty
  | CancelOrder cid oid tid => is_u32 cid ∧ is_u64 oid ∧ 0 ≤ tid < ME_MAX_TICKERS
  end.

Lemma parse_side_valid str sd : parse_side str = Some sd → valid_side sd.
Proof.
  unfold parse_side, valid_side. destruct (String.eqb str "BUY"); [intros [= <-]; by left|].
  destruct (String.eqb str "SELL"); [intros [= <-]; by right|done].
Qed.

Lemma call_request_ok c r : call_ok c → call_request c = Some r → request_ok r ∧ rq_ticker_id_ r = call_ticker c.
Proof.
  unfold request_ok. destruct c as [cid oid tid side price qty|cid oid tid]; cbn; unfold is_u32, is_u64.
  - intros Hok. destruct (parse_side side) as [sd|] eqn:E; [|done]. intros [= <-]. cbn.
    apply parse_side_valid in E. split_and!; try done; lia.
  - intros Hok [= <-]. cbn. split_and!; try done; lia.
Qed.

(** A call with a side is the engine's handling of its request. *)
Lemma call_engine c r x :
  call_ok c → call_request c = Some r →
  call c x = via_engine (processClientRequest r;; mret (call_result c)) x.
Proof.
  intros Hok Hr. destruct (call_request_ok c r Hok Hr) as [_ Ht].
  assert (Hlt : call_ticker c < ME_MAX_TICKERS).
  { destruct c; cbn in Hok |- *; lia. }
  assert (Hcall : ∀ m : M MEOrderBook unit,
    (ensure_book (call_ticker c);; on_books (call_ticker c) m) x =
    via_engine (books ← gets ticker_order_books_;
      (match books !! call_ticker c with
       | None => modify (set_books (<[ call_ticker c := MEOrderBook_new (call_ticker c) ]> books))
       | Some _ => mret tt
       end);; on_book (call_ticker c) m) x).
  { intros m. rewrite (bind_Ok _ _ _ _ _ (ensure_book_engine _ x Hlt)), on_books_engine.
    unfold via_engine. rewrite bind_gets. destruct x as [e bs]. cbn [as_engine set_books books_ ticker_order_books_].
    destruct (bs !! call_ticker c) eqn:E; cbn [books_ engine_ of_engine ticker_order_books_ set_books];
      [rewrite bind_ret|rewrite bind_modify]; by destruct e. }
  assert (Hseq : ∀ (m : M TestExchange unit) (k : M MatchingEngine unit) (a : PyResult unit),
    m x = via_engine k x → (m;; mret a) x = via_engine (k;; mret a) x).
  { intros m k a E. unfold via_engine in *. unfold mbind, M_bind in *. rewrite E.
    by destruct (k (as_engine x)) as [[? ?]|]. }
  unfold processClientRequest. rewrite Ht, (proj2 (Z.leb_gt _ _)) by lia.
  destruct c as [cid oid tid side price qty|cid oid tid]; cbn [call call_request call_result call_ticker] in *.
  - destruct (parse_side side) as [sd|] eqn:E; [|done]. injection Hr as <-.
    unfold add_order. rewrite E. rewrite <- (bind_assoc (ensure_book tid)). apply Hseq. exact (Hcall _).
  - injection Hr as <-. apply Hseq. exact (Hcall _).
Qed.

(** *** The reference outcome of a call *)

Definition s_call (c : Call) books : list Out * gmap Z SBook :=
  match call_request c with
  | Some r => s_process r books
  | None => ([], <[ call_ticker c := s_book (call_ticker c) books ]> books)
  end.
Definition call_fits nr nu (c : Call) books resp upd : bool :=
  match call_request c with Some r => process_fits nr nu r books resp upd | None => true end.

Fixpoint calls (cs : list Call) : M TestExchange (list (PyResult unit)) :=
  match cs with
  | [] => mret []
  | c :: cs => r ← call c; rs ← calls cs; mret (r :: rs)
  end.
Fixpoint s_calls (cs : list Call) books : list Out * gmap Z SBook :=
  match cs with
  | [] => ([], books)
  | c :: cs =>
      let '(ev, books) := s_call c books in
      let '(ev', books) := s_calls cs books in (ev ++ ev', books)
  end.
Fixpoint calls_fit nr nu (cs : list Call) books resp upd : bool :=
  match cs with
  | [] => true
  | c :: cs =>
      let '(ev, books') := s_call c books in
      call_fits nr nu c books resp upd && calls_fit nr nu cs books' (resp ++ responses ev) (upd ++ updates ev)
  end.

Definition harness_rep nr nu N x books resp upd : Prop :=
  engine_rep nr nu N (as_engine x) books resp upd ∧ fits nr resp = true ∧ fits nu upd = true ∧ 1 ≤ N.

Lemma as_of_engine x e : as_engine (of_engine x e) = e.
Proof. by destruct e. Qed.

(** [ensure_book] before a call or a getter. *)
Lemma ensure_book_spec nr nu N x books resp upd tid :
  harness_rep nr nu N x books resp upd → tid < ME_MAX_TICKERS →
  ∃ x' b, ensure_book tid x = Ok (tt, x') ∧
    harness_rep nr nu N x' (<[ tid := s_book tid books ]> books) resp upd ∧
    books_ x' !! tid = Some b ∧ book_rep N b (s_book tid books).
Proof.
  intros (He & Hfr & Hfu & HN) Ht. destruct (lazy_book _ _ _ _ _ _ _ tid He HN) as (e & b & Hl & He' & Hb & Hbr & _).
  rewrite (ensure_book_engine tid x Ht). exists (of_engine x e), b.
  split_and!; [|split; [by rewrite as_of_engine|done]|by destruct e|done].
  cbn [as_engine set_books ticker_order_books_] in Hl. destruct (books_ x !! tid); injection Hl as <-; done.
Qed.

Lemma call_spec nr nu N x books resp upd c :
  harness_rep nr nu N x books resp upd → call_ok c → N < 2 ^ 64 - 1 →
  if call_fits nr nu c books resp upd
  then ∃ x', call c x = Ok (call_result c, x') ∧
         harness_rep nr nu (N + 1) x' (s_call c books).2
           (resp ++ responses (s_call c books).1) (upd ++ updates (s_call c books).1)
  else ∃ msg, call c x = Err (Fatal msg).
Proof.
  intros Hx Hok HN. unfold call_fits, s_call. destruct (call_request c) as [r|] eqn:Er.
  - destruct Hx as (He & Hfr & Hfu & HN1). destruct (call_request_ok c r Hok Er) as [Hrok _].
    pose proof (process_spec nr nu N _ books resp upd r He Hfr Hfu Hrok ltac:(lia)) as Hp.
    rewrite (call_engine c r x Hok Er). unfold via_engine.
    destruct (process_fits nr nu r books resp upd) eqn:Ef.
    + destruct Hp as (e & Hrun & He' & _). rewrite (bind_Ok _ _ _ _ _ Hrun).
      exists (of_engine x e). split; [done|]. split; [by rewrite as_of_engine|].
      unfold process_fits in Ef. destruct (s_process r books) as [ev bs]. rewrite !andb_true_iff in Ef.
      cbn. split_and!; [tauto..|lia].
    + destruct Hp as [msg Hp]. exists msg. by rewrite (bind_Err _ _ _ _ Hp).
  - destruct c as [cid oid tid side price qty|]; [|done].
    assert (Hside : parse_side side = None) by (by cbn in Er; destruct (parse_side side)).
    cbn in Hok. destruct (ensure_book_spec _ _ _ _ _ _ _ tid Hx) as (x' & b & He & Hx' & _); [lia|].
    exists x'. cbn [call call_result]. unfold add_order. rewrite Hside. rewrite (bind_Ok _ _ _ _ _ He).
    split; [done|]. cbn [fst snd call_ticker]. change (responses []) with (@nil MEClientResponse).
    change (updates []) with (@nil MEMarketUpdate). rewrite !app_nil_r.
    destruct Hx' as (? & ? & ? & ?). split; [by apply engine_rep_mono|]. split_and!; [done..|lia].
Qed.

Lemma calls_spec nr nu cs : ∀ N x books resp upd,
  harness_rep nr nu N x books resp upd → Forall call_ok cs → N + Z.of_nat (length cs) < 2 ^ 64 - 1 →
  if calls_fit nr nu cs books resp upd
  then ∃ x', calls cs x = Ok (call_result <$> cs, x') ∧
         harness_rep nr nu (N + Z.of_nat (length cs)) x' (s_calls cs books).2
           (resp ++ responses (s_calls cs books).1) (upd ++ updates (s_calls cs books).1)
  else ∃ msg, calls cs x = Err (Fatal msg).
Proof.
  induction cs as [|c cs IH]; intros N x books resp upd Hx Hok HN; cbn [calls s_calls calls_fit].
  { exists x. change (responses []) with (@nil MEClientResponse). change (updates []) with (@nil MEMarketUpdate).
    cbn [fst snd length]. rewrite !app_nil_r, Z.add_0_r. done. }
  apply Forall_cons in Hok as [Hc Hok]. cbn [length] in *.
  pose proof (call_spec nr nu N x books resp upd c Hx Hc ltac:(lia)) as Hcs.
  destruct (s_call c books) as [ev bs]. cbn [fst snd] in Hcs.
  destruct (call_fits nr nu c books resp upd); cbn [andb];
    [|destruct Hcs as [msg Hm]; exists msg; by rewrite (bind_Err _ _ _ _ Hm)].
  destruct Hcs as (x1 & Hrun & Hx1). rewrite (bind_Ok _ _ _ _ _ Hrun).
  specialize (IH (N + 1) x1 bs _ _ Hx1 Hok ltac:(lia)). destruct (s_calls cs bs) as [ev' bs'].
  cbn [fst snd] in *. destruct (calls_fit _ _ _ _ _ _);
    [|destruct IH as [msg Hm]; exists msg; by rewrite (bind_Err _ _ _ _ Hm)].
  destruct IH as (x2 & Hrun2 & Hx2). exists x2. rewrite (bind_Ok _ _ _ _ _ Hrun2). split; [done|].
  rewrite responses_app, updates_app, !app_assoc.
  replace (N + Z.of_nat (S (length cs))) with (N + 1 + Z.of_nat (length cs)) by lia. exact Hx2.
Qed.

(** *** The getters *)

Lemma drain_queue_spec {T} `{Inhabited T} (l : list T) : ∀ n (q : LFQueue T) fuel,
  q_rep q n l → (length l ≤ fuel)%nat →
  ∃ q', drain_queue fuel q = Ok (l, q') ∧ q_rep q' n [].
Proof.
  induction l as [|v l IH]; intros n q fuel Hq Hf.
  - destruct (peek_spec _ _ _ Hq) as [Hp Hq']. destruct fuel; cbn [drain_queue]; destruct (peek q) as [o q'];
      cbn in Hp, Hq'; subst o; by exists q'.
  - destruct fuel as [|fuel]; cbn in Hf; [lia|]. destruct (peek_spec _ _ _ Hq) as [Hp Hq']. cbn [drain_queue].
    destruct (peek q) as [o q1]. cbn in Hp, Hq'. subst o.
    destruct (pop_spec _ _ _ Hq') as (q2 & Hpop & Hq2).
    destruct (IH n q2 fuel Hq2) as (q' & Hd & Hr); [lia|]. exists q'.
    unfold mbind, res_bind. rewrite Hpop, Hd. done.
Qed.

Lemma get_responses_spec nr nu N x books resp upd :
  harness_rep nr nu N x books resp upd →
  ∃ x', get_responses x = Ok (response_dict <$> resp, x') ∧ harness_rep nr nu N x' books [] upd.
Proof.
  intros (He & Hfr & Hfu & HN). destruct He as [Hb Hr Hu]. unfold get_responses. rewrite bind_gets.
  change (outgoing_responses_ (engine_ x)) with (outgoing_responses_ (as_engine x)).
  destruct (drain_queue_spec resp nr _ (Z.to_nat (LFQueue.size (outgoing_responses_ (as_engine x)))) Hr)
    as (q & Hd & Hq); [rewrite (size_spec _ _ _ Hr); lia|].
  erewrite bind_Ok; [|unfold lift; rewrite Hd; reflexivity]. cbv beta iota.
  eexists. split; [reflexivity|]. split; [by split|]. split_and!; try done.
  pose proof (q_rep_length _ _ _ Hr). unfold fits. cbn. apply Z.leb_le. lia.
Qed.

Lemma get_market_updates_spec nr nu N x books resp upd :
  harness_rep nr nu N x books resp upd →
  ∃ x', get_market_updates x = Ok (update_dict <$> upd, x') ∧ harness_rep nr nu N x' books resp [].
Proof.
  intros (He & Hfr & Hfu & HN). destruct He as [Hb Hr Hu]. unfold get_market_updates. rewrite bind_gets.
  change (market_updates_ (engine_ x)) with (market_updates_ (as_engine x)).
  destruct (drain_queue_spec upd nu _ (Z.to_nat (LFQueue.size (market_updates_ (as_engine x)))) Hu)
    as (q & Hd & Hq); [rewrite (size_spec _ _ _ Hu); lia|].
  erewrite bind_Ok; [|unfold lift; rewrite Hd; reflexivity]. cbv beta iota.
  eexists. split; [reflexivity|]. split; [by split|]. split_and!; try done.
  pose proof (q_rep_length _ _ _ Hu). unfold fits. cbn. apply Z.leb_le. lia.
Qed.

(** A harness state [x] that shows the books, with no messages waiting. *)
Definition shows nr nu x books : Prop :=
  ∃ N bs, harness_rep nr nu N x bs [] [] ∧ ∀ tid, s_book tid bs = s_book tid books.

Lemma s_book_insert tid tid' books :
  s_book tid' (<[ tid := s_book tid books ]> books) = s_book tid' books.
Proof.
  unfold s_book. destruct (decide (tid' = tid)) as [->|];
    [by rewrite lookup_insert_eq|by rewrite lookup_insert_ne].
Qed.

Lemma get_levels_spec nr nu x books sd tid :
  shows nr nu x books → valid_side sd → tid < ME_MAX_TICKERS →
  ∃ x', get_levels sd tid x = Ok (shown_side sd (s_book tid books), x') ∧ shows nr nu x' books.
Proof.
  intros (N & bs & Hx & Hs) Hv Ht.
  destruct (ensure_book_spec _ _ _ _ _ _ _ tid Hx Ht) as (x' & b & He & Hx' & Hb & Hrep & Hwf & _).
  exists x'. unfold get_levels. rewrite (bind_Ok _ _ _ _ _ He), bind_gets, Hb.
  erewrite bind_Ok; [|unfold lift; by rewrite (collect_levels_spec sd b _ Hrep Hwf Hv)].
  rewrite Hs. split; [done|]. eexists N, _. split; [exact Hx'|]. intros t. rewrite s_book_insert. apply Hs.
Qed.

Definition best (sd : Side.t) (s : SBook) : PyValue :=
  match s_levels sd s with [] => PyNone | l :: _ => PyInt (l_price l) end.

Lemma get_best_spec nr nu x books sd tid :
  shows nr nu x books → valid_side sd → tid < ME_MAX_TICKERS →
  ∃ x', (levels ← get_levels sd tid; mret (best_of levels)) x = Ok (best sd (s_book tid books), x') ∧
    shows nr nu x' books.
Proof.
  intros Hx Hv Ht. destruct (get_levels_spec nr nu x books sd tid Hx Hv Ht) as (x' & Hg & Hx').
  exists x'. rewrite (bind_Ok _ _ _ _ _ Hg). split; [|done]. unfold shown_side, best.
  by destruct (s_levels sd _).
Qed.

Lemma get_spread_spec nr nu x books tid :
  shows nr nu x books → tid < ME_MAX_TICKERS →
  ∃ x', get_spread tid x = Ok (spread_of (best Side.BUY (s_book tid books)) (best Side.SELL (s_book tid books)), x') ∧
    shows nr nu x' books.
Proof.
  intros Hx Ht. destruct (get_best_spec nr nu x books Side.BUY tid Hx ltac:(by left) Ht) as (x1 & H1 & Hx1).
  destruct (get_best_spec nr nu x1 books Side.SELL tid Hx1 ltac:(by right) Ht) as (x2 & H2 & Hx2).
  exists x2. unfold get_spread. rewrite (bind_Ok _ _ _ _ _ H1), (bind_Ok _ _ _ _ _ H2). done.
Qed.

Lemma new_shows :
  ∃ x0, TestExchange_new = Ok x0 ∧
    harness_rep ME_MAX_CLIENT_UPDATES ME_MAX_MARKET_UPDATES 1 x0 ∅ [] [].
Proof.
  destruct (q_rep_new (T:=MEClientRequest) _ cfg_client_updates) as (q1 & H1 & _).
  destruct (q_rep_new (T:=MEClientResponse) _ cfg_client_updates) as (q2 & H2 & Hq2).
  destruct (q_rep_new (T:=MEMarketUpdate) _ cfg_market_updates) as (q3 & H3 & Hq3).
  unfold TestExchange_new. rewrite H1. cbn. rewrite H2. cbn. rewrite H3. cbn. eexists. split; [done|].
  split; [split; [|done..]|split_and!].
  - intros tid. cbn. rewrite !lookup_empty. constructor.
  - unfold fits. cbn. apply Z.leb_le. pose proof cfg_client_updates. lia.
  - unfold fits. cbn. apply Z.leb_le. pose proof cfg_market_updates. lia.
  - lia.
Qed.

(** What the Python tests look at: the results of the calls, the messages they
    caused, and the book of one ticker. *)
Definition inspect (cs : list Call) (tid : Z) : M TestExchange
    (list (PyResult unit) * (list PyDict * list PyDict) * (list PriceLevel * list PriceLevel) * PyResult PyValue) :=
  results ← calls cs;
  rs ← get_responses; us ← get_market_updates;
  bids ← get_bid_levels tid; asks ← get_ask_levels tid;
  spread ← get_spread tid;
  mret (results, (rs, us), (bids, asks), spread).

(** The spread is positive when it is a number: the book is not crossed. *)
Lemma spread_positive s d :
  book_wf s → spread_of (best Side.BUY s) (best Side.SELL s) = Returned (PyInt d) → 0 < d.
Proof.
  intros Hw. unfold best. destruct (s_levels Side.BUY s) as [|b bids] eqn:Eb; [done|].
  destruct (s_levels Side.SELL s) as [|a asks] eqn:Ea; [done|]. unfold spread_of, cast_int64.
  destruct (bool_decide _); [|done]. destruct (bool_decide _); [|done]. intros [= <-].
  change (s_bids s = b :: bids) in Eb. change (s_asks s = a :: asks) in Ea.
  pose proof (wf_uncrossed _ Hw b a) as Hu. rewrite Eb, Ea in Hu. specialize (Hu ltac:(set_solver) ltac:(set_solver)). lia.
Qed.

Lemma inspect_spec cs tid :
  Forall call_ok cs → Z.of_nat (length cs) < 2 ^ 64 - 2 → 0 ≤ tid < ME_MAX_TICKERS →
  ∃ x0, TestExchange_new = Ok x0 ∧
  let '(ev, books) := s_calls cs ∅ in
  let s := s_book tid books in
  if calls_fit ME_MAX_CLIENT_UPDATES ME_MAX_MARKET_UPDATES cs ∅ [] []
  then ∃ x, inspect cs tid x0 =
         Ok (call_result <$> cs, (response_dict <$> responses ev, update_dict <$> updates ev),
             (shown_side Side.BUY s, shown_side Side.SELL s),
             spread_of (best Side.BUY s) (best Side.SELL s), x)
  else ∃ msg, inspect cs tid x0 = Err (Fatal msg).
Proof.
  intros Hok Hlen Ht. destruct (new_shows) as (x0 & Hnew & Hx0). exists x0. split; [done|].
  pose proof (calls_spec _ _ cs 1 x0 ∅ [] [] Hx0 Hok ltac:(lia)) as Hcs. unfold inspect.
  destruct (s_calls cs ∅) as [ev books]. cbn [fst snd app] in Hcs.
  destruct (calls_fit _ _ cs ∅ [] []); [|destruct Hcs as [msg Hm]; exists msg; by apply bind_Err].
  destruct Hcs as (x1 & H1 & Hx1). rewrite (bind_Ok _ _ _ _ _ H1).
  destruct (get_responses_spec _ _ _ _ _ _ _ Hx1) as (x2 & H2 & Hx2). rewrite (bind_Ok _ _ _ _ _ H2).
  destruct (get_market_updates_spec _ _ _ _ _ _ _ Hx2) as (x3 & H3 & Hx3). rewrite (bind_Ok _ _ _ _ _ H3).
  assert (Hs3 : shows ME_MAX_CLIENT_UPDATES ME_MAX_MARKET_UPDATES x3 books) by (eexists _, _; by split).
  destruct (get_levels_spec _ _ x3 books Side.BUY tid Hs3) as (x4 & H4 & Hs4); [by left|lia|].
  destruct (get_levels_spec _ _ x4 books Side.SELL tid Hs4) as (x5 & H5 & Hs5); [by right|lia|].
  destruct (get_spread_spec _ _ x5 books tid Hs5) as (x6 & H6 & _); [lia|].
  rewrite (bind_Ok _ _ _ _ _ H4), (bind_Ok _ _ _ _ _ H5), (bind_Ok _ _ _ _ _ H6). by exists x6.
Qed.

(** C39: a test that makes any calls [cs] on a fresh [TestExchange] and then
    looks at it sees the reference auction: each call returns, or raises for a
    side other than BUY and SELL and does nothing; the drained dicts are the
    specified responses and market updates, in order; the levels of [tid] are
    those of the specified book, best first, with the total quantity and the
    number of orders of each; the spread is that of the best levels.  The
    process exits when a queue or an order pool cannot hold the specified
    result, and nothing else can happen. *)
Theorem harness_faithful cs tid :
  Forall call_ok cs → Z.of_nat (length cs) < 2 ^ 64 - 2 → 0 ≤ tid < ME_MAX_TICKERS →
  ∃ x0, TestExchange_new = Ok x0 ∧
  let '(ev, books) := s_calls cs ∅ in
  let s := s_book tid books in
  if calls_fit ME_MAX_CLIENT_UPDATES ME_MAX_MARKET_UPDATES cs ∅ [] []
  then ∃ x, inspect cs tid x0 =
         Ok (call_result <$> cs, (response_dict <$> responses ev, update_dict <$> updates ev),
             (shown_side Side.BUY s, shown_side Side.SELL s),
             spread_of (best Side.BUY s) (best Side.SELL s), x)
  else ∃ msg, inspect cs tid x0 = Err (Fatal msg).
Proof. apply inspect_spec. Qed.
End harness.
