(* ===== verification/Lifecycle.v ===== *)
(** The life of components with a thread each: what the two main programs
    share (start, stop and destructor of every component; thread_utils.h).

    [main] is a script of actions on the main thread.  A component's thread is
    detached: its loop tests a flag, makes a turn, tests again, and nobody joins
    it.  A destructor clears the flag, sleeps and frees.  [timely] says that the
    sleeps are long enough.

    [script_safe] is a decidable condition on a script; [life_alive]: while a
    thread loops, what it touches exists, in every run of a safe script. *)

From stdpp Require Import finite.
From S2P Require Import Prelude.

Inductive Thread := Off | AtCheck | InTurn | Exited.
#[export] Instance Thread_eq_dec : EqDecision Thread.
Proof. solve_decision. Defined.

Inductive Mem := Unborn | Alive | Freed.
#[export] Instance Mem_eq_dec : EqDecision Mem.
Proof. solve_decision. Defined.

(** What [main] waits for: Ctrl+C, or its queues to be drained. *)
Inductive Waiting := Shutdown | Drained.
#[export] Instance Waiting_eq_dec : EqDecision Waiting.
Proof. solve_decision. Defined.

(** [Sleep cs] is the time the threads of [cs] get to end; [Work] is work of
    [main] itself. *)
Inductive Action (C : Type) :=
  | New (c : C) | Start (c : C) | Await (w : Waiting) | Stop (c : C) | Sleep (cs : list C) | Free (c : C)
  | Work.
Arguments New {C} c.
Arguments Start {C} c.
Arguments Await {C} w.
Arguments Stop {C} c.
Arguments Sleep {C} cs.
Arguments Free {C} c.
Arguments Work {C}.

#[export] Instance Action_eq_dec `{EqDecision C} : EqDecision (Action C).
Proof. solve_decision. Defined.

Record Life (C : Type) := mkLife {
  thread : C → Thread;
  run_flag : C → bool;
  memory : C → Mem;
  main_script : list (Action C);
}.
Arguments mkLife {C}.
Arguments thread {C}.
Arguments run_flag {C}.
Arguments memory {C}.
Arguments main_script {C}.

Section lifecycle.
Context {C : Type} `{Finite C}.
Implicit Types (l : Life C) (c d : C) (a : Action C).

Definition fset {A} c (v : A) (f : C → A) : C → A := λ d, if decide (d = c) then v else f d.

Definition set_thread c v l : Life C := mkLife (fset c v (thread l)) (run_flag l) (memory l) (main_script l).
Definition set_flag c v l : Life C := mkLife (thread l) (fset c v (run_flag l)) (memory l) (main_script l).
Definition set_memory c v l : Life C := mkLife (thread l) (run_flag l) (fset c v (memory l)) (main_script l).
Definition set_script s l : Life C := mkLife (thread l) (run_flag l) (memory l) s.

(** Before [main]. *)
Definition life_new (script : list (Action C)) : Life C :=
  mkLife (λ _, Off) (λ _, false) (λ _, Unborn) script.

(** The effect of an action on the components. *)
Definition life_act a l : Life C :=
  match a with
  | New c => set_memory c Alive l
  | Start c => set_thread c AtCheck (set_flag c true l)
  | Stop c => set_flag c false l
  | Free c => set_memory c Freed l
  | Await _ | Sleep _ | Work => l
  end.

Definition looping l c : bool := match thread l c with AtCheck | InTurn => true | Off | Exited => false end.

(** [c]'s thread touches [c] itself and what of [uses c] was ever made. *)
Definition dangling (uses : C → list C) l c : bool :=
  negb (bool_decide (memory l c = Alive)) || existsb (λ d, bool_decide (memory l d = Freed)) (uses c).

(** [life] is where the state [S] of a program holds the life of its components. *)
Section program.
Context {S : Type} (life_of : lens S (Life C)).

(** [while (run_) turn;], one test or one turn. *)
Definition loop_step (uses : C → list C) c (turn : M S unit) : M S unit :=
  l ← gets (lget life_of);
  if negb (looping l c) then mret tt
  else if dangling uses l c then fail (UB "use after free")
  else if decide (thread l c = AtCheck) then
    zoom life_of (modify (set_thread c (if run_flag l c then InTurn else Exited)))
  else turn;; zoom life_of (modify (set_thread c AtCheck)).

(** One action of [main]: [ready w] ends a wait, [effect] is what an action
    does besides its effect on the lives. *)
Definition main_step (ready : Waiting → S → bool) (effect : Action C → M S unit) : M S unit :=
  l ← gets (lget life_of);
  match main_script l with
  | [] => mret tt
  | a :: rest =>
      go ← gets (λ s, match a with Await w => ready w s | _ => true end);
      if (go : bool) then effect a;; zoom life_of (modify (λ l, set_script rest (life_act a l))) else mret tt
  end.

(** The sleep that comes next ends after the threads it waits for. *)
Definition awaited l : Prop :=
  match main_script l with Sleep cs :: _ => forallb (λ c, negb (looping l c)) cs = true | _ => True end.

(** [is_main] tells the steps of [main] from the others. *)
Fixpoint timely {E} (exec : E → M S unit) (is_main : E → bool) (evs : list E) (s : S) : Prop :=
  match evs with
  | [] => True
  | ev :: evs =>
      (is_main ev = true → awaited (lget life_of s)) ∧
      match exec ev s with Ok (_, s') => timely exec is_main evs s' | Err _ => True end
  end.
End program.

(** *** The script decides *)

Definition memory_step a (f : C → Mem) : C → Mem :=
  match a with New c => fset c Alive f | Free c => fset c Freed f | _ => f end.
Definition loops_step a (f : C → bool) : C → bool :=
  match a with
  | Start c => fset c true f
  | Sleep cs => λ d, if bool_decide (d ∈ cs) then false else f d
  | _ => f
  end.
Definition started_step a (f : C → bool) : C → bool := match a with Start c => fset c true f | _ => f end.

Context (script : list (Action C)) (uses : C → list C).

(** After [k] actions: the memory, the threads that may loop, those started. *)
Definition memory_after (k : nat) : C → Mem := foldl (λ f a, memory_step a f) (λ _, Unborn) (take k script).
Definition loops_after (k : nat) : C → bool := foldl (λ f a, loops_step a f) (λ _, false) (take k script).
Definition started_after (k : nat) : C → bool := foldl (λ f a, started_step a f) (λ _, false) (take k script).

Definition safe_after (k : nat) : bool :=
  forallb (λ c, negb (loops_after k c) ||
    (bool_decide (memory_after k c = Alive) &&
     forallb (λ d, negb (bool_decide (memory_after k d = Freed))) (uses c))) (enum C).
Definition script_safe : bool := forallb safe_after (seq 0 (S (length script))).

(** The life of the components after [k] actions. *)
Record life (k : nat) l : Prop := {
  lf_script : main_script l = drop k script;
  lf_k : (k ≤ length script)%nat;
  lf_memory : ∀ c, memory l c = memory_after k c;
  lf_quiet : ∀ c, loops_after k c = false → looping l c = false;
  lf_started : ∀ c, started_after k c = true → thread l c ≠ Off;
  lf_unstarted : ∀ c, started_after k c = false → thread l c = Off;
}.

Lemma life_init : life 0 (life_new script).
Proof. split; try done. lia. Qed.

Lemma take_snoc k a : script !! k = Some a → take (S k) script = take k script ++ [a].
Proof. intros Ha. by apply take_S_r. Qed.

(** [main] goes on. *)
Lemma life_step k l a :
  life k l → script !! k = Some a → awaited l →
  life (S k) (set_script (drop (S k) script) (life_act a l)).
Proof.
  intros [Hs Hk Hm Hq Hst Hun] Ha Haw.
  assert (Hhead : main_script l = a :: drop (S k) script) by (rewrite Hs; by apply drop_S).
  unfold awaited in Haw. rewrite Hhead in Haw. apply lookup_lt_Some in Ha as Hlt.
  split; [done|lia|..]; intros c.
  - unfold memory_after. rewrite (take_snoc k a Ha), foldl_app. cbn [foldl]. fold (memory_after k).
    destruct a; cbn; unfold fset; try case_decide; done || apply Hm.
  - unfold loops_after. rewrite (take_snoc k a Ha), foldl_app. cbn [foldl]. specialize (Hq c).
    fold (loops_after k). destruct a as [d|d|w|d|cs|d|]; try exact Hq.
    + cbn. unfold looping, fset in *. cbn. unfold fset. by destruct (decide (c = d)).
    + cbn. case_bool_decide; [|exact Hq]. intros _. rewrite forallb_forall in Haw.
      by apply negb_true_iff, Haw, list_elem_of_In.
  - unfold started_after. rewrite (take_snoc k a Ha), foldl_app. cbn [foldl]. fold (started_after k). specialize (Hst c).
    destruct a; cbn; unfold fset; try case_decide; done.
  - unfold started_after. rewrite (take_snoc k a Ha), foldl_app. cbn [foldl]. fold (started_after k). specialize (Hun c).
    destruct a; cbn; unfold fset; try case_decide; done.
Qed.

(** The thread of a looping component goes on. *)
Lemma life_thread k l c t :
  life k l → looping l c = true → t ≠ Off → life k (set_thread c t l).
Proof.
  intros [Hs Hk Hm Hq Hst Hun] Hc Ht. split; try done; intros d; cbn; unfold fset.
  - intros Hd. specialize (Hq d Hd). unfold looping. cbn. unfold fset. destruct (decide (d = c)) as [->|]; [by rewrite Hq in Hc|done].
  - intros Hd. case_decide; [done|by apply Hst].
  - intros Hd. specialize (Hun d Hd). case_decide; [|done]. subst. unfold looping in Hc. by rewrite Hun in Hc.
Qed.

(** While a thread loops, what it touches exists. *)
Lemma life_alive k l c :
  script_safe = true → life k l → looping l c = true → dangling uses l c = false.
Proof.
  intros Hsafe [Hs Hk Hm Hq Hst Hun] Hc. unfold script_safe in Hsafe. rewrite forallb_forall in Hsafe.
  assert (Hin : List.In k (seq 0 (S (length script)))) by (apply in_seq; lia).
  specialize (Hsafe k Hin). unfold safe_after in Hsafe. rewrite forallb_forall in Hsafe.
  specialize (Hsafe c ltac:(apply list_elem_of_In, elem_of_enum)).
  destruct (loops_after k c) eqn:El; [|by rewrite (Hq c El) in Hc]. cbn [negb orb] in Hsafe.
  apply andb_true_iff in Hsafe as [Ha Hu]. unfold dangling. rewrite Hm, Ha. cbn [negb orb].
  apply not_true_is_false. intros He. apply existsb_exists in He as (d & Hd & Ed). rewrite forallb_forall in Hu.
  specialize (Hu d Hd). rewrite Hm in Ed. by rewrite Ed in Hu.
Qed.

(** [main] has returned: no started thread is left, and the memory is that at
    the end of the script. *)
Lemma life_end k l c :
  life k l → main_script l = [] →
  (started_after (length script) c = true → loops_after (length script) c = false → thread l c = Exited) ∧
  memory l c = memory_after (length script) c.
Proof.
  intros [Hs Hk Hm Hq Hst Hun] Hend. assert (k = length script) as ->.
  { rewrite Hs in Hend. apply (f_equal length) in Hend. rewrite length_drop in Hend. cbn in Hend. lia. }
  split; [|done]. intros Hc Hn. specialize (Hq c Hn). specialize (Hst c Hc). unfold looping in Hq.
  by destruct (thread l c).
Qed.

(** *** The steps of a program *)

Section steps.
Context {S : Type} (life_of : lens S (Life C)).
Implicit Types s : S.

(** A thread's step touches only what exists. *)
Lemma loop_step_safe k c turn s :
  script_safe = true → life k (lget life_of s) →
  loop_step life_of uses c turn s =
  if looping (lget life_of s) c then
    if decide (thread (lget life_of s) c = AtCheck) then
      Ok (tt, lset life_of (set_thread c (if run_flag (lget life_of s) c then InTurn else Exited) (lget life_of s)) s)
    else (turn;; zoom life_of (modify (set_thread c AtCheck))) s
  else Ok (tt, s).
Proof.
  intros Hsafe Hl. unfold loop_step. rewrite bind_gets.
  destruct (looping _ c) eqn:Hc; [|done]. cbn [negb]. rewrite (life_alive k) by done.
  by destruct (decide _).
Qed.

Lemma main_step_cases k ready effect s :
  life k (lget life_of s) →
  main_step life_of ready effect s =
  match script !! k with
  | None => Ok (tt, s)
  | Some a =>
      if match a with Await w => ready w s | _ => true end then
        (effect a;; zoom life_of (modify (λ l, set_script (drop (Datatypes.S k) script) (life_act a l)))) s
      else Ok (tt, s)
  end.
Proof.
  intros Hl. unfold main_step. rewrite bind_gets, (lf_script _ _ Hl).
  destruct (script !! k) as [a|] eqn:Ha.
  - rewrite (drop_S _ _ _ Ha), bind_gets. by destruct a as [| |w| | | |]; try done; destruct (ready w s).
  - apply lookup_ge_None in Ha. by rewrite drop_ge.
Qed.
End steps.
End lifecycle.
