(* ===== verification/ExchangeMain.v ===== *)
(** The exchange's main program (Exchange/exchange_main.cpp) and the life of
    its threads: the start, stop and destructor of each component.

    [main] is a script of actions on the main thread; the matching engine, the
    order server, the publisher and the synthesizer each loop on a thread of
    their own (Lifecycle.v).  An event lets one of them make a step, so a run is
    a list of events.  A turn is one step: the queues between the threads are
    those of LFQueue.v, whose operations are linearizable
    ([lf_concurrent_fifo]).  The order server's turn publishes any requests and
    drains the responses, the publisher's drains the updates: what else they do
    is in OrderServer.v and MarketDataPublisher.v.  The last three fields of the
    state are history. *)

From stdpp Require Import finite.
From S2P Require Import Prelude Lifecycle Types LFQueue MEOrder OrderBookSpec MEOrderBook MatchingEngine MatchingEngineRefines.
From S2P Require Import ExchangeCore ExchangeCoreRefines.

Inductive Comp := TServer | TMatcher | TPublisher | TSynth.
#[export] Instance Comp_eq_dec : EqDecision Comp.
Proof. solve_decision. Defined.
#[export] Program Instance Comp_finite : Finite Comp := {| enum := [TServer; TMatcher; TPublisher; TSynth] |}.
Next Obligation. by apply (bool_decide_unpack _). Qed.
Next Obligation. intros []; by apply (bool_decide_unpack _). Qed.

Record Exchange := mkExchange {
  x_engine : MatchingEngine;
  x_life : Life Comp;
  g_shutdown : bool;
  x_published : list MEClientRequest;
  x_delivered : list MEClientResponse;
  x_fed : list MEMarketUpdate;
}.

Section main.
Context `{Cfg : Config}.
Local Abbreviation MX := (M Exchange).

Definition set_x_engine v x := mkExchange v (x_life x) (g_shutdown x) (x_published x) (x_delivered x) (x_fed x).
Definition set_x_life v x := mkExchange (x_engine x) v (g_shutdown x) (x_published x) (x_delivered x) (x_fed x).
Definition log_published l x := mkExchange (x_engine x) (x_life x) (g_shutdown x) (x_published x ++ l) (x_delivered x) (x_fed x).
Definition log_delivered l x := mkExchange (x_engine x) (x_life x) (g_shutdown x) (x_published x) (x_delivered x ++ l) (x_fed x).
Definition log_fed l x := mkExchange (x_engine x) (x_life x) (g_shutdown x) (x_published x) (x_delivered x) (x_fed x ++ l).
Definition engine_of : lens Exchange MatchingEngine := Lens x_engine set_x_engine.
Definition life_of : lens Exchange (Life Comp) := Lens x_life set_x_life.

(** *** The life of the components

    [start] sets the flag and creates the thread, a destructor stops the
    thread, sleeps and lets the memory go. *)
Definition start_engine : list (Action Comp) := [Start TMatcher].
Definition start_server : list (Action Comp) := [Start TServer].
Definition start_synthesizer : list (Action Comp) := [Start TSynth].
Definition start_publisher : list (Action Comp) := start_synthesizer ++ [Start TPublisher].

Definition stop_engine : list (Action Comp) := [Stop TMatcher].
Definition stop_server : list (Action Comp) := [Stop TServer].
Definition stop_synthesizer : list (Action Comp) := [Stop TSynth].
Definition stop_publisher : list (Action Comp) := Stop TPublisher :: stop_synthesizer.

Definition delete_engine : list (Action Comp) := stop_engine ++ [Sleep [TMatcher]; Free TMatcher].
Definition delete_server : list (Action Comp) := stop_server ++ [Sleep [TServer]; Free TServer].
Definition delete_synthesizer : list (Action Comp) := stop_synthesizer ++ [Sleep [TSynth]; Free TSynth].
Definition delete_publisher : list (Action Comp) :=
  stop_publisher ++ [Sleep [TPublisher]] ++ delete_synthesizer ++ [Free TPublisher].

(** The synthesizer reads a queue that is a member of the publisher, which
    the publisher fills; the other queues belong to [main]. *)
Definition uses (c : Comp) : list Comp := match c with TSynth => [TPublisher] | _ => [] end.

(** The body of [main]. *)
Definition startup : list (Action Comp) :=
  New TMatcher :: start_engine ++ New TServer :: start_server ++
  [New TSynth; New TPublisher] ++ start_publisher ++ [Await Shutdown].
Definition teardown : list (Action Comp) := delete_server ++ delete_engine ++ delete_publisher.

(** The queues, and [main] about to construct the components. *)
Definition Exchange_new : res Exchange :=
  client_requests ← LFQueue_new ME_MAX_CLIENT_UPDATES;
  client_responses ← LFQueue_new ME_MAX_CLIENT_UPDATES;
  market_updates ← LFQueue_new ME_MAX_MARKET_UPDATES;
  Ok (mkExchange (MatchingEngine_new client_requests client_responses market_updates)
        (life_new (startup ++ teardown)) false [] [] []).

(** The wait for Ctrl+C. *)
Definition ready (w : Waiting) (x : Exchange) : bool := match w with Shutdown => g_shutdown x | Drained => true end.

(** [MatchingEngine::stop] also writes the pill. *)
Definition effect (a : Action Comp) : MX unit :=
  match a with
  | Stop TMatcher => zoom engine_of stop;; mret tt
  | _ => mret tt
  end.

(** The order server publishes [reqs] and sends what the engine answered. *)
Definition server_turn (reqs : list MEClientRequest) : MX unit :=
  q ← gets (λ x, incoming_requests_ (x_engine x));
  q ← lift (push_all reqs q);
  zoom engine_of (modify (set_requests q));;
  modify (log_published reqs);;
  q ← gets (λ x, outgoing_responses_ (x_engine x));
  '(l, q) ← lift (drain_queue (Z.to_nat (LFQueue.size q)) q);
  zoom engine_of (modify (set_responses q));;
  modify (log_delivered l).

(** [MarketDataPublisher::poll]. *)
Definition publisher_turn : MX unit :=
  q ← gets (λ x, market_updates_ (x_engine x));
  '(l, q) ← lift (drain_queue (Z.to_nat (LFQueue.size q)) q);
  zoom engine_of (modify (set_updates q));;
  modify (log_fed l).

(** [MatchingEngine::run] does not test its flag: only the pill ends it. *)
Definition matcher_step : MX unit :=
  l ← gets x_life;
  if negb (looping l TMatcher) then mret tt
  else if dangling uses l TMatcher then fail (UB "use after free")
  else
    done ← zoom engine_of run_once;
    if (done : bool) then zoom life_of (modify (set_thread TMatcher Exited)) else mret tt.

Inductive Event := ESignal | EMain | EServer (reqs : list MEClientRequest) | EMatcher | EPublisher | ESynth.
Definition is_main (ev : Event) : bool := match ev with EMain => true | _ => false end.

(** Ctrl+C. *)
Definition signal_handler : MX unit :=
  modify (λ x, mkExchange (x_engine x) (x_life x) true (x_published x) (x_delivered x) (x_fed x)).

Definition exec (ev : Event) : MX unit :=
  match ev with
  | ESignal => signal_handler
  | EMain => main_step life_of ready effect
  | EServer reqs => loop_step life_of uses TServer (server_turn reqs)
  | EMatcher => matcher_step
  | EPublisher => loop_step life_of uses TPublisher publisher_turn
  | ESynth => loop_step life_of uses TSynth (mret tt)
  end.

Definition event_requests (ev : Event) : list MEClientRequest :=
  match ev with EServer reqs => reqs | _ => [] end.
End main.
