(* ===== verification/ExchangeMainSafe.v ===== *)
(** Shutting the exchange down loses no request, if the destructors sleep long
    enough.

    The life of the components is that of Lifecycle.v.  [engine_inv]: the
    requests published so far are those processed, with the messages of the
    reference auction, and those in the queue, behind which the poison pill may
    wait.  Both are invariants of every event, and so the theorem is an
    induction over the run. *)

From S2P Require Import Prelude Lifecycle Types LFQueue MEOrder OrderBookSpec MEOrderBook MatchingEngine MatchingEngineRefines.
From S2P Require Import ExchangeCore ExchangeCoreRefines ExchangeMain.

Section safe.
Context `{Cfg : Config, !ConfigOk Cfg}.
Implicit Types (x : Exchange) (c : Comp) (k : nat).
Local Set Default Proof Using "All".

(** *** The script *)

Definition script : list (Action Comp) := startup ++ teardown.
(** Where the matcher's [stop] is. *)
Definition pill_at : nat := 12.

Lemma script_is_safe : script_safe script uses = true.
Proof. by vm_compute. Qed.

Lemma stop_matcher_at k : script !! k = Some (Stop TMatcher) → k = pill_at.
Proof. do 22 (destruct k as [|k]; [cbn; intros E; try discriminate; done|]). done. Qed.

Lemma start_matcher_at k : script !! k = Some (Start TMatcher) → started_after script k TMatcher = false.
Proof. do 22 (destruct k as [|k]; [cbn; intros E; try discriminate; done|]). done. Qed.

(** Nothing is published behind the pill. *)
Lemma server_gone k x : life script k (x_life x) → (pill_at < k)%nat → looping (x_life x) TServer = false.
Proof.
  intros Hl Hk. apply (lf_quiet _ _ _ Hl). pose proof (lf_k _ _ _ Hl) as Hle. unfold pill_at in Hk.
  assert (Hall : forallb (λ k, negb (loops_after script k TServer)) (seq 13 10) = true) by (by vm_compute).
  rewrite forallb_forall in Hall. apply negb_true_iff, Hall, in_seq. cbn in Hle. lia.
Qed.

Definition matcher_exited x : Prop := thread (x_life x) TMatcher = Exited.

(** *** The engine *)

Definition quiet (r : MEClientRequest) : Prop := request_ok r ∧ ¬ SHUTDOWN_req r.

(** The poison pill, from its [stop] until the matcher has read it. *)
Definition pill_waiting k x : list MEClientRequest :=
  if decide (thread (x_life x) TMatcher = Exited) then [] else if decide (pill_at < k)%nat then [the_pill] else [].

(** [done] has been processed, [pending] waits, [resp] and [upd] are in the
    output queues. *)
Record engine_inv k x (done pending : list MEClientRequest) resp upd : Prop := {
  ei_published : x_published x = done ++ pending;
  ei_quiet : Forall quiet pending;
  ei_engine : engine_rep ME_MAX_CLIENT_UPDATES ME_MAX_MARKET_UPDATES (1 + Z.of_nat (length done)) (x_engine x)
    (s_process_all done ∅).2 resp upd;
  ei_resp : x_delivered x ++ resp = responses (s_process_all done ∅).1;
  ei_upd : x_fed x ++ upd = updates (s_process_all done ∅).1;
  ei_queue : q_rep (incoming_requests_ (x_engine x)) ME_MAX_CLIENT_UPDATES (pending ++ pill_waiting k x);
  ei_exit : matcher_exited x → (pill_at < k)%nat ∧ pending = [];
}.

Definition exchange_inv x : Prop :=
  ∃ k done pending resp upd, life script k (x_life x) ∧ engine_inv k x done pending resp upd.

Lemma pill_waiting_yes k x : ¬ matcher_exited x → (pill_at < k)%nat → pill_waiting k x = [the_pill].
Proof. intros Hx Hk. unfold pill_waiting. rewrite decide_False by done. by rewrite decide_True. Qed.
Lemma pill_waiting_no k x : ¬ (pill_at < k)%nat → pill_waiting k x = [].
Proof. intros Hk. unfold pill_waiting. case_decide; [done|]. by rewrite decide_False. Qed.

Lemma s_process_all_snoc reqs r books :
  s_process_all (reqs ++ [r]) books =
  let '(ev, books1) := s_process_all reqs books in
  let '(ev1, books2) := s_process r books1 in (ev ++ ev1, books2).
Proof.
  revert books. induction reqs as [|r' reqs IH]; intros books; cbn.
  - destruct (s_process r books) as [ev1 b2]. by rewrite app_nil_r.
  - destruct (s_process r' books) as [ev b1]. rewrite IH. destruct (s_process_all reqs b1) as [ev' b'].
    destruct (s_process r b') as [ev1 b2]. by rewrite app_assoc.
Qed.

(** [engine_inv] across a step that leaves the engine and the history alone. *)
Lemma engine_inv_same k k' x x' done pending resp upd :
  engine_inv k x done pending resp upd → x_engine x' = x_engine x → x_published x' = x_published x →
  x_delivered x' = x_delivered x → x_fed x' = x_fed x →
  (matcher_exited x' ↔ matcher_exited x) → (k ≤ k')%nat →
  ((pill_at < k')%nat ↔ (pill_at < k)%nat) →
  engine_inv k' x' done pending resp upd.
Proof.
  intros [Hp Hq He Hr Hu Hin Hex] E1 E2 E3 E4 Ht Hk Hpill.
  assert (Epill : pill_waiting k' x' = pill_waiting k x).
  { unfold pill_waiting. rewrite (decide_ext _ _ _ _ Ht), (decide_ext (pill_at < k')%nat (pill_at < k)%nat); done. }
  split; rewrite ?E1, ?E2, ?E3, ?E4, ?Epill; try done. intros Hx. apply Ht, Hex in Hx as [? ?]. split; [lia|done].
Qed.

(** *** The main thread *)

(** The invariant goes on, or the process has exited. *)
Definition holds_or_exits (reqs : list MEClientRequest) x (r : res (unit * Exchange)) : Prop :=
  match r with
  | Ok (_, x') => exchange_inv x' ∧ (∃ l, (l = [] ∨ l = reqs) ∧ x_published x' = x_published x ++ l)
  | Err f => ∃ msg, f = Fatal msg
  end.

Lemma inv_holds reqs x x' :
  exchange_inv x' → x_published x' = x_published x → holds_or_exits reqs x (Ok (tt, x')).
Proof. intros Hi E. split; [done|]. exists []. rewrite app_nil_r. split; [by left|done]. Qed.

(** Every action but the matcher's [stop] leaves engine and history alone. *)
Lemma plain_action k x done pending resp upd a :
  life script k (x_life x) → engine_inv k x done pending resp upd → awaited (x_life x) →
  script !! k = Some a → a ≠ Stop TMatcher →
  holds_or_exits [] x (Ok (tt, set_x_life (set_script (drop (S k) script) (life_act a (x_life x))) x)).
Proof.
  intros Hl He Haw Ha Hns. apply inv_holds; [|done]. exists (S k), done, pending, resp, upd.
  split; [by apply life_step|].
  assert (Ek : k ≠ pill_at) by (intros ->; cbn in Ha; congruence).
  apply (engine_inv_same k (S k) x); try done; [|lia|unfold pill_at in *; lia].
  unfold matcher_exited. destruct a as [c|c|w|c|cs|c|]; try done. cbn. unfold fset.
  destruct (decide (TMatcher = c)) as [<-|]; [|done]. split; [done|].
  by rewrite (lf_unstarted _ _ _ Hl _ (start_matcher_at k Ha)).
Qed.

(** The pill: the server is gone, so nothing is published behind it. *)
Lemma pill_action x done pending resp upd :
  life script pill_at (x_life x) → engine_inv pill_at x done pending resp upd → awaited (x_life x) →
  holds_or_exits [] x ((effect (Stop TMatcher);;
    zoom life_of (modify (λ l, set_script (drop (S pill_at) script) (life_act (Stop TMatcher) l)))) x).
Proof.
  intros Hl [Hp Hq He Hr Hu Hin Hex] Haw.
  assert (Hne : ¬ matcher_exited x) by (intros Hx; destruct (Hex Hx) as [? _]; lia).
  rewrite pill_waiting_no, app_nil_r in Hin by lia. pose proof (stop_spec _ _ _ _ _ _ _ _ _ He Hin) as Hst.
  cbn [effect]. rewrite bind_assoc. destruct (fits _ _).
  - destruct Hst as (e' & Hrun & He' & Hin').
    erewrite bind_Ok by (apply (zoom_Ok engine_of); exact Hrun). rewrite bind_ret.
    apply inv_holds; [|done]. exists (S pill_at), done, pending, resp, upd. split.
    + by apply (life_step script pill_at (x_life x) (Stop TMatcher)).
    + split; try done. rewrite pill_waiting_yes by (done || lia). exact Hin'.
  - erewrite bind_Err by (apply (zoom_Err engine_of); exact Hst). by eexists.
Qed.

Lemma main_step_inv x :
  exchange_inv x → awaited (x_life x) → holds_or_exits [] x (main_step life_of ready effect x).
Proof.
  intros Hi Haw. pose proof Hi as (k & done & pending & resp & upd & Hl & He).
  rewrite (main_step_cases script life_of k) by done. destruct (script !! k) as [a|] eqn:Ha; [|by apply inv_holds].
  destruct (match a with Await w => ready w x | _ => true end); [|by apply inv_holds].
  destruct (decide (a = Stop TMatcher)) as [->|Hne].
  - pose proof (stop_matcher_at k Ha) as ->. by eapply pill_action.
  - pose proof (plain_action k x done pending resp upd a Hl He Haw Ha Hne) as Hpl.
    destruct a as [c|c|w|[]|cs|c|]; first [exact Hpl|by destruct Hne].
Qed.

(** *** The threads *)

(** The thread of another component goes on. *)
Lemma thread_moves k x done pending resp upd c t :
  c ≠ TMatcher → t ≠ Off → life script k (x_life x) → looping (x_life x) c = true →
  engine_inv k x done pending resp upd → exchange_inv (set_x_life (set_thread c t (x_life x)) x).
Proof.
  intros Hc Ht Hl Hlp He. exists k, done, pending, resp, upd. split; [by apply life_thread|].
  apply (engine_inv_same k k x); try done. unfold matcher_exited. cbn. unfold fset.
  destruct (decide (TMatcher = c)) as [Ec|]; [by destruct Hc|done].
Qed.

(** A loop around a turn that keeps the engine's invariant. *)
Lemma loop_inv c turn reqs x :
  c ≠ TMatcher → exchange_inv x →
  (∀ k done pending resp upd,
    life script k (x_life x) → engine_inv k x done pending resp upd → looping (x_life x) c = true →
    match turn x with
    | Ok (_, x') => ∃ pending' resp' upd', engine_inv k x' done pending' resp' upd' ∧ x_life x' = x_life x ∧
        ∃ l, (l = [] ∨ l = reqs) ∧ x_published x' = x_published x ++ l
    | Err f => ∃ msg, f = Fatal msg
    end) →
  holds_or_exits reqs x (loop_step life_of uses c turn x).
Proof.
  intros Hc Hi Hturn. pose proof Hi as (k & done & pending & resp & upd & Hl & He).
  rewrite (loop_step_safe script uses life_of k) by (apply script_is_safe || exact Hl).
  destruct (looping _ c) eqn:Hlp; [|by apply inv_holds]. destruct (decide _) as [E|E].
  - apply inv_holds; [|done]. apply (thread_moves k x done pending resp upd); try done.
    by destruct (run_flag _ _).
  - specialize (Hturn _ _ _ _ _ Hl He eq_refl). destruct (turn x) as [[[] x']|f] eqn:Er.
    + rewrite (bind_Ok _ _ _ _ _ Er). destruct Hturn as (p' & r' & u' & He' & El & l & Hl2 & Ep).
      split; [|by exists l]. by apply (thread_moves k x' done p' r' u'); rewrite ?El.
    + rewrite (bind_Err _ _ _ _ Er). exact Hturn.
Qed.

Lemma server_turn_inv reqs k x done pending resp upd :
  Forall quiet reqs → life script k (x_life x) → engine_inv k x done pending resp upd → looping (x_life x) TServer = true →
  match server_turn reqs x with
  | Ok (_, x') => ∃ pending' resp' upd', engine_inv k x' done pending' resp' upd' ∧
      x_life x' = x_life x ∧
      ∃ l, (l = [] ∨ l = reqs) ∧ x_published x' = x_published x ++ l
  | Err f => ∃ msg, f = Fatal msg
  end.
Proof.
  intros Hreqs Hl [Hp Hq He Hr Hu Hin Hex] Hlp.
  assert (Hk : ¬ (pill_at < k)%nat) by (intros Hk; by rewrite (server_gone k x Hl Hk) in Hlp).
  assert (Hne : ¬ matcher_exited x) by (intros Hx; by apply Hk, Hex).
  assert (Epill : pill_waiting k x = []).
  { by apply pill_waiting_no. }
  rewrite Epill, app_nil_r in Hin. unfold server_turn. rewrite bind_gets.
  pose proof (push_all_spec reqs _ _ _ Hin (q_rep_fits _ _ _ Hin)) as Hpush.
  destruct (fits _ (pending ++ reqs));
    [|erewrite bind_Err by (unfold lift; by rewrite Hpush); by eexists].
  destruct Hpush as (q & Hpush & Hq'). erewrite bind_Ok by (unfold lift; by rewrite Hpush).
  erewrite bind_Ok by reflexivity. rewrite bind_modify, bind_gets.
  destruct He as [Hb Hqr Hqu].
  destruct (drain_queue_spec resp _ _ (Z.to_nat (LFQueue.size (outgoing_responses_ (x_engine x)))) Hqr)
    as (q2 & Hd & Hq2); [rewrite (size_spec _ _ _ Hqr); lia|].
  erewrite bind_Ok by (unfold lift; cbn -[drain_queue LFQueue.size]; by rewrite Hd). cbv beta iota.
  erewrite bind_Ok by reflexivity. unfold modify.
  exists (pending ++ reqs), [], upd. split_and!; try done.
  - split; cbn; try done.
    + by rewrite Hp, <- app_assoc.
    + by apply Forall_app.
    + by rewrite app_nil_r.
    + by rewrite pill_waiting_no, app_nil_r.
  - exists reqs. split; [by right|done].
Qed.

Lemma publisher_turn_inv k x done pending resp upd :
  life script k (x_life x) → engine_inv k x done pending resp upd →
  match publisher_turn x with
  | Ok (_, x') => ∃ pending' resp' upd', engine_inv k x' done pending' resp' upd' ∧
      x_life x' = x_life x ∧
      ∃ l, (l = [] ∨ l = []) ∧ x_published x' = x_published x ++ l
  | Err f => ∃ msg, f = Fatal msg
  end.
Proof.
  intros Hl [Hp Hq [Hb Hqr Hqu] Hr Hu Hin Hex]. unfold publisher_turn. rewrite bind_gets.
  destruct (drain_queue_spec upd _ _ (Z.to_nat (LFQueue.size (market_updates_ (x_engine x)))) Hqu)
    as (q2 & Hd & Hq2); [rewrite (size_spec _ _ _ Hqu); lia|].
  erewrite bind_Ok by (unfold lift; by rewrite Hd). cbv beta iota.
  erewrite bind_Ok by reflexivity. unfold modify.
  exists pending, resp, []. split_and!; try done.
  - split; cbn; try done. by rewrite app_nil_r.
  - exists []. rewrite app_nil_r. split; [by left|done].
Qed.

(** The matcher processes the oldest request, or reads the pill and exits. *)
Lemma matcher_step_inv x :
  exchange_inv x → Z.of_nat (length (x_published x)) < 2 ^ 64 - 2 → holds_or_exits [] x (matcher_step x).
Proof.
  intros Hi Hlen. pose proof Hi as (k & done & pending & resp & upd & Hl & He0).
  pose proof He0 as [Hp Hq He Hr Hu Hin Hex].
  unfold matcher_step. rewrite bind_gets.
  destruct (looping (x_life x) TMatcher) eqn:Hlp; [|by apply inv_holds].
  assert (Hx : ¬ matcher_exited x) by (unfold matcher_exited; intros Hx; unfold looping in Hlp; by rewrite Hx in Hlp).
  rewrite (life_alive script uses k) by (apply script_is_safe || done). cbn [negb].
  unfold pill_waiting in Hin. rewrite (decide_False (P := thread (x_life x) TMatcher = Exited)) in Hin by done.
  assert (Hfr : fits ME_MAX_CLIENT_UPDATES resp = true) by exact (q_rep_fits _ _ _ (er_resp _ _ _ _ _ _ _ He)).
  assert (Hfu : fits ME_MAX_MARKET_UPDATES upd = true) by exact (q_rep_fits _ _ _ (er_upd _ _ _ _ _ _ _ He)).
  rewrite Hp, length_app in Hlen. destruct pending as [|r pending].
  - cbn [app] in Hin. destruct (decide (pill_at < k)%nat) as [Hk|Hk].
    + destruct (run_once_pill _ _ _ _ _ _ _ _ _ _ He Hin eq_refl) as (e' & Hrun & He' & Hin').
      erewrite bind_Ok by (apply (zoom_Ok engine_of); exact Hrun).
      apply inv_holds; [|done]. exists k, done, [], resp, upd. split.
      * by apply (life_thread script k (x_life x)).
      * split; try done; cbn; unfold pill_waiting, fset; cbn; rewrite ?decide_True by done; done.
    + destruct (run_once_idle _ _ _ _ _ _ _ _ He Hin) as (e' & Hrun & He' & Hin').
      erewrite bind_Ok by (apply (zoom_Ok engine_of); exact Hrun).
      apply inv_holds; [|done]. exists k, done, [], resp, upd. split; [done|].
      split; try done. by rewrite pill_waiting_no.
  - apply Forall_cons in Hq as [[Hok Hns] Hq]. cbn [length] in Hlen.
    pose proof (run_once_request _ _ _ _ _ _ _ _ r _ He Hfr Hfu Hin Hns Hok ltac:(lia)) as Hrun.
    destruct (process_fits _ _ _ _ _ _); [|destruct Hrun as [msg Hrun];
      erewrite bind_Err by (apply (zoom_Err engine_of); exact Hrun); by eexists].
    destruct Hrun as (e' & Hrun & He' & Hin'). erewrite bind_Ok by (apply (zoom_Ok engine_of); exact Hrun).
    apply inv_holds; [|done].
    exists k, (done ++ [r]), pending, (resp ++ responses (s_process r (s_process_all done ∅).2).1),
      (upd ++ updates (s_process r (s_process_all done ∅).2).1). split; [done|].
    pose proof (s_process_all_snoc done r ∅) as Es. destruct (s_process_all done ∅) as [ev bs].
    cbn [fst snd] in *. destruct (s_process r bs) as [ev1 bs1]. cbn [fst snd] in *.
    change (lset engine_of e' x) with (set_x_engine e' x).
    split; cbn [set_x_engine x_engine x_published x_delivered x_fed x_life]; rewrite ?Es; cbn [fst snd].
    + by rewrite Hp, <- app_assoc.
    + done.
    + rewrite length_app. cbn [length]. replace (1 + Z.of_nat (length done + 1)) with (1 + Z.of_nat (length done) + 1) by lia. done.
    + by rewrite app_assoc, Hr, responses_app.
    + by rewrite app_assoc, Hu, updates_app.
    + unfold pill_waiting. cbn. by rewrite (decide_False (P := thread (x_life x) TMatcher = Exited)) by done.
    + done.
Qed.

Lemma exec_inv ev x :
  exchange_inv x → (is_main ev = true → awaited (x_life x)) → Forall quiet (event_requests ev) →
  Z.of_nat (length (x_published x)) < 2 ^ 64 - 2 → holds_or_exits (event_requests ev) x (exec ev x).
Proof.
  intros Hi Haw Hq Hlen. destruct ev as [| |reqs| | |]; cbn [exec event_requests] in *.
  - apply inv_holds; [|done]. destruct Hi as (k & done & pending & resp & upd & Hl & He).
    exists k, done, pending, resp, upd. split; [done|by apply (engine_inv_same k k x)].
  - by apply main_step_inv, Haw.
  - apply loop_inv; [done..|]. intros k done pending resp upd. by apply server_turn_inv.
  - by apply matcher_step_inv.
  - apply loop_inv; [done..|]. intros k done pending resp upd Hl He _. by apply (publisher_turn_inv k _ _ pending resp upd).
  - apply loop_inv; [done..|]. intros k done pending resp upd _ He _.
    exists pending, resp, upd. split_and!; try done. exists []. rewrite app_nil_r. split; [by left|done].
Qed.

Lemma run_inv evs : ∀ x,
  exchange_inv x → timely life_of exec is_main evs x → Forall (λ ev, Forall quiet (event_requests ev)) evs →
  Z.of_nat (length (x_published x) + length (evs ≫= event_requests)) < 2 ^ 64 - 2 →
  match for_each exec evs x with
  | Ok (_, x') => exchange_inv x'
  | Err f => ∃ msg, f = Fatal msg
  end.
Proof.
  induction evs as [|ev evs IH]; intros x Hi Ht Hq Hlen; [done|]. cbn [for_each timely] in *.
  destruct Ht as [Haw Ht]. apply Forall_cons in Hq as [Hqe Hq]. rewrite bind_cons, length_app in Hlen.
  pose proof (exec_inv ev x Hi Haw Hqe ltac:(lia)) as He. destruct (exec ev x) as [[[] x1]|f] eqn:E.
  - rewrite (bind_Ok _ _ _ _ _ E). destruct He as [Hi1 (l & Hl & Ep)]. apply IH; try done.
    rewrite Ep, length_app. destruct Hl as [-> | ->]; cbn [length]; lia.
  - by rewrite (bind_Err _ _ _ _ E).
Qed.

Lemma new_exchange_inv : ∃ x0, Exchange_new = Ok x0 ∧ exchange_inv x0 ∧ x_published x0 = [].
Proof.
  destruct (q_rep_new (T:=MEClientRequest) _ cfg_client_updates) as (q1 & H1 & Hq1).
  destruct (q_rep_new (T:=MEClientResponse) _ cfg_client_updates) as (q2 & H2 & Hq2).
  destruct (q_rep_new (T:=MEMarketUpdate) _ cfg_market_updates) as (q3 & H3 & Hq3).
  unfold Exchange_new, mbind, res_bind. rewrite H1, H2, H3. eexists. split; [done|]. split; [|done].
  exists 0%nat, [], [], [], []. split; [apply life_init|]. split; try done.
  split; [|done..]. intros tid. cbn. rewrite !lookup_empty. constructor.
Qed.

(** What a run has achieved: [done] processed and answered, [pending] waiting. *)
Definition achieved x (done pending : list MEClientRequest) : Prop :=
  x_published x = done ++ pending ∧
  ∃ resp upd,
    engine_rep ME_MAX_CLIENT_UPDATES ME_MAX_MARKET_UPDATES (1 + Z.of_nat (length done)) (x_engine x)
      (s_process_all done ∅).2 resp upd ∧
    x_delivered x ++ resp = responses (s_process_all done ∅).1 ∧
    x_fed x ++ upd = updates (s_process_all done ∅).1.

(** C11: the shutdown of the exchange loses no request.  Let main and the four
    threads take their steps in any order, Ctrl+C come at any time and the order
    server publish any valid requests.  Provided each destructor's sleep lasts
    until its thread has left its loop, no thread touches a component that was
    deleted, no request is published behind the poison pill, and what was
    answered and fed is at every moment what the reference auction says of the
    requests processed so far, in the order they were published; when [main] has
    returned, all four threads have exited, everything is deleted, and every
    published request has been processed.  The only other end is the exit of
    the process when a queue or an order pool is full. *)
Theorem exchange_shutdown evs :
  Forall (λ ev, Forall quiet (event_requests ev)) evs →
  Z.of_nat (length (evs ≫= event_requests)) < 2 ^ 64 - 2 →
  ∃ x0, Exchange_new = Ok x0 ∧
  (timely life_of exec is_main evs x0 →
   match for_each exec evs x0 with
   | Ok (_, x) => ∃ done pending, achieved x done pending ∧
       (main_script (x_life x) = [] → pending = [] ∧ ∀ c, thread (x_life x) c = Exited ∧ memory (x_life x) c = Freed)
   | Err f => ∃ msg, f = Fatal msg
   end).
Proof.
  intros Hq Hlen. destruct new_exchange_inv as (x0 & Hnew & Hi & Hp). exists x0. split; [done|]. intros Ht.
  pose proof (run_inv evs x0 Hi Ht Hq ltac:(by rewrite Hp)) as Hrun.
  destruct (for_each exec evs x0) as [[[] x]|f]; [|done].
  destruct Hrun as (k & done & pending & resp & upd & Hl & [Hpub _ He Hr Hu _ Hex]).
  exists done, pending. split; [split; [done|by exists resp, upd]|]. intros Hm.
  assert (Hend : ∀ c, thread (x_life x) c = Exited ∧ memory (x_life x) c = Freed).
  { intros c. destruct (life_end script k (x_life x) c Hl Hm) as [He' ->]. destruct c; (split; [by apply He'|done]). }
  split; [by apply Hex, Hend|done].
Qed.
End safe.

(** ** When the sleep is too short *)

Section short.
Context `{Cfg : Config}.

(** Ctrl+C while the order server is inside a turn that outlasts the sleep. *)
Definition short_sleep : list Event :=
  replicate 8 EMain ++ [EServer []; ESignal; EMain; EMain; EMain; EMain; EServer []].

(** The destructors do not join: a turn of the order server that takes longer
    than the second that its destructor sleeps goes on in freed memory. *)
Theorem short_sleep_breaks x0 :
  Exchange_new = Ok x0 → for_each exec short_sleep x0 = Err (UB "use after free").
Proof.
  unfold Exchange_new, mbind, res_bind. do 3 (destruct (LFQueue_new _) as [?|]; [|done]).
  intros [= <-]. reflexivity.
Qed.
End short.
