(* ===== verification/MarketOrderBook.v ===== *)
(** Trading::MarketOrderBook (trading/strategy/market_order.h,
    market_order_book.h and .cpp): the order book a client rebuilds from the
    market-data feed, with its best bid and offer.

    The structure is that of [LevelBook], keyed by the market order id the
    exchange assigned.  Direct array indexing by order id is guarded by the
    code before it is reached. *)

From S2P Require Import Prelude Types MemPool LevelBook MEOrder.

Record MarketOrder := mkMarketOrder {
  mo_order_id_ : OrderId;
  mo_side_ : Side.t;
  mo_price_ : Price;
  mo_qty_ : Qty;
  mo_priority_ : Priority;
}.
#[export] Instance MarketOrder_eq_dec : EqDecision MarketOrder.
Proof. solve_decision. Defined.
#[export] Instance MarketOrder_inh : Inhabited MarketOrder :=
  populate (mkMarketOrder OrderId_INVALID Side.INVALID Price_INVALID Qty_INVALID Priority_INVALID).

Definition set_mo_qty (q : Qty) (o : MarketOrder) : MarketOrder :=
  mkMarketOrder (mo_order_id_ o) (mo_side_ o) (mo_price_ o) q (mo_priority_ o).

#[export] Instance mkt_ops `{Config} : BookOps MarketOrder Z := {|
  slot := priceToIndex;
  okey := mo_order_id_;
  d_side := mo_side_;
  d_price := mo_price_;
  lenient := true;
|}.

Record BBO := mkBBO {
  bid_price_ : Price;
  ask_price_ : Price;
  bid_qty_ : Qty;
  ask_qty_ : Qty;
}.
#[export] Instance BBO_eq_dec : EqDecision BBO.
Proof. solve_decision. Defined.
Definition BBO_empty : BBO := mkBBO Price_INVALID Price_INVALID 0 0.

Record MarketOrderBook := mkMarketOrderBook {
  mkt_ticker_id_ : TickerId;
  mkt_lb : LBook MarketOrder Z;
  bbo_ : BBO;
}.

Abbreviation MLB := (LBook MarketOrder Z).

Section MarketOrderBook.
Context `{Config}.
Local Abbreviation MM := (M MarketOrderBook).

(** The constructor. *)
Definition MarketOrderBook_new (ticker_id : TickerId) : MarketOrderBook :=
  mkMarketOrderBook ticker_id (lb_new ME_MAX_PRICE_LEVELS ME_MAX_ORDER_IDS) BBO_empty.

Definition on_mkt {A} (m : M MLB A) : MM A := λ s,
  match m (mkt_lb s) with
  | Ok (a, b) => Ok (a, mkMarketOrderBook (mkt_ticker_id_ s) b (bbo_ s))
  | Err f => Err f
  end.

(** *** The helpers, instances of [LevelBook]'s *)

Definition mkt_addOrdersAtPrice : Z → M MLB unit := addOrdersAtPrice.
Definition mkt_removeOrdersAtPrice : Side.t → Price → M MLB unit := removeOrdersAtPrice.
Definition mkt_addOrder : Z → M MLB unit := addOrder.
Definition mkt_removeOrder : option Z → M MLB unit := removeOrder.

Definition getBBO (s : MarketOrderBook) : BBO := bbo_ s.
Definition getOrder (oid : OrderId) (s : MarketOrderBook) : option Z :=
  if oid <? ME_MAX_ORDER_IDS then order_index_ (mkt_lb s) !! oid else None.

(** *** Best bid and offer *)

(** [do { total += it->qty_.value; it = it->next_order_; } while (it != cur)] *)
Fixpoint sum_level (fuel : nat) (cur it : option Z) (total : Qty) : M MLB Qty :=
  n ← order_get it;
  let total := u32 (total + mo_qty_ (data n)) in
  if bool_decide (next_order_ n = cur) then mret total
  else match fuel with
       | O => fail Spin
       | S fuel => sum_level fuel cur (next_order_ n) total
       end.

(** Price and total quantity of the level at [head]. *)
Definition top_of (head : option Z) : M MLB (Price * Qty) :=
  match head with
  | None => mret (Price_INVALID, 0)
  | Some _ =>
      l ← level_get head;
      match first_order_ l with
      | None => mret (price_ l, 0)
      | Some _ =>
          fuel ← gets (λ b, size (order_index_ b));
          total ← sum_level fuel (first_order_ l) (first_order_ l) 0;
          mret (price_ l, total)
      end
  end.

Definition updateBBO : MM unit :=
  bids ← gets (λ s, bids_by_price_ (mkt_lb s));
  '(bp, bq) ← on_mkt (top_of bids);
  asks ← gets (λ s, asks_by_price_ (mkt_lb s));
  '(ap, aq) ← on_mkt (top_of asks);
  modify (λ s, mkMarketOrderBook (mkt_ticker_id_ s) (mkt_lb s) (mkBBO bp ap bq aq)).

(** *** Wiping the book *)

Definition clear_order (i : Z) : M MLB unit :=
  o ← gets (λ b, order_index_ b !! i);
  match o with
  | None => mret tt
  | Some _ =>
      order_mod o (set_prev_order None);;
      order_mod o (set_next_order None);;
      deallocate_order o;;
      modify (λ b, set_order_index (delete i (order_index_ b)) b)
  end.

Definition clear_level (i : Z) : M MLB unit :=
  l ← gets (λ b, price_orders_at_price_ b !! i);
  match l with
  | None => mret tt
  | Some _ =>
      level_mod l (set_prev_entry None);;
      level_mod l (set_next_entry None);;
      deallocate_level l;;
      modify (λ b, set_price_map (delete i (price_orders_at_price_ b)) b)
  end.

Definition clearBook : MM unit :=
  on_mkt (for_each clear_order (seqZ 0 ME_MAX_ORDER_IDS);;
          for_each clear_level (seqZ 0 ME_MAX_PRICE_LEVELS);;
          modify (set_bids None);; modify (set_asks None));;
  modify (λ s, mkMarketOrderBook (mkt_ticker_id_ s) (mkt_lb s) BBO_empty).

(** *** Dispatch *)

(** The ADD case; [false] when the update is dropped. *)
Definition apply_add (u : MEMarketUpdate) : MM bool :=
  if ME_MAX_ORDER_IDS <=? mu_order_id_ u then mret false
  else
    aliased_level ← gets (λ s, getOrdersAtPrice (mu_price_ u) (mkt_lb s));
    aliased ← match aliased_level with
              | None => mret false
              | Some _ => l ← on_mkt (level_get aliased_level); mret (negb (price_ l =? mu_price_ u))
              end;
    if (aliased : bool) then mret false
    else
      order ← on_mkt (allocate_order (mkNode (mkMarketOrder (mu_order_id_ u) (mu_side_ u)
                        (mu_price_ u) (mu_qty_ u) (mu_priority_ u)) None None));
      match order with
      | None => fail (UB "null order")
      | Some i => on_mkt (mkt_addOrder i);; mret true
      end.

Definition onMarketUpdate (u : MEMarketUpdate) : MM unit :=
  match mu_type_ u with
  | MarketUpdateType.ADD =>
      applied ← apply_add u;
      if (applied : bool) then updateBBO else mret tt
  | MarketUpdateType.MODIFY =>
      order ← gets (getOrder (mu_order_id_ u));
      (match order with
       | Some _ => on_mkt (order_mod order (set_data (set_mo_qty (mu_qty_ u))))
       | None => mret tt
       end);;
      updateBBO
  | MarketUpdateType.CANCEL =>
      order ← gets (getOrder (mu_order_id_ u));
      (match order with
       | Some _ => on_mkt (mkt_removeOrder order)
       | None => mret tt
       end);;
      updateBBO
  | MarketUpdateType.TRADE => updateBBO
  | MarketUpdateType.CLEAR | MarketUpdateType.SNAPSHOT_START => clearBook;; updateBBO
  | MarketUpdateType.SNAPSHOT_END => updateBBO
  | _ => mret tt
  end.

(** ** The abstract book of the client *)

Record CLevel := mkCLevel { c_price : Price; c_orders : list MarketOrder }.
Record CBook := mkCBook { c_bids : list CLevel; c_asks : list CLevel }.

Definition c_all (ls : list CLevel) : list MarketOrder := ls ≫= c_orders.
Definition c_levels (sd : Side.t) (c : CBook) : list CLevel :=
  if Side.eqb sd Side.BUY then c_bids c else c_asks c.
Definition c_set (sd : Side.t) (own oth : list CLevel) : CBook :=
  if Side.eqb sd Side.BUY then mkCBook own oth else mkCBook oth own.

Definition c_append (o : MarketOrder) (l : CLevel) : CLevel :=
  if c_price l =? mo_price_ o then mkCLevel (c_price l) (c_orders l ++ [o]) else l.

(** Adding at the tail of the order's price level. *)
Definition c_rest (o : MarketOrder) (ls : list CLevel) : list CLevel :=
  if existsb (λ l, c_price l =? mo_price_ o) ls then c_append o <$> ls
  else insert_where (λ l, if Side.eqb (mo_side_ o) Side.SELL then c_price l <? mo_price_ o
                          else if Side.eqb (mo_side_ o) Side.BUY then mo_price_ o <? c_price l else false)
         (mkCLevel (mo_price_ o) [o]) ls.

Definition c_drop (oid : OrderId) (ls : list CLevel) : list CLevel :=
  filter (λ l, c_orders l ≠ [])
    ((λ l, mkCLevel (c_price l) (filter (λ o, mo_order_id_ o ≠ oid) (c_orders l))) <$> ls).

Definition c_modify (oid : OrderId) (q : Qty) (ls : list CLevel) : list CLevel :=
  (λ l, mkCLevel (c_price l)
          ((λ o, if mo_order_id_ o =? oid then set_mo_qty q o else o) <$> c_orders l)) <$> ls.

Definition c_both (f : list CLevel → list CLevel) (c : CBook) : CBook :=
  mkCBook (f (c_bids c)) (f (c_asks c)).

(** The book after an update. *)
Definition c_update (u : MEMarketUpdate) (c : CBook) : CBook :=
  match mu_type_ u with
  | MarketUpdateType.ADD =>
      let o := mkMarketOrder (mu_order_id_ u) (mu_side_ u) (mu_price_ u) (mu_qty_ u) (mu_priority_ u) in
      c_set (mu_side_ u) (c_rest o (c_levels (mu_side_ u) c))
        (c_levels (if Side.eqb (mu_side_ u) Side.BUY then Side.SELL else Side.BUY) c)
  | MarketUpdateType.MODIFY => c_both (c_modify (mu_order_id_ u) (mu_qty_ u)) c
  | MarketUpdateType.CANCEL => c_both (c_drop (mu_order_id_ u)) c
  | MarketUpdateType.CLEAR | MarketUpdateType.SNAPSHOT_START => mkCBook [] []
  | _ => c
  end.

(** Top of book: best prices with the quantity resting there. *)
Definition c_top (ls : list CLevel) : Price * Qty :=
  match ls with
  | [] => (Price_INVALID, 0)
  | l :: _ => (c_price l, u32 (sumZ mo_qty_ (c_orders l)))
  end.
Definition c_bbo (c : CBook) : BBO :=
  mkBBO (c_top (c_bids c)).1 (c_top (c_asks c)).1 (c_top (c_bids c)).2 (c_top (c_asks c)).2.
End MarketOrderBook.
