(* ===== verification/MarketOrderBookRefines.v ===== *)
(** [MarketOrderBook] refines the abstract client book: every update of the
    feed is applied without fault, and the cached best bid and offer are those
    of the resulting book. *)

From S2P Require Import Prelude Types MemPool CircularList LevelBook LevelBookRep LevelBookOps.
From S2P Require Import MEOrder MarketOrderBook.

Abbreviation CGL := (GLevel MarketOrder).

Definition c_erase (g : CGL) : CLevel := mkCLevel (g_price g) (g_orders g).*2.

Section refine.
Context `{Config}.
Implicit Types (b : MarketOrderBook) (B : MLB) (sd : Side.t) (own oth ls : list CGL) (g : CGL) (c : CBook).

Definition with_mkt b (l : MLB) : MarketOrderBook := mkMarketOrderBook (mkt_ticker_id_ b) l (bbo_ b).

Lemma on_mkt_Ok {A} (m : M MLB A) b a l : m (mkt_lb b) = Ok (a, l) → on_mkt m b = Ok (a, with_mkt b l).
Proof. intros E. unfold on_mkt. by rewrite E. Qed.
Lemma with_mkt_id b : with_mkt b (mkt_lb b) = b.
Proof. by destruct b. Qed.

Record c_rep sd b own oth c : Prop := {
  cr_rep : RepX sd [] (mkt_lb b) own oth;
  cr_own : c_erase <$> own = c_levels sd c;
  cr_oth : c_erase <$> oth = c_levels (opp sd) c;
  cr_levels : mp_size (orders_at_price_pool_ (mkt_lb b)) = ME_MAX_PRICE_LEVELS;
  cr_orders : mp_size (order_pool_ (mkt_lb b)) = ME_MAX_ORDER_IDS;
  cr_ids : Forall (λ e : Z * MarketOrder, 0 ≤ mo_order_id_ e.2 < ME_MAX_ORDER_IDS) (oents (own ++ oth));
}.

Definition CRepresents b c : Prop := ∃ bids asks, c_rep Side.BUY b bids asks c.

Lemma c_rep_represents sd b own oth c : c_rep sd b own oth c → CRepresents b c.
Proof.
  intros Hr. pose proof (r_side _ _ _ _ _ (cr_rep _ _ _ _ _ Hr)) as Hs.
  destruct Hs as [-> | ->]; [by exists own, oth|]. exists oth, own.
  destruct Hr. split; try done; [by apply RepX_swap in cr_rep0|].
  eapply Forall_perm; [|exact cr_ids0]. apply oents_perm, Permutation_app_comm.
Qed.

Lemma represents_c_rep sd b c : CRepresents b c → valid_side sd → ∃ own oth, c_rep sd b own oth c.
Proof.
  intros (bids & asks & Hr) [-> | ->]; [by exists bids, asks|]. exists asks, bids.
  destruct Hr. split; try done; [by apply RepX_swap in cr_rep0|].
  eapply Forall_perm; [|exact cr_ids0]. apply oents_perm, Permutation_app_comm.
Qed.

(** *** Best bid and offer *)

Lemma sum_level_spec B cur : ∀ (es : list (Z * MarketOrder)) fuel e total,
  chain (onx (order_pool_ B)) (opv (order_pool_ B)) e.1 es.*1 cur →
  cur ∉ es.*1 → (length es ≤ fuel)%nat →
  Forall (λ e, data (pool_get (order_pool_ B) e.1) = e.2) (e :: es) → is_u32 total →
  sum_level fuel (Some cur) (Some e.1) total B = Ok (u32 (total + sumZ mo_qty_ (e.2 :: es.*2)), B).
Proof.
  induction es as [|e' es IH]; intros fuel e total Hc Hcur Hf Hd Ht; cbn in Hc;
    apply Forall_cons in Hd as [He Hd].
  - assert (Hnx : next_order_ (pool_get (order_pool_ B) e.1) = Some cur) by apply Hc.
    destruct fuel; cbn [sum_level]; mexec; rewrite Hnx, bool_decide_true, He by done; cbn;
      do 3 f_equal; lia.
  - destruct Hc as [[Hnx _] Hc]. unfold onx in Hnx. cbn in Hcur, Hf.
    rewrite not_elem_of_cons in Hcur. destruct Hcur as [Hne Hcur].
    destruct fuel as [|fuel]; [lia|]. cbn [sum_level]. mexec.
    rewrite Hnx, bool_decide_false, He by congruence.
    rewrite IH; try done; [|lia|apply u32_range].
    do 2 f_equal. rewrite (sumZ_cons _ e.2), fmap_cons. unfold u32. rewrite Zplus_mod_idemp_l. f_equal. lia.
Qed.

Lemma top_of_spec sd B own oth :
  RepX sd [] B own oth → top_of (head_ref sd B) B = Ok (c_top (c_erase <$> own), B).
Proof.
  intros Hr. rewrite (proj1 (r_own _ _ _ _ _ Hr)).
  destruct own as [|g own]; [done|].
  destruct (rep_mid sd [] B [] g own oth Hr) as ((_ & Hp & Hf) & (Hne & Hc & Hat) & Hnd).
  destruct (g_orders g) as [|[p d] es] eqn:Eg; [done|]. cbn in Hf, Hc.
  unfold top_of. cbn [head fmap list_fmap]. unfold level_get. rewrite bind_gets, Hf, bind_gets.
  rewrite Hp. cbn in Hnd. apply NoDup_cons in Hnd as [Hpn _]. rewrite not_elem_of_app in Hpn.
  erewrite bind_Ok; [reflexivity|].
  rewrite (sum_level_spec B p es _ (p, d) 0 Hc).
  - unfold c_top. cbn. rewrite Eg. done.
  - apply Hpn.
  - rewrite <- (rep_okeys_size _ _ _ _ _ Hr), oents_app, oents_cons, Eg, !length_app. cbn. lia.
  - eapply Forall_impl; [exact Hat|]. by intros e (? & _).
  - by split.
Qed.


Lemma rep_top_asks B bids asks :
  RepX Side.BUY [] B bids asks → top_of (asks_by_price_ B) B = Ok (c_top (c_erase <$> asks), B).
Proof. intros Hr%RepX_swap. exact (top_of_spec _ _ _ _ Hr). Qed.

Lemma updateBBO_spec b c :
  CRepresents b c →
  updateBBO b = Ok (tt, mkMarketOrderBook (mkt_ticker_id_ b) (mkt_lb b) (c_bbo c)).
Proof.
  intros (bids & asks & Hr). pose proof (cr_rep _ _ _ _ _ Hr) as HR. unfold updateBBO.
  rewrite bind_gets. erewrite bind_Ok; [|apply on_mkt_Ok; exact (top_of_spec _ _ _ _ HR)].
  rewrite with_mkt_id, (cr_own _ _ _ _ _ Hr). change (c_levels Side.BUY c) with (c_bids c).
  destruct (c_top (c_bids c)) as [bp bq] eqn:Eb. rewrite bind_gets.
  erewrite bind_Ok; [|apply on_mkt_Ok; exact (rep_top_asks _ _ _ HR)].
  rewrite with_mkt_id, (cr_oth _ _ _ _ _ Hr). change (c_levels (opp Side.BUY) c) with (c_asks c).
  unfold c_bbo. rewrite Eb. by destruct (c_top (c_asks c)) as [ap aq].
Qed.

(** *** Wiping *)

Lemma map_to_list_delete_perm (m : gmap Z Z) k p :
  m !! k = Some p → (map_to_list m).*2 ≡ₚ p :: (map_to_list (delete k m)).*2.
Proof. intros Hk. by rewrite <- (map_to_list_delete m k p Hk). Qed.

Lemma empty_of_dom (m : gmap Z Z) : (∀ k, is_Some (m !! k) → k ∈ []) → m = ∅.
Proof.
  intros Hm. apply map_eq. intros k. rewrite lookup_empty.
  destruct (m !! k) eqn:E; [|done]. specialize (Hm k). rewrite E in Hm.
  exfalso. by eapply not_elem_of_nil, Hm.
Qed.

Lemma clear_order_some B k p ps :
  order_index_ B !! k = Some p → pool_ok (order_pool_ B) (p :: ps) →
  ∃ Q, clear_order k B = Ok (tt, set_order_index (delete k (order_index_ B)) (set_order_pool Q B)) ∧
    pool_ok Q ps ∧ mp_size Q = mp_size (order_pool_ B).
Proof.
  intros Ek Hok.
  destruct (deallocate_order_spec (set_order_pool (pool_mod (set_next_order None) p
    (pool_mod (set_prev_order None) p (order_pool_ B))) B) p ps) as (Q & HQ & Hok' & Hsz & _).
  { cbn. by rewrite !pool_ok_mod. }
  exists Q. split; [|done]. unfold clear_order. rewrite bind_gets, Ek. cbn [order_mod].
  rewrite !bind_modify, (bind_Ok _ _ _ _ _ HQ). reflexivity.
Qed.

Lemma clear_level_some B k p ps :
  price_orders_at_price_ B !! k = Some p → pool_ok (orders_at_price_pool_ B) (p :: ps) →
  ∃ P, clear_level k B =
      Ok (tt, set_price_map (delete k (price_orders_at_price_ B)) (set_level_pool P B)) ∧
    pool_ok P ps ∧ mp_size P = mp_size (orders_at_price_pool_ B).
Proof.
  intros Ek Hok.
  destruct (deallocate_level_spec (set_level_pool (pool_mod (set_next_entry None) p
    (pool_mod (set_prev_entry None) p (orders_at_price_pool_ B))) B) p ps) as (P & HP & Hok' & Hsz & _).
  { cbn. by rewrite !pool_ok_mod. }
  exists P. split; [|done]. unfold clear_level. rewrite bind_gets, Ek. cbn [level_mod].
  rewrite !bind_modify, (bind_Ok _ _ _ _ _ HP). reflexivity.
Qed.

Lemma dom_tail (m : gmap Z Z) k ks :
  (∀ k', is_Some (m !! k') → k' ∈ k :: ks) → ∀ k', is_Some (delete k m !! k') → k' ∈ ks.
Proof.
  intros Hd k' [? Hk']. apply lookup_delete_Some in Hk' as [Hne Hk'].
  specialize (Hd k' (ex_intro _ _ Hk')). set_solver.
Qed.

Lemma clear_orders_spec ks : ∀ B,
  pool_ok (order_pool_ B) (map_to_list (order_index_ B)).*2 →
  (∀ k, is_Some (order_index_ B !! k) → k ∈ ks) →
  ∃ Q, for_each clear_order ks B = Ok (tt, set_order_index ∅ (set_order_pool Q B)) ∧
    pool_ok Q [] ∧ mp_size Q = mp_size (order_pool_ B).
Proof.
  induction ks as [|k ks IH]; intros B Hok Hdom.
  - apply empty_of_dom in Hdom. exists (order_pool_ B). rewrite Hdom in Hok. split; [|done].
    rewrite <- Hdom. by destruct B.
  - cbn [for_each]. pose proof (dom_tail _ _ _ Hdom) as Hdom'.
    destruct (order_index_ B !! k) as [p|] eqn:Ek.
    + rewrite (map_to_list_delete_perm _ _ _ Ek) in Hok.
      destruct (clear_order_some B k p _ Ek Hok) as (Q & HQ & Hok' & Hsz).
      rewrite (bind_Ok _ _ _ _ _ HQ).
      destruct (IH (set_order_index (delete k (order_index_ B)) (set_order_pool Q B)) Hok' Hdom')
        as (Q' & HQ' & Hok2 & Hsz2).
      exists Q'. split_and!; [exact HQ'|done|by rewrite Hsz2].
    + assert (E : clear_order k B = Ok (tt, B)) by (unfold clear_order; by rewrite bind_gets, Ek).
      rewrite (bind_Ok _ _ _ _ _ E). apply IH; [done|]. by rewrite delete_id in Hdom'.
Qed.

Lemma clear_levels_spec ks : ∀ B,
  pool_ok (orders_at_price_pool_ B) (map_to_list (price_orders_at_price_ B)).*2 →
  (∀ k, is_Some (price_orders_at_price_ B !! k) → k ∈ ks) →
  ∃ P, for_each clear_level ks B = Ok (tt, set_price_map ∅ (set_level_pool P B)) ∧
    pool_ok P [] ∧ mp_size P = mp_size (orders_at_price_pool_ B).
Proof.
  induction ks as [|k ks IH]; intros B Hok Hdom.
  - apply empty_of_dom in Hdom. exists (orders_at_price_pool_ B). rewrite Hdom in Hok. split; [|done].
    rewrite <- Hdom. by destruct B.
  - cbn [for_each]. pose proof (dom_tail _ _ _ Hdom) as Hdom'.
    destruct (price_orders_at_price_ B !! k) as [p|] eqn:Ek.
    + rewrite (map_to_list_delete_perm _ _ _ Ek) in Hok.
      destruct (clear_level_some B k p _ Ek Hok) as (P & HP & Hok' & Hsz).
      rewrite (bind_Ok _ _ _ _ _ HP).
      destruct (IH (set_price_map (delete k (price_orders_at_price_ B)) (set_level_pool P B)) Hok' Hdom')
        as (P' & HP' & Hok2 & Hsz2).
      exists P'. split_and!; [exact HP'|done|by rewrite Hsz2].
    + assert (E : clear_level k B = Ok (tt, B)) by (unfold clear_level; by rewrite bind_gets, Ek).
      rewrite (bind_Ok _ _ _ _ _ E). apply IH; [done|]. by rewrite delete_id in Hdom'.
Qed.
End refine.

Section clear.
Context `{Cfg : Config, !ConfigOk Cfg}.
Implicit Types (b : MarketOrderBook) (B : MLB) (sd : Side.t) (own oth ls : list CGL) (g : CGL) (c : CBook).
Local Set Default Proof Using "All".

Lemma clearBook_spec b c :
  CRepresents b c → ∃ b', clearBook b = Ok (tt, b') ∧ CRepresents b' (mkCBook [] []) ∧
    bbo_ b' = BBO_empty.
Proof.
  intros (bids & asks & Hr). pose proof (cr_rep _ _ _ _ _ Hr) as HR.
  set (B := mkt_lb b) in *. pose proof cfg_levels as Hlv.
  assert (Hmo : (map_to_list (order_index_ B)).*2 ≡ₚ optrs (bids ++ asks)).
  { rewrite (r_oindex _ _ _ _ _ HR). unfold oindex. rewrite map_to_list_to_map.
    - by rewrite <- list_fmap_compose.
    - rewrite <- list_fmap_compose. apply HR. }
  assert (Hml : (map_to_list (price_orders_at_price_ B)).*2 ≡ₚ lptrs (bids ++ asks)).
  { rewrite (r_pmap _ _ _ _ _ HR). unfold pmap. rewrite map_to_list_to_map.
    - by rewrite <- list_fmap_compose.
    - rewrite <- list_fmap_compose. apply HR. }
  destruct (clear_orders_spec (seqZ 0 ME_MAX_ORDER_IDS) B) as (Q & HQ & HokQ & HszQ).
  { rewrite Hmo. apply HR. }
  { intros k [p Hp]. rewrite (r_oindex _ _ _ _ _ HR) in Hp. apply elem_of_list_to_map_2 in Hp.
    apply list_elem_of_fmap in Hp as (e & [= -> ->] & He).
    pose proof (cr_ids _ _ _ _ _ Hr) as Hids. rewrite Forall_forall in Hids.
    specialize (Hids e He). apply elem_of_seqZ. cbn. lia. }
  destruct (clear_levels_spec (seqZ 0 ME_MAX_PRICE_LEVELS) (set_order_index ∅ (set_order_pool Q B)))
    as (P & HP & HokP & HszP).
  { cbn. rewrite Hml. apply HR. }
  { intros k [p Hp]. cbn in Hp. rewrite (r_pmap _ _ _ _ _ HR) in Hp. apply elem_of_list_to_map_2 in Hp.
    apply list_elem_of_fmap in Hp as (g & [= -> ->] & Hg). apply elem_of_seqZ. cbn.
    pose proof (Z.mod_pos_bound (g_price g) ME_MAX_PRICE_LEVELS). unfold priceToIndex. lia. }
  unfold clearBook. fold B.
  erewrite bind_Ok.
  2:{ apply on_mkt_Ok. fold B. erewrite bind_Ok by exact HQ. erewrite bind_Ok by exact HP.
      rewrite bind_modify. reflexivity. }
  eexists. split; [reflexivity|]. split; [|done]. exists [], [].
  split; cbn; try done.
  - split; cbn; try done; try (by constructor).
  - rewrite HszP. apply Hr.
  - rewrite HszQ. apply Hr.
Qed.
End clear.

Section upd.
Context `{Config}.
Implicit Types (b : MarketOrderBook) (B : MLB) (sd : Side.t) (own oth ls : list CGL) (g : CGL) (c : CBook).

(** *** Dropping and modifying by order id *)

Lemma okeys_ids ls : okeys ls = mo_order_id_ <$> (oents ls).*2.
Proof. unfold okeys. by rewrite <- list_fmap_compose. Qed.

Lemma filter_id_miss oid (os : list MarketOrder) :
  oid ∉ mo_order_id_ <$> os → filter (λ o, mo_order_id_ o ≠ oid) os = os.
Proof.
  induction os as [|o os IH]; [done|]. rewrite fmap_cons, not_elem_of_cons. intros [Hk Hn].
  rewrite filter_cons_True by congruence. f_equal. by apply IH.
Qed.

Definition nonempty_g ls : Prop := Forall (λ g, g_orders g ≠ []) ls.

Lemma c_drop_miss oid ls :
  oid ∉ okeys ls → nonempty_g ls → c_drop oid (c_erase <$> ls) = c_erase <$> ls.
Proof.
  rewrite okeys_ids. unfold c_drop. induction ls as [|g ls IH]; [done|].
  rewrite oents_cons, !fmap_app, not_elem_of_app. intros [Hk Hn] [Hl Hls]%Forall_cons.
  rewrite !fmap_cons. cbn [c_orders c_price c_erase]. rewrite filter_id_miss by done.
  rewrite filter_cons_True.
  - f_equal. by apply IH.
  - cbn. intros E. by apply fmap_nil_inv in E.
Qed.

Lemma c_drop_app oid (l k : list CLevel) : c_drop oid (l ++ k) = c_drop oid l ++ c_drop oid k.
Proof. unfold c_drop. by rewrite fmap_app, filter_app. Qed.

Lemma ids_apart (l1 : list CGL) g (l2 : list CGL) (o1 : list (Z * MarketOrder)) p d o2 :
  NoDup (okeys (l1 ++ g :: l2)) → g_orders g = o1 ++ (p, d) :: o2 →
  mo_order_id_ d ∉ okeys l1 ∧ mo_order_id_ d ∉ okeys l2 ∧
  mo_order_id_ d ∉ mo_order_id_ <$> o1.*2 ∧ mo_order_id_ d ∉ mo_order_id_ <$> o2.*2.
Proof.
  intros Hn Eg. rewrite okeys_ids, oents_app, oents_cons, Eg, !fmap_app, !fmap_cons in Hn. cbn [snd] in Hn.
  rewrite <- (assoc (++)), <- app_comm_cons, (assoc (++)) in Hn.
  apply NoDup_mid in Hn as [Hn _]. rewrite !okeys_ids. rewrite !not_elem_of_app in Hn. tauto.
Qed.

Lemma c_drop_hit (l1 : list CGL) g (l2 : list CGL) (o1 : list (Z * MarketOrder)) p d o2 :
  NoDup (okeys (l1 ++ g :: l2)) → nonempty_g (l1 ++ g :: l2) → g_orders g = o1 ++ (p, d) :: o2 →
  c_drop (mo_order_id_ d) (c_erase <$> (l1 ++ g :: l2)) =
    c_erase <$> (l1 ++ match o1 ++ o2 with [] => [] | es => [with_orders g es] end ++ l2).
Proof.
  intros Hn Hne Eg. unfold nonempty_g in Hne. rewrite Forall_app, Forall_cons in Hne.
  destruct Hne as (Hne1 & _ & Hne2).
  destruct (ids_apart _ _ _ _ _ _ _ Hn Eg) as (Hk1 & Hk2 & Hk3 & Hk4).
  rewrite !fmap_app, fmap_cons, c_drop_app.
  change (c_erase g :: (c_erase <$> l2)) with ([c_erase g] ++ (c_erase <$> l2)).
  rewrite c_drop_app, !c_drop_miss by done. f_equal. f_equal.
  unfold c_drop. cbn [fmap list_fmap c_orders c_price c_erase].
  rewrite Eg. rewrite fmap_app, fmap_cons. cbn [snd]. rewrite filter_app.
  rewrite (filter_cons_False (λ o, mo_order_id_ o ≠ mo_order_id_ d) d) by (intros E1; by apply E1).
  rewrite !filter_id_miss by done. rewrite <- fmap_app. destruct (o1 ++ o2) eqn:E.
  - by rewrite filter_cons_False by (intros E1; by apply E1).
  - by rewrite filter_cons_True by done.
Qed.

Definition modify_one oid q (o : MarketOrder) : MarketOrder :=
  if mo_order_id_ o =? oid then set_mo_qty q o else o.

Lemma modify_one_miss oid q (os : list MarketOrder) :
  oid ∉ mo_order_id_ <$> os → modify_one oid q <$> os = os.
Proof.
  induction os as [|o os IH]; [done|]. rewrite !fmap_cons, not_elem_of_cons. intros [Ho Hos].
  rewrite IH by done. unfold modify_one. by rewrite (proj2 (Z.eqb_neq _ _)) by congruence.
Qed.

Lemma c_modify_miss oid q ls :
  oid ∉ okeys ls → c_modify oid q (c_erase <$> ls) = c_erase <$> ls.
Proof.
  rewrite okeys_ids. unfold c_modify. induction ls as [|g ls IH]; [done|].
  rewrite oents_cons, !fmap_app, not_elem_of_app. intros [Hk Hn].
  rewrite !fmap_cons. rewrite IH by done. f_equal. unfold c_erase. cbn. f_equal.
  by apply modify_one_miss.
Qed.

Lemma c_modify_hit (l1 : list CGL) g (l2 : list CGL) (o1 : list (Z * MarketOrder)) p d o2 q :
  NoDup (okeys (l1 ++ g :: l2)) → g_orders g = o1 ++ (p, d) :: o2 →
  c_modify (mo_order_id_ d) q (c_erase <$> (l1 ++ g :: l2)) =
    c_erase <$> (l1 ++ with_orders g (o1 ++ (p, set_mo_qty q d) :: o2) :: l2).
Proof.
  intros Hn Eg. destruct (ids_apart _ _ _ _ _ _ _ Hn Eg) as (Hk1 & Hk2 & Hk3 & Hk4).
  rewrite !fmap_app, !fmap_cons. unfold c_modify. rewrite fmap_app, fmap_cons.
  change (c_modify (mo_order_id_ d) q (c_erase <$> l1) ++
    mkCLevel (g_price g) (modify_one (mo_order_id_ d) q <$> (g_orders g).*2) ::
    c_modify (mo_order_id_ d) q (c_erase <$> l2) =
    (c_erase <$> l1) ++ c_erase (with_orders g (o1 ++ (p, set_mo_qty q d) :: o2)) :: (c_erase <$> l2)).
  rewrite !c_modify_miss by done. f_equal. f_equal. unfold c_erase, with_orders. cbn. f_equal.
  rewrite Eg, !fmap_app, !fmap_cons, !modify_one_miss by done. cbn. f_equal. f_equal.
  unfold modify_one. by rewrite Z.eqb_refl.
Qed.
End upd.

Section apply.
Context `{Cfg : Config, !ConfigOk Cfg}.
Implicit Types (b : MarketOrderBook) (B : MLB) (sd : Side.t) (own oth ls : list CGL) (g : CGL) (c : CBook).
Implicit Types (u : MEMarketUpdate).
Local Set Default Proof Using "All".

(** *** One update *)

Definition order_of u : MarketOrder :=
  mkMarketOrder (mu_order_id_ u) (mu_side_ u) (mu_price_ u) (mu_qty_ u) (mu_priority_ u).

Definition c_orders_of c : list MarketOrder := c_all (c_bids c) ++ c_all (c_asks c).

Lemma c_rep_swap sd b own oth c : c_rep sd b own oth c → c_rep (opp sd) b oth own c.
Proof.
  intros Hr. pose proof (r_side _ _ _ _ _ (cr_rep _ _ _ _ _ Hr)) as Hs.
  destruct Hr as [HR ? ? ? ? Hids]. split; rewrite ?(opp_opp sd) by done; try done; [by apply RepX_swap|].
  eapply Forall_perm; [|exact Hids]. apply oents_perm, Permutation_app_comm.
Qed.

(** What an exchange guarantees of an ADD. *)
Record add_ok u c : Prop := {
  ao_side : valid_side (mu_side_ u);
  ao_id : 0 ≤ mu_order_id_ u < ME_MAX_ORDER_IDS;
  ao_fresh : mu_order_id_ u ∉ mo_order_id_ <$> c_orders_of c;
  ao_slot : ∀ l, l ∈ c_bids c ++ c_asks c → priceToIndex (c_price l) = priceToIndex (mu_price_ u) →
    l ∈ c_levels (mu_side_ u) c ∧ c_price l = mu_price_ u;
  ao_opp : ∀ l, l ∈ c_levels (opp (mu_side_ u)) c → c_price l ≠ mu_price_ u;
  ao_room : Z.of_nat (length (c_orders_of c)) < ME_MAX_ORDER_IDS;
}.

Lemma c_all_erase ls : c_all (c_erase <$> ls) = (oents ls).*2.
Proof.
  induction ls as [|g ls IH]; [done|]. rewrite fmap_cons, oents_cons, fmap_app, <- IH. done.
Qed.

Lemma c_rep_orders sd b own oth c : c_rep sd b own oth c → c_orders_of c ≡ₚ (oents (own ++ oth)).*2.
Proof.
  intros Hr. rewrite oents_app, fmap_app, <- !c_all_erase.
  rewrite (cr_own _ _ _ _ _ Hr), (cr_oth _ _ _ _ _ Hr).
  destruct (r_side _ _ _ _ _ (cr_rep _ _ _ _ _ Hr)) as [-> | ->]; [done|apply Permutation_app_comm].
Qed.

Lemma c_rep_levels sd b own oth c : c_rep sd b own oth c → c_bids c ++ c_asks c ≡ₚ c_erase <$> own ++ oth.
Proof.
  intros Hr. rewrite fmap_app, (cr_own _ _ _ _ _ Hr), (cr_oth _ _ _ _ _ Hr).
  destruct (r_side _ _ _ _ _ (cr_rep _ _ _ _ _ Hr)) as [-> | ->]; [done|apply Permutation_app_comm].
Qed.

Lemma c_levels_set sd (own oth : list CLevel) : valid_side sd →
  c_levels sd (c_set sd own oth) = own ∧ c_levels (opp sd) (c_set sd own oth) = oth.
Proof. by intros [-> | ->]. Qed.

Lemma c_rest_spec sd p d own own' :
  mo_side_ d = sd → valid_side sd → rested sd p d own own' →
  c_erase <$> own' = c_rest d (c_erase <$> own) ∧ oents own' ≡ₚ (p, d) :: oents own.
Proof.
  intros Hs Hv [(i & -> & Hno)|(l1 & g & l2 & -> & Hp & -> & Hno)]; unfold c_rest.
  - split; [|rewrite insert_where_perm; done].
    rewrite (proj2 (existsb_not_elem _ _)).
    + rewrite Hs. apply (insert_where_fmap c_erase _ _ (mkG i (mo_price_ d) [(p, d)])).
      intros g. unfold adv_g, less_aggressive. cbn.
      destruct Hv as [-> | ->]; side_simpl; by rewrite ?orb_false_r.
    + intros l (g & -> & Hg)%list_elem_of_fmap. apply Z.eqb_neq. by apply Hno.
  - split.
    + assert (Hmiss : ∀ ls, (∀ k, k ∈ ls → g_price k ≠ mo_price_ d) →
        c_append d <$> (c_erase <$> ls) = c_erase <$> ls).
      { intros ls Hl. rewrite <- list_fmap_compose. apply list_fmap_ext. intros j k Hk.
        cbn. unfold c_append. cbn. rewrite (proj2 (Z.eqb_neq _ _)); [done|].
        apply Hl. by eapply list_elem_of_lookup_2. }
      rewrite (proj2 (existsb_elem _ _)).
      * rewrite !fmap_app, !fmap_cons, !Hmiss by (intros; apply Hno; set_solver).
        f_equal. f_equal. unfold c_append, c_erase. cbn. rewrite Hp. cbn. rewrite Z.eqb_refl.
        by rewrite fmap_app.
      * exists (c_erase g). split; [rewrite fmap_app; set_solver|]. cbn. by apply Z.eqb_eq.
    + rewrite !oents_app, !oents_cons. cbn [g_orders with_orders].
      solve_Permutation.
Qed.

Lemma c_update_add u c :
  valid_side (mu_side_ u) → mu_type_ u = MarketUpdateType.ADD →
  c_levels (mu_side_ u) (c_update u c) = c_rest (order_of u) (c_levels (mu_side_ u) c) ∧
  c_levels (opp (mu_side_ u)) (c_update u c) = c_levels (opp (mu_side_ u)) c.
Proof.
  intros Hv Ht. unfold c_update, order_of. rewrite Ht. by destruct Hv as [-> | ->].
Qed.


(** The slot test of the ADD case. *)
Lemma add_slot_free sd b own oth c price :
  c_rep sd b own oth c → slot_clear own oth price →
  (aliased_level ← gets (λ s, getOrdersAtPrice price (mkt_lb s));
   match aliased_level with
   | None => mret false
   | Some _ => l ← on_mkt (level_get aliased_level); mret (negb (price_ l =? price))
   end) b = Ok (false, b).
Proof.
  intros Hr Hc. pose proof (cr_rep _ _ _ _ _ Hr) as HR. rewrite bind_gets. unfold getOrdersAtPrice.
  destruct (price_orders_at_price_ (mkt_lb b) !! slot price) as [i|] eqn:E; [|done].
  rewrite (r_pmap _ _ _ _ _ HR) in E. apply elem_of_list_to_map_2 in E.
  apply list_elem_of_fmap in E as (g & [= Hs ->] & Hg).
  destruct (Hc g Hg (eq_sym Hs)) as [Hown Hp]. apply list_elem_of_split in Hown as (l1 & l2 & ->).
  destruct (rep_mid _ _ _ _ _ _ _ HR) as ((_ & Hpn & _) & _).
  erewrite bind_Ok by (apply on_mkt_Ok; reflexivity). by rewrite with_mkt_id, Hpn, Hp, Z.eqb_refl.
Qed.

Lemma apply_add_spec u b c :
  CRepresents b c → mu_type_ u = MarketUpdateType.ADD → add_ok u c →
  ∃ b', apply_add u b = Ok (true, b') ∧ CRepresents b' (c_update u c).
Proof.
  intros Hrep Ht [Hv Hid Hfresh Hslot Hopp Hroom]. set (sd := mu_side_ u) in *.
  destruct (represents_c_rep sd b c Hrep Hv) as (own & oth & Hr).
  pose proof (cr_rep _ _ _ _ _ Hr) as HR.
  assert (Hclear : slot_clear own oth (mu_price_ u)).
  { intros g Hg E. assert (Hl : c_erase g ∈ c_bids c ++ c_asks c).
    { rewrite (c_rep_levels _ _ _ _ _ Hr). by apply list_elem_of_fmap_2. }
    destruct (Hslot _ Hl E) as [_ Hp]. cbn in Hp. split; [|done].
    apply elem_of_app in Hg as [Hg|Hg]; [done|]. exfalso. apply (Hopp (c_erase g)); [|done].
    rewrite <- (cr_oth _ _ _ _ _ Hr). by apply list_elem_of_fmap_2. }
  assert (Hfr : mu_order_id_ u ∉ okeys (own ++ oth)).
  { rewrite okeys_ids. by rewrite <- (c_rep_orders _ _ _ _ _ Hr). }
  assert (Hlen : Z.of_nat (length (oents (own ++ oth))) < mp_size (order_pool_ (mkt_lb b))).
  { rewrite (cr_orders _ _ _ _ _ Hr). pose proof (c_rep_orders _ _ _ _ _ Hr) as Hp.
    apply Permutation_length in Hp. rewrite length_fmap in Hp. lia. }
  destruct (link_new_order sd (mkt_lb b) own oth (order_of u)) as
    (p & B1 & B2 & own' & Hal & Hadd & Hsz & HR2 & Hrest); [done..| |done|].
  { rewrite (cr_levels _ _ _ _ _ Hr). apply (levels_bounded _ _ (r_slots _ _ _ _ _ HR)).
    intros q. pose proof cfg_levels. apply Z.mod_pos_bound. lia. }
  pose proof (add_slot_free _ _ _ _ _ _ Hr Hclear) as Hfree. rewrite bind_gets in Hfree.
  unfold apply_add. rewrite (proj2 (Z.leb_gt _ _)) by lia. rewrite bind_gets.
  rewrite (bind_Ok _ _ _ _ _ Hfree). cbv beta iota.
  rewrite (bind_Ok _ _ _ _ _ (on_mkt_Ok _ _ _ _ Hal)). cbv beta iota.
  erewrite bind_Ok by (apply on_mkt_Ok; exact Hadd).
  eexists. split; [reflexivity|]. apply (c_rep_represents sd _ own' oth).
  destruct (c_rest_spec sd p (order_of u) own own' eq_refl Hv Hrest) as [Eown Hperm].
  destruct (c_update_add u c Hv Ht) as [E1 E2]. fold sd in E1, E2. destruct Hsz as [Hs1 Hs2].
  split; cbn [mkt_lb with_mkt].
  - done.
  - by rewrite Eown, E1, (cr_own _ _ _ _ _ Hr).
  - by rewrite E2, (cr_oth _ _ _ _ _ Hr).
  - rewrite Hs1. apply Hr.
  - rewrite Hs2. apply Hr.
  - rewrite oents_app, Hperm, <- app_comm_cons, <- oents_app.
    apply Forall_cons. split; [done|]. apply Hr.
Qed.

(** The order of an id, wherever it rests. *)
Lemma getOrder_hit b c oid p :
  CRepresents b c → getOrder oid b = Some p →
  ∃ sd own oth l1 g l2 o1 d o2, c_rep sd b own oth c ∧ own = l1 ++ g :: l2 ∧
    g_orders g = o1 ++ (p, d) :: o2 ∧ mo_order_id_ d = oid.
Proof.
  intros (bids & asks & Hr) Hget. pose proof (cr_rep _ _ _ _ _ Hr) as HR. unfold getOrder in Hget.
  destruct (oid <? ME_MAX_ORDER_IDS); [|done]. rewrite (r_oindex _ _ _ _ _ HR) in Hget.
  apply elem_of_list_to_map_2 in Hget. apply list_elem_of_fmap in Hget as ([q d] & [= -> ->] & He).
  cbn. apply list_elem_of_bind in He as (g & He & Hg).
  assert (∃ sd own oth, c_rep sd b own oth c ∧ g ∈ own) as (sd & own & oth & Hr' & Hg').
  { apply elem_of_app in Hg as [Hg|Hg]; [by exists Side.BUY, bids, asks|].
    apply c_rep_swap in Hr. by exists (opp Side.BUY), asks, bids. }
  apply list_elem_of_split in Hg' as (l1 & l2 & ->). apply list_elem_of_split in He as (o1 & o2 & E).
  by exists sd, (l1 ++ g :: l2), oth, l1, g, l2, o1, d, o2.
Qed.

Lemma getOrder_miss b c oid :
  CRepresents b c → getOrder oid b = None → oid ∉ mo_order_id_ <$> c_orders_of c.
Proof.
  intros (bids & asks & Hr) Hget Hin. pose proof (cr_rep _ _ _ _ _ Hr) as HR.
  rewrite (c_rep_orders _ _ _ _ _ Hr), <- okeys_ids in Hin.
  unfold getOrder in Hget. rewrite (r_oindex _ _ _ _ _ HR) in Hget.
  pose proof Hin as (e & -> & He)%list_elem_of_fmap.
  pose proof (cr_ids _ _ _ _ _ Hr) as Hids. rewrite Forall_forall in Hids.
  specialize (Hids e He). rewrite (proj2 (Z.ltb_lt _ _)) in Hget by apply Hids.
  apply not_elem_of_list_to_map in Hget. apply Hget. unfold okeys in Hin.
  by rewrite <- list_fmap_compose.
Qed.

Lemma c_rep_nonempty sd b own oth c : c_rep sd b own oth c → nonempty_g own ∧ nonempty_g oth.
Proof.
  intros Hr. pose proof (cr_rep _ _ _ _ _ Hr) as HR.
  split; [apply (Forall_impl _ _ _ (r_oown _ _ _ _ _ HR))|apply (Forall_impl _ _ _ (r_ooth _ _ _ _ _ HR))];
    by intros g (? & _).
Qed.

Lemma c_both_levels f c sd : c_levels sd (c_both f c) = f (c_levels sd c).
Proof. unfold c_levels, c_both. by destruct (Side.eqb sd Side.BUY). Qed.

(** An id the book does not hold: the levels are unchanged. *)
Lemma c_rep_miss b c oid :
  CRepresents b c → oid ∉ mo_order_id_ <$> c_orders_of c →
  c_both (c_drop oid) c = c ∧ ∀ q, c_both (c_modify oid q) c = c.
Proof.
  intros (bids & asks & Hr) Hn.
  rewrite (c_rep_orders _ _ _ _ _ Hr), <- okeys_ids, okeys_app, not_elem_of_app in Hn.
  destruct (c_rep_nonempty _ _ _ _ _ Hr) as [Hn1 Hn2]. destruct Hn as [Hb Ha].
  pose proof (cr_own _ _ _ _ _ Hr) as Eb. pose proof (cr_oth _ _ _ _ _ Hr) as Ea.
  assert (Hsides : ∀ f, f (c_erase <$> bids) = c_erase <$> bids →
    f (c_erase <$> asks) = c_erase <$> asks → c_both f c = c).
  { intros f Hfb Hfa. change (c_levels Side.BUY c) with (c_bids c) in Eb.
    change (c_levels (opp Side.BUY) c) with (c_asks c) in Ea. unfold c_both.
    rewrite <- Eb, <- Ea, Hfb, Hfa, Eb, Ea. by destruct c. }
  split; [|intros q]; apply Hsides; by (apply c_drop_miss || apply c_modify_miss).
Qed.

Lemma modify_spec b c oid q :
  CRepresents b c → ∃ b', match getOrder oid b with
    | Some _ => on_mkt (order_mod (getOrder oid b) (set_data (set_mo_qty q)))
    | None => mret tt
    end b = Ok (tt, b') ∧ CRepresents b' (c_both (c_modify oid q) c).
Proof.
  intros Hrep. destruct (getOrder oid b) as [p|] eqn:E.
  2:{ exists b. split; [done|]. by rewrite (proj2 (c_rep_miss b c oid Hrep (getOrder_miss _ _ _ Hrep E))). }
  destruct (getOrder_hit _ _ _ _ Hrep E) as (sd & own & oth & l1 & g & l2 & o1 & d & o2 & Hr & -> & Eg & <-).
  pose proof (cr_rep _ _ _ _ _ Hr) as HR.
  destruct (order_data_spec sd (mkt_lb b) l1 g l2 oth o1 p d o2 (set_mo_qty q) HR Eg)
    as (B & HB & [Hs1 Hs2] & HR'); [done..|].
  exists (with_mkt b B). split; [by apply on_mkt_Ok|].
  pose proof (r_keys _ _ _ _ _ HR) as Hk. rewrite okeys_app in Hk.
  apply NoDup_app in Hk as (Hk & Hdis & _).
  apply (c_rep_represents sd _ (l1 ++ with_orders g (o1 ++ (p, set_mo_qty q d) :: o2) :: l2) oth).
  split; cbn [mkt_lb with_mkt]; rewrite ?c_both_levels, ?Hs1, ?Hs2; try done; try apply Hr.
  - rewrite <- (cr_own _ _ _ _ _ Hr). symmetry. by apply c_modify_hit.
  - rewrite <- (cr_oth _ _ _ _ _ Hr). symmetry. apply c_modify_miss. apply Hdis.
    unfold okeys. apply list_elem_of_fmap. exists (p, d). split; [done|].
    rewrite oents_app, oents_cons, Eg. set_solver.
  - pose proof (cr_ids _ _ _ _ _ Hr) as Hids. revert Hids.
    rewrite !oents_app, !oents_cons, Eg. cbn [g_orders with_orders].
    rewrite !Forall_app, !Forall_cons. done.
Qed.

Lemma cancel_update_spec b c oid :
  CRepresents b c → ∃ b', match getOrder oid b with
    | Some _ => on_mkt (removeOrder (getOrder oid b))
    | None => mret tt
    end b = Ok (tt, b') ∧ CRepresents b' (c_both (c_drop oid) c).
Proof.
  intros Hrep. destruct (getOrder oid b) as [p|] eqn:E.
  2:{ exists b. split; [done|]. by rewrite (proj1 (c_rep_miss b c oid Hrep (getOrder_miss _ _ _ Hrep E))). }
  destruct (getOrder_hit _ _ _ _ Hrep E) as (sd & own & oth & l1 & g & l2 & o1 & d & o2 & Hr & -> & Eg & <-).
  pose proof (cr_rep _ _ _ _ _ Hr) as HR.
  destruct (removeOrder_spec sd (mkt_lb b) l1 g l2 oth o1 p d o2 HR Eg) as (B & HB & [Hs1 Hs2] & HR').
  exists (with_mkt b B). split; [by apply on_mkt_Ok|].
  pose proof (r_keys _ _ _ _ _ HR) as Hk. rewrite okeys_app in Hk.
  apply NoDup_app in Hk as (Hk & Hdis & _). destruct (c_rep_nonempty _ _ _ _ _ Hr) as [Hn1 Hn2].
  eapply c_rep_represents.
  split; cbn [mkt_lb with_mkt]; rewrite ?c_both_levels, ?Hs1, ?Hs2; [exact HR'|..]; try apply Hr.
  - rewrite <- (cr_own _ _ _ _ _ Hr). symmetry. by eapply c_drop_hit.
  - rewrite <- (cr_oth _ _ _ _ _ Hr). symmetry. apply c_drop_miss; [|done]. apply Hdis.
    unfold okeys. apply list_elem_of_fmap. exists (p, d). split; [done|].
    rewrite oents_app, oents_cons, Eg. set_solver.
  - pose proof (cr_ids _ _ _ _ _ Hr) as Hids. revert Hids.
    rewrite !oents_app, !oents_cons, Eg, !Forall_app, Forall_cons.
    intros ((? & (? & _ & ?) & ?) & ?). split; [split; [done|]|done].
    assert (Forall (λ e : Z * MarketOrder, 0 ≤ mo_order_id_ e.2 < ME_MAX_ORDER_IDS) (o1 ++ o2))
      by (by apply Forall_app).
    split; [|done]. destruct (o1 ++ o2); [by constructor|]. rewrite oents_cons.
    cbn [g_orders with_orders]. by apply Forall_app.
Qed.

(** C17: An update of the feed is applied without fault: the client's book
    becomes the abstract book of [c_update], and the cached best bid and
    offer are its top of book (best prices with the summed quantity of the
    level).  An ADD is one the exchange emits ([add_ok]); MODIFY and CANCEL
    of an unknown order leave the book alone. *)
Theorem onMarketUpdate_refines u b c :
  CRepresents b c → bbo_ b = c_bbo c →
  (mu_type_ u = MarketUpdateType.ADD → add_ok u c) →
  ∃ b', onMarketUpdate u b = Ok (tt, b') ∧ CRepresents b' (c_update u c) ∧ bbo_ b' = c_bbo (c_update u c).
Proof.
  intros Hrep Hbbo Hadd.
  assert (Hupd : ∀ (b1 : MarketOrderBook) c1, CRepresents b1 c1 → ∃ b', updateBBO b1 = Ok (tt, b') ∧
    CRepresents b' c1 ∧ bbo_ b' = c_bbo c1).
  { intros b1 c1 H1. eexists. split; [by apply updateBBO_spec|]. split; [|done].
    destruct H1 as (bids & asks & []). by exists bids, asks. }
  unfold onMarketUpdate. destruct (mu_type_ u) eqn:Et.
  - exists b. unfold c_update. by rewrite Et.
  - destruct (clearBook_spec b c Hrep) as (b1 & H1 & Hr1 & _). rewrite (bind_Ok _ _ _ _ _ H1).
    unfold c_update. rewrite Et. by apply Hupd.
  - destruct (apply_add_spec u b c Hrep Et (Hadd eq_refl)) as (b1 & H1 & Hr1).
    rewrite (bind_Ok _ _ _ _ _ H1). by apply Hupd.
  - destruct (modify_spec b c (mu_order_id_ u) (mu_qty_ u) Hrep) as (b1 & H1 & Hr1).
    rewrite bind_gets, (bind_Ok _ _ _ _ _ H1). unfold c_update. rewrite Et. by apply Hupd.
  - destruct (cancel_update_spec b c (mu_order_id_ u) Hrep) as (b1 & H1 & Hr1).
    rewrite bind_gets, (bind_Ok _ _ _ _ _ H1). unfold c_update. rewrite Et. by apply Hupd.
  - unfold c_update. rewrite Et. by apply Hupd.
  - destruct (clearBook_spec b c Hrep) as (b1 & H1 & Hr1 & _). rewrite (bind_Ok _ _ _ _ _ H1).
    unfold c_update. rewrite Et. by apply Hupd.
  - unfold c_update. rewrite Et. by apply Hupd.
  - exists b. unfold c_update. by rewrite Et.
Qed.

(** The client guards an ADD it cannot store: one whose id is past the
    order table, or whose price lands on the slot of a live level of another
    price, is dropped and nothing changes. *)
Theorem onMarketUpdate_drops_add u b c :
  CRepresents b c → mu_type_ u = MarketUpdateType.ADD →
  ME_MAX_ORDER_IDS ≤ mu_order_id_ u ∨
  (∃ l, l ∈ c_bids c ++ c_asks c ∧ priceToIndex (c_price l) = priceToIndex (mu_price_ u) ∧
     c_price l ≠ mu_price_ u) →
  onMarketUpdate u b = Ok (tt, b).
Proof.
  intros (bids & asks & Hr) Ht Hor. pose proof (cr_rep _ _ _ _ _ Hr) as HR.
  unfold onMarketUpdate. rewrite Ht. unfold apply_add.
  case Z.leb_spec; [done|]. intros Hlt. destruct Hor as [?|(l & Hl & Hsl & Hne)]; [lia|].
  rewrite (c_rep_levels _ _ _ _ _ Hr) in Hl. apply list_elem_of_fmap in Hl as (g & -> & Hg).
  cbn in Hsl, Hne. rewrite bind_assoc, bind_gets. unfold getOrdersAtPrice. change slot with priceToIndex.
  rewrite <- Hsl.
  assert (price_orders_at_price_ (mkt_lb b) !! priceToIndex (g_price g) = Some (g_ptr g) ∧
    price_ (pool_get (orders_at_price_pool_ (mkt_lb b)) (g_ptr g)) = g_price g) as [Hlk Hp].
  { apply elem_of_app in Hg as [Hg|Hg]; apply list_elem_of_split in Hg as (l1 & l2 & ->);
      [|apply RepX_swap in HR]; destruct (rep_mid _ _ _ _ _ _ _ HR) as ((_ & Hpn & _) & _);
      (split; [exact (rep_pmap_lookup _ _ _ _ _ _ _ HR)|done]). }
  change slot with priceToIndex in Hlk. rewrite Hlk.
  rewrite bind_assoc. erewrite bind_Ok.
  2:{ erewrite bind_Ok by (apply on_mkt_Ok; reflexivity). rewrite with_mkt_id, Hp.
      rewrite (proj2 (Z.eqb_neq _ _) Hne). reflexivity. }
  done.
Qed.

Lemma MarketOrderBook_new_represents tid :
  CRepresents (MarketOrderBook_new tid) (mkCBook [] []).
Proof.
  exists [], []. split; try done. split; try done; cbn; try (by constructor).
  - apply mp_new_ok. pose proof cfg_levels. lia.
  - apply mp_new_ok. pose proof cfg_order_ids. lia.
Qed.
End apply.
