(* ===== verification/Replication.v ===== *)
(** The market-data feed carries the book: a client that applies the updates
    an exchange book emits, in order, holds the same book (price levels, FIFO
    order, quantities and best bid and offer).

    [view] forgets what the feed does not carry (client and ticker ids).
    [sweep_view], [add_view] and [cancel_view] relate the abstract books; the
    theorems run the pointer code of both sides. *)

From S2P Require Import Prelude Types MemPool LevelBook LevelBookRep LevelBookOps.
From S2P Require Import MEOrder OrderBookSpec OrderBookInv OrderBookProps.
From S2P Require Import MEOrderBook MEOrderBookMatching MEOrderBookRefines MEOrderBookProps.
From S2P Require Import MarketOrderBook MarketOrderBookRefines.

Definition view_order (o : MEOrder) : MarketOrder :=
  mkMarketOrder (market_order_id_ o) (o_side_ o) (o_price_ o) (qty_ o) (priority_ o).
Definition view_level (l : SLevel) : CLevel := mkCLevel (l_price l) (view_order <$> l_orders l).
Definition view (s : SBook) : CBook := mkCBook (view_level <$> s_bids s) (view_level <$> s_asks s).

(** Applying a batch of updates. *)
Definition c_updates `{Config} (us : list MEMarketUpdate) (c : CBook) : CBook :=
  foldl (λ c u, c_update u c) c us.
Definition feed `{Config} (us : list MEMarketUpdate) : M MarketOrderBook unit := for_each onMarketUpdate us.

Definition moids (os : list MEOrder) : list OrderId := market_order_id_ <$> os.

Section view.
Context `{Config}.
Implicit Types (sd : Side.t) (s : SBook) (c : CBook) (o : MEOrder).

Lemma c_updates_app us us' c : c_updates (us ++ us') c = c_updates us' (c_updates us c).
Proof. apply foldl_app. Qed.

Lemma c_both_set f sd (own oth : list CLevel) : c_both f (c_set sd own oth) = c_set sd (f own) (f oth).
Proof. unfold c_both, c_set. by destruct (Side.eqb sd Side.BUY). Qed.

Lemma view_set sd own oth next :
  view (s_set sd own oth next) = c_set sd (view_level <$> own) (view_level <$> oth).
Proof. unfold s_set, c_set. by destruct (Side.eqb sd Side.BUY). Qed.

Lemma view_levels sd s :
  valid_side sd → view s = c_set sd (view_level <$> s_levels sd s) (view_level <$> s_levels (opp sd) s).
Proof. by intros [-> | ->]. Qed.

Lemma view_all (ls : list SLevel) : c_all (view_level <$> ls) = view_order <$> all_orders ls.
Proof.
  unfold c_all, all_orders. induction ls as [|l ls IH]; [done|].
  by rewrite fmap_cons, !bind_cons, fmap_app, IH.
Qed.

Definition keep (p : Price) (os : list MarketOrder) : list CLevel :=
  match os with [] => [] | _ => [mkCLevel p os] end.

(** *** Updates by market order id, on the view *)

(** Dropping by market order id and by client key agree when they name the
    same orders. *)
Lemma filter_view oid k (os : list MEOrder) :
  (∀ o, o ∈ os → market_order_id_ o = oid ↔ order_key o = k) →
  filter (λ x, mo_order_id_ x ≠ oid) (view_order <$> os) = view_order <$> filter (λ o, order_key o ≠ k) os.
Proof.
  induction os as [|o os IH]; intros Hk; [done|]. apply Forall_forall, Forall_cons in Hk as [Ho Hk].
  rewrite fmap_cons. destruct (decide (order_key o = k)) as [E|E].
  - rewrite !filter_cons_False by (cbn; tauto). apply IH, Forall_forall, Hk.
  - rewrite !filter_cons_True by (cbn; tauto). rewrite fmap_cons. f_equal. apply IH, Forall_forall, Hk.
Qed.

Lemma c_drop_view oid k (ls : list SLevel) :
  (∀ o, o ∈ all_orders ls → market_order_id_ o = oid ↔ order_key o = k) →
  c_drop oid (view_level <$> ls) = view_level <$> drop_key k ls.
Proof.
  unfold all_orders. induction ls as [|l ls IH]; intros Hk; [done|].
  rewrite bind_cons in Hk.
  assert (IH' := IH ltac:(intros o Ho; apply Hk; set_solver)). unfold c_drop, drop_key in *.
  rewrite !fmap_cons. cbn [c_orders c_price view_level].
  rewrite (filter_view oid k) by (intros o Ho; apply Hk; set_solver).
  destruct (filter (λ o, order_key o ≠ k) (l_orders l)) as [|o os] eqn:E.
  - rewrite !filter_cons_False by (intros E1; by apply E1). apply IH'.
  - rewrite !filter_cons_True by done. exact (f_equal (cons _) IH').
Qed.

Lemma filter_view_miss oid (os : list MEOrder) :
  oid ∉ moids os → filter (λ x, mo_order_id_ x ≠ oid) (view_order <$> os) = view_order <$> os.
Proof. intros Hn. apply filter_id_miss. by rewrite <- list_fmap_compose. Qed.

Lemma c_drop_none oid (ls : list SLevel) :
  oid ∉ moids (all_orders ls) → nonempty_levels ls → c_drop oid (view_level <$> ls) = view_level <$> ls.
Proof.
  unfold all_orders, moids. induction ls as [|l ls IH]; [done|].
  rewrite bind_cons, fmap_app, not_elem_of_app. intros [Hl Hls] [Hne Hnes]%Forall_cons.
  specialize (IH Hls Hnes). unfold c_drop in *. rewrite !fmap_cons. cbn [c_orders c_price view_level].
  rewrite (filter_view_miss _ _ Hl), filter_cons_True; [by rewrite IH|]. cbn.
  intros E. by apply fmap_nil_inv in E.
Qed.

(** The head order of the head level is dropped or modified; nothing else
    carries its id. *)
Lemma c_drop_keep o p (os : list MEOrder) (ls : list SLevel) :
  market_order_id_ o ∉ moids os → market_order_id_ o ∉ moids (all_orders ls) → nonempty_levels ls →
  c_drop (market_order_id_ o) (keep p (view_order <$> (o :: os)) ++ (view_level <$> ls)) =
    keep p (view_order <$> os) ++ (view_level <$> ls).
Proof.
  intros Hos Hls Hne. rewrite c_drop_app, c_drop_none by done. f_equal.
  assert (E : filter (λ x, mo_order_id_ x ≠ market_order_id_ o) (view_order <$> (o :: os)) = view_order <$> os).
  { rewrite fmap_cons, filter_cons_False by (intros E; by apply E). by apply filter_view_miss. }
  unfold c_drop. change (keep p (view_order <$> (o :: os))) with [mkCLevel p (view_order <$> (o :: os))].
  rewrite list_fmap_singleton. cbn [c_orders c_price]. rewrite E.
  destruct os; [by rewrite filter_cons_False by (intros E1; by apply E1)|by rewrite filter_cons_True].
Qed.

Lemma modify_view_miss oid q (os : list MEOrder) :
  oid ∉ moids os → modify_one oid q <$> (view_order <$> os) = view_order <$> os.
Proof. intros Hn. apply modify_one_miss. by rewrite <- list_fmap_compose. Qed.

Lemma c_modify_none oid q (ls : list SLevel) :
  oid ∉ moids (all_orders ls) → c_modify oid q (view_level <$> ls) = view_level <$> ls.
Proof.
  unfold all_orders, moids. induction ls as [|l ls IH]; [done|].
  rewrite bind_cons, fmap_app, not_elem_of_app. intros [Hl Hls].
  unfold c_modify in *. rewrite !fmap_cons. f_equal; [|by apply IH]. unfold view_level. cbn. f_equal.
  by apply modify_view_miss.
Qed.

Lemma c_modify_keep o q p (os : list MEOrder) (ls : list SLevel) :
  market_order_id_ o ∉ moids os → market_order_id_ o ∉ moids (all_orders ls) →
  c_modify (market_order_id_ o) q (keep p (view_order <$> (o :: os)) ++ (view_level <$> ls)) =
    keep p (view_order <$> (set_qty q o :: os)) ++ (view_level <$> ls).
Proof.
  intros Hos Hls. unfold c_modify. rewrite fmap_app.
  change (c_modify (market_order_id_ o) q (keep p (view_order <$> (o :: os))) ++
    c_modify (market_order_id_ o) q (view_level <$> ls) =
    keep p (view_order <$> (set_qty q o :: os)) ++ (view_level <$> ls)).
  rewrite c_modify_none by done. f_equal. unfold c_modify. cbn. rewrite Z.eqb_refl. do 2 f_equal.
  f_equal. by apply modify_view_miss.
Qed.

(** *** One request *)

Lemma c_update_cancel tid o q sd (own oth : list CLevel) :
  c_update (order_update MarketUpdateType.CANCEL tid o q) (c_set sd own oth) =
    c_set sd (c_drop (market_order_id_ o) own) (c_drop (market_order_id_ o) oth).
Proof. apply c_both_set. Qed.

Lemma c_update_modify tid o q sd (own oth : list CLevel) :
  c_update (order_update MarketUpdateType.MODIFY tid o q) (c_set sd own oth) =
    c_set sd (c_modify (market_order_id_ o) q own) (c_modify (market_order_id_ o) q oth).
Proof. apply c_both_set. Qed.

(** No order of [os] is one of [own]. *)
Definition apart (os : list MEOrder) (own : list SLevel) : Prop :=
  ∀ o, o ∈ os → market_order_id_ o ∉ moids (all_orders own).

Lemma fill_view a sd p (own ls : list SLevel) : nonempty_levels own → nonempty_levels ls →
  ∀ (os : list MEOrder) leaves ev os' lv,
  pos_orders os → 0 ≤ leaves → fill_orders a leaves os = (ev, os', lv) →
  NoDup (moids os) → apart os ls → apart os own →
  c_updates (updates ev) (c_set sd (view_level <$> own) (keep p (view_order <$> os) ++ (view_level <$> ls))) =
    c_set sd (view_level <$> own) (keep p (view_order <$> os') ++ (view_level <$> ls)).
Proof.
  intros Hown Hls os. induction os as [|o os IH]; intros leaves ev os' lv Hp Hl E Hnd Hal Hao.
  - cbn in E. by simplify_eq.
  - apply Forall_cons in Hp as [Hq Hp]. apply NoDup_cons in Hnd as [Hni Hnd].
    change (market_order_id_ o ∉ moids os) in Hni. change (NoDup (moids os)) in Hnd.
    assert (Hol : market_order_id_ o ∉ moids (all_orders ls)) by (apply Hal; left).
    assert (Hoo : market_order_id_ o ∉ moids (all_orders own)) by (apply Hao; left).
    cbn [fill_orders] in E. destruct (Z.leb_spec leaves 0); [by simplify_eq|].
    destruct (Z.leb_spec (qty_ o) leaves) as [Hle|Hgt].
    + destruct (fill_orders a (leaves - qty_ o) os) as [[ev1 os1] lv1] eqn:E1. simplify_eq.
      rewrite updates_app, c_updates_app. unfold fill_events. rewrite Z.min_r by lia.
      rewrite (proj2 (Z.eqb_eq _ 0)) by (cbn; lia).
      change (c_updates (updates ev1) (c_update (order_update MarketUpdateType.CANCEL (ag_ticker a) o (qty_ o))
        (c_set sd (view_level <$> own) (keep p (view_order <$> (o :: os)) ++ (view_level <$> ls))))
        = c_set sd (view_level <$> own) (keep p (view_order <$> os') ++ (view_level <$> ls))).
      rewrite c_update_cancel, c_drop_none, c_drop_keep by done.
      eapply IH; [done| |exact E1|done|intros x Hx; apply Hal; by right|intros x Hx; apply Hao; by right].
      lia.
    + simplify_eq. unfold fill_events. rewrite Z.min_l by lia.
      rewrite (proj2 (Z.eqb_neq _ 0)) by (cbn; lia).
      set (o' := set_qty (qty_ o - leaves) o).
      change (c_update (order_update MarketUpdateType.MODIFY (ag_ticker a) o' (qty_ o'))
        (c_set sd (view_level <$> own) (keep p (view_order <$> (o :: os)) ++ (view_level <$> ls)))
        = c_set sd (view_level <$> own) (keep p (view_order <$> (o' :: os)) ++ (view_level <$> ls))).
      rewrite c_update_modify. change (market_order_id_ o') with (market_order_id_ o).
      by rewrite c_modify_none, c_modify_keep.
Qed.

Lemma keep_level_view l : l_orders l ≠ [] → view_level l = mkCLevel (l_price l) (view_order <$> l_orders l) ∧
  [view_level l] = keep (l_price l) (view_order <$> l_orders l).
Proof. intros Hne. split; [done|]. unfold keep, view_level. by destruct (l_orders l). Qed.

Lemma sweep_view a sd (own : list SLevel) : nonempty_levels own →
  ∀ (ls : list SLevel) leaves ev rst lv,
  pos_levels ls → nonempty_levels ls → 0 ≤ leaves → sweep a leaves ls = (ev, rst, lv) →
  NoDup (moids (all_orders ls)) → apart (all_orders ls) own →
  c_updates (updates ev) (c_set sd (view_level <$> own) (view_level <$> ls)) =
    c_set sd (view_level <$> own) (view_level <$> rst).
Proof.
  intros Hown ls. induction ls as [|l ls IH]; intros leaves ev rst lv Hp Hne Hl E Hnd Hap.
  - cbn in E. by simplify_eq.
  - cbn [sweep] in E. destruct (_ || _); [by simplify_eq|].
    apply Forall_cons in Hp as [Hpl Hp]. apply Forall_cons in Hne as [Hnl Hne].
    unfold all_orders, moids, apart in Hnd, Hap. rewrite bind_cons in Hnd, Hap.
    rewrite fmap_app in Hnd. apply NoDup_app in Hnd as (Hnd1 & Hdis & Hnd2).
    destruct (fill_orders a leaves (l_orders l)) as [[ev1 os'] lv1] eqn:Ef.
    pose proof (fill_orders_spec a _ _ _ _ _ Hpl Hl Ef) as (_ & Hlv & _).
    assert (Hfill := fill_view a sd (l_price l) own ls Hown Hne (l_orders l) leaves ev1 os' lv1 Hpl Hl Ef Hnd1
      ltac:(intros o Ho Hin; apply (Hdis (market_order_id_ o)); [by apply list_elem_of_fmap_2|done])
      ltac:(intros o Ho; apply Hap; set_solver)).
    rewrite <- (proj2 (keep_level_view l Hnl)) in Hfill.
    change ([view_level l] ++ (view_level <$> ls)) with (view_level <$> (l :: ls)) in Hfill.
    destruct os' as [|o' os'].
    + destruct (sweep a lv1 ls) as [[ev2 rst2] lv2] eqn:Es. simplify_eq.
      rewrite updates_app, c_updates_app, Hfill. cbn [fmap list_fmap keep app].
      eapply IH; [done|done| |exact Es|done|intros o Ho; apply Hap; set_solver]. lia.
    + simplify_eq. exact Hfill.
Qed.

Lemma c_rest_view sd o (ls : list SLevel) :
  valid_side sd → o_side_ o = sd → c_rest (view_order o) (view_level <$> ls) = view_level <$> rest sd o ls.
Proof.
  intros Hv Hs. unfold c_rest, rest. cbn [mo_price_ view_order mo_side_].
  assert (Eb : existsb (λ l, c_price l =? o_price_ o) (view_level <$> ls)
             = existsb (λ l, l_price l =? o_price_ o) ls).
  { induction ls as [|l ls IH]; [done|]. cbn. f_equal. exact IH. }
  rewrite Eb. clear Eb. destruct (existsb _ _).
  - rewrite <- !list_fmap_compose. apply list_fmap_ext. intros i l _. cbn.
    unfold c_append, append_level, view_level. cbn. case_match; [|done]. cbn. by rewrite fmap_app.
  - symmetry. apply (insert_where_fmap view_level _ _ (mkSLevel (o_price_ o) [o])).
    intros l. unfold less_aggressive. cbn. rewrite Hs.
    destruct Hv as [-> | ->]; side_simpl; by rewrite ?orb_false_r.
Qed.

(** Distinct resting orders have distinct market order ids. *)
Definition moids_unique s : Prop := NoDup (moids (book_orders s)).

Lemma tail_of_moids os' (os : list MEOrder) : tail_of os' os → moids os' `sublist_of` moids os.
Proof.
  intros (os1 & [->|(o & t & q & -> & -> & Hq)]); unfold moids; rewrite fmap_app; by apply sublist_inserts_l.
Qed.

Lemma remains_moids rst (ls : list SLevel) :
  remains rst ls → moids (all_orders rst) `sublist_of` moids (all_orders ls).
Proof.
  unfold all_orders, moids. induction 1 as [ls|l ls rst _ IH|p os' os ls _ Ht]; [done| |].
  - rewrite bind_cons, fmap_app. by apply sublist_inserts_l.
  - rewrite !bind_cons, !fmap_app. apply sublist_app; [by apply tail_of_moids|done].
Qed.

Lemma moids_lt s o : book_wf s → o ∈ book_orders s → 1 ≤ market_order_id_ o < s_next s.
Proof.
  intros Hw Ho. assert (∃ sd, side_wf sd (s_next s) (s_levels sd s) ∧ o ∈ all_orders (s_levels sd s))
    as (sd & [Hf _] & Hin).
  { apply elem_of_app in Ho as [Ho|Ho]; [exists Side.BUY|exists Side.SELL]; (split; [apply Hw|done]). }
  apply list_elem_of_bind in Hin as (l & Hin & Hl). rewrite Forall_forall in Hf.
  destruct (Hf l Hl) as (_ & _ & Hfo & _). rewrite Forall_forall in Hfo.
  destruct (Hfo o Hin) as (_ & _ & _ & _ & _ & ? & ?). lia.
Qed.

Lemma moids_unique_side sd s :
  valid_side sd → moids_unique s ↔
  NoDup (moids (all_orders (s_levels sd s)) ++ moids (all_orders (s_levels (opp sd) s))).
Proof.
  intros Hv. unfold moids_unique, moids. rewrite (book_orders_perm sd s Hv), fmap_app. done.
Qed.

(** The book after an accepted order, and what the view needs to follow it. *)
Lemma swept_moids a s sd leaves ev rst lv :
  book_wf s → moids_unique s → valid_side sd → 0 ≤ leaves →
  sweep a leaves (s_levels (opp sd) s) = (ev, rst, lv) →
  NoDup (moids (all_orders (s_levels sd s)) ++ moids (all_orders rst)) ∧
  ∀ o, o ∈ all_orders (s_levels sd s) ∨ o ∈ all_orders rst → market_order_id_ o ≠ s_next s.
Proof.
  intros Hw Hu Hv Hl Es. apply (moids_unique_side sd s Hv) in Hu.
  destruct (proj1 (book_wf_side sd s Hv) Hw) as (_ & _ & Hoth & _).
  destruct (sweep_spec a _ _ _ _ _ (side_wf_pos _ _ _ Hoth) Hl Es) as (Hrem & _).
  pose proof (remains_moids _ _ Hrem) as Hsub. split.
  - eapply sublist_NoDup; [exact Hu|]. by apply sublist_app.
  - intros o Ho. assert (market_order_id_ o ∈ moids (book_orders s)) as (x & -> & Hx)%list_elem_of_fmap.
    { unfold moids. rewrite (book_orders_perm sd s Hv), fmap_app, elem_of_app.
      destruct Ho as [Ho|Ho]; [left; by apply list_elem_of_fmap_2|right].
      eapply sublist_subseteq; [exact Hsub|]. by apply list_elem_of_fmap_2. }
    pose proof (moids_lt s x Hw Hx). lia.
Qed.

Lemma s_add_moids cid oid tid sd price qty s :
  book_wf s → moids_unique s → valid_side sd → 0 ≤ qty →
  moids_unique (s_add cid oid tid sd price qty s).2.
Proof.
  intros Hw Hu Hv Hq. destruct (s_accepts cid oid price s) eqn:Ea.
  2:{ unfold s_add. by rewrite Ea. }
  destruct (sweep (aggressor cid oid tid sd price s) qty (s_levels (opp sd) s)) as [[ev rst] lv] eqn:Es.
  destruct (s_add_accepted cid oid tid sd price qty s ev rst lv Ea Es) as (o & Eo & ->). cbn [snd].
  destruct (swept_moids _ s sd qty ev rst lv Hw Hu Hv Hq Es) as [Hnd Hfr].
  destruct (proj1 (book_wf_side sd s Hv) Hw) as (_ & Hown & _).
  apply (moids_unique_side sd); [done|].
  destruct (s_levels_set sd (if 0 <? lv then rest sd o (s_levels sd s) else s_levels sd s) rst
    (u64 (s_next s + 1)) Hv) as (-> & -> & _).
  destruct (0 <? lv); [|done]. unfold moids at 1. rewrite (rest_orders_perm sd o _ _ Hown), fmap_cons.
  change (NoDup (market_order_id_ o :: (moids (all_orders (s_levels sd s)) ++ moids (all_orders rst)))).
  apply NoDup_cons. split; [|done]. subst o. cbn. rewrite elem_of_app.
  intros [(x & E & Hx)%list_elem_of_fmap|(x & E & Hx)%list_elem_of_fmap];
    eapply Hfr; [left; exact Hx|done|right; exact Hx|done].
Qed.

Lemma s_cancel_moids cid oid tid s : moids_unique s → moids_unique (s_cancel cid oid tid s).2.
Proof.
  intros Hu. unfold s_cancel. destruct (if id_ok cid oid then _ else None) as [[i o]|]; [|done].
  cbn [snd]. eapply sublist_NoDup; [exact Hu|]. apply (fmap_sublist market_order_id_).
  unfold book_orders. cbn. apply sublist_app; apply drop_key_orders.
Qed.
(** *** The updates of one request *)

(** An update on resting orders or a trade, of ticker [tid]. *)
Definition fill_update tid (u : MEMarketUpdate) : Prop :=
  mu_ticker_id_ u = tid ∧
  (mu_type_ u = MarketUpdateType.TRADE ∨ mu_type_ u = MarketUpdateType.MODIFY ∨ mu_type_ u = MarketUpdateType.CANCEL).

Lemma fill_events_fill a o leaves : Forall (fill_update (ag_ticker a)) (updates (fill_events a o leaves)).
Proof.
  unfold fill_events. cbn. constructor; [by split; [|left]|]. constructor; [|constructor].
  case_match; (split; [done|right]); [by right|by left].
Qed.

Lemma fill_orders_fill a (os : list MEOrder) : ∀ leaves,
  Forall (fill_update (ag_ticker a)) (updates (fill_orders a leaves os).1.1).
Proof.
  induction os as [|o os IH]; intros leaves; [constructor|]. cbn [fill_orders].
  case_match; [constructor|]. case_match; [|apply fill_events_fill].
  specialize (IH (leaves - qty_ o)). destruct (fill_orders _ _ os) as [[ev r] lv].
  cbn [fst] in *. rewrite updates_app. apply Forall_app. split; [apply fill_events_fill|done].
Qed.

Lemma sweep_fill a (ls : list SLevel) : ∀ leaves,
  Forall (fill_update (ag_ticker a)) (updates (sweep a leaves ls).1.1).
Proof.
  induction ls as [|l ls IH]; intros leaves; [constructor|]. cbn [sweep].
  case_match; [constructor|]. pose proof (fill_orders_fill a (l_orders l) leaves) as Hf.
  destruct (fill_orders _ _ _) as [[ev os] lv]. destruct os as [|o os]; [|done].
  specialize (IH lv). destruct (sweep a lv ls) as [[ev' r] lv']. cbn [fst] in *.
  rewrite updates_app. by apply Forall_app.
Qed.

(** The view after the fills, and after the rest has been added. *)
Lemma swept_view a s sd leaves ev rst lv :
  book_wf s → moids_unique s → valid_side sd → 0 ≤ leaves →
  sweep a leaves (s_levels (opp sd) s) = (ev, rst, lv) →
  c_updates (updates ev) (view s) = c_set sd (view_level <$> s_levels sd s) (view_level <$> rst).
Proof.
  intros Hw Hu Hv Hl Es. destruct (proj1 (book_wf_side sd s Hv) Hw) as (_ & Hown & Hoth & _).
  apply (moids_unique_side sd s Hv) in Hu. apply NoDup_app in Hu as (Hu1 & Hdis & Hu2).
  rewrite (view_levels sd s Hv).
  eapply sweep_view; [by eapply side_wf_nonempty|by eapply side_wf_pos|by eapply side_wf_nonempty|exact Hl|
    exact Es|exact Hu2|]. intros x Hx Hin. apply (Hdis (market_order_id_ x)); [done|].
  by apply list_elem_of_fmap_2.
Qed.

Lemma rested_view tid o sd s rst next :
  valid_side sd → o_side_ o = sd →
  c_update (order_update MarketUpdateType.ADD tid o (qty_ o))
    (c_set sd (view_level <$> s_levels sd s) (view_level <$> rst)) =
  view (s_set sd (rest sd o (s_levels sd s)) rst next).
Proof.
  intros Hv Hso. rewrite view_set, <- (c_rest_view sd o _ Hv Hso).
  unfold c_update. cbn [mu_type_ order_update mu_side_ mu_order_id_ mu_price_ mu_qty_ mu_priority_].
  unfold view_order at 1. rewrite Hso. clear -Hv. destruct Hv as [-> | ->]; reflexivity.
Qed.

Lemma moid_key_agree s o x :
  book_wf s → moids_unique s → o ∈ book_orders s → x ∈ book_orders s →
  market_order_id_ x = market_order_id_ o ↔ order_key x = order_key o.
Proof.
  intros Hw Hu Ho Hx. split; intros E; f_equal; by eapply NoDup_fmap_elem_inj; try exact E; try apply Hw.
Qed.

Lemma canceled_view tid o s :
  book_wf s → moids_unique s → o ∈ book_orders s →
  c_update (order_update MarketUpdateType.CANCEL tid o (qty_ o)) (view s) =
    view (mkSBook (drop_key (order_key o) (s_bids s)) (drop_key (order_key o) (s_asks s)) (s_next s)).
Proof.
  intros Hw Hu Ho. unfold view at 2. cbn [s_bids s_asks].
  rewrite <- !(c_drop_view (market_order_id_ o)); [done|..];
    intros x Hx; apply (moid_key_agree s); try done; (apply elem_of_app; first [by left|by right]).
Qed.
End view.

Section replicate.
Context `{Cfg : Config, !ConfigOk Cfg}.
Implicit Types (sd : Side.t) (s : SBook) (c : CBook) (o : MEOrder) (u : MEMarketUpdate).
Implicit Types (m : MarketOrderBook).
Local Set Default Proof Using "All".

(** Client and exchange agree: [m] holds the view of [s]. *)
Definition mirrors m s : Prop := CRepresents m (view s) ∧ bbo_ m = c_bbo (view s).
Definition holds m c : Prop := CRepresents m c ∧ bbo_ m = c_bbo c.

Lemma feed_fills tid us : ∀ m c, holds m c → Forall (fill_update tid) us →
  ∃ m', feed us m = Ok (tt, m') ∧ holds m' (c_updates us c).
Proof.
  induction us as [|u us IH]; intros m c [Hr Hb] Hf; [by exists m|].
  apply Forall_cons in Hf as [Hu Hf].
  destruct (onMarketUpdate_refines u m c Hr Hb) as (m1 & H1 & Hr1 & Hb1).
  { intros E. destruct Hu as (_ & [Hu|[Hu|Hu]]); congruence. }
  destruct (IH m1 (c_update u c)) as (m' & H' & Hh); [done..|].
  exists m'. split; [|done]. unfold feed in *. cbn. by rewrite (bind_Ok _ _ _ _ _ H1).
Qed.

(** The rest of an accepted order is an ADD the client can store. *)
Lemma rest_add_ok a o lv s sd qty ev rst :
  book_wf s → moids_unique s → valid_side sd → 0 ≤ qty → ag_side a = sd →
  price_collides (ag_price a) s = false → s_next s < ME_MAX_ORDER_IDS →
  sweep a qty (s_levels (opp sd) s) = (ev, rst, lv) → 0 < lv →
  o_side_ o = sd → o_price_ o = ag_price a → market_order_id_ o = s_next s →
  Z.of_nat (length (all_orders (s_levels sd s) ++ all_orders rst)) < ME_MAX_ORDER_IDS →
  add_ok (order_update MarketUpdateType.ADD (ticker_id_ o) o lv)
    (c_set sd (view_level <$> s_levels sd s) (view_level <$> rst)).
Proof.
  intros Hw Hu Hv Hq Ha Hcol Hn Es Hlv Hsd Hpr Hid Hroom.
  destruct (swept_moids _ s sd qty ev rst lv Hw Hu Hv Hq Es) as [_ Hfr].
  destruct (proj1 (book_wf_side sd s Hv) Hw) as (_ & _ & Hoth & _).
  destruct (sweep_spec a _ _ _ _ _ (side_wf_pos _ _ _ Hoth) Hq Es) as (Hrem & _).
  set (own := s_levels sd s) in *.
  destruct (c_levels_set sd (view_level <$> own) (view_level <$> rst) Hv) as [E1 E2].
  assert (Eperm : c_bids (c_set sd (view_level <$> own) (view_level <$> rst)) ++
                  c_asks (c_set sd (view_level <$> own) (view_level <$> rst)) ≡ₚ
                  (view_level <$> own) ++ (view_level <$> rst)).
  { destruct Hv as [-> | ->]; [done|apply Permutation_app_comm]. }
  assert (Eord : c_orders_of (c_set sd (view_level <$> own) (view_level <$> rst)) ≡ₚ
                 view_order <$> (all_orders own ++ all_orders rst)).
  { rewrite fmap_app, <- !view_all. destruct Hv as [-> | ->]; [done|apply Permutation_app_comm]. }
  assert (Hprice : ∀ l, l ∈ own ++ rst → priceToIndex (l_price l) = priceToIndex (ag_price a) →
            l_price l = ag_price a).
  { intros l Hl E. assert (∃ l', l' ∈ s_bids s ++ s_asks s ∧ l_price l' = l_price l) as (l' & Hl' & El).
    { setoid_rewrite (s_levels_perm sd s Hv). apply elem_of_app in Hl as [Hl|Hl].
      - exists l. rewrite elem_of_app. split; [by left|done].
      - destruct (remains_price_elem _ _ _ Hrem Hl) as (l' & ? & ?). exists l'.
        rewrite elem_of_app. split; [by right|done]. }
    rewrite <- El in *. by eapply price_collides_false. }
  assert (Hcross : ∀ l, l ∈ rst → l_price l ≠ ag_price a).
  { intros l Hl E. subst sd. pose proof (sweep_no_cross _ _ _ _ _ _ _ Hv Hoth Hq Es Hlv l Hl) as Hnc.
    unfold no_cross in Hnc. rewrite E, Z.ltb_irrefl in Hnc. by destruct (Side.eqb _ _). }
  split; cbn [order_update mu_side_ mu_order_id_ mu_price_]; rewrite ?Hsd, ?Hpr, ?Hid, ?E1, ?E2.
  - done.
  - pose proof (wf_next s Hw). lia.
  - rewrite Eord, <- list_fmap_compose. intros (x & E & Hx)%list_elem_of_fmap. apply elem_of_app in Hx.
    by apply (Hfr x Hx).
  - intros l Hl. rewrite Eperm, <- fmap_app in Hl. apply list_elem_of_fmap in Hl as (k & -> & Hk).
    cbn. intros E. specialize (Hprice k Hk E). split; [|done].
    apply elem_of_app in Hk as [Hk|Hk]; [by apply list_elem_of_fmap_2|]. by destruct (Hcross k Hk).
  - intros l (k & -> & Hk)%list_elem_of_fmap. by apply Hcross.
  - by rewrite Eord, length_fmap.
Qed.

(** An accepted or rejected order. *)
Lemma add_replicates m s sd cid oid tid price qty :
  mirrors m s → book_wf s → moids_unique s → valid_side sd → is_u32 qty →
  s_next s < ME_MAX_ORDER_IDS →
  let r := s_add cid oid tid sd price qty s in
  Z.of_nat (length (book_orders r.2)) ≤ ME_MAX_ORDER_IDS →
  ∃ m', feed (updates r.1) m = Ok (tt, m') ∧ mirrors m' r.2.
Proof.
  intros Hm Hw Hu Hv Hq Hn r Hcap. subst r. destruct (s_accepts cid oid price s) eqn:Ea.
  2:{ unfold s_add. rewrite Ea. by exists m. }
  destruct (sweep (aggressor cid oid tid sd price s) qty (s_levels (opp sd) s)) as [[ev rst] lv] eqn:Es.
  destruct (s_add_accepted cid oid tid sd price qty s ev rst lv Ea Es) as (o & Eo & E).
  rewrite E in Hcap |- *. clear E. cbn [fst snd] in *.
  destruct (proj1 (book_wf_side sd s Hv) Hw) as (_ & Hown & Hoth & _).
  pose proof (swept_view _ s sd qty ev rst lv Hw Hu Hv (proj1 Hq) Es) as Hsweep.
  destruct (feed_fills tid (updates ev) m (view s) Hm) as (m1 & H1 & Hh1).
  { pose proof (sweep_fill (aggressor cid oid tid sd price s) (s_levels (opp sd) s) qty) as Hna.
    by rewrite Es in Hna. }
  rewrite Hsweep in Hh1.
  change (Resp (accepted cid oid tid sd price qty (s_next s)) :: ev ++ _) with
    ([Resp (accepted cid oid tid sd price qty (s_next s))] ++ ev ++
      (if 0 <? lv then [Upd (order_update MarketUpdateType.ADD tid o lv)] else [])).
  rewrite !updates_app. change (updates [Resp _]) with (@nil MEMarketUpdate). rewrite app_nil_l.
  destruct (Z.ltb_spec 0 lv) as [Hlv|Hlv].
  2:{ cbn. rewrite app_nil_r. exists m1. split; [done|]. unfold mirrors. by rewrite view_set. }
  assert (Hok : add_ok (order_update MarketUpdateType.ADD tid o lv)
    (c_set sd (view_level <$> s_levels sd s) (view_level <$> rst))).
  { assert (tid = ticker_id_ o) as Et by (by subst o). rewrite Et at 1.
    unfold s_accepts in Ea. rewrite !andb_true_iff, !negb_true_iff in Ea.
    eapply (rest_add_ok (aggressor cid oid tid sd price s)); [done|done|done|apply Hq|reflexivity|apply Ea|done|exact Es|done|(by subst o)..|].
    rewrite (book_orders_perm sd) in Hcap by done.
    destruct (s_levels_set sd (rest sd o (s_levels sd s)) rst (u64 (s_next s + 1)) Hv) as (E1 & E2 & _).
    rewrite E1, E2, length_app, (rest_orders_perm sd o _ _ Hown) in Hcap. cbn in Hcap.
    rewrite length_app. lia. }
  destruct Hh1 as [Hr1 Hb1].
  destruct (onMarketUpdate_refines (order_update MarketUpdateType.ADD tid o lv) m1 _ Hr1 Hb1)
    as (m2 & H2 & Hr2 & Hb2); [done|].
  assert (Eview : c_update (order_update MarketUpdateType.ADD tid o lv)
    (c_set sd (view_level <$> s_levels sd s) (view_level <$> rst)) =
    view (s_set sd (rest sd o (s_levels sd s)) rst (u64 (s_next s + 1)))).
  { assert (Hso : o_side_ o = sd) by (by subst o). assert (Hqo : qty_ o = lv) by (by subst o).
    rewrite <- Hqo. by apply rested_view. }
  rewrite Eview in Hr2, Hb2. exists m2. split; [|done].
  unfold feed in *. rewrite (for_each_app _ _ _ _ _ H1). cbn. by rewrite (bind_Ok _ _ _ _ _ H2).
Qed.

Lemma cancel_replicates m s cid oid tid :
  mirrors m s → book_wf s → moids_unique s →
  let r := s_cancel cid oid tid s in ∃ m', feed (updates r.1) m = Ok (tt, m') ∧ mirrors m' r.2.
Proof.
  intros [Hr Hb] Hw Hu r. subst r. unfold s_cancel.
  destruct (if id_ok cid oid then list_find _ _ else None) as [[i o]|] eqn:Ef; [|by exists m].
  destruct (id_ok cid oid); [|done]. apply list_find_Some in Ef as (Ho & Hk & _).
  apply list_elem_of_lookup_2 in Ho. cbn [fst snd].
  change (updates [Upd ?u; Resp ?x]) with [u].
  destruct (onMarketUpdate_refines (order_update MarketUpdateType.CANCEL tid o (qty_ o)) m _ Hr Hb)
    as (m' & H' & Hr' & Hb'); [done|].
  pose proof (canceled_view tid o s Hw Hu Ho) as E. rewrite Hk in E.
  rewrite E in Hr', Hb'. exists m'. split; [|done]. unfold feed. cbn. by rewrite (bind_Ok _ _ _ _ _ H').
Qed.
End replicate.

(** ** A session of one book *)

Section session.
Context `{Cfg : Config, !ConfigOk Cfg}.
Implicit Types (b : MEOrderBook) (m : MarketOrderBook) (s : SBook) (r : request).
Local Set Default Proof Using "All".

(** Exchange and client in step after at most [n] requests. *)
Record in_step (n : nat) b m s : Prop := {
  is_sess : sess_ok n b s;
  is_moids : moids_unique s;
  is_mirror : mirrors m s;
}.

Lemma perform_in_step n r b m s :
  in_step n b m s → request_valid r → Z.of_nat n + 1 < ME_MAX_ORDER_IDS →
  ∃ b' m', perform r b = Ok (tt, b') ∧ matching_engine_ b' = matching_engine_ b ++ (s_perform r s).1 ∧
    feed (updates (s_perform r s).1) m = Ok (tt, m') ∧ in_step (S n) b' m' (s_perform r s).2.
Proof.
  intros [Hs Hu Hm] Hv Hlt. destruct (perform_ok n r b s Hs Hv Hlt) as (b' & Hrun & Hev & Hs').
  pose proof Hs as [_ Hw Hn Hsz]. pose proof cfg_order_ids. pose proof (wf_next s Hw).
  destruct r as [cid oid tid sd price qty|cid oid tid]; cbn [perform s_perform] in *.
  - destruct Hv as (Hv & Hc & Ho & Hp & Hq).
    pose proof (s_add_size cid oid tid sd price qty s Hw Hv (proj1 Hq)).
    destruct (add_replicates m s sd cid oid tid price qty Hm Hw Hu Hv Hq) as (m' & Hfeed & Hm'); [lia|lia|].
    exists b', m'. split_and!; [done..|]. split; [done| |done]. apply s_add_moids; try done. apply Hq.
  - destruct (cancel_replicates m s cid oid tid Hm Hw Hu) as (m' & Hfeed & Hm').
    exists b', m'. split_and!; [done..|]. split; [done| |done]. by apply s_cancel_moids.
Qed.

Lemma session_in_step reqs : ∀ n b m s,
  in_step n b m s → Forall request_valid reqs → Z.of_nat (n + length reqs) < ME_MAX_ORDER_IDS →
  ∃ b' m', for_each perform reqs b = Ok (tt, b') ∧
    matching_engine_ b' = matching_engine_ b ++ (s_session reqs s).1 ∧
    feed (updates (s_session reqs s).1) m = Ok (tt, m') ∧
    in_step (n + length reqs) b' m' (s_session reqs s).2.
Proof.
  induction reqs as [|r reqs IH]; intros n b m s Hi Hf Hlt.
  - exists b, m. rewrite Nat.add_0_r. cbn. by rewrite app_nil_r.
  - apply Forall_cons in Hf as [Hv Hf]. cbn [length] in Hlt.
    destruct (perform_in_step n r b m s Hi Hv) as (b1 & m1 & H1 & He1 & Hf1 & Hi1); [lia|].
    cbn [s_session for_each length]. destruct (s_perform r s) as [ev s1]. cbn [fst snd] in *.
    destruct (IH (S n) b1 m1 s1 Hi1 Hf) as (b2 & m2 & H2 & He2 & Hf2 & Hi2); [lia|].
    destruct (s_session reqs s1) as [ev' s2]. cbn [fst snd] in *.
    exists b2, m2. split_and!.
    + by rewrite (bind_Ok _ _ _ _ _ H1).
    + by rewrite He2, He1, (assoc (++)).
    + rewrite updates_app. unfold feed in *. by rewrite (for_each_app _ _ _ _ _ Hf1).
    + by rewrite Nat.add_succ_r.
Qed.

(** C3: the feed carries the book.  Run any session of fewer than
    [ME_MAX_ORDER_IDS] valid requests through an exchange book, and apply the
    market updates it sent, in order, to a client's book: neither side faults,
    the exchange book is the reference auction's, and the client holds the same
    levels, orders and quantities in the same priority, with the best bid and
    offer of that book. *)
Theorem feed_replicates_book tid reqs :
  Forall request_valid reqs → Z.of_nat (length reqs) < ME_MAX_ORDER_IDS →
  let s := (s_session reqs (mkSBook [] [] 1)).2 in
  ∃ b m, for_each perform reqs (MEOrderBook_new tid) = Ok (tt, b) ∧ Represents b s ∧
    feed (updates (matching_engine_ b)) (MarketOrderBook_new tid) = Ok (tt, m) ∧
    CRepresents m (view s) ∧ getBBO m = c_bbo (view s).
Proof.
  intros Hf Hlt.
  destruct (session_in_step reqs 0 (MEOrderBook_new tid) (MarketOrderBook_new tid) (mkSBook [] [] 1))
    as (b & m & H1 & He & Hfd & Hi); [|done|done|].
  - split; [apply MEOrderBook_new_sess_ok|constructor|].
    split; [apply MarketOrderBook_new_represents|done].
  - exists b, m. destruct Hi as [[Hr _ _ _] _ [Hm Hb]]. rewrite He. split_and!; try done.
Qed.
End session.
