(* ===== verification/TradingCore.v ===== *)
(** TestMarketOrderBook (bindings/python/trading_core.cpp): the harness through
    which the Python tests drive the client's order book.

    The harness is its book; the members [on_add] ... [on_clear] build one
    market update each and hand it to [onMarketUpdate], the getters reflect the
    best bid and offer and walk the circular lists of the levels.
    [harness_mirrors_exchange] compares it with the exchange's side. *)

From S2P Require Import Prelude Types MemPool CircularList LevelBook LevelBookRep LevelBookOps MEOrder.
From S2P Require Import OrderBookSpec OrderBookInv OrderBookProps MEOrderBook MEOrderBookMatching MEOrderBookRefines MEOrderBookProps.
From S2P Require Import MatchingEngine MatchingEngineRefines EngineTyped MarketOrderBook MarketOrderBookRefines Replication HarnessLevels ExchangeCore ExchangeCoreRefines.

Section TestMarketOrderBook.
Context `{Cfg : Config}.
Local Abbreviation MT := (M MarketOrderBook).

Definition TestMarketOrderBook_new (ticker_id : Z) : MarketOrderBook := MarketOrderBook_new ticker_id.

(** *** Feeding updates *)

Definition bad_mkt_side (side : string) : string :=
  "Invalid side '" +:+ side +:+ "' -- must be BUY or SELL".

(** Hand the update for the parsed side to the book. *)
Definition with_side (side : string) (u : Side.t → MEMarketUpdate) : MT (PyResult unit) :=
  match parse_side side with
  | None => mret (Raised (bad_mkt_side side))
  | Some sd => onMarketUpdate (u sd);; mret (Returned tt)
  end.

Definition on_add (side : string) (price qty order_id priority : Z) : MT (PyResult unit) :=
  with_side side (λ sd, mkMEMarketUpdate MarketUpdateType.ADD 0 sd price qty order_id priority).
Definition on_modify (side : string) (price new_qty order_id : Z) : MT (PyResult unit) :=
  with_side side (λ sd, mkMEMarketUpdate MarketUpdateType.MODIFY 0 sd price new_qty order_id Priority_INVALID).
Definition on_cancel (side : string) (price order_id : Z) : MT (PyResult unit) :=
  with_side side (λ sd, mkMEMarketUpdate MarketUpdateType.CANCEL 0 sd price Qty_INVALID order_id Priority_INVALID).
Definition on_trade (side : string) (price qty : Z) : MT (PyResult unit) :=
  with_side side (λ sd, mkMEMarketUpdate MarketUpdateType.TRADE 0 sd price qty OrderId_INVALID Priority_INVALID).
Definition on_clear : MT (PyResult unit) :=
  onMarketUpdate (mkMEMarketUpdate MarketUpdateType.CLEAR TickerId_INVALID Side.INVALID Price_INVALID
    Qty_INVALID OrderId_INVALID Priority_INVALID);;
  mret (Returned tt).

(** *** Inspection *)

(** The price of the best bid or offer, [None] when it is not valid. *)
Definition price_value (p : Price) : PyValue := if p =? Price_INVALID then PyNone else PyInt p.

Definition bbo_dict (b : BBO) : PyDict :=
  [("bid_price", price_value (bid_price_ b)); ("ask_price", price_value (ask_price_ b));
   ("bid_qty", PyInt (bid_qty_ b)); ("ask_qty", PyInt (ask_qty_ b))]%string.
Definition get_bbo : MT PyDict := b ← gets getBBO; mret (bbo_dict b).

Definition level_dict (l : PriceLevel) : PyDict :=
  [("price", PyInt (pl_price l)); ("side", PyStr (pl_side l));
   ("total_qty", PyInt (pl_total_qty l)); ("order_count", PyInt (pl_order_count l))]%string.

(** [do { ...; cur = cur->next_entry_; } while (cur && cur != head)] *)
Fixpoint walk_levels_py (fuel : nat) (head cur : option Z) : M MLB (list PyDict) :=
  l ← level_get cur;
  p ← tally_level mo_qty_ l;
  if bool_decide (next_entry_ l = None) || bool_decide (next_entry_ l = head) then mret [level_dict p]
  else match fuel with
       | O => fail Spin
       | S fuel => ps ← walk_levels_py fuel head (next_entry_ l); mret (level_dict p :: ps)
       end.

Definition walk_side (head : option Z) : M MLB (list PyDict) :=
  match head with
  | None => mret []
  | Some _ =>
      fuel ← gets (λ b, size (price_orders_at_price_ b));
      walk_levels_py fuel head head
  end.

Definition test_bid_levels : MT (list PyDict) :=
  head ← gets (λ s, bids_by_price_ (mkt_lb s)); on_mkt (walk_side head).
Definition test_ask_levels : MT (list PyDict) :=
  head ← gets (λ s, asks_by_price_ (mkt_lb s)); on_mkt (walk_side head).

Definition has_order (order_id : Z) : MT bool :=
  order ← gets (getOrder order_id); mret (bool_decide (order ≠ None)).

Definition TestMarketOrderBook_repr : string := "TestMarketOrderBook()".
End TestMarketOrderBook.

(** ** What the getters show *)

Section shows.
Context `{Cfg : Config, !ConfigOk Cfg}.
Implicit Types (b : MarketOrderBook) (B : MLB) (sd : Side.t) (own oth : list CGL) (g : CGL) (c : CBook).
Local Set Default Proof Using "All".

Definition c_shown (sd : Side.t) (l : CLevel) : PyDict :=
  level_dict (shown_level mo_qty_ sd (c_price l) (c_orders l)).

(** The walk from [g], the levels [done_] behind it. *)
Lemma walk_levels_py_spec sd B own oth first : RepX sd [] B own oth → ∀ ls done_ g fuel,
  own = done_ ++ g :: ls → g_ptr <$> head own = Some first →
  chain (lnx (orders_at_price_pool_ B)) (lpv (orders_at_price_pool_ B)) (g_ptr g) (lptrs ls) first →
  first ∉ lptrs ls → (length ls ≤ fuel)%nat →
  walk_levels_py fuel (Some first) (Some (g_ptr g)) B = Ok (c_shown sd ∘ c_erase <$> g :: ls, B).
Proof.
  intros Hr. induction ls as [|n ls IH]; intros done_ g fuel Ho Hh Hc Hn Hf.
  - cbn in Hc. destruct Hc as [Hnx _]. unfold lnx in Hnx.
    destruct fuel; cbn [walk_levels_py]; unfold level_get; rewrite bind_gets;
      rewrite (bind_Ok _ _ _ _ _ (tally_level_spec mo_qty_ sd B own oth done_ g [] Hr Ho));
      rewrite Hnx, (bool_decide_true (Some first = Some first)), orb_true_r by done; done.
  - unfold lptrs in Hc, Hn. cbn [fmap list_fmap chain] in Hc, Hn. destruct Hc as [[Hnx _] Hc].
    unfold lnx in Hnx. apply not_elem_of_cons in Hn as [Hne Hn]. cbn in Hf.
    destruct fuel as [|fuel]; [lia|]. cbn [walk_levels_py]. unfold level_get. rewrite bind_gets.
    rewrite (bind_Ok _ _ _ _ _ (tally_level_spec mo_qty_ sd B own oth done_ g (n :: ls) Hr Ho)).
    rewrite Hnx, !bool_decide_false by congruence. cbn [orb].
    erewrite bind_Ok; [reflexivity|]. apply (IH (done_ ++ [g]) n); try done; [|lia].
    by rewrite Ho, <- app_assoc.
Qed.

Lemma walk_side_spec sd B own oth :
  RepX sd [] B own oth → walk_side (head_ref sd B) B = Ok (c_shown sd ∘ c_erase <$> own, B).
Proof.
  intros Hr. destruct (r_own _ _ _ _ _ Hr) as (Hh & Hc & _). rewrite Hh.
  destruct own as [|g own]; [done|]. change (head (g_ptr <$> g :: own)) with (Some (g_ptr g)).
  unfold walk_side. rewrite bind_gets.
  pose proof (po_nodup _ _ (r_lpool _ _ _ _ _ Hr)) as Hnd. unfold lptrs in Hnd. cbn in Hnd.
  rewrite fmap_app in Hnd. apply NoDup_cons in Hnd as [Hni _]. rewrite not_elem_of_app in Hni.
  pose proof (rep_levels_le _ _ _ _ _ Hr) as Hsz. cbn in Hsz. rewrite length_app in Hsz.
  apply (walk_levels_py_spec sd B (g :: own) oth (g_ptr g) Hr own [] g); try done; [apply Hni|lia].
Qed.

Lemma test_levels_spec b c :
  CRepresents b c →
  test_bid_levels b = Ok (c_shown Side.BUY <$> c_bids c, b) ∧
  test_ask_levels b = Ok (c_shown Side.SELL <$> c_asks c, b).
Proof.
  intros (bids & asks & Hr). pose proof (cr_rep _ _ _ _ _ Hr) as HR.
  unfold test_bid_levels, test_ask_levels. rewrite !bind_gets.
  change (bids_by_price_ (mkt_lb b)) with (head_ref Side.BUY (mkt_lb b)).
  change (asks_by_price_ (mkt_lb b)) with (head_ref (opp Side.BUY) (mkt_lb b)). split.
  - rewrite (on_mkt_Ok _ _ _ _ (walk_side_spec _ _ _ _ HR)), with_mkt_id, list_fmap_compose.
    by rewrite (cr_own _ _ _ _ _ Hr).
  - rewrite (on_mkt_Ok _ _ _ _ (walk_side_spec _ _ _ _ (RepX_swap _ _ _ _ _ HR))), with_mkt_id, list_fmap_compose.
    by rewrite (cr_oth _ _ _ _ _ Hr).
Qed.

Lemma has_order_spec b c oid :
  CRepresents b c →
  has_order oid b = Ok (bool_decide (oid ∈ mo_order_id_ <$> c_orders_of c), b).
Proof.
  intros Hrep. unfold has_order. rewrite bind_gets.
  assert (E : bool_decide (getOrder oid b ≠ None) = bool_decide (oid ∈ mo_order_id_ <$> c_orders_of c));
    [|by rewrite E]. apply bool_decide_ext.
  destruct (getOrder oid b) as [p|] eqn:E.
  - split; [|done]. intros _.
    destruct (getOrder_hit _ _ _ _ Hrep E) as (sd & own & oth & l1 & g & l2 & o1 & d & o2 & Hr & -> & Eg & <-).
    apply list_elem_of_fmap_2. rewrite (c_rep_orders _ _ _ _ _ Hr), oents_app, oents_app, oents_cons, Eg.
    apply list_elem_of_fmap. exists (p, d). split; [done|]. set_solver.
  - split; [done|]. intros Hin. by destruct (getOrder_miss _ _ _ Hrep E).
Qed.
End shows.

(** ** The two harnesses side by side *)

Section mirror.
Context `{Cfg : Config, !ConfigOk Cfg}.
Implicit Types (r : request) (u : MEMarketUpdate) (m : MarketOrderBook) (s : SBook) (books : gmap Z SBook).
Local Set Default Proof Using "All".

(** The call that makes a request on the exchange's harness. *)
Definition call_of (r : request) : Call :=
  match r with
  | New cid oid tid sd price qty => AddOrder cid oid tid (sideToString sd) price qty
  | Cancel cid oid tid => CancelOrder cid oid tid
  end.

(** A valid request for [tid], with the identifiers of the interface. *)
Definition request_on (tid : Z) r : Prop :=
  request_valid r ∧
  match r with
  | New cid oid t _ _ _ | Cancel cid oid t => t = tid ∧ is_u32 cid ∧ is_u64 oid
  end.

(** The call that applies a market update to the client's harness. *)
Definition drive (u : MEMarketUpdate) : M MarketOrderBook (PyResult unit) :=
  let side := sideToString (mu_side_ u) in
  match mu_type_ u with
  | MarketUpdateType.ADD => on_add side (mu_price_ u) (mu_qty_ u) (mu_order_id_ u) (mu_priority_ u)
  | MarketUpdateType.MODIFY => on_modify side (mu_price_ u) (mu_qty_ u) (mu_order_id_ u)
  | MarketUpdateType.CANCEL => on_cancel side (mu_price_ u) (mu_order_id_ u)
  | MarketUpdateType.TRADE => on_trade side (mu_price_ u) (mu_qty_ u)
  | _ => on_clear
  end.

Fixpoint drive_all (us : list MEMarketUpdate) : M MarketOrderBook (list (PyResult unit)) :=
  match us with
  | [] => mret []
  | u :: us => x ← drive u; xs ← drive_all us; mret (x :: xs)
  end.

Lemma parse_sideToString sd : valid_side sd → parse_side (sideToString sd) = Some sd.
Proof. by intros [-> | ->]. Qed.

Lemma drive_update u m : live_update u → drive u m = (onMarketUpdate u;; mret (Returned tt)) m.
Proof.
  destruct u as [ty tid sd price qty oid prio]. intros [Hs Ht]. cbn in Hs, Ht.
  unfold drive, on_add, on_modify, on_cancel, on_trade, with_side. cbn [mu_side_].
  rewrite !(parse_sideToString _ Hs), !elem_of_cons in *.
  by destruct Ht as [-> |[-> |[-> |[-> |?%not_elem_of_nil]]]].
Qed.

Lemma drive_all_feed us : ∀ m m', Forall live_update us → feed us m = Ok (tt, m') →
  drive_all us m = Ok (replicate (length us) (Returned tt), m').
Proof.
  induction us as [|u us IH]; intros m m' Hl Hf; [by injection Hf as <-|].
  apply Forall_cons in Hl as [Hu Hl]. apply bind_Ok_inv in Hf as ([] & m1 & H1 & H2).
  cbn [drive_all]. erewrite bind_Ok by (rewrite (drive_update u m Hu); by rewrite (bind_Ok _ _ _ _ _ H1)).
  by rewrite (bind_Ok _ _ _ _ _ (IH _ _ Hl H2)).
Qed.

Lemma call_of_ok tid r : request_on tid r → 0 ≤ tid < ME_MAX_TICKERS → call_ok (call_of r).
Proof. intros [Hv Hr] Ht. destruct r; cbn in *; destruct Hr as (-> & ? & ?); tauto. Qed.

Lemma call_of_result tid r : request_on tid r → call_result (call_of r) = Returned tt.
Proof. intros [Hv _]. destruct r; cbn in *; [|done]. by rewrite parse_sideToString by apply Hv. Qed.

Lemma s_call_of tid r books :
  request_on tid r → 0 ≤ tid < ME_MAX_TICKERS →
  s_call (call_of r) books =
  let '(ev, s) := s_perform r (s_book tid books) in (ev, <[ tid := s ]> books).
Proof.
  intros [Hv Hr] Ht. unfold s_call.
  destruct r as [cid oid t sd price qty|cid oid t]; cbn in *; destruct Hr as (-> & _ & _);
    rewrite ?parse_sideToString by apply Hv; cbn; unfold s_process; cbn;
    by rewrite (proj2 (Z.leb_gt _ _)) by lia.
Qed.

Lemma s_calls_of tid reqs : ∀ books,
  Forall (request_on tid) reqs → 0 ≤ tid < ME_MAX_TICKERS →
  (s_calls (call_of <$> reqs) books).1 = (s_session reqs (s_book tid books)).1 ∧
  s_book tid (s_calls (call_of <$> reqs) books).2 = (s_session reqs (s_book tid books)).2.
Proof.
  induction reqs as [|r reqs IH]; intros books Hf Ht; [done|]. apply Forall_cons in Hf as [Hr Hf].
  rewrite fmap_cons. cbn [s_calls s_session]. rewrite (s_call_of tid r books Hr Ht).
  destruct (s_perform r (s_book tid books)) as [ev s].
  destruct (IH (<[ tid := s ]> books) Hf Ht) as [E1 E2].
  assert (E : s_book tid (<[ tid := s ]> books) = s) by (unfold s_book; by rewrite lookup_insert_eq).
  rewrite E in E1, E2. destruct (s_calls _ _) as [ev' bs], (s_session reqs s) as [ev'' s'].
  cbn in *. by rewrite E1.
Qed.

Lemma calls_typed tid reqs : ∀ N books,
  Forall (request_on tid) reqs → 0 ≤ tid < ME_MAX_TICKERS → books_typed N books → 1 ≤ N →
  N + Z.of_nat (length reqs) < 2 ^ 64 - 1 → Forall out_typed (s_calls (call_of <$> reqs) books).1.
Proof.
  induction reqs as [|r reqs IH]; intros N books Hf Ht Hb HN Hlen; [constructor|].
  apply Forall_cons in Hf as [Hr Hf]. rewrite fmap_cons. cbn [s_calls length] in *.
  assert (Hs : Forall out_typed (s_call (call_of r) books).1 ∧ books_typed (N + 1) (s_call (call_of r) books).2).
  { unfold s_call. destruct (call_request (call_of r)) as [q|] eqn:Eq.
    - apply (s_process_typed N q books Hb); [lia|]. pose proof cfg_tickers.
      destruct (call_request_ok _ q (call_of_ok tid r Hr Ht) Eq) as [Hok Etid]. split; [done|].
      destruct Hr as [Hv Hr]. unfold is_u32, is_u64 in *.
      destruct r as [cid oid t sd price qty|cid oid t]; cbn in *; destruct Hr as (-> & ? & ?).
      + rewrite parse_sideToString in Eq by apply Hv. injection Eq as <-.
        split; cbn; try done; try apply Hv; [unfold is_u32; lia|apply valid_side_wire, Hv].
      + injection Eq as <-. split; cbn; try done. unfold is_u32; lia.
    - exfalso. destruct Hr as [Hv _]. destruct r; cbn in *; [|done].
      by rewrite parse_sideToString in Eq by apply Hv. }
  destruct (s_call (call_of r) books) as [ev bs]. destruct Hs as [Hev Hbs]. cbn [fst snd] in *.
  specialize (IH (N + 1) bs Hf Ht Hbs ltac:(lia) ltac:(lia)).
  destruct (s_calls _ bs) as [ev' bs']. cbn [fst] in *. by apply Forall_app.
Qed.

Lemma view_shown sd (ls : list SLevel) :
  c_shown sd <$> (view_level <$> ls) = level_dict <$> ((λ l, shown_level qty_ sd (l_price l) (l_orders l)) <$> ls).
Proof.
  rewrite <- !list_fmap_compose. apply list_fmap_ext. intros i l _. cbn. unfold c_shown, shown_level. cbn.
  rewrite length_fmap. do 3 f_equal. unfold sumZ. by induction (l_orders l) as [|o os IH]; cbn; [|rewrite IH].
Qed.

Lemma view_top sd s p :
  head (shown_side sd s) = Some p → c_top (view_level <$> s_levels sd s) = (pl_price p, pl_total_qty p).
Proof.
  unfold shown_side. destruct (s_levels sd s) as [|l ls]; [done|]. intros [= <-]. cbn. f_equal. f_equal.
  unfold sumZ. by induction (l_orders l) as [|o os IH]; cbn; [|rewrite IH].
Qed.

(** C40: the two Python harnesses agree.  Make any valid calls for one ticker on
    a fresh [TestExchange] (fewer than [ME_MAX_ORDER_IDS], within its queues),
    read its market updates and apply each to a fresh [TestMarketOrderBook]: no
    call raises, and afterwards the client's levels are, as dicts, exactly the
    levels the exchange shows, on both sides, in order, and its best bid and
    offer are the prices [get_best_bid] and [get_best_ask] would give. *)
Theorem harness_mirrors_exchange tid reqs :
  Forall (request_on tid) reqs → 0 ≤ tid < ME_MAX_TICKERS → Z.of_nat (length reqs) < ME_MAX_ORDER_IDS →
  let cs := call_of <$> reqs in
  calls_fit ME_MAX_CLIENT_UPDATES ME_MAX_MARKET_UPDATES cs ∅ [] [] = true →
  ∃ x0 x us rs bids asks spread m,
    TestExchange_new = Ok x0 ∧
    inspect cs tid x0 =
      Ok (replicate (length reqs) (Returned tt), (rs, update_dict <$> us), (bids, asks), spread, x) ∧
    drive_all us (TestMarketOrderBook_new tid) = Ok (replicate (length us) (Returned tt), m) ∧
    test_bid_levels m = Ok (level_dict <$> bids, m) ∧
    test_ask_levels m = Ok (level_dict <$> asks, m) ∧
    get_bbo m = Ok (bbo_dict (getBBO m), m) ∧
    (∀ p, head bids = Some p → bid_price_ (getBBO m) = pl_price p ∧ bid_qty_ (getBBO m) = pl_total_qty p) ∧
    (∀ p, head asks = Some p → ask_price_ (getBBO m) = pl_price p ∧ ask_qty_ (getBBO m) = pl_total_qty p).
Proof.
  intros Hf Ht Hlen cs Hfit. pose proof cfg_order_ids.
  assert (Hok : Forall call_ok cs).
  { apply Forall_fmap. eapply Forall_impl; [exact Hf|]. intros r Hr. by apply (call_of_ok tid). }
  assert (Hres : call_result <$> cs = replicate (length reqs) (Returned tt)).
  { unfold cs. clear - ConfigOk0 Hf. induction Hf as [|r reqs Hr _ IH]; [done|]. cbn. f_equal; [|exact IH].
    by apply (call_of_result tid). }
  assert (Hlen' : Z.of_nat (length cs) < 2 ^ 64 - 2) by (unfold cs; rewrite length_fmap; lia).
  destruct (inspect_spec cs tid Hok Hlen' Ht) as (x0 & Hnew & Hins).
  destruct (s_calls_of tid reqs ∅ Hf Ht) as [E1 E2].
  assert (Hb0 : books_typed 1 ∅) by (intros t s Hs; by rewrite lookup_empty in Hs).
  pose proof (calls_typed tid reqs 1 ∅ Hf Ht Hb0 ltac:(lia) ltac:(lia)) as Hty.
  fold cs in E1, E2, Hty. destruct (s_calls cs ∅) as [ev books]. cbn [fst snd] in E1, E2, Hty.
  rewrite Hfit in Hins. destruct Hins as (x & Hins).
  destruct (session_in_step reqs 0 (MEOrderBook_new tid) (MarketOrderBook_new tid) (mkSBook [] [] 1))
    as (b & m & _ & _ & Hfeed & [_ _ [Hm Hbbo]]); [|by eapply Forall_impl; [exact Hf|]; intros r [? _]|done|].
  { split; [apply MEOrderBook_new_sess_ok|constructor|]. split; [apply MarketOrderBook_new_represents|done]. }
  change (s_book tid ∅) with (mkSBook [] [] 1) in E1, E2. rewrite <- E1 in Hfeed. rewrite <- E2 in Hm, Hbbo.
  destruct (test_levels_spec m _ Hm) as [Hbid Hask]. cbn [view c_bids c_asks] in Hbid, Hask.
  rewrite view_shown in Hbid, Hask.
  eexists x0, x, (updates ev), _, _, _, _, m. split_and!; [done|by rewrite Hins, Hres| |exact Hbid|exact Hask|done|..].
  - apply drive_all_feed; [|exact Hfeed]. eapply Forall_impl; [by apply updates_typed|]. by intros u [_ ?].
  - intros p Hp. unfold getBBO. rewrite Hbbo. unfold c_bbo. cbn.
    apply view_top in Hp. change (s_levels Side.BUY ?s) with (s_bids s) in Hp. by rewrite Hp.
  - intros p Hp. unfold getBBO. rewrite Hbbo. unfold c_bbo. cbn.
    apply view_top in Hp. change (s_levels Side.SELL ?s) with (s_asks s) in Hp. by rewrite Hp.
Qed.
End mirror.
