(* ===== verification/SnapshotImage.v ===== *)
(** A snapshot is the book.

    [book_image] relates a client book to the orders the synthesizer holds for
    its ticker; every update of the feed keeps it.  [rebuild] replays the
    orders of a well-formed book by increasing id and gets the same book: price
    levels, FIFO order and quantities.  Together they discharge the assumption
    [stream_ok] under which the consumer's theorems are proved. *)

From S2P Require Import Prelude Types Wire Framing MemPool LevelBook LevelBookRep LFQueue.
From S2P Require Import MEOrder OrderBookSpec OrderBookInv OrderBookProps MEOrderBook MatchingEngine MatchingEngineRefines.
From S2P Require Import MarketOrderBook MarketOrderBookRefines Replication.
From S2P Require Import Sockets McastSocket MarketDataPublisher MarketDataConsumer MarketDataConsumerProps SnapshotSynthesizer.

(** The ADD that carries a resting order. *)
Definition add_of (tid : TickerId) (mo : MarketOrder) : MEMarketUpdate :=
  mkMEMarketUpdate MarketUpdateType.ADD tid (mo_side_ mo) (mo_price_ mo) (mo_qty_ mo) (mo_order_id_ mo) (mo_priority_ mo).

(** ** Orders of a book after an update *)

Section orders.
Context `{Cfg : Config}.
Implicit Types (c : CBook) (ls : list CLevel) (mo : MarketOrder) (u : MEMarketUpdate).

Lemma c_all_modify oid q ls : c_all (c_modify oid q ls) = modify_one oid q <$> c_all ls.
Proof.
  unfold c_all, c_modify. induction ls as [|l ls IH]; [done|].
  rewrite fmap_cons, !bind_cons, fmap_app, IH. done.
Qed.

Lemma c_all_drop oid ls : c_all (c_drop oid ls) = filter (λ mo, mo_order_id_ mo ≠ oid) (c_all ls).
Proof.
  unfold c_all, c_drop. induction ls as [|l ls IH]; [done|].
  rewrite fmap_cons, bind_cons, filter_app, <- IH. clear IH. cbn [c_price].
  destruct (filter (λ mo, mo_order_id_ mo ≠ oid) (c_orders l)) as [|mo os].
  - rewrite filter_cons_False; [done|]. intros E. by apply E.
  - rewrite filter_cons_True by done. by rewrite bind_cons.
Qed.

Lemma c_all_rest mo o ls : o ∈ c_all (c_rest mo ls) ↔ o = mo ∨ o ∈ c_all ls.
Proof.
  unfold c_rest, c_all. destruct (existsb _ ls) eqn:Ex.
  - apply existsb_elem in Ex as (l & Hl & Hp). rewrite !list_elem_of_bind.
    setoid_rewrite list_elem_of_fmap. split.
    + intros (l1 & Ho & l2 & -> & Hl2). unfold c_append in Ho. destruct (c_price l2 =? mo_price_ mo); cbn in Ho;
        [apply elem_of_app in Ho as [Ho|Ho%list_elem_of_singleton]|]; try (by left); right; by exists l2.
    + intros [->|(l1 & Ho & Hl1)].
      * exists (c_append mo l). split; [|by exists l]. unfold c_append. rewrite Hp. cbn. apply elem_of_app. right. by left.
      * exists (c_append mo l1). split; [|by exists l1]. unfold c_append.
        destruct (c_price l1 =? mo_price_ mo); [|done]. cbn. apply elem_of_app. by left.
  - rewrite insert_where_perm, bind_cons, elem_of_app. cbn [c_orders]. by rewrite list_elem_of_singleton.
Qed.

Lemma c_orders_set sd own oth mo :
  mo ∈ c_orders_of (c_set sd own oth) ↔ mo ∈ c_all own ∨ mo ∈ c_all oth.
Proof. unfold c_orders_of, c_set. destruct (Side.eqb sd Side.BUY); cbn; rewrite elem_of_app; tauto. Qed.

Lemma add_orders u c mo : mu_type_ u = MarketUpdateType.ADD →
  mo ∈ c_orders_of (c_update u c) ↔
    mo = mkMarketOrder (mu_order_id_ u) (mu_side_ u) (mu_price_ u) (mu_qty_ u) (mu_priority_ u) ∨ mo ∈ c_orders_of c.
Proof.
  intros Ht. unfold c_update. rewrite Ht, c_orders_set, c_all_rest. unfold c_orders_of, c_levels.
  destruct (Side.eqb (mu_side_ u) Side.BUY) eqn:E; cbn; rewrite ?E; cbn; rewrite elem_of_app; tauto.
Qed.

Lemma modify_orders u c mo : mu_type_ u = MarketUpdateType.MODIFY →
  mo ∈ c_orders_of (c_update u c) ↔ ∃ o, o ∈ c_orders_of c ∧ mo = modify_one (mu_order_id_ u) (mu_qty_ u) o.
Proof.
  intros Ht. unfold c_update. rewrite Ht. unfold c_both, c_orders_of. cbn [c_bids c_asks].
  rewrite !c_all_modify, <- fmap_app, list_elem_of_fmap. split; intros (o & ? & ?); by exists o.
Qed.

Lemma cancel_orders u c mo : mu_type_ u = MarketUpdateType.CANCEL →
  mo ∈ c_orders_of (c_update u c) ↔ mo ∈ c_orders_of c ∧ mo_order_id_ mo ≠ mu_order_id_ u.
Proof.
  intros Ht. unfold c_update. rewrite Ht. unfold c_both, c_orders_of. cbn [c_bids c_asks].
  rewrite !c_all_drop, <- filter_app, list_elem_of_filter. tauto.
Qed.
End orders.

(** ** The image of a book *)

Section image.
Context `{Cfg : Config}.
Implicit Types (c : CBook) (mo : MarketOrder) (u : MEMarketUpdate) (m : gmap (Z * Z) MEMarketUpdate).

Definition book_image tid c m : Prop :=
  ∀ oid u, m !! (tid, oid) = Some u ↔ ∃ mo, mo ∈ c_orders_of c ∧ mo_order_id_ mo = oid ∧ u = add_of tid mo.

(** Ids of the orders of [c]. *)
Definition ids_below (n : OrderId) c : Prop := ∀ mo, mo ∈ c_orders_of c → mo_order_id_ mo < n.

Lemma image_update_other tid oid u m : mu_ticker_id_ u ≠ tid → image_update u m !! (tid, oid) = m !! (tid, oid).
Proof.
  intros Hne. unfold image_update. destruct (in_tables u); [|done].
  assert (key_of u ≠ (tid, oid)) by (unfold key_of; congruence).
  destruct (mu_type_ u); try done; [by rewrite lookup_insert_ne|by rewrite lookup_alter_ne|by rewrite lookup_delete_ne].
Qed.

Lemma book_image_other tid c m u : mu_ticker_id_ u ≠ tid → book_image tid c m → book_image tid c (image_update u m).
Proof. intros Hne Hi oid v. rewrite image_update_other by done. apply Hi. Qed.

Lemma in_tables_id tid u : mu_ticker_id_ u = tid → tid < ME_MAX_TICKERS →
  in_tables u = (mu_order_id_ u <? ME_MAX_ORDER_IDS).
Proof. intros <- Ht. unfold in_tables. by rewrite (proj2 (Z.ltb_lt _ _)). Qed.

Lemma book_add_image tid c m u :
  book_image tid c m → mu_type_ u = MarketUpdateType.ADD → mu_ticker_id_ u = tid → tid < ME_MAX_TICKERS →
  mu_order_id_ u < ME_MAX_ORDER_IDS → ids_below (mu_order_id_ u) c →
  book_image tid (c_update u c) (image_update u m) ∧ ids_below (mu_order_id_ u + 1) (c_update u c).
Proof.
  intros Hi Ht Hu Htid Hoid Hb. split.
  - intros oid v. unfold image_update. rewrite (in_tables_id tid), (proj2 (Z.ltb_lt _ _)), Ht by done.
    setoid_rewrite (add_orders u c _ Ht). unfold key_of. rewrite Hu. set (mo := mkMarketOrder _ _ _ _ _).
    assert (Eu : u = add_of tid mo) by (destruct u; cbn in *; by subst).
    destruct (decide (oid = mu_order_id_ u)) as [->|Hne].
    + rewrite lookup_insert_eq. split.
      * intros E. exists mo. split; [by left|]. split; [done|]. congruence.
      * intros (mo' & [->|Hmo'] & Hid & ->); [by rewrite <- Eu|]. pose proof (Hb mo' Hmo'). lia.
    + rewrite lookup_insert_ne by congruence. rewrite (Hi oid v). split.
      * intros (mo' & Hmo' & Hid & ->). exists mo'. split; [by right|done].
      * intros (mo' & [->|Hmo'] & Hid & ->); [by destruct Hne|]. by exists mo'.
  - intros mo Hmo. apply (add_orders u c mo Ht) in Hmo as [->|Hmo]; [cbn; lia|]. pose proof (Hb mo Hmo). lia.
Qed.

Lemma book_fill_image tid n c m u :
  book_image tid c m → fill_update tid u → tid < ME_MAX_TICKERS → n ≤ ME_MAX_ORDER_IDS → ids_below n c →
  book_image tid (c_update u c) (image_update u m) ∧ ids_below n (c_update u c).
Proof.
  intros Hi [Hu Hty] Htid Hn Hb. unfold image_update. rewrite (in_tables_id tid) by done.
  destruct Hty as [Ht|[Ht|Ht]].
  - unfold c_update. rewrite Ht. by destruct (_ <? _).
  - split; [|intros mo (o & Ho & ->)%(modify_orders u c mo Ht); unfold modify_one; case_match; cbn; by apply Hb].
    intros oid v. setoid_rewrite (modify_orders u c _ Ht). rewrite Ht. unfold key_of. rewrite Hu.
    assert (Hmiss : mu_order_id_ u <? ME_MAX_ORDER_IDS = false → ∀ o, o ∈ c_orders_of c → mo_order_id_ o ≠ mu_order_id_ u).
    { intros Hge%Z.ltb_ge o Ho. pose proof (Hb o Ho). lia. }
    assert (Hone : ∀ o, mo_order_id_ o ≠ mu_order_id_ u → modify_one (mu_order_id_ u) (mu_qty_ u) o = o).
    { intros o Hne. unfold modify_one. by rewrite (proj2 (Z.eqb_neq _ _)). }
    assert (Hid : ∀ o, mo_order_id_ (modify_one (mu_order_id_ u) (mu_qty_ u) o) = mo_order_id_ o).
    { intros o. unfold modify_one. by case_match. }
    destruct (mu_order_id_ u <? ME_MAX_ORDER_IDS) eqn:El.
    + destruct (decide (oid = mu_order_id_ u)) as [->|Hne].
      * rewrite lookup_alter_eq. split.
        -- intros (v0 & Hv0 & ->)%fmap_Some. apply Hi in Hv0 as (o & Ho & Eo & ->).
           eexists. split; [by exists o|]. rewrite Hid. split; [done|]. unfold modify_one. by rewrite Eo, Z.eqb_refl.
        -- intros (mo & (o & Ho & ->) & Eo & ->). rewrite Hid in Eo.
           rewrite (proj2 (Hi (mu_order_id_ u) (add_of tid o))); [|by exists o]. cbn. f_equal.
           unfold modify_one. by rewrite Eo, Z.eqb_refl.
      * rewrite lookup_alter_ne by congruence. rewrite (Hi oid v). split.
        -- intros (o & Ho & Eo & ->). exists o. split; [|done]. exists o. split; [done|]. symmetry. apply Hone. congruence.
        -- intros (mo & (o & Ho & ->) & Eo & ->). rewrite Hid in Eo. rewrite (Hone o) by congruence. by exists o.
    + rewrite (Hi oid v). split.
      * intros (o & Ho & Eo & ->). exists o. split; [|done]. exists o. split; [done|]. symmetry. by apply Hone, Hmiss.
      * intros (mo & (o & Ho & ->) & Eo & ->). rewrite Hid in Eo. rewrite (Hone o) by (by apply Hmiss). by exists o.
  - split; [|intros mo [Ho _]%(cancel_orders u c mo Ht); by apply Hb].
    intros oid v. setoid_rewrite (cancel_orders u c _ Ht). rewrite Ht. unfold key_of. rewrite Hu.
    destruct (mu_order_id_ u <? ME_MAX_ORDER_IDS) eqn:El.
    + destruct (decide (oid = mu_order_id_ u)) as [->|Hne].
      * rewrite lookup_delete_eq. split; [done|]. by intros (mo & [_ Hne] & Eo & _).
      * rewrite lookup_delete_ne by congruence. rewrite (Hi oid v). split; intros (mo & Hmo & Eo & ->); exists mo;
          [split; [split; [done|congruence]|done]|by destruct Hmo].
    + apply Z.ltb_ge in El. rewrite (Hi oid v). split; intros (mo & Hmo & Eo & ->); exists mo; [|by destruct Hmo].
      split; [|done]. split; [done|]. pose proof (Hb mo Hmo). lia.
Qed.
End image.

(** ** Rebuilding a book from its orders *)

Section rebuild.
Context `{Cfg : Config}.
Implicit Types (sd : Side.t) (c : CBook) (l : CLevel) (ls : list CLevel) (mo o : MarketOrder).

Definition c_better sd l k : Prop := if Side.eqb sd Side.BUY then c_price k < c_price l else c_price l < c_price k.
Definition c_level_wf sd l : Prop :=
  c_orders l ≠ [] ∧ Forall (λ mo, mo_side_ mo = sd ∧ mo_price_ mo = c_price l) (c_orders l) ∧
  StronglySorted (λ a b, mo_order_id_ a < mo_order_id_ b) (c_orders l).
Definition c_side_wf sd ls : Prop := Forall (c_level_wf sd) ls ∧ StronglySorted (c_better sd) ls.

(** The part of a side that was there before order [k] came. *)
Definition upto (k : OrderId) ls : list CLevel :=
  filter (λ l, c_orders l ≠ []) ((λ l, mkCLevel (c_price l) (filter (λ mo, mo_order_id_ mo < k) (c_orders l))) <$> ls).

Lemma upto_app k ls ls' : upto k (ls ++ ls') = upto k ls ++ upto k ls'.
Proof. unfold upto. by rewrite fmap_app, filter_app. Qed.

Lemma upto_cons k l ls :
  upto k (l :: ls) = match filter (λ mo, mo_order_id_ mo < k) (c_orders l) with
    | [] => [] | os => [mkCLevel (c_price l) os] end ++ upto k ls.
Proof.
  unfold upto. rewrite fmap_cons. destruct (filter _ (c_orders l)) as [|mo os].
  - rewrite filter_cons_False; [done|]. intros E. by apply E.
  - by rewrite filter_cons_True.
Qed.

Lemma upto_ext k k' ls :
  (∀ mo, mo ∈ c_all ls → mo_order_id_ mo < k ↔ mo_order_id_ mo < k') → upto k ls = upto k' ls.
Proof.
  unfold c_all. induction ls as [|l ls IH]; intros Hk; [done|]. rewrite !upto_cons.
  rewrite IH by (intros mo Hmo; apply Hk; rewrite bind_cons; apply elem_of_app; by right).
  rewrite (filter_ext _ (λ mo, mo_order_id_ mo < k') (c_orders l)); [done|].
  intros mo Hmo. apply Hk. rewrite bind_cons. apply elem_of_app. by left.
Qed.

Lemma upto_prices k ls l : l ∈ upto k ls → ∃ l', l' ∈ ls ∧ c_price l' = c_price l.
Proof.
  unfold upto. intros [_ (l' & -> & Hl')%list_elem_of_fmap]%list_elem_of_filter. by exists l'.
Qed.

Lemma upto_all k ls : (∀ mo, mo ∈ c_all ls → mo_order_id_ mo < k) → Forall (λ l, c_orders l ≠ []) ls → upto k ls = ls.
Proof.
  unfold c_all. induction ls as [|l ls IH]; intros Hk Hne; [done|]. apply Forall_cons in Hne as [Hl Hne].
  rewrite upto_cons, IH; [|intros mo Hmo; apply Hk; rewrite bind_cons; apply elem_of_app; by right|done].
  rewrite filter_all.
  - destruct l as [p os]. cbn in *. by destruct os.
  - apply Forall_forall. intros mo Hmo. apply Hk. rewrite bind_cons. apply elem_of_app. by left.
Qed.

Lemma upto_none k ls : (∀ mo, mo ∈ c_all ls → k ≤ mo_order_id_ mo) → upto k ls = [].
Proof.
  unfold c_all. induction ls as [|l ls IH]; intros Hk; [done|].
  rewrite upto_cons, IH by (intros mo Hmo; apply Hk; rewrite bind_cons; apply elem_of_app; by right).
  rewrite filter_none; [done|]. apply Forall_forall. intros mo Hmo.
  apply Z.nlt_ge, Hk. rewrite bind_cons. apply elem_of_app. by left.
Qed.

(** The oldest order not yet there comes to the end of its level. *)
Lemma filter_sorted_mid o (os1 os2 : list MarketOrder) (k : OrderId) :
  StronglySorted (λ a b, mo_order_id_ a < mo_order_id_ b) (os1 ++ o :: os2) →
  mo_order_id_ o ≤ k ≤ mo_order_id_ o + 1 →
  filter (λ mo, mo_order_id_ mo < k) (os1 ++ o :: os2) = os1 ++ (if mo_order_id_ o <? k then [o] else []).
Proof.
  intros Hs Hk. rewrite filter_app. apply StronglySorted_app in Hs as (Hlt & _ & Hs2).
  apply StronglySorted_cons in Hs2 as [Hgt _].
  rewrite (filter_all _ os1).
  2:{ apply Forall_forall. intros x Hx. pose proof (Hlt x o Hx ltac:(by left)). cbn in *. lia. }
  f_equal. assert (E : filter (λ mo, mo_order_id_ mo < k) os2 = []).
  { apply filter_none. rewrite Forall_forall in *. intros x Hx. specialize (Hgt x Hx). cbn in Hgt. lia. }
  case Z.ltb_spec; intros Hlt'; [rewrite filter_cons_True by done|rewrite filter_cons_False by lia]; by rewrite E.
Qed.

Lemma c_append_other o ls : (∀ k, k ∈ ls → c_price k ≠ mo_price_ o) → c_append o <$> ls = ls.
Proof.
  intros Hks. rewrite <- (list_fmap_id ls) at 2. apply list_fmap_ext. intros i k Hk.
  unfold c_append. rewrite (proj2 (Z.eqb_neq _ _)); [done|]. apply Hks. by eapply list_elem_of_lookup_2.
Qed.

Lemma c_rest_upto sd o ls :
  valid_side sd → c_side_wf sd ls → NoDup (mo_order_id_ <$> c_all ls) → o ∈ c_all ls →
  c_rest o (upto (mo_order_id_ o) ls) = upto (mo_order_id_ o + 1) ls.
Proof.
  intros Hv [Hf Hs] Hnd Ho. unfold c_all in Ho. apply list_elem_of_bind in Ho as (l & Ho & Hl).
  apply list_elem_of_split in Hl as (ls1 & ls2 & ->). apply list_elem_of_split in Ho as (os1 & os2 & Eos).
  apply Forall_app in Hf as [_ [(_ & Hlv & Hsrt) _]%Forall_cons].
  rewrite Eos in Hlv, Hsrt. apply Forall_app in Hlv as [_ [[Hsd Hpr] _]%Forall_cons].
  apply StronglySorted_app in Hs as (Hb1 & _ & Hs2). apply StronglySorted_cons in Hs2 as [Hb2 _].
  assert (Hother : ∀ mo, mo ∈ c_all ls1 ∨ mo ∈ c_all ls2 → mo_order_id_ mo ≠ mo_order_id_ o).
  { unfold c_all in Hnd |- *. rewrite bind_app, bind_cons, !fmap_app, Eos, fmap_app, fmap_cons in Hnd.
    rewrite <- app_assoc in Hnd. cbn [app] in Hnd. rewrite (app_assoc (mo_order_id_ <$> (ls1 ≫= c_orders))) in Hnd.
    apply NoDup_mid in Hnd as [Hni _]. intros mo Hmo E. apply Hni. rewrite <- E, !elem_of_app.
    destruct Hmo as [Hmo|Hmo]; apply (list_elem_of_fmap_2 mo_order_id_) in Hmo; tauto. }
  assert (E1 : upto (mo_order_id_ o) ls1 = upto (mo_order_id_ o + 1) ls1).
  { apply upto_ext. intros mo Hmo. pose proof (Hother mo ltac:(by left)). lia. }
  assert (E2 : upto (mo_order_id_ o) ls2 = upto (mo_order_id_ o + 1) ls2).
  { apply upto_ext. intros mo Hmo. pose proof (Hother mo ltac:(by right)). lia. }
  rewrite !upto_app, !upto_cons, E1, E2, Eos.
  rewrite !(filter_sorted_mid o os1 os2) by (first [exact Hsrt|lia]).
  rewrite Z.ltb_irrefl, (proj2 (Z.ltb_lt _ _)) by lia. rewrite app_nil_r.
  set (u1 := upto _ ls1). set (u2 := upto _ ls2).
  assert (Hu1 : ∀ k, k ∈ u1 → c_better sd k l).
  { intros k (k' & Hk' & Ek)%upto_prices. unfold c_better. rewrite <- Ek. apply (Hb1 k' l Hk'). by left. }
  assert (Hu2 : ∀ k, k ∈ u2 → c_better sd l k).
  { intros k (k' & Hk' & Ek)%upto_prices. unfold c_better. rewrite <- Ek. rewrite Forall_forall in Hb2. by apply Hb2. }
  assert (Hne : ∀ k, k ∈ u1 ∨ k ∈ u2 → c_price k ≠ mo_price_ o).
  { intros k [Hk|Hk]; [apply Hu1 in Hk|apply Hu2 in Hk]; unfold c_better in Hk; rewrite Hpr; destruct (Side.eqb sd _); lia. }
  clearbody u1 u2. unfold c_rest. destruct os1 as [|o1 os1]; cbn [app]; cbn match.
  - rewrite (proj2 (existsb_not_elem _ _)).
    2:{ intros k Hk. apply Z.eqb_neq, Hne. by apply elem_of_app in Hk. }
    rewrite insert_where_app; [by rewrite Hpr| |].
    + apply Forall_forall. intros k Hk. specialize (Hu1 k Hk). unfold c_better in Hu1. rewrite Hpr, Hsd.
      destruct Hv as [-> | ->]; side_simpl; by apply Z.ltb_lt.
    + intros k Hk%head_Some_elem. specialize (Hu2 k Hk). unfold c_better in Hu2. rewrite Hpr, Hsd.
      destruct Hv as [-> | ->]; side_simpl; apply Z.ltb_ge; lia.
  - rewrite (proj2 (existsb_elem _ _)).
    2:{ exists (mkCLevel (c_price l) (o1 :: os1)). split; [|cbn; rewrite Hpr; apply Z.eqb_refl].
        apply elem_of_app. right. by left. }
    rewrite fmap_app, fmap_cons, !c_append_other by auto. unfold c_append. cbn [c_price c_orders].
    by rewrite Hpr, Z.eqb_refl.
Qed.

(** *** The whole book *)

Record c_book_wf c : Prop := {
  cw_bids : c_side_wf Side.BUY (c_bids c);
  cw_asks : c_side_wf Side.SELL (c_asks c);
  cw_ids : NoDup (mo_order_id_ <$> c_orders_of c);
}.

Lemma c_side_ids sd c : c_book_wf c → NoDup (mo_order_id_ <$> c_all (c_levels sd c)).
Proof.
  intros [_ _ Hn]. unfold c_orders_of in Hn. rewrite fmap_app in Hn. apply NoDup_app in Hn as (H1 & _ & H2).
  unfold c_levels. by destruct (Side.eqb sd Side.BUY).
Qed.

Lemma c_order_side sd c mo : c_book_wf c → valid_side sd → mo ∈ c_all (c_levels sd c) → mo_side_ mo = sd.
Proof.
  intros [[Hb _] [Ha _] _] Hv Hmo. unfold c_all in Hmo. apply list_elem_of_bind in Hmo as (l & Hmo & Hl).
  destruct Hv as [-> | ->]; [rewrite Forall_forall in Hb; destruct (Hb l Hl) as (_ & Hf & _)
    |rewrite Forall_forall in Ha; destruct (Ha l Hl) as (_ & Hf & _)]; rewrite Forall_forall in Hf; by apply Hf.
Qed.

Lemma add_upto tid o c :
  c_book_wf c → o ∈ c_orders_of c →
  c_update (add_of tid o) (c_both (upto (mo_order_id_ o)) c) = c_both (upto (mo_order_id_ o + 1)) c.
Proof.
  intros Hw Ho. assert (∃ sd, valid_side sd ∧ o ∈ c_all (c_levels sd c)) as (sd & Hv & Hsd).
  { apply elem_of_app in Ho as [Ho|Ho]; [exists Side.BUY; split; [by left|done]|exists Side.SELL; split; [by right|done]]. }
  pose proof (c_order_side sd c o Hw Hv Hsd) as Es.
  assert (Hoth : upto (mo_order_id_ o) (c_levels (opp sd) c) = upto (mo_order_id_ o + 1) (c_levels (opp sd) c)).
  { apply upto_ext. intros mo Hmo. assert (mo_order_id_ mo ≠ mo_order_id_ o); [|lia]. intros E.
    assert (mo = o) as ->.
    { eapply NoDup_fmap_elem_inj; [apply (cw_ids c Hw)| |done|done]. apply elem_of_app.
      destruct Hv as [-> | ->]; [by right|by left]. }
    assert (valid_side (opp sd)) as Hv' by (destruct Hv as [-> | ->]; [by right|by left]).
    pose proof (c_order_side (opp sd) c o Hw Hv' Hmo) as E'. rewrite Es in E'.
    by destruct Hv as [-> | ->]. }
  assert (Hown : c_rest o (upto (mo_order_id_ o) (c_levels sd c)) = upto (mo_order_id_ o + 1) (c_levels sd c)).
  { apply (c_rest_upto sd); [done| |by apply c_side_ids|done]. destruct Hv as [-> | ->]; apply Hw. }
  unfold c_update, add_of. cbn [mu_type_ mu_side_ mu_order_id_ mu_price_ mu_qty_ mu_priority_].
  assert (Eo : mkMarketOrder (mo_order_id_ o) (mo_side_ o) (mo_price_ o) (mo_qty_ o) (mo_priority_ o) = o) by (by destruct o).
  rewrite Eo, Es. unfold c_both, c_set. clear -Hown Hoth Hv.
  destruct Hv as [-> | ->]; unfold c_levels, opp in *; side_simpl; cbn [c_bids c_asks] in *; by rewrite Hown, Hoth.
Qed.

(** Replaying the orders from [k] on, by increasing id. *)
Lemma rebuild tid c os : ∀ k,
  c_book_wf c → StronglySorted (λ a b, mo_order_id_ a < mo_order_id_ b) os →
  (∀ mo, mo ∈ os ↔ mo ∈ c_orders_of c ∧ k ≤ mo_order_id_ mo) →
  c_updates (add_of tid <$> os) (c_both (upto k) c) = c.
Proof.
  induction os as [|o os IH]; intros k Hw Hs Hos.
  - cbn. assert (Hlt : ∀ mo, mo ∈ c_orders_of c → mo_order_id_ mo < k).
    { intros mo Hmo. apply Z.nle_gt. intros Hge. by apply (not_elem_of_nil mo), Hos. }
    destruct Hw as [[Hb _] [Ha _] _]. unfold c_both. destruct c as [bids asks]. cbn in *. f_equal; apply upto_all.
    + intros mo Hmo. apply Hlt, elem_of_app. by left.
    + eapply Forall_impl; [exact Hb|]. by intros l [].
    + intros mo Hmo. apply Hlt, elem_of_app. by right.
    + eapply Forall_impl; [exact Ha|]. by intros l [].
  - apply StronglySorted_cons in Hs as [Hlt Hs]. destruct (proj1 (Hos o) ltac:(by left)) as [Ho Hk].
    assert (Hskip : ∀ mo, mo ∈ c_orders_of c → mo_order_id_ mo < k ↔ mo_order_id_ mo < mo_order_id_ o).
    { intros mo Hmo. split; [lia|]. intros Hmlt. apply Z.nle_gt. intros Hge.
      assert (mo ∈ o :: os) as Hin by (by apply Hos). apply elem_of_cons in Hin as [->|Hin]; [lia|].
      rewrite Forall_forall in Hlt. specialize (Hlt mo Hin). cbn in Hlt. lia. }
    assert (E : c_both (upto k) c = c_both (upto (mo_order_id_ o)) c).
    { unfold c_both. f_equal; apply upto_ext; intros mo Hmo; apply Hskip, elem_of_app; [by left|by right]. }
    rewrite fmap_cons. unfold c_updates. cbn [foldl]. rewrite E, (add_upto tid o c Hw Ho).
    apply IH; [done|done|]. intros mo. split.
    + intros Hmo. rewrite Forall_forall in Hlt. specialize (Hlt mo Hmo). cbn in Hlt.
      assert (mo ∈ o :: os) as Hin by (by right). apply Hos in Hin as [? _]. split; [done|lia].
    + intros [Hmo Hge]. assert (mo ∈ o :: os) as Hin by (apply Hos; split; [done|lia]).
      apply elem_of_cons in Hin as [->|Hin]; [lia|done].
Qed.
End rebuild.

(** ** The feed, update by update *)

Section feed.
Context `{Cfg : Config, !ConfigOk Cfg}.
Implicit Types (sd : Side.t) (c : CBook) (l : CLevel) (ls : list CLevel) (mo o : MarketOrder) (u : MEMarketUpdate).

Lemma c_drop_sublist oid ls : (c_price <$> c_drop oid ls) `sublist_of` (c_price <$> ls).
Proof.
  unfold c_drop. induction ls as [|l ls IH]; [done|]. rewrite !fmap_cons, filter_cons. case_decide.
  - rewrite fmap_cons. by apply sublist_skip.
  - by apply sublist_cons.
Qed.

(** A side is sorted when its prices are. *)
Lemma c_side_sorted sd ls :
  StronglySorted (c_better sd) ls ↔
  StronglySorted (λ p q, if Side.eqb sd Side.BUY then q < p else p < q) (c_price <$> ls).
Proof.
  induction ls as [|l ls IH]; [by split; constructor|]. rewrite fmap_cons, !StronglySorted_cons, IH, Forall_fmap.
  split; intros [Hf Hs]; (split; [|done]); exact Hf.
Qed.

Lemma drop_side_wf sd oid ls : c_side_wf sd ls → c_side_wf sd (c_drop oid ls).
Proof.
  intros [Hf Hs]. split.
  - unfold c_drop. apply Forall_forall. intros l [Hne (k & -> & Hk)%list_elem_of_fmap]%list_elem_of_filter.
    rewrite Forall_forall in Hf. destruct (Hf k Hk) as (_ & Hv & Hsrt). split; [done|]. cbn. split.
    + rewrite Forall_forall in *. intros mo [_ Hmo]%list_elem_of_filter. by apply Hv.
    + eapply StronglySorted_sublist; [apply sublist_filter|exact Hsrt].
  - apply c_side_sorted in Hs. apply c_side_sorted. eapply StronglySorted_sublist; [apply c_drop_sublist|exact Hs].
Qed.

Lemma modify_one_id oid q mo : mo_order_id_ (modify_one oid q mo) = mo_order_id_ mo.
Proof. unfold modify_one. by case_match. Qed.

Lemma modify_side_wf sd oid q ls : c_side_wf sd ls → c_side_wf sd (c_modify oid q ls).
Proof.
  intros [Hf Hs]. split.
  - unfold c_modify. rewrite Forall_fmap. eapply Forall_impl; [exact Hf|]. intros l (Hne & Hv & Hsrt). cbn.
    split; [|split]; cbn.
    + by intros E%fmap_nil_inv.
    + rewrite Forall_fmap. eapply Forall_impl; [exact Hv|]. intros mo [? ?]. cbn. by case_match.
    + clear -Hsrt. induction Hsrt as [|mo os Hs IH Hlt]; [constructor|]. rewrite fmap_cons. constructor; [done|].
      rewrite Forall_fmap. eapply Forall_impl; [exact Hlt|]. intros o Ho. cbn.
      change (mo_order_id_ (modify_one oid q mo) < mo_order_id_ (modify_one oid q o)). by rewrite !modify_one_id.
  - apply c_side_sorted in Hs. apply c_side_sorted. unfold c_modify. by rewrite <- list_fmap_compose.
Qed.

Lemma insert_where_sorted {A} (R : relation A) (adv : A → bool) x (ks : list A) :
  (∀ k, adv k = true → k ∈ ks → R k x) → (∀ k, adv k = false → k ∈ ks → R x k) → Transitive R →
  StronglySorted R ks → StronglySorted R (insert_where adv x ks).
Proof.
  intros Ht Hfa HT Hs. induction Hs as [|k ks Hs IH Hk]; [by repeat constructor|]. cbn. destruct (adv k) eqn:E.
  - constructor; [apply IH; intros j Hj Hin; [apply Ht|apply Hfa]; try done; by right|].
    apply Forall_forall. intros j Hj. rewrite insert_where_perm in Hj. apply elem_of_cons in Hj as [->|Hj].
    + apply Ht; [done|by left].
    + rewrite Forall_forall in Hk. by apply Hk.
  - constructor; [by constructor|]. constructor; [apply Hfa; [done|by left]|].
    eapply Forall_impl; [exact Hk|]. intros j Hj. etransitivity; [|exact Hj]. apply Hfa; [done|by left].
Qed.

#[local] Instance c_better_trans sd : Transitive (c_better sd).
Proof. unfold c_better. intros x y z. destruct (Side.eqb sd Side.BUY); lia. Qed.

Lemma rest_side_wf sd mo ls :
  valid_side sd → mo_side_ mo = sd → c_side_wf sd ls → (∀ o, o ∈ c_all ls → mo_order_id_ o < mo_order_id_ mo) →
  c_side_wf sd (c_rest mo ls).
Proof.
  intros Hv Hsd [Hf Hs] Hlt. unfold c_rest. destruct (existsb _ ls) eqn:Ex.
  - split.
    + rewrite Forall_fmap. apply Forall_forall. intros l Hl. rewrite Forall_forall in Hf.
      destruct (Hf l Hl) as (Hne & Hval & Hsrt). cbn. unfold c_append. case Z.eqb_spec; intros Hp; [|done].
      split; [by destruct (c_orders l)|]. cbn. split.
      * apply Forall_app. split; [done|]. by apply Forall_singleton.
      * apply StronglySorted_app. split_and!; [|done|by repeat constructor].
        intros a b Ha Hb. apply list_elem_of_singleton in Hb as ->. apply Hlt. unfold c_all.
        apply list_elem_of_bind. by exists l.
    + apply c_side_sorted in Hs. apply c_side_sorted. rewrite <- list_fmap_compose.
      rewrite (list_fmap_ext (c_price ∘ c_append mo) c_price); [done|]. intros i l _.
      unfold compose, c_append. by destruct (c_price l =? mo_price_ mo).
  - assert (Hne : ∀ l, l ∈ ls → c_price l ≠ mo_price_ mo).
    { intros l Hl. apply Z.eqb_neq. by eapply existsb_not_elem in Ex. }
    split.
    + eapply Forall_perm; [symmetry; apply insert_where_perm|]. constructor; [|done]. split; [done|].
      cbn. split; [by constructor|by repeat constructor].
    + apply insert_where_sorted; [..|apply _|done]; intros k Hk Hin; specialize (Hne k Hin); unfold c_better; cbn;
        rewrite Hsd in Hk; destruct Hv as [-> | ->]; side_simpl; first [apply Z.ltb_lt in Hk|apply Z.ltb_ge in Hk]; lia.
Qed.

(** *** Well-formed updates *)

Definition resting_update u : Prop :=
  mu_type_ u = MarketUpdateType.TRADE ∨ mu_type_ u = MarketUpdateType.MODIFY ∨ mu_type_ u = MarketUpdateType.CANCEL.

(** [nx]: per ticker, a bound on the order ids seen. *)
Definition update_ok (nx : TickerId → OrderId) u : Prop :=
  0 ≤ mu_ticker_id_ u < ME_MAX_TICKERS ∧
  (resting_update u ∨
   mu_type_ u = MarketUpdateType.ADD ∧ valid_side (mu_side_ u) ∧ nx (mu_ticker_id_ u) ≤ mu_order_id_ u < ME_MAX_ORDER_IDS).
Definition bump (nx : TickerId → OrderId) u : TickerId → OrderId :=
  if decide (mu_type_ u = MarketUpdateType.ADD) then
    λ t, if t =? mu_ticker_id_ u then mu_order_id_ u + 1 else nx t
  else nx.
Fixpoint feed_ok (nx : TickerId → OrderId) (us : list MEMarketUpdate) : Prop :=
  match us with [] => True | u :: us => update_ok nx u ∧ feed_ok (bump nx u) us end.
Definition bumps (us : list MEMarketUpdate) nx : TickerId → OrderId := foldl bump nx us.

Lemma feed_ok_app us us' : ∀ nx, feed_ok nx (us ++ us') ↔ feed_ok nx us ∧ feed_ok (bumps us nx) us'.
Proof. induction us as [|u us IH]; intros nx; cbn; [tauto|]. rewrite IH. tauto. Qed.

Record c_ok (n : OrderId) c : Prop := {
  co_wf : c_book_wf c;
  co_below : ids_below n c;
  co_pos : ∀ mo, mo ∈ c_orders_of c → 1 ≤ mo_order_id_ mo;
}.

Lemma c_ids_drop oid c : NoDup (mo_order_id_ <$> c_orders_of c) → NoDup (mo_order_id_ <$> c_orders_of (c_both (c_drop oid) c)).
Proof.
  intros Hn. unfold c_both, c_orders_of in *. cbn [c_bids c_asks]. rewrite !c_all_drop, <- filter_app.
  eapply sublist_NoDup; [exact Hn|]. apply (fmap_sublist mo_order_id_), sublist_filter.
Qed.

Lemma c_ids_modify oid q c : mo_order_id_ <$> c_orders_of (c_both (c_modify oid q) c) = mo_order_id_ <$> c_orders_of c.
Proof.
  unfold c_both, c_orders_of. cbn [c_bids c_asks]. rewrite !c_all_modify, <- fmap_app, <- list_fmap_compose.
  apply list_fmap_ext. intros i mo _. apply modify_one_id.
Qed.

Lemma c_all_rest_perm mo ls :
  StronglySorted (c_better (mo_side_ mo)) ls → c_all (c_rest mo ls) ≡ₚ mo :: c_all ls.
Proof.
  intros Hs. unfold c_rest. destruct (existsb _ ls) eqn:Ex.
  - apply existsb_elem in Ex as (l & Hl & Hp). apply list_elem_of_split in Hl as (l1 & l2 & ->).
    apply StronglySorted_app in Hs as (H1 & _ & H2). apply StronglySorted_cons in H2 as [H2 _].
    apply Z.eqb_eq in Hp.
    rewrite fmap_app, fmap_cons, !c_append_other.
    + unfold c_all. rewrite !bind_app, !bind_cons. unfold c_append. rewrite Hp, Z.eqb_refl. cbn [c_orders].
      rewrite <- !app_assoc. cbn [app]. by rewrite <- !Permutation_middle.
    + intros k Hk. rewrite Forall_forall in H2. specialize (H2 k Hk). unfold c_better in H2.
      destruct (Side.eqb _ _); lia.
    + intros k Hk. specialize (H1 k l Hk ltac:(by left)). unfold c_better in H1. destruct (Side.eqb _ _); lia.
  - unfold c_all. rewrite insert_where_perm. by rewrite bind_cons.
Qed.

Lemma c_ok_update nx c u :
  c_ok (nx (mu_ticker_id_ u)) c → update_ok nx u → 1 ≤ nx (mu_ticker_id_ u) → nx (mu_ticker_id_ u) ≤ ME_MAX_ORDER_IDS →
  c_ok (bump nx u (mu_ticker_id_ u)) (c_update u c).
Proof.
  intros [[Hb Ha Hn] Hlt Hpos] [Htid Hty] Hnx Hmax. unfold bump.
  destruct Hty as [Hty|(Ht & Hv & Hid)].
  - rewrite decide_False by (destruct Hty as [->|[-> | ->]]; done). destruct Hty as [Ht|[Ht|Ht]].
    + unfold c_update. rewrite Ht. by split.
    + split; [|intros mo (o & Ho & ->)%(modify_orders u c mo Ht); rewrite modify_one_id; by apply Hlt
        |intros mo (o & Ho & ->)%(modify_orders u c mo Ht); rewrite modify_one_id; by apply Hpos].
      unfold c_update. rewrite Ht. split; [by apply modify_side_wf..|by rewrite c_ids_modify].
    + split; [|intros mo [Ho _]%(cancel_orders u c mo Ht); by apply Hlt
        |intros mo [Ho _]%(cancel_orders u c mo Ht); by apply Hpos].
      unfold c_update. rewrite Ht. split; [by apply drop_side_wf..|by apply c_ids_drop].
  - rewrite decide_True, Z.eqb_refl by done. set (mo := mkMarketOrder (mu_order_id_ u) (mu_side_ u) (mu_price_ u) (mu_qty_ u) (mu_priority_ u)).
    split.
    + assert (Hown : c_side_wf (mu_side_ u) (c_levels (mu_side_ u) c)) by (by destruct Hv as [-> | ->]).
      assert (Hr : c_side_wf (mu_side_ u) (c_rest mo (c_levels (mu_side_ u) c))).
      { apply rest_side_wf; [done|done|done|]. intros o Ho.
        assert (mo_order_id_ o < nx (mu_ticker_id_ u)); [|cbn; lia]. apply Hlt. unfold c_orders_of.
        destruct Hv as [Hv|Hv]; rewrite Hv in Ho; apply elem_of_app; [by left|by right]. }
      assert (Hp : c_orders_of (c_update u c) ≡ₚ mo :: c_orders_of c).
      { unfold c_update. rewrite Ht. fold mo. pose proof (c_all_rest_perm mo _ (proj2 Hown)) as Hp.
        unfold c_orders_of, c_set, c_levels in *. clearbody mo. clear -Hp Hv.
        destruct Hv as [E|E]; rewrite E in *; side_simpl; cbn [c_bids c_asks] in *; rewrite Hp; [done|].
        by rewrite Permutation_middle. }
      split.
      * unfold c_update. rewrite Ht. fold mo. clear -Hb Ha Hr Hv. unfold c_set, c_levels in *.
        destruct Hv as [E|E]; rewrite E in *; side_simpl; done.
      * unfold c_update. rewrite Ht. fold mo. clear -Hb Ha Hr Hv. unfold c_set, c_levels in *.
        destruct Hv as [E|E]; rewrite E in *; side_simpl; done.
      * rewrite Hp, fmap_cons. apply NoDup_cons. split; [|done]. intros (o & E & Ho)%list_elem_of_fmap.
        pose proof (Hlt o Ho). cbn in E. lia.
    + intros o [->|Ho]%(add_orders u c o Ht); [cbn; lia|]. pose proof (Hlt o Ho). lia.
    + intros o [->|Ho]%(add_orders u c o Ht); [cbn; lia|]. by apply Hpos.
Qed.
End feed.
