(* ===== verification/FeedConsistency.v ===== *)
(** The client's books follow the exchange through any loss.

    [route] is what a client does with an update: apply it to the book of its
    ticker, or clear every book (TradeEngine::handleMarketUpdate).
    [books_inv] holds along the updates of an exchange session; with it,
    [rebuild_books] shows that a snapshot cycle routed to any books gives the
    books after the updates it covers; ClientMirror.v composes it with the
    consumer. *)

From S2P Require Import Prelude Types Wire Framing MemPool LevelBook LevelBookRep LFQueue.
From S2P Require Import MEOrder OrderBookSpec OrderBookInv OrderBookProps MEOrderBook MEOrderBookMatching MEOrderBookRefines MEOrderBookProps.
From S2P Require Import MatchingEngine MatchingEngineRefines MarketOrderBook MarketOrderBookRefines Replication.
From S2P Require Import Sockets McastSocket MarketDataPublisher MarketDataConsumer MarketDataConsumerProps SnapshotSynthesizer SnapshotImage.

(** ** Routing *)

Section route.
Context `{Cfg : Config, !ConfigOk Cfg}.
Implicit Types (c : CBook) (u : MEMarketUpdate) (us : list MEMarketUpdate) (bs : list CBook) (m : gmap (Z * Z) MEMarketUpdate).
Implicit Types (tid : Z).
Local Set Default Proof Using "All".

Definition route u bs : list CBook :=
  if ME_MAX_TICKERS <=? mu_ticker_id_ u then
    if decide (mu_type_ u = MarketUpdateType.CLEAR) then c_update u <$> bs else bs
  else alter (c_update u) (Z.to_nat (mu_ticker_id_ u)) bs.
Definition routes us bs : list CBook := apply route us bs.

Definition no_books : list CBook := replicate (Z.to_nat ME_MAX_TICKERS) (mkCBook [] []).

Lemma route_length u bs : length (route u bs) = length bs.
Proof. unfold route. destruct (_ <=? _); [case_decide; [apply length_fmap|done]|apply length_alter]. Qed.

Lemma routes_length us : ∀ bs, length (routes us bs) = length bs.
Proof.
  induction us as [|u us IH]; intros bs; [done|]. change (routes (u :: us) bs) with (routes us (route u bs)).
  by rewrite IH, route_length.
Qed.

Lemma route_lookup u bs tid : 0 ≤ mu_ticker_id_ u < ME_MAX_TICKERS → 0 ≤ tid →
  route u bs !! Z.to_nat tid = (if mu_ticker_id_ u =? tid then c_update u else id) <$> bs !! Z.to_nat tid.
Proof.
  intros Hu Ht. unfold route. rewrite (proj2 (Z.leb_gt _ _)) by lia. case Z.eqb_spec; intros E.
  - subst. by rewrite list_lookup_alter_eq.
  - rewrite list_lookup_alter_ne by lia. by destruct (bs !! _).
Qed.

(** Routed updates reach a ticker's book in order, and no other. *)
Lemma routes_lookup us tid : ∀ bs, Forall (λ u, 0 ≤ mu_ticker_id_ u < ME_MAX_TICKERS) us → 0 ≤ tid →
  routes us bs !! Z.to_nat tid = c_updates (filter (λ u, mu_ticker_id_ u = tid) us) <$> bs !! Z.to_nat tid.
Proof.
  induction us as [|u us IH]; intros bs Hf Ht; [change (routes [] bs) with bs; by destruct (bs !! _)|].
  apply Forall_cons in Hf as [Hu Hf]. change (routes (u :: us) bs) with (routes us (route u bs)).
  rewrite IH, route_lookup, filter_cons by done. case Z.eqb_spec; intros E; case_decide; try done.
  - by destruct (bs !! _).
  - by destruct (bs !! _).
Qed.

(** ** Along a feed *)

Record book_inv (n : OrderId) tid bs m : Prop := {
  bi_book : ∃ c, bs !! Z.to_nat tid = Some c ∧ c_ok n c ∧ book_image tid c m;
  bi_bound : 1 ≤ n ≤ ME_MAX_ORDER_IDS;
}.
Record books_inv (nx : TickerId → OrderId) bs m : Prop := {
  bk_length : length bs = Z.to_nat ME_MAX_TICKERS;
  bk_book : ∀ tid, 0 ≤ tid < ME_MAX_TICKERS → book_inv (nx tid) tid bs m;
}.

Lemma no_books_inv : books_inv (λ _, 1) no_books ∅.
Proof.
  split; [apply length_replicate|]. intros tid Ht. pose proof cfg_order_ids. split; [|lia].
  exists (mkCBook [] []). split; [apply lookup_replicate; split; [done|lia]|]. split.
  - split; [split; try (by split; constructor); constructor|by intros mo Hmo%not_elem_of_nil..].
  - intros oid u. rewrite lookup_empty. split; [done|]. by intros (mo & Hmo%not_elem_of_nil & _).
Qed.

Lemma route_inv nx bs m u :
  books_inv nx bs m → update_ok nx u → books_inv (bump nx u) (route u bs) (image_update u m).
Proof.
  intros [Hl Hb] Hu. split; [by rewrite route_length|]. intros tid Ht. destruct (Hb tid Ht) as [(c & Hc & Hok & Him) Hn].
  pose proof Hu as [Htid Hty]. destruct (Z.eqb_spec (mu_ticker_id_ u) tid) as [E|E].
  - pose proof Hok as [_ Hlt _]. split.
    + exists (c_update u c). rewrite route_lookup, Hc by (try done; lia). rewrite (proj2 (Z.eqb_eq _ _) E). split; [done|].
      subst tid. split; [apply c_ok_update; [done|done|lia|lia]|].
      destruct Hty as [Hty|(Hta & Hv & Hid)].
      * apply (book_fill_image _ (nx (mu_ticker_id_ u))); first [lia|by split|done].
      * apply book_add_image; try first [done|lia]. intros mo Hmo. pose proof (Hlt mo Hmo). lia.
    + unfold bump. case_decide as Eb; [|done]. rewrite (proj2 (Z.eqb_eq _ _)) by done.
      destruct Hty as [[Hty|[Hty|Hty]]|(_ & _ & Hid)]; [congruence..|]. subst tid. lia.
  - assert (Eb : bump nx u tid = nx tid).
    { unfold bump. case_decide; [|done]. by rewrite (proj2 (Z.eqb_neq tid _)) by congruence. }
    rewrite Eb. split; [|done]. exists c. rewrite route_lookup, Hc by (try done; lia).
    rewrite (proj2 (Z.eqb_neq _ _) E). split; [done|]. split; [done|]. by apply book_image_other.
Qed.

Definition images us : gmap (Z * Z) MEMarketUpdate := foldl (λ m u, image_update u m) ∅ us.

Lemma routes_inv us : ∀ nx bs m,
  books_inv nx bs m → feed_ok nx us →
  books_inv (bumps us nx) (routes us bs) (foldl (λ m u, image_update u m) m us).
Proof.
  induction us as [|u us IH]; intros nx bs m Hi Hf; [done|]. destruct Hf as [Hu Hf].
  apply (IH (bump nx u)); [by apply route_inv|done].
Qed.

(** ** A snapshot cycle rebuilds the books *)

Definition order_of u : MarketOrder :=
  mkMarketOrder (mu_order_id_ u) (mu_side_ u) (mu_price_ u) (mu_qty_ u) (mu_priority_ u).
Lemma order_of_add tid mo : order_of (add_of tid mo) = mo.
Proof. by destruct mo. Qed.

Lemma held_sorted tid c m (ids : list Z) :
  book_image tid c m → StronglySorted Z.lt ids →
  StronglySorted (λ a b, mo_order_id_ a < mo_order_id_ b) (order_of <$> held m ids tid) ∧
  held m ids tid = add_of tid <$> (order_of <$> held m ids tid) ∧
  (∀ mo, mo ∈ order_of <$> held m ids tid ↔ mo ∈ c_orders_of c ∧ mo_order_id_ mo ∈ ids).
Proof.
  intros Hi Hs. induction Hs as [|i ids Hs (IH1 & IH2 & IH3) Hlt].
  - cbn. split_and!; [constructor|done|]. intros mo. rewrite !elem_of_nil. tauto.
  - assert (Hh : held m (i :: ids) tid = match m !! (tid, i) with
      Some u => u :: held m ids tid | None => held m ids tid end) by done.
    rewrite Hh. clear Hh. destruct (m !! (tid, i)) as [u|] eqn:E.
    + pose proof E as (mo & Hmo & Hid & ->)%Hi. rewrite fmap_cons, order_of_add. split_and!.
      * constructor; [done|]. apply Forall_forall. intros o Ho. apply IH3 in Ho as [_ Ho].
        rewrite Forall_forall in Hlt. rewrite Hid. by apply Hlt.
      * rewrite fmap_cons. by f_equal.
      * intros o. rewrite elem_of_cons, IH3, elem_of_cons. split; [intros [->|[? ?]]; [by split; [|left]|tauto]|].
        intros [Ho [Hoi|Hoi]]; [left|right; done].
        assert (m !! (tid, i) = Some (add_of tid o)) as E' by (apply Hi; by exists o).
        rewrite E in E'. injection E' as E1 E2 E3 E4 E5. destruct o, mo. cbn in *. by subst.
    + split_and!; [done|done|]. intros o. rewrite IH3, elem_of_cons. split; [tauto|].
      intros [Ho [Hoi|Hoi]]; [|done]. exfalso. assert (m !! (tid, i) = Some (add_of tid o)) as E' by (apply Hi; by exists o).
      congruence.
Qed.

Lemma seqZ_sorted a n : StronglySorted Z.lt (seqZ a n).
Proof.
  unfold seqZ. generalize (Z.to_nat n). intros k. generalize 0%nat. induction k as [|k IH]; intros j; [constructor|].
  cbn. constructor; [apply IH|]. apply Forall_forall. intros x (i & -> & Hi)%list_elem_of_fmap.
  apply elem_of_seq in Hi. lia.
Qed.

(** What a cycle holds of one ticker. *)
Lemma cycle_adds_ticker nx bs m tid :
  books_inv nx bs m → 0 ≤ tid < ME_MAX_TICKERS →
  filter (λ u, mu_ticker_id_ u = tid) (cycle_adds m) = held m (seqZ 0 ME_MAX_ORDER_IDS) tid ∧
  Forall (λ u, 0 ≤ mu_ticker_id_ u < ME_MAX_TICKERS) (cycle_adds m).
Proof.
  intros [_ Hb] Ht. set (ids := seqZ 0 ME_MAX_ORDER_IDS).
  assert (Hadd : ∀ t, 0 ≤ t < ME_MAX_TICKERS → Forall (λ u, mu_ticker_id_ u = t) (held m ids t) ∧ as_add <$> held m ids t = held m ids t).
  { intros t Htt. destruct (Hb t Htt) as [(c & _ & _ & Hi) _].
    destruct (held_sorted t c m ids Hi (seqZ_sorted _ _)) as (_ & E & _). rewrite E. split.
    - rewrite Forall_fmap. by apply Forall_forall.
    - rewrite <- (list_fmap_compose _ as_add). by apply list_fmap_ext. }
  assert (Hall : ∀ ts, Forall (λ t, 0 ≤ t < ME_MAX_TICKERS) ts → NoDup ts →
    filter (λ u, mu_ticker_id_ u = tid) (as_add <$> (ts ≫= held m ids)) = (if decide (tid ∈ ts) then held m ids tid else []) ∧
    Forall (λ u, 0 ≤ mu_ticker_id_ u < ME_MAX_TICKERS) (as_add <$> (ts ≫= held m ids))).
  { induction ts as [|t ts IH]; intros Hts Hnd.
    - split; [|constructor]. by rewrite decide_False by apply not_elem_of_nil.
    - apply Forall_cons in Hts as [Htt Hts]. apply NoDup_cons in Hnd as [Hni Hnd]. destruct (IH Hts Hnd) as [IH1 IH2].
      destruct (Hadd t Htt) as [Hft Eas]. rewrite bind_cons, fmap_app, filter_app, Eas, IH1. split.
      + destruct (decide (t = tid)) as [->|Hne].
        * rewrite filter_all by done. rewrite decide_False by done. rewrite decide_True by (by left). apply app_nil_r.
        * rewrite filter_none by (eapply Forall_impl; [exact Hft|]; intros u <-; done). cbn [app].
          do 2 case_decide; try done; exfalso; set_solver.
      + apply Forall_app. split; [|done]. eapply Forall_impl; [exact Hft|]. intros u <-. done. }
  destruct (Hall (seqZ 0 ME_MAX_TICKERS)) as [H1 H2].
  - apply Forall_forall. intros t Hin%elem_of_seqZ. lia.
  - apply NoDup_seqZ.
  - unfold cycle_adds. fold ids. split; [|done]. rewrite H1, decide_True; [done|]. apply elem_of_seqZ. lia.
Qed.

Lemma route_clear bs : length bs = Z.to_nat ME_MAX_TICKERS → route clear_update bs = no_books.
Proof.
  intros Hl. pose proof cfg_tickers as Hcfg. unfold route. rewrite (proj2 (Z.leb_le _ _)).
  - rewrite decide_True by done. unfold no_books. rewrite <- Hl. clear. induction bs as [|b bs IH]; [done|]. cbn.
    f_equal. apply IH.
  - change (mu_ticker_id_ clear_update) with INVALID32. unfold INVALID32. lia.
Qed.

Lemma rebuild_books nx bs m bs' :
  books_inv nx bs m → length bs' = Z.to_nat ME_MAX_TICKERS →
  routes (clear_update :: cycle_adds m) bs' = bs.
Proof.
  intros Hi Hl'. pose proof Hi as [Hl Hb]. pose proof cfg_tickers as Hcfg.
  change (routes (clear_update :: cycle_adds m) bs') with (routes (cycle_adds m) (route clear_update bs')).
  rewrite (route_clear bs' Hl'). apply list_eq. intros i. destruct (decide (i < Z.to_nat ME_MAX_TICKERS)%nat) as [Hlt|Hge].
  2:{ rewrite !lookup_ge_None_2; [done|lia|]. rewrite routes_length. unfold no_books. rewrite length_replicate. lia. }
  destruct (Hb (Z.of_nat i) ltac:(lia)) as [(c & Hc & [Hw Hlt' Hpos] & Him) Hn]. rewrite Nat2Z.id in Hc.
  destruct (cycle_adds_ticker nx bs m (Z.of_nat i) Hi) as [Hfil Hfor]; [lia|].
  pose proof (routes_lookup (cycle_adds m) (Z.of_nat i) no_books Hfor ltac:(lia)) as E. rewrite Nat2Z.id in E.
  rewrite E, Hc, Hfil. unfold no_books. rewrite lookup_replicate_2 by done. cbn. f_equal.
  destruct (held_sorted (Z.of_nat i) c m (seqZ 0 ME_MAX_ORDER_IDS) Him (seqZ_sorted _ _)) as (Hs & Eh & Hel).
  rewrite Eh. set (os := order_of <$> held m (seqZ 0 ME_MAX_ORDER_IDS) (Z.of_nat i)) in *.
  assert (E0 : mkCBook [] [] = c_both (upto 1) c).
  { unfold c_both. rewrite !upto_none; [done|..]; intros mo Hmo; apply Hpos; apply elem_of_app; [by right|by left]. }
  rewrite E0. apply rebuild; [done|done|]. intros mo. rewrite Hel, elem_of_seqZ. split.
  - intros [Hmo Hid]. split; [done|]. by apply Hpos.
  - intros [Hmo Hid]. split; [done|]. pose proof (Hlt' mo Hmo). lia.
Qed.

(** ** The exchange's side *)

(** What the updates of one request do to the book of its ticker: as the
    reference auction says, in a feed that stays well formed. *)
Definition request_updates tid (us : list MEMarketUpdate) (s s' : SBook) : Prop :=
  Forall (λ u, mu_ticker_id_ u = tid) us ∧ c_updates us (view s) = view s' ∧
  ∀ nx, nx tid ≤ s_next s → 0 ≤ tid < ME_MAX_TICKERS → s_next s < ME_MAX_ORDER_IDS →
    feed_ok nx us ∧ bumps us nx tid ≤ s_next s' ∧ ∀ t, t ≠ tid → bumps us nx t = nx t.

Lemma fills_feed tid us : ∀ nx, Forall (fill_update tid) us → 0 ≤ tid < ME_MAX_TICKERS →
  feed_ok nx us ∧ bumps us nx = nx.
Proof.
  induction us as [|u us IH]; intros nx Hf Ht; [done|]. apply Forall_cons in Hf as [[Hu Hty] Hf].
  assert (Eb : bump nx u = nx) by (unfold bump; rewrite decide_False; [done|destruct Hty as [->|[-> | ->]]; done]).
  change (bumps (u :: us) nx) with (bumps us (bump nx u)). cbn [feed_ok]. rewrite Eb.
  destruct (IH nx Hf Ht). split; [|done]. split; [|done]. split; [by subst|by left].
Qed.

Lemma fill_ticker tid us : Forall (fill_update tid) us → Forall (λ u, mu_ticker_id_ u = tid) us.
Proof. intros Hf. eapply Forall_impl; [exact Hf|]. by intros u [? _]. Qed.

Lemma nothing_updates tid s s' : view s = view s' → s_next s = s_next s' → request_updates tid [] s s'.
Proof. intros Hv Hn. split; [constructor|]. split; [done|]. intros nx H1 _ _. split; [done|]. split; [cbn; lia|done]. Qed.

Lemma add_request_updates cid oid tid sd price qty s :
  book_wf s → moids_unique s → valid_side sd → is_u32 qty → s_next s < ME_MAX_ORDER_IDS →
  request_updates tid (updates (s_add cid oid tid sd price qty s).1) s (s_add cid oid tid sd price qty s).2.
Proof.
  intros Hw Hu Hv Hq Hn. pose proof (wf_next s Hw) as Hn1. pose proof cfg_order_ids as Hcfg.
  destruct (s_accepts cid oid price s) eqn:Ea; [|unfold s_add; rewrite Ea; by apply nothing_updates].
  destruct (sweep (aggressor cid oid tid sd price s) qty (s_levels (opp sd) s)) as [[ev rst] lv] eqn:Es.
  destruct (s_add_accepted cid oid tid sd price qty s ev rst lv Ea Es) as (o & Eo & ->). cbn [fst snd].
  pose proof (swept_view _ s sd qty ev rst lv Hw Hu Hv (proj1 Hq) Es) as Hsw.
  pose proof (sweep_fill (aggressor cid oid tid sd price s) (s_levels (opp sd) s) qty) as Hfl. rewrite Es in Hfl. cbn [fst] in Hfl.
  change (ag_ticker (aggressor cid oid tid sd price s)) with tid in Hfl.
  change (updates (Resp ?x :: ?l)) with (updates l). rewrite updates_app.
  assert (Hnext : u64 (s_next s + 1) = s_next s + 1) by (apply u64_id; unfold is_u64; lia).
  assert (Hset : ∀ own, s_next (s_set sd own rst (u64 (s_next s + 1))) = s_next s + 1).
  { intros own. unfold s_set. destruct (Side.eqb _ _); cbn; lia. }
  destruct (0 <? lv).
  - change (updates [Upd ?u]) with [u]. assert (Hqo : qty_ o = lv) by (by subst o). assert (Hso : o_side_ o = sd) by (by subst o).
    split; [|split].
    + apply Forall_app. split; [by apply fill_ticker|by apply Forall_singleton].
    + rewrite c_updates_app, Hsw, <- Hqo. by apply rested_view.
    + intros nx Hnx Ht Hmax. destruct (fills_feed tid _ nx Hfl Ht) as [Hf Hb]. rewrite feed_ok_app, Hb.
      unfold bumps at 1 2. rewrite foldl_app. fold (bumps (updates ev) nx). rewrite Hb. cbn [foldl]. unfold bump.
      rewrite decide_True by done. cbn [mu_ticker_id_ order_update mu_order_id_]. rewrite Z.eqb_refl, Hset.
      assert (Hid : market_order_id_ o = s_next s) by (by subst o). rewrite Hid. split_and!; try done; try lia.
      * split; [|done]. split; [done|right]. cbn. rewrite Hso, Hid. split_and!; try done; lia.
      * intros t Hne. by rewrite (proj2 (Z.eqb_neq _ _)).
  - change (updates []) with (@nil MEMarketUpdate). rewrite app_nil_r. split; [by apply fill_ticker|]. split.
    + rewrite Hsw. by rewrite view_set.
    + intros nx Hnx Ht Hmax. destruct (fills_feed tid _ nx Hfl Ht) as [Hf Hb]. rewrite Hb, Hset. split_and!; [done|lia|done].
Qed.

Lemma cancel_request_updates cid oid tid s :
  book_wf s → moids_unique s →
  request_updates tid (updates (s_cancel cid oid tid s).1) s (s_cancel cid oid tid s).2.
Proof.
  intros Hw Hu. unfold s_cancel.
  destruct (if id_ok cid oid then list_find _ _ else None) as [[i o]|] eqn:Ef; [|by apply nothing_updates].
  destruct (id_ok cid oid); [|done]. apply list_find_Some in Ef as (Ho & Hk & _).
  apply list_elem_of_lookup_2 in Ho. cbn [fst snd]. change (updates [Upd ?u; Resp ?x]) with [u].
  assert (Hfl : Forall (fill_update tid) [order_update MarketUpdateType.CANCEL tid o (qty_ o)]).
  { apply Forall_singleton. split; [done|]. right. by right. }
  split; [by apply fill_ticker|]. split.
  - rewrite <- Hk. by apply canceled_view.
  - intros nx Hnx Ht Hmax. destruct (fills_feed tid _ nx Hfl Ht) as [Hf Hb]. rewrite Hb. by split_and!.
Qed.

(** The client's books [bs] are the views of the exchange's; every book has
    taken fewer than [n] orders. *)
Record views (n : OrderId) (nx : TickerId → OrderId) (books : gmap Z SBook) bs : Prop := {
  vw_length : length bs = Z.to_nat ME_MAX_TICKERS;
  vw_book : ∀ tid, 0 ≤ tid < ME_MAX_TICKERS →
    let s := s_book tid books in
    bs !! Z.to_nat tid = Some (view s) ∧ book_wf s ∧ moids_unique s ∧ nx tid ≤ s_next s ≤ n;
}.

Lemma no_books_views : views 1 (λ _, 1) ∅ no_books.
Proof.
  split; [apply length_replicate|]. intros tid Ht s. subst s. unfold s_book. rewrite lookup_empty. cbn.
  split_and!; [apply lookup_replicate_2; lia|apply empty_book_wf|constructor|lia|lia].
Qed.

Lemma views_insert n nx books bs tid us s' :
  views n nx books bs → 0 ≤ tid < ME_MAX_TICKERS → n < ME_MAX_ORDER_IDS →
  request_updates tid us (s_book tid books) s' → book_wf s' → moids_unique s' → s_next s' ≤ n + 1 →
  feed_ok nx us ∧ views (n + 1) (bumps us nx) (<[ tid := s' ]> books) (routes us bs).
Proof.
  intros [Hl Hb] Ht Hn (Hus & Hview & Hfeed) Hw' Hu' Hn'.
  destruct (Hb tid Ht) as (Hbs & Hw & Hu & Hnx). destruct (Hfeed nx) as (Hf & Hbt & Hbo); [lia|done|lia|].
  split; [done|]. split; [by rewrite routes_length|]. intros t Htt s.
  assert (Hin : Forall (λ u, 0 ≤ mu_ticker_id_ u < ME_MAX_TICKERS) us).
  { eapply Forall_impl; [exact Hus|]. by intros u <-. }
  rewrite (routes_lookup us t bs Hin) by lia. subst s. destruct (decide (t = tid)) as [->|Hne].
  - assert (Es : s_book tid (<[ tid := s' ]> books) = s') by (unfold s_book; by rewrite lookup_insert_eq).
    rewrite Es, Hbs. cbn. rewrite (filter_all _ us Hus), Hview. split_and!; try done; lia.
  - assert (Es : s_book t (<[ tid := s' ]> books) = s_book t books) by (unfold s_book; by rewrite lookup_insert_ne).
    rewrite Es, (filter_none _ us).
    2:{ eapply Forall_impl; [exact Hus|]. intros u Hut. cbn in Hut. congruence. }
    destruct (Hb t Htt) as (Hbs' & Hwt & Hut & Hnxt). rewrite Hbs', (Hbo t Hne). split_and!; try done; lia.
Qed.

Lemma process_views n nx books bs r :
  views n nx books bs → request_ok r → n < ME_MAX_ORDER_IDS →
  feed_ok nx (updates (s_process r books).1) ∧
  views (n + 1) (bumps (updates (s_process r books).1) nx) (s_process r books).2
    (routes (updates (s_process r books).1) bs).
Proof.
  intros Hv (Htid & Hcid & Hoid & Hpr & Hq & Hside) Hn. unfold s_process.
  case Z.leb_spec; intros Ht.
  { cbn [fst snd]. split; [done|]. destruct Hv as [Hl Hb]. split; [done|]. intros t Htt s.
    destruct (Hb t Htt) as (? & ? & ? & ? & ?). subst s. change (bumps _ nx) with nx. split_and!; try done; lia. }
  set (tid := rq_ticker_id_ r) in *. pose proof Hv as [_ Hb]. destruct (Hb tid ltac:(lia)) as (Hbs & Hw & Hu & Hnx).
  set (s := s_book tid books) in *. pose proof (wf_next s Hw). pose proof cfg_order_ids.
  assert (Hrej : feed_ok nx (updates (s_reject r)) ∧
    views (n + 1) (bumps (updates (s_reject r)) nx) (<[ tid := s ]> books) (routes (updates (s_reject r)) bs)).
  { apply views_insert; first [by apply nothing_updates|done|lia]. }
  destruct (rq_type_ r) eqn:Ety; try exact Hrej.
  - specialize (Hside eq_refl).
    pose proof (add_request_updates (rq_client_id_ r) (rq_order_id_ r) tid (rq_side_ r) (rq_price_ r) (rq_qty_ r)
      s Hw Hu Hside Hq ltac:(lia)) as Hru.
    pose proof (s_add_wf (rq_client_id_ r) (rq_order_id_ r) tid (rq_side_ r) (rq_price_ r)
      (rq_qty_ r) s Hw Hside Hq Hpr Hcid Hoid ltac:(lia)) as Hwf'.
    pose proof (s_add_moids (rq_client_id_ r) (rq_order_id_ r) tid (rq_side_ r) (rq_price_ r)
      (rq_qty_ r) s Hw Hu Hside (proj1 Hq)) as Hu'.
    pose proof (s_add_next (rq_client_id_ r) (rq_order_id_ r) tid (rq_side_ r) (rq_price_ r)
      (rq_qty_ r) s Hside ltac:(lia)) as Hnx'.
    destruct (s_add _ _ _ _ _ _ s) as [ev s']. cbn [fst snd] in *. apply views_insert; try done; lia.
  - pose proof (cancel_request_updates (rq_client_id_ r) (rq_order_id_ r) tid s Hw Hu) as Hru.
    pose proof (s_cancel_wf (rq_client_id_ r) (rq_order_id_ r) tid s Hw) as Hwf'.
    pose proof (s_cancel_moids (rq_client_id_ r) (rq_order_id_ r) tid s Hu) as Hu'.
    pose proof (s_cancel_next (rq_client_id_ r) (rq_order_id_ r) tid s) as Hnx'.
    destruct (s_cancel _ _ _ s) as [ev s']. cbn [fst snd] in *. apply views_insert; try done; lia.
Qed.

Lemma process_all_views reqs : ∀ n nx books bs,
  views n nx books bs → Forall request_ok reqs → n + Z.of_nat (length reqs) ≤ ME_MAX_ORDER_IDS →
  let r := s_process_all reqs books in
  feed_ok nx (updates r.1) ∧ ∃ nx', views (n + Z.of_nat (length reqs)) nx' r.2 (routes (updates r.1) bs).
Proof.
  induction reqs as [|r reqs IH]; intros n nx books bs Hv Hf Hn.
  - cbn. split; [done|]. exists nx. by rewrite Z.add_0_r.
  - apply Forall_cons in Hf as [Hr Hf]. cbn [length] in *.
    destruct (process_views n nx books bs r Hv Hr) as [Hf1 Hv1]; [lia|].
    cbn [s_process_all]. destruct (s_process r books) as [ev books1]. cbn [fst snd] in *.
    specialize (IH _ _ _ _ Hv1 Hf ltac:(lia)). destruct (s_process_all reqs books1) as [ev' books2]. cbn [fst snd] in *.
    destruct IH as [Hf2 (nx' & Hv2)]. rewrite updates_app, feed_ok_app. split; [done|]. exists nx'.
    unfold routes in *. rewrite apply_app. replace (n + Z.of_nat (S (length reqs))) with (n + 1 + Z.of_nat (length reqs)) by lia.
    exact Hv2.
Qed.
End route.
