(* ===== verification/ClientMirror.v ===== *)
(** A client that loses packets ends with the exchange's books.

    The exchange's updates, numbered from 1, and the snapshot cycles it
    publishes after some of them, instantiate the streams of
    MarketDataConsumerProps: [exchange_stream_ok] discharges the assumption
    made there, and [client_mirrors_exchange] joins consumer, routing and
    matching engine. *)

From S2P Require Import Prelude Types Wire Framing LFQueue.
From S2P Require Import MEOrder OrderBookSpec MatchingEngine MatchingEngineRefines MarketOrderBook MarketOrderBookRefines Replication.
From S2P Require Import Sockets McastSocket MarketDataPublisher MarketDataConsumer MarketDataConsumerProps SnapshotSynthesizer SnapshotImage FeedConsistency.

Section mirror.
Context `{Cfg : Config, !ConfigOk Cfg}.
Implicit Types (u : MEMarketUpdate) (us : list MEMarketUpdate) (cuts : list nat).
Local Set Default Proof Using "All".

(** Incremental update [n], counting from 1. *)
Definition feed_of us (n : Z) : MEMarketUpdate := default inhabitant (us !! Z.to_nat (n - 1)).
(** What the synthesizer sends once it has applied [k] updates. *)
Definition published_cycle us (k : nat) : list MEMarketUpdate := snapshot_cycle (images (take k us)) (Z.of_nat k).
Definition snap_of us cuts (s : Z) : MEMarketUpdate :=
  default inhabitant ((cuts ≫= published_cycle us) !! Z.to_nat (s - 1)).

Lemma feed_of_take us k : (k ≤ length us)%nat → feed_of us <$> seqZ 1 (Z.of_nat k) = take k us.
Proof.
  intros Hk. apply list_eq. intros i. rewrite list_lookup_fmap. destruct (decide (i < k)%nat) as [Hi|Hi].
  - rewrite lookup_seqZ_lt, lookup_take_lt by lia. cbn. unfold feed_of.
    replace (Z.to_nat (1 + Z.of_nat i - 1)) with i by lia.
    by destruct (lookup_lt_is_Some_2 us i ltac:(lia)) as [u ->].
  - rewrite lookup_seqZ_ge, lookup_take_ge by lia. done.
Qed.

Lemma cycle_adds_types m : Forall (λ u, mu_type_ u = MarketUpdateType.ADD) (cycle_adds m).
Proof. unfold cycle_adds. apply Forall_fmap, Forall_forall. done. Qed.

(** A CLEAR in the snapshot stream opens a cycle. *)
Lemma clear_opens us cuts : ∀ p u,
  (cuts ≫= published_cycle us) !! p = Some u → mu_type_ u = MarketUpdateType.CLEAR →
  u = clear_update ∧ ∃ k rest, k ∈ cuts ∧ drop p (cuts ≫= published_cycle us) = published_cycle us k ++ rest.
Proof.
  induction cuts as [|k cuts IH]; intros p u; [done|]. rewrite bind_cons. intros Hu Ht.
  destruct (decide (p < length (published_cycle us k))%nat) as [Hlt|Hge].
  - rewrite lookup_app_l in Hu by done. destruct p as [|p].
    + injection Hu as <-. split; [done|]. exists k, (cuts ≫= published_cycle us). by split; [left|].
    + exfalso. unfold published_cycle, snapshot_cycle in Hu. cbn [lookup list_lookup] in Hu. destruct p as [|p].
      * injection Hu as <-. done.
      * change ((cycle_adds (images (take k us)) ++ [end_update (Z.of_nat k)]) !! p = Some u) in Hu.
        apply list_elem_of_lookup_2 in Hu. rewrite elem_of_app, list_elem_of_singleton in Hu.
        destruct Hu as [Hu| ->]; [|done]. pose proof (cycle_adds_types (images (take k us))) as Hf.
        rewrite Forall_forall in Hf. rewrite (Hf u Hu) in Ht. done.
  - rewrite lookup_app_r in Hu by lia. destruct (IH _ _ Hu Ht) as (-> & k' & rest & Hk & E). split; [done|].
    exists k', rest. split; [by right|]. by rewrite drop_app_ge by lia.
Qed.

Lemma snap_of_drop us cuts s l : 1 ≤ s → drop (Z.to_nat (s - 1)) (cuts ≫= published_cycle us) = l →
  ∀ i, snap_of us cuts (s + Z.of_nat i) = default inhabitant (l !! i).
Proof.
  intros Hs <- i. unfold snap_of. rewrite lookup_drop. do 2 f_equal. lia.
Qed.

(** The stream of cycles is what the consumer expects of it. *)
Lemma exchange_stream_ok us cuts :
  feed_ok (λ _, 1) us → Z.of_nat (length us) < 2 ^ 64 - 1 → Forall (λ k, (k ≤ length us)%nat) cuts →
  stream_ok route no_books (feed_of us) (snap_of us cuts) (Z.of_nat (length us)).
Proof.
  intros Hf Hlen Hcuts.
  assert (Hclear : ∀ s, mu_type_ (snap_of us cuts s) = MarketUpdateType.CLEAR → ∃ k rest, k ∈ cuts ∧
    snap_of us cuts s = clear_update ∧ drop (Z.to_nat (s - 1)) (cuts ≫= published_cycle us) = published_cycle us k ++ rest).
  { intros s Ht. unfold snap_of in *. destruct (_ !! _) as [u|] eqn:E; [|done].
    destruct (clear_opens us cuts _ _ E Ht) as (-> & k & rest & Hk & Hd). by exists k, rest. }
  split; [lia| |].
  - intros s us' (k & rest & _ & -> & _)%Hclear. 
    rewrite !route_clear; [done|apply length_replicate|]. change (apply route us' no_books) with (routes us' no_books).
    rewrite routes_length. apply length_replicate.
  - intros s e (Ht & Hstart & Hs & He & Hadds) Hend n. subst n.
    destruct (Hclear s Ht) as (k & rest & Hk & Hsc & Hd). rewrite Forall_forall in Hcuts. specialize (Hcuts k Hk).
    pose proof (snap_of_drop us cuts s _ Hs Hd) as Hsnap. unfold published_cycle, snapshot_cycle in Hsnap.
    set (adds := cycle_adds (images (take k us))) in *.
    assert (Hbody : ∀ i, snap_of us cuts (s + 2 + Z.of_nat i) =
      default inhabitant ((adds ++ end_update (Z.of_nat k) :: rest) !! i)).
    { intros i. replace (s + 2 + Z.of_nat i) with (s + Z.of_nat (S (S i))) by lia. rewrite Hsnap.
      transitivity (default inhabitant (((adds ++ [end_update (Z.of_nat k)]) ++ rest) !! i)); [done|].
      by rewrite <- app_assoc. }
    assert (Hadd : ∀ i, (i < length adds)%nat → Some (snap_of us cuts (s + 2 + Z.of_nat i)) = adds !! i).
    { intros i Hi. rewrite Hbody, lookup_app_l by done. by destruct (lookup_lt_is_Some_2 adds i Hi) as [u ->]. }
    assert (Hfin : snap_of us cuts (s + 2 + Z.of_nat (length adds)) = end_update (Z.of_nat k)).
    { by rewrite Hbody, lookup_app_r, Nat.sub_diag by lia. }
    assert (Hee : e + 1 = s + 2 + Z.of_nat (length adds)).
    { destruct (Z.lt_trichotomy (e + 1) (s + 2 + Z.of_nat (length adds))) as [Hlt|[?|Hgt]]; [|done|].
      - exfalso. set (i := Z.to_nat (e + 1 - (s + 2))).
        pose proof (Hadd i ltac:(lia)) as Hi. replace (s + 2 + Z.of_nat i) with (e + 1) in Hi by lia.
        symmetry in Hi. apply list_elem_of_lookup_2 in Hi. pose proof (cycle_adds_types (images (take k us))) as Hty.
        rewrite Forall_forall in Hty. specialize (Hty _ Hi). congruence.
      - exfalso. specialize (Hadds (s + 2 + Z.of_nat (length adds)) ltac:(lia)). rewrite Hfin in Hadds. done. }
    rewrite Hee, Hfin. change (mu_order_id_ (end_update (Z.of_nat k))) with (Z.of_nat k). split; [lia|].
    assert (Himg : image (snap_of us cuts) s e = clear_update :: adds).
    { unfold image. rewrite Hsc. f_equal. apply list_eq. intros i. rewrite list_lookup_fmap.
      destruct (decide (i < length adds)%nat) as [Hi|Hi].
      - rewrite lookup_seqZ_lt by lia. cbn. by rewrite <- Hadd.
      - rewrite lookup_seqZ_ge, lookup_ge_None_2 by lia. done. }
    rewrite Himg. unfold after. rewrite feed_of_take by done.
    rewrite <- (take_drop k us), feed_ok_app in Hf. destruct Hf as [Hf _].
    apply (rebuild_books (bumps (take k us) (λ _, 1)) _ (images (take k us))); [|apply length_replicate].
    apply routes_inv; [apply no_books_inv|done].
Qed.
End mirror.
