(* ===== verification/Doubles.v ===== *)
(** C++ [double].

    [Double] is what the trading client does with doubles.  [binary64] is
    IEEE 754 double precision with round-to-nearest-even, the type the code
    runs on, built on the Standard Library's executable [SpecFloat];
    [exact] is arithmetic without rounding, in which the accounting identities
    of the code can be stated. *)

From S2P Require Import Prelude.
From Stdlib Require Import SpecFloat QArith Qcanon.
Open Scope Z_scope.

Class Double := {
  double : Type;
  dof : Z → double;                           (** [static_cast<double>(n)] *)
  dadd : double → double → double;
  dsub : double → double → double;
  dmul : double → double → double;
  ddiv : double → double → double;
  dltb : double → double → bool;              (** [<], false on NaN *)
  dleb : double → double → bool;              (** [<=], false on NaN *)
  disnan : double → bool;                     (** [std::isnan] *)
  quiet_NaN : double;
}.

Declare Scope double_scope.
Delimit Scope double_scope with double.
Infix "+" := dadd : double_scope.
Infix "-" := dsub : double_scope.
Infix "*" := dmul : double_scope.
Infix "/" := ddiv : double_scope.

(** The literal [0.5], exact in binary. *)
Definition dhalf `{Double} : double := (dof 1 / dof 2)%double.

#[local] Notation prec := 53%Z.
#[local] Notation emax := 1024%Z.
Definition binary64 : Double := {|
  double := spec_float;
  dof n := binary_normalize prec emax n 0 false;
  dadd := SFadd prec emax;
  dsub := SFsub prec emax;
  dmul := SFmul prec emax;
  ddiv := SFdiv prec emax;
  dltb := SFltb;
  dleb := SFleb;
  disnan x := match x with S754_nan => true | _ => false end;
  quiet_NaN := S754_nan;
|}.

(** No rounding and no exceptional values; there is no NaN, so it reads as 0. *)
Definition exact : Double := {|
  double := Qc;
  dof n := Q2Qc (inject_Z n);
  dadd := Qcplus;
  dsub := Qcminus;
  dmul := Qcmult;
  ddiv := Qcdiv;
  dltb x y := bool_decide (Qclt x y);
  dleb x y := bool_decide (Qcle x y);
  disnan _ := false;
  quiet_NaN := Q2Qc 0;
|}.

(** ** Integers among the exact numbers *)

Section exact.
#[local] Existing Instance exact.

Lemma dof_add a b : dof (a + b) = (dof a + dof b)%double.
Proof. cbn. apply Qc_is_canon. cbn. rewrite !Qred_correct. by rewrite inject_Z_plus. Qed.
Lemma dof_mul a b : dof (a * b) = (dof a * dof b)%double.
Proof. cbn. apply Qc_is_canon. cbn. rewrite !Qred_correct. by rewrite inject_Z_mult. Qed.
Lemma dof_opp a : dof (- a) = Qcopp (dof a).
Proof. cbn. apply Qc_is_canon. cbn. rewrite !Qred_correct. by rewrite inject_Z_opp. Qed.
Lemma dof_sub a b : dof (a - b) = (dof a - dof b)%double.
Proof. unfold Z.sub. by rewrite dof_add, dof_opp. Qed.
Lemma dof_inj a b : dof a = dof b → a = b.
Proof.
  cbn. intros E. apply (f_equal this) in E. cbn in E.
  assert (Heq : (inject_Z a == inject_Z b)%Q) by (rewrite <- (Qred_correct (inject_Z a)), E; apply Qred_correct).
  unfold Qeq in Heq. cbn in Heq. lia.
Qed.
Lemma dof_nz a : a ≠ 0 → dof a ≠ dof 0.
Proof. intros Ha E. by apply dof_inj in E. Qed.

Lemma dof_le a b : a ≤ b → Qcle (dof a) (dof b).
Proof. intros H. unfold Qcle. cbn. rewrite !Qred_correct. unfold Qle. cbn. lia. Qed.
Lemma dof_lt a b : a < b → Qclt (dof a) (dof b).
Proof. intros H. unfold Qclt. cbn. rewrite !Qred_correct. unfold Qlt. cbn. lia. Qed.
Lemma Qcdiv_le_l (x y c : Qc) : Qclt (Q2Qc 0) c → Qcle (Qcmult x c) y → Qcle x (Qcdiv y c).
Proof.
  unfold Qcle, Qclt, Qcdiv, Qcmult, Qcinv. cbn. rewrite !Qred_correct. intros Hc H. by apply Qle_shift_div_l.
Qed.
Lemma Qcdiv_le_r (x y c : Qc) : Qclt (Q2Qc 0) c → Qcle y (Qcmult x c) → Qcle (Qcdiv y c) x.
Proof.
  unfold Qcle, Qclt, Qcdiv, Qcmult, Qcinv. cbn. rewrite !Qred_correct. intros Hc H. by apply Qle_shift_div_r.
Qed.
End exact.
