(* ===== verification/LatencyTracker.v ===== *)
(** Common::LatencyTracker (include/latency_tracker.h), as compiled with
    ENABLE_PERF_TRACKING: a ring of the last [MAX_SAMPLES] latencies and the
    statistics computed from it.

    [MAX_SAMPLES] is 2^20 in the code; here any power of two, [2 ^ bits].
    What [clock_gettime] returns, in nanoseconds, is an argument. *)

From S2P Require Import Prelude Doubles.

Record LatencyTracker := mkLatencyTracker {
  samples_ : list Z;
  start_ns_ : Z;
  count_ : Z;
  write_idx_ : Z;
}.

Section tracker.
Context {Dbl : Double} (bits : Z).
Implicit Types (t : LatencyTracker) (ds : list Z).

Record PerfStats := mkPerfStats {
  ps_count : Z;
  min_ns : double; max_ns : double; mean_ns : double;
  p50_ns : double; p99_ns : double; p999_ns : double;
  throughput_per_sec : double;
}.

Definition MAX_SAMPLES : Z := 2 ^ bits.

Definition LatencyTracker_new : LatencyTracker := mkLatencyTracker (replicate (Z.to_nat MAX_SAMPLES) 0) 0 0 0.

Definition lt_start (now : Z) t : LatencyTracker := mkLatencyTracker (samples_ t) (u64 now) (count_ t) (write_idx_ t).

Definition lt_stop (now : Z) t : LatencyTracker :=
  let delta := u64 (now - start_ns_ t) in
  mkLatencyTracker (<[ Z.to_nat (Z.land (write_idx_ t) (MAX_SAMPLES - 1)) := delta ]> (samples_ t)) (start_ns_ t)
    (if count_ t <? MAX_SAMPLES then count_ t + 1 else count_ t) (u64 (write_idx_ t + 1)).

Definition lt_reset t : LatencyTracker := mkLatencyTracker (samples_ t) (start_ns_ t) 0 0.

(** The valid samples, oldest first. *)
Definition scratch t : list Z :=
  if count_ t <? MAX_SAMPLES then take (Z.to_nat (count_ t)) (samples_ t)
  else
    let start := Z.to_nat (Z.land (write_idx_ t) (MAX_SAMPLES - 1)) in
    drop start (samples_ t) ++ take start (samples_ t).

Definition percentileIndex (n pct_x10 : Z) : Z :=
  let idx := if pct_x10 <=? 100 then (n * pct_x10) `div` 100 else (n * pct_x10) `div` 1000 in
  if 0 <? idx then idx - 1 else 0.

Definition no_stats : PerfStats :=
  mkPerfStats 0 (dof 0) (dof 0) (dof 0) (dof 0) (dof 0) (dof 0) (dof 0).

Definition getStats t : PerfStats :=
  if count_ t =? 0 then no_stats
  else
    let n := count_ t in
    let sorted := merge_sort Z.le (scratch t) in
    let at_ i := dof (sorted !!! Z.to_nat i) in
    let sum := foldl (λ s x, dadd s (dof x)) (dof 0) sorted in
    mkPerfStats n (at_ 0) (at_ (n - 1)) (ddiv sum (dof n))
      (at_ (percentileIndex n 50)) (at_ (percentileIndex n 99)) (at_ (percentileIndex n 999))
      (if dltb (dof 0) sum then ddiv (dof n) (ddiv sum (dof 1000000000)) else dof 0).

(** ** The ring holds the last latencies *)

Context (Hbits : 0 ≤ bits < 64).
Local Set Default Proof Using "All".

Record tracker_ok t ds : Prop := {
  to_length : Z.of_nat (length (samples_ t)) = MAX_SAMPLES;
  to_count : count_ t = Z.of_nat (length ds) `min` MAX_SAMPLES;
  to_index : write_idx_ t = u64 (Z.of_nat (length ds));
  to_ring : ∀ i d, ds !! i = Some d → Z.of_nat (length ds) - MAX_SAMPLES ≤ Z.of_nat i →
    samples_ t !! (i `mod` Z.to_nat MAX_SAMPLES)%nat = Some d;
}.

Lemma MAX_pos : 0 < MAX_SAMPLES.
Proof. unfold MAX_SAMPLES. apply Z.pow_pos_nonneg; lia. Qed.

Lemma ring_index n : 0 ≤ n → Z.land (u64 n) (MAX_SAMPLES - 1) = n `mod` MAX_SAMPLES.
Proof.
  intros Hn. unfold MAX_SAMPLES, u64. replace (2 ^ bits - 1) with (Z.ones bits) by (rewrite Z.ones_equiv; lia).
  rewrite Z.land_ones by lia. replace (2 ^ 64) with (2 ^ bits * 2 ^ (64 - bits)) by (rewrite <- Z.pow_add_r by lia; f_equal; lia).
  rewrite <- Znumtheory.Zmod_div_mod; try done; [apply Z.pow_pos_nonneg; lia|apply Z.mul_pos_pos; apply Z.pow_pos_nonneg; lia|].
  by apply Z.divide_factor_l.
Qed.

Lemma ring_mod n m i : (0 < m)%nat → (i < n)%nat → (n < i + m)%nat → (i `mod` m ≠ n `mod` m)%nat.
Proof.
  intros Hm Hi Hn E. pose proof (Nat.div_mod_eq i m) as E1. pose proof (Nat.div_mod_eq n m) as E2. rewrite E in E1.
  destruct (decide (n `div` m ≤ i `div` m)%nat) as [Hle|Hgt].
  - pose proof (Nat.mul_le_mono_l _ _ m Hle). lia.
  - assert (Hle : (S (i `div` m) ≤ n `div` m)%nat) by lia. pose proof (Nat.mul_le_mono_l _ _ m Hle). lia.
Qed.

Lemma tracker_new_ok : tracker_ok LatencyTracker_new [].
Proof.
  pose proof MAX_pos. split; cbn [LatencyTracker_new samples_ count_ write_idx_ length]; try done; [|lia].
  rewrite length_replicate. lia.
Qed.

Lemma lt_start_ok now t ds : tracker_ok t ds → tracker_ok (lt_start now t) ds.
Proof. intros []. by split. Qed.

Lemma lt_stop_ok now t ds : tracker_ok t ds → tracker_ok (lt_stop now t) (ds ++ [u64 (now - start_ns_ t)]).
Proof.
  intros [Hl Hc Hi Hr]. pose proof MAX_pos as Hm. set (delta := u64 _).
  assert (Hix : Z.to_nat (Z.land (write_idx_ t) (MAX_SAMPLES - 1)) = (length ds `mod` Z.to_nat MAX_SAMPLES)%nat).
  { rewrite Hi, ring_index by lia. rewrite <- (Z2Nat.id MAX_SAMPLES) at 1 by lia. rewrite <- Nat2Z.inj_mod. by rewrite Nat2Z.id. }
  pose proof (Nat.mod_upper_bound (length ds) (Z.to_nat MAX_SAMPLES) ltac:(lia)) as Hub.
  split; cbn [lt_stop samples_ count_ write_idx_]; rewrite ?Hix, ?length_insert, ?length_app; cbn [length].
  - done.
  - case Z.ltb_spec; lia.
  - rewrite Hi. unfold u64. rewrite Zplus_mod_idemp_l. f_equal. lia.
  - intros i d Hd Hb. destruct (decide (i < length ds)%nat) as [Hlt|].
    + rewrite lookup_app_l in Hd by done. rewrite list_lookup_insert_ne; [apply Hr; [done|lia]|].
      apply not_eq_sym, ring_mod; lia.
    + apply lookup_lt_Some in Hd as Hd'. rewrite length_app in Hd'. cbn in Hd'. assert (i = length ds) as -> by lia.
      rewrite list_lookup_middle in Hd by done. injection Hd as <-. apply list_lookup_insert_eq. lia.
Qed.

(** The samples read are the latencies of the last [MAX_SAMPLES] calls. *)
Lemma scratch_spec t ds : tracker_ok t ds → scratch t = drop (length ds - Z.to_nat MAX_SAMPLES) ds.
Proof.
  intros [Hl Hc Hi Hr]. pose proof MAX_pos as Hm. unfold scratch. set (m := Z.to_nat MAX_SAMPLES) in *.
  apply list_eq. intros j. rewrite lookup_drop. rewrite Hc. case Z.ltb_spec; intros Hlt.
  - replace (length ds - m)%nat with 0%nat by lia. rewrite Z.min_l, Nat2Z.id by lia. cbn [Nat.add].
    destruct (ds !! j) as [d|] eqn:Ed.
    + pose proof (lookup_lt_Some _ _ _ Ed). rewrite lookup_take_lt by done. specialize (Hr j d Ed ltac:(lia)).
      rewrite Nat.mod_small in Hr by lia. done.
    + apply lookup_ge_None in Ed. by apply lookup_take_ge.
  - rewrite Hi, ring_index by lia. set (st := Z.to_nat (Z.of_nat (length ds) `mod` MAX_SAMPLES)).
    assert (Est : st = (length ds `mod` m)%nat).
    { unfold st. rewrite <- (Z2Nat.id MAX_SAMPLES) by lia. fold m. by rewrite <- Nat2Z.inj_mod, Nat2Z.id. }
    pose proof (Nat.mod_upper_bound (length ds) m ltac:(lia)) as Hub. pose proof (Nat.div_mod_eq (length ds) m) as Hdm.
    assert (Hls : length (samples_ t) = m) by lia.
    assert (Hk : ∀ k, (k < m)%nat → ((length ds - m + k) `mod` m = (st + k) `mod` m)%nat).
    { intros k Hk. rewrite Est. rewrite Nat.Div0.add_mod_idemp_l.
      rewrite <- (Nat.Div0.mod_add (length ds - m + k) 1 m). f_equal. lia. }
    destruct (decide (j < m)%nat) as [Hj|].
    + destruct (lookup_lt_is_Some_2 ds (length ds - m + j)%nat) as [d Ed]; [lia|]. rewrite Ed.
      specialize (Hr _ d Ed ltac:(lia)). rewrite Hk in Hr by done.
      destruct (decide (st + j < m)%nat) as [Hsj|Hsj].
      * rewrite lookup_app_l by (rewrite length_drop; lia). rewrite lookup_drop. by rewrite Nat.mod_small in Hr by done.
      * rewrite lookup_app_r by (rewrite length_drop; lia). rewrite length_drop, lookup_take_lt by lia.
        rewrite <- Hr. f_equal. rewrite Hls. replace (st + j)%nat with (j - (m - st) + 1 * m)%nat by lia.
        rewrite Nat.Div0.mod_add, Nat.mod_small by lia. done.
    + rewrite (lookup_ge_None_2 ds) by lia. apply lookup_ge_None_2. rewrite length_app, length_drop, length_take. lia.
Qed.

Lemma lt_reset_ok t ds : tracker_ok t ds → tracker_ok (lt_reset t) [].
Proof. intros [Hl _ _ _]. pose proof MAX_pos. split; cbn [lt_reset samples_ count_ write_idx_ length]; try done. lia. Qed.

(** *** Percentiles *)

Lemma percentile_range n : 0 < n →
  0 ≤ percentileIndex n 50 ≤ percentileIndex n 99 ∧ percentileIndex n 99 ≤ percentileIndex n 999 ≤ n - 1.
Proof.
  intros Hn. unfold percentileIndex. change (50 <=? 100) with true. change (99 <=? 100) with true. change (999 <=? 100) with false.
  cbn [Z.leb]. pose proof (Z.div_le_mono (n * 50) (n * 99) 100 ltac:(lia) ltac:(lia)).
  pose proof (Z.div_pos (n * 50) 100 ltac:(lia) ltac:(lia)).
  assert ((n * 99) `div` 100 ≤ (n * 999) `div` 1000).
  { rewrite <- (Z.div_mul_cancel_r (n * 99) 100 10) by lia. apply Z.div_le_mono; lia. }
  assert ((n * 999) `div` 1000 ≤ n) by (apply Z.div_le_upper_bound; lia).
  repeat case Z.ltb_spec; lia.
Qed.

Lemma sorted_lookup (l : list Z) i j a b : StronglySorted Z.le l → (i ≤ j)%nat → l !! i = Some a → l !! j = Some b → a ≤ b.
Proof.
  clear. intros Hs. revert i j. induction Hs as [|x l _ IH Hx]; intros [|i] [|j] Hij; cbn; try done; try lia.
  - intros [= <-] [= <-]. done.
  - intros [= <-] Hb. rewrite Forall_forall in Hx. apply Hx. by eapply list_elem_of_lookup_2.
  - intros. eapply IH; [|done..]. lia.
Qed.

(** The statistics are those of the last latencies.  However the calls of
    [start] and [stop] followed each other, the count is that of the latencies
    kept, the extremes are the least and the greatest of them, the percentiles
    are latencies among them, in order, and every index is inside the
    buffer. *)
Theorem latency_stats t ds :
  tracker_ok t ds → ds ≠ [] →
  let w := drop (length ds - Z.to_nat MAX_SAMPLES) ds in
  let st := getStats t in
  ps_count st = Z.of_nat (length w) ∧
  ∃ lo p50 p99 p999 hi, min_ns st = dof lo ∧ p50_ns st = dof p50 ∧ p99_ns st = dof p99 ∧ p999_ns st = dof p999 ∧
    max_ns st = dof hi ∧ [lo; p50; p99; p999; hi] ⊆ w ∧ lo ≤ p50 ≤ p99 ∧ p99 ≤ p999 ≤ hi ∧ (∀ x, x ∈ w → lo ≤ x ≤ hi).
Proof.
  intros Hok Hne w st. pose proof MAX_pos as Hm. pose proof (scratch_spec t ds Hok) as Es. fold w in Es.
  assert (Hlen : 0 < Z.of_nat (length ds)) by (destruct ds; [done|cbn; lia]).
  assert (Hc : count_ t = Z.of_nat (length w)) by (rewrite (to_count _ _ Hok); unfold w; rewrite length_drop; lia).
  assert (Hn : 0 < count_ t) by (rewrite (to_count _ _ Hok); lia).
  assert (Est : st = getStats t) by done. unfold getStats in Est. rewrite (proj2 (Z.eqb_neq _ _)) in Est by lia.
  rewrite Es in Est. set (l := merge_sort Z.le w) in Est. cbv zeta in Est.
  assert (Hp : l ≡ₚ w) by apply merge_sort_Permutation.
  assert (Hs : StronglySorted Z.le l) by apply (StronglySorted_merge_sort Z.le).
  assert (Hat : ∀ i, 0 ≤ i ≤ count_ t - 1 → ∃ v, l !! Z.to_nat i = Some v ∧ l !!! Z.to_nat i = v ∧ v ∈ w).
  { intros i Hi. destruct (lookup_lt_is_Some_2 l (Z.to_nat i)) as [v Hv]; [rewrite Hp; lia|]. exists v.
    split; [done|]. split; [by apply list_lookup_total_correct|]. rewrite <- Hp. by eapply list_elem_of_lookup_2. }
  destruct (percentile_range (count_ t) Hn) as [R1 R2].
  destruct (Hat 0 ltac:(lia)) as (lo & L1 & L2 & L3). destruct (Hat (count_ t - 1) ltac:(lia)) as (hi & H1 & H2 & H3).
  destruct (Hat (percentileIndex (count_ t) 50) ltac:(lia)) as (a & A1 & A2 & A3).
  destruct (Hat (percentileIndex (count_ t) 99) ltac:(lia)) as (b & B1 & B2 & B3).
  destruct (Hat (percentileIndex (count_ t) 999) ltac:(lia)) as (c & C1 & C2 & C3).
  rewrite L2, H2, A2, B2, C2 in Est. rewrite Est. cbn [ps_count min_ns max_ns p50_ns p99_ns p999_ns].
  split; [done|]. exists lo, a, b, c, hi.
  assert (Hle : ∀ i j u v, 0 ≤ i ≤ j → l !! Z.to_nat i = Some u → l !! Z.to_nat j = Some v → u ≤ v).
  { intros i j u v Hij. apply sorted_lookup; [done|lia]. }
  pose proof (Hle 0 _ _ _ ltac:(split; [done|exact (proj1 R1)]) L1 A1). pose proof (Hle _ _ _ _ R1 A1 B1).
  assert (b ≤ c) by (eapply Hle; [|exact B1|exact C1]; lia). assert (c ≤ hi) by (eapply Hle; [|exact C1|exact H1]; lia).
  split_and!; try done.
  - intros x. rewrite !elem_of_cons. intros [->|[->|[->|[->|[->|Hx]]]]]; try done. by apply not_elem_of_nil in Hx.
  - intros x. rewrite <- Hp. intros (k & Hk)%list_elem_of_lookup_1. pose proof (lookup_lt_Some _ _ _ Hk) as Hkl. rewrite Hp in Hkl.
    split; [by eapply (sorted_lookup l 0 k); [|lia|..]|].
    by eapply (sorted_lookup l k (Z.to_nat (count_ t - 1))); [|lia|..].
Qed.
End tracker.
