(* ===== verification/ExchangePerf.v ===== *)
(** The performance statistics of TestExchange (bindings/python/exchange_core.cpp):
    the module is compiled with ENABLE_PERF_TRACKING, so every book has a
    [LatencyTracker] that its [add] and [cancel] start first and stop last.

    The trackers do not change what a book does and are kept beside the
    [TestExchange] of ExchangeCore.v, one per book.  What the clock showed at
    the start and the end of a call are arguments. *)

From S2P Require Import Prelude Types Doubles MEOrder OrderBookSpec LatencyTracker HarnessLevels ExchangeCore LFQueue MatchingEngine MatchingEngineRefines ExchangeCoreRefines.

Record TimedExchange := mkTimedExchange {
  tx_exchange : TestExchange;
  tx_trackers : gmap Z LatencyTracker;
}.

Section perf.
Context `{Cfg : Config, Dbl : Double} (bits : Z).
Local Abbreviation MTX := (M TimedExchange).

Definition set_exchange v x : TimedExchange := mkTimedExchange v (tx_trackers x).
Definition set_trackers v x : TimedExchange := mkTimedExchange (tx_exchange x) v.
Definition exchange_of : lens TimedExchange TestExchange := Lens tx_exchange set_exchange.

(** The tracker of a book is constructed with it. *)
Definition tracker_of (ticker_id : Z) (ts : gmap Z LatencyTracker) : LatencyTracker :=
  default (LatencyTracker_new bits) (ts !! ticker_id).

(** [latency_tracker_.start(); ... latency_tracker_.stop();] around a member of
    the book. *)
Definition tracked (ticker_id t0 t1 : Z) : MTX unit :=
  ts ← gets tx_trackers;
  modify (set_trackers (<[ ticker_id := lt_stop bits t1 (lt_start t0 (tracker_of ticker_id ts)) ]> ts)).

(** A call; the book is only reached when the side parses. *)
Definition timed_call (c : Call) (t0 t1 : Z) : MTX (PyResult unit) :=
  r ← zoom exchange_of (call c);
  match r with
  | Returned _ => tracked (call_ticker c) t0 t1;; mret r
  | Raised _ => mret r
  end.

Definition PyStats : Type := list (string * (Z + double)).
Definition stats_dict (s : PerfStats) : PyStats :=
  [("count", inl (ps_count s)); ("min_ns", inr (min_ns s)); ("max_ns", inr (max_ns s)); ("mean_ns", inr (mean_ns s));
   ("p50_ns", inr (p50_ns s)); ("p99_ns", inr (p99_ns s)); ("p999_ns", inr (p999_ns s));
   ("throughput_per_sec", inr (throughput_per_sec s))]%string.

Definition get_perf_stats (ticker_id : Z) : MTX PyStats :=
  zoom exchange_of (ensure_book ticker_id);;
  ts ← gets tx_trackers;
  mret (stats_dict (getStats bits (tracker_of ticker_id ts))).

Definition reset_perf_stats (ticker_id : Z) : MTX unit :=
  zoom exchange_of (ensure_book ticker_id);;
  ts ← gets tx_trackers;
  modify (set_trackers (<[ ticker_id := lt_reset (tracker_of ticker_id ts) ]> ts)).

(** ** What is counted *)

Inductive TimedCall := Timed (c : Call) (t0 t1 : Z) | Reset (ticker_id : Z).

Definition timed (c : TimedCall) : MTX unit :=
  match c with
  | Timed c t0 t1 => timed_call c t0 t1;; mret tt
  | Reset tid => reset_perf_stats tid
  end.

(** The latencies of the calls on [tid] that did not raise, since its last
    reset. *)
Definition samples_after (tid : Z) (c : TimedCall) (ds : list Z) : list Z :=
  match c with
  | Timed c t0 t1 =>
      match call_result c with
      | Returned _ => if decide (call_ticker c = tid) then ds ++ [u64 (t1 - u64 t0)] else ds
      | Raised _ => ds
      end
  | Reset t => if decide (t = tid) then [] else ds
  end.
Definition samples_of (tid : Z) (cs : list TimedCall) : list Z := foldl (λ ds c, samples_after tid c ds) [] cs.

Context `{!ConfigOk Cfg} (Hbits : 0 ≤ bits < 64).
Implicit Types (x : TimedExchange) (books : gmap Z SBook).
Local Set Default Proof Using "All".

Definition timed_ok (c : TimedCall) : Prop :=
  match c with Timed c _ _ => call_ok c | Reset tid => 0 ≤ tid < ME_MAX_TICKERS end.

(** The trackers hold the samples [ds]; the exchange is in a represented state. *)
Definition perf_rep nr nu N x (ds : Z → list Z) : Prop :=
  (∃ books resp upd, harness_rep nr nu N (tx_exchange x) books resp upd) ∧
  ∀ tid, tracker_ok bits (tracker_of tid (tx_trackers x)) (ds tid).

Lemma tracker_of_insert tid tid' t ts :
  tracker_of tid (<[ tid' := t ]> ts) = if decide (tid' = tid) then t else tracker_of tid ts.
Proof.
  unfold tracker_of. case_decide as E; [subst; by rewrite lookup_insert_eq|by rewrite lookup_insert_ne].
Qed.

Lemma timed_spec nr nu N x ds c :
  perf_rep nr nu N x ds → timed_ok c → N < 2 ^ 64 - 1 →
  (∃ x', timed c x = Ok (tt, x') ∧ perf_rep nr nu (N + 1) x' (λ tid, samples_after tid c (ds tid))) ∨
  (∃ msg, timed c x = Err (Fatal msg)).
Proof.
  intros [(books & resp & upd & Hx) Ht] Hok HN. destruct c as [c t0 t1|tid]; cbn [timed timed_ok] in *.
  - pose proof (call_spec nr nu N _ books resp upd c Hx Hok HN) as Hc. unfold timed_call.
    destruct (call_fits _ _ _ _ _ _).
    2:{ right. destruct Hc as [msg Hc]. exists msg. rewrite bind_assoc. apply bind_Err, (zoom_Err exchange_of), Hc. }
    left. destruct Hc as (x' & Hrun & Hx'). rewrite bind_assoc.
    erewrite bind_Ok by (apply (zoom_Ok exchange_of); exact Hrun).
    destruct (call_result c) as [[]|w] eqn:Er; cbv beta iota.
    + unfold tracked. rewrite !bind_assoc, bind_gets, bind_modify, bind_ret.
      eexists. split; [reflexivity|]. split; [by eexists _, _, _|]. intros tid. cbn [set_trackers tx_trackers samples_after].
      rewrite Er, tracker_of_insert. case_decide; [|apply Ht]. subst.
      specialize (Ht (call_ticker c)). by apply (lt_stop_ok bits Hbits t1), lt_start_ok.
    + rewrite bind_ret. eexists. split; [reflexivity|]. split; [by eexists _, _, _|]. intros tid.
      cbn [samples_after]. rewrite Er. apply Ht.
  - left. destruct (ensure_book_spec _ _ _ _ _ _ _ tid Hx) as (x' & b & He & Hx' & _); [lia|].
    unfold reset_perf_stats. erewrite bind_Ok by (apply (zoom_Ok exchange_of); exact He).
    rewrite bind_gets. eexists. split; [reflexivity|]. split.
    + eexists _, _, _. destruct Hx' as (H1 & H2 & H3 & H4). split; [by apply engine_rep_mono|]. split_and!; [done..|lia].
    + intros tid'. cbn [set_trackers tx_trackers samples_after]. rewrite tracker_of_insert.
      case_decide; [|apply Ht]. eapply lt_reset_ok; [done|apply Ht].
Qed.

Lemma timed_all_spec nr nu cs : ∀ N x ds,
  perf_rep nr nu N x ds → Forall timed_ok cs → N + Z.of_nat (length cs) < 2 ^ 64 - 1 →
  (∃ x', for_each timed cs x = Ok (tt, x') ∧
     perf_rep nr nu (N + Z.of_nat (length cs)) x' (λ tid, foldl (λ d c, samples_after tid c d) (ds tid) cs)) ∨
  (∃ msg, for_each timed cs x = Err (Fatal msg)).
Proof.
  induction cs as [|c cs IH]; intros N x ds Hx Hok HN.
  { left. exists x. cbn [length foldl]. by rewrite Z.add_0_r. }
  apply Forall_cons in Hok as [Hc Hok]. cbn [length for_each] in *.
  destruct (timed_spec _ _ _ _ _ c Hx Hc ltac:(lia)) as [(x1 & H1 & Hx1)|[msg Hm]].
  2:{ right. exists msg. by apply bind_Err. }
  rewrite (bind_Ok _ _ _ _ _ H1).
  destruct (IH (N + 1) x1 _ Hx1 Hok ltac:(lia)) as [(x2 & H2 & Hx2)|[msg Hm]]; [left|right; by exists msg].
  exists x2. split; [done|]. by replace (N + Z.of_nat (S (length cs))) with (N + 1 + Z.of_nat (length cs)) by lia.
Qed.

(** The statistics a test reads.  After any calls and resets on a fresh
    harness, [get_perf_stats] counts exactly the calls on the ticker that
    reached its book since its last reset, at most the last [MAX_SAMPLES], and
    the latencies it shows are ordered values of those calls. *)
Theorem perf_stats_faithful cs tid (x0 : TestExchange) :
  Forall timed_ok cs → Z.of_nat (length cs) < 2 ^ 64 - 2 → 0 ≤ tid < ME_MAX_TICKERS →
  TestExchange_new = Ok x0 →
  let ds := samples_of tid cs in
  let w := drop (length ds - Z.to_nat (MAX_SAMPLES bits)) ds in
  (∃ x st x', for_each timed cs (mkTimedExchange x0 ∅) = Ok (tt, x) ∧
     get_perf_stats tid x = Ok (stats_dict st, x') ∧
     (ds = [] → st = no_stats) ∧
     (ds ≠ [] → ps_count st = Z.of_nat (length w) ∧
        ∃ lo p50 hi, min_ns st = dof lo ∧ p50_ns st = dof p50 ∧ max_ns st = dof hi ∧ lo ≤ p50 ≤ hi ∧
          lo ∈ w ∧ p50 ∈ w ∧ hi ∈ w ∧ ∀ d, d ∈ w → lo ≤ d ≤ hi)) ∨
  (∃ msg, for_each timed cs (mkTimedExchange x0 ∅) = Err (Fatal msg)).
Proof.
  intros Hok Hlen Htid Hnew ds w. destruct new_shows as (x0' & Hnew' & Hx0).
  rewrite Hnew in Hnew'. injection Hnew' as <-.
  assert (H0 : perf_rep ME_MAX_CLIENT_UPDATES ME_MAX_MARKET_UPDATES 1 (mkTimedExchange x0 ∅) (λ _, [])).
  { split; [by eexists _, _, _|]. intros t. unfold tracker_of. cbn [tx_trackers]. rewrite lookup_empty. by apply tracker_new_ok. }
  destruct (timed_all_spec _ _ cs _ _ _ H0 Hok ltac:(lia)) as [(x & Hrun & Hx)|?]; [left|by right].
  destruct Hx as [(books & resp & upd & Hx) Ht]. specialize (Ht tid). cbv beta in Ht. fold (samples_of tid cs) in Ht. fold ds in Ht.
  destruct (ensure_book_spec _ _ _ _ _ _ _ tid Hx) as (x' & b & He & _ & _); [lia|].
  exists x, (getStats bits (tracker_of tid (tx_trackers x))), (set_exchange x' x). split; [done|]. split.
  { unfold get_perf_stats. erewrite bind_Ok by (apply (zoom_Ok exchange_of); exact He). done. }
  split.
  - intros E. unfold getStats. rewrite (to_count _ _ _ Ht), E. pose proof (MAX_pos bits Hbits). cbn [length].
    by rewrite Z.min_l by lia.
  - intros Hne. destruct (latency_stats bits Hbits _ _ Ht Hne) as [Hc (lo & p50 & p99 & p999 & hi & E1 & E2 & E3 & E4 & E5 & Hin & Ho1 & Ho2 & Hr)].
    split; [done|]. exists lo, p50, hi. split_and!; try done; try lia; apply Hin; set_solver.
Qed.
End perf.
