(* ===== verification/PositionKeeper.v ===== *)
(** Trading::PositionInfo and PositionKeeper
    (trading/strategy/position_keeper.h): position, realized and unrealized
    PnL per ticker.

    The [int32_t] arithmetic is the checked [int32] of CLib.v: signed overflow is
    undefined.  [open_vwap_] is the list of its four cells.  [bbo_], a pointer
    that only the call which sets it reads, is the argument of [pi_updateBBO]. *)

From S2P Require Import Prelude CLib Types Doubles MarketOrderBook.
From Stdlib Require Import QArith Qcanon Field.
Open Scope Z_scope.

Section PositionInfo.
Context `{Dbl : Double}.

Record PositionInfo := mkPositionInfo {
  position_ : Z;
  real_pnl_ : double;
  unreal_pnl_ : double;
  total_pnl_ : double;
  volume_ : Qty;
  open_vwap_ : list double;
}.

Definition PositionInfo_new : PositionInfo :=
  mkPositionInfo 0 (dof 0) (dof 0) (dof 0) 0 (replicate 4 (dof 0)).

(** [open_vwap_[sideToIndex(side)]]; raw indexing, 4 cells. *)
Definition vwap_get (side : Side.t) (v : list double) : res double :=
  match v !! Z.to_nat (sideToIndex side) with
  | Some x => Ok x
  | None => Err (UB "open_vwap_ out of range")
  end.
Definition vwap_set (side : Side.t) (x : double) (v : list double) : list double :=
  <[ Z.to_nat (sideToIndex side) := x ]> v.

(** Unrealized PnL of [pos] against the price [p]. *)
Definition mark (p : double) (pos : Z) (v : list double) : res double :=
  apos ← std_abs pos;
  if 0 <? pos then
    b ← vwap_get Side.BUY v; Ok ((p - b / dof apos) * dof apos)%double
  else
    s ← vwap_get Side.SELL v; Ok ((s / dof apos - p) * dof apos)%double.

(** Step 3 of [addFill], for a fill against the position. *)
Definition reduce (side : Side.t) (p : double) (q old pos : Z) (v : list double) (real : double) :
  res (list double * double) :=
  let s := sideToValue side in
  let opp_side := if Side.eqb side Side.BUY then Side.SELL else Side.BUY in
  aold ← std_abs old;
  o ← vwap_get opp_side v;
  let vwap_opp := (o / dof aold)%double in
  apos ← std_abs pos;
  let v := vwap_set opp_side (vwap_opp * dof apos)%double v in
  let qty_closed := Z.min q aold in
  let real := (real + dof qty_closed * (vwap_opp - p) * dof s)%double in
  if pos * old <? 0 then
    _ ← vwap_get side v;
    Ok (vwap_set opp_side (dof 0) (vwap_set side (p * dof apos)%double v), real)
  else Ok (v, real).

Definition addFill (response : MEClientResponse) (i : PositionInfo) : res PositionInfo :=
  let side := rs_side_ response in
  let s := sideToValue side in
  let p := dof (rs_price_ response) in
  let q := i32 (rs_exec_qty_ response) in
  let old := position_ i in
  sq ← int32 (s * q);
  pos ← int32 (old + sq);
  let vol := u32 (volume_ i + rs_exec_qty_ response) in
  os ← int32 (old * s);
  '(v, real) ←
    (if 0 <=? os then
       x ← vwap_get side (open_vwap_ i);
       Ok (vwap_set side (x + p * dof q)%double (open_vwap_ i), real_pnl_ i)
     else reduce side p q old pos (open_vwap_ i) (real_pnl_ i));
  '(v, unreal) ←
    (if pos =? 0 then Ok (replicate 4 (dof 0), dof 0)
     else m ← mark p pos v; Ok (v, m));
  Ok (mkPositionInfo pos real unreal (real + unreal)%double vol v).

Definition pi_updateBBO (bbo : BBO) (i : PositionInfo) : res PositionInfo :=
  if negb (position_ i =? 0) && isValid64 (bid_price_ bbo) && isValid64 (ask_price_ bbo) then
    let mid := ((dof (bid_price_ bbo) + dof (ask_price_ bbo)) * dhalf)%double in
    unreal ← mark mid (position_ i) (open_vwap_ i);
    Ok (mkPositionInfo (position_ i) (real_pnl_ i) unreal (real_pnl_ i + unreal)%double (volume_ i) (open_vwap_ i))
  else Ok i.
End PositionInfo.

Arguments PositionInfo Dbl : clear implicits.

(** ** PositionKeeper: one [PositionInfo] per ticker *)

Abbreviation PositionKeeper := (list (PositionInfo _)) (only parsing).

Section PositionKeeper.
Context `{Cfg : Config, Dbl : Double}.

Definition PositionKeeper_new : PositionKeeper := replicate (Z.to_nat ME_MAX_TICKERS) PositionInfo_new.

(** [ticker_position_.at(i)], inside [noexcept] methods. *)
Definition position_at (ticker_id : TickerId) (k : PositionKeeper) : res (PositionInfo Dbl) :=
  match k !! Z.to_nat ticker_id with
  | Some i => Ok i
  | None => Err (Throw "out_of_range")
  end.

Definition pk_addFill (response : MEClientResponse) (k : PositionKeeper) : res PositionKeeper :=
  i ← position_at (rs_ticker_id_ response) k;
  i ← addFill response i;
  Ok (<[ Z.to_nat (rs_ticker_id_ response) := i ]> k).

Definition pk_updateBBO (ticker_id : TickerId) (bbo : BBO) (k : PositionKeeper) : res PositionKeeper :=
  i ← position_at ticker_id k;
  i ← pi_updateBBO bbo i;
  Ok (<[ Z.to_nat ticker_id := i ]> k).

Definition getPositionInfo (ticker_id : TickerId) (k : PositionKeeper) : res (PositionInfo Dbl) :=
  position_at ticker_id k.
End PositionKeeper.

(** ** What the fills add up to *)

(** A fill by what the accounts need of it. *)
Record fill_ok (r : MEClientResponse) : Prop := {
  fl_side : rs_side_ r = Side.BUY ∨ rs_side_ r = Side.SELL;
  fl_qty : 0 ≤ rs_exec_qty_ r < 2 ^ 31;
}.
Definition signed_qty (r : MEClientResponse) : Z := sideToValue (rs_side_ r) * rs_exec_qty_ r.
(** What the fills paid out, net. *)
Definition cash (rs : list MEClientResponse) : Z := - sumZ (λ r, signed_qty r * rs_price_ r) rs.
Definition bought (rs : list MEClientResponse) : Z := sumZ signed_qty rs.
(** What moves the PnL: a fill, or a new best bid and offer. *)
Inductive pnl_event := Fill (r : MEClientResponse) | Quote (bbo : BBO).
Definition fill_of (e : pnl_event) : option MEClientResponse := match e with Fill r => Some r | Quote _ => None end.
Definition fills (es : list pnl_event) : list MEClientResponse := omap fill_of es.
(** No prefix takes the position out of [int32_t], or to its minimum. *)
Definition within (es : list pnl_event) : Prop :=
  ∀ k, - 2 ^ 31 < bought (fills (take k es)) < 2 ^ 31.

Section events.
Context `{Dbl : Double}.
Definition pnl_apply (e : pnl_event) : PositionInfo Dbl → res (PositionInfo Dbl) :=
  match e with Fill r => addFill r | Quote bbo => pi_updateBBO bbo end.
Fixpoint pnl_run (es : list pnl_event) (i : PositionInfo Dbl) : res (PositionInfo Dbl) :=
  match es with
  | [] => Ok i
  | e :: es => i ← pnl_apply e i; pnl_run es i
  end.
End events.

(** The position, in any arithmetic. *)
Section position.
Context `{Dbl : Double}.

Lemma vwap_get_Ok side (v : list double) : side = Side.BUY ∨ side = Side.SELL → length v = 4%nat →
  ∃ x, vwap_get side v = Ok x.
Proof. intros [-> | ->]; destruct v as [|a [|b [|c [|d []]]]]; intros [=]; by eexists. Qed.
Lemma vwap_set_length side x (v : list double) : length (vwap_set side x v) = length v.
Proof. apply length_insert. Qed.

Lemma std_abs_small z : - 2 ^ 31 < z < 2 ^ 31 → std_abs z = Ok (Z.abs z).
Proof. intros Hz. apply int32_Ok. unfold is_i32. lia. Qed.

Lemma mark_Ok p pos (v : list double) : - 2 ^ 31 < pos < 2 ^ 31 → length v = 4%nat → ∃ x, mark p pos v = Ok x.
Proof.
  intros Hp Hv. unfold mark. rewrite std_abs_small by done. cbn [mbind res_bind].
  destruct (vwap_get_Ok Side.BUY v) as [b Eb]; [by left|done|].
  destruct (vwap_get_Ok Side.SELL v) as [s Es]; [by right|done|].
  case (0 <? pos); rewrite ?Eb, ?Es; by eexists.
Qed.

Lemma reduce_Ok side p q old pos (v : list double) real :
  side = Side.BUY ∨ side = Side.SELL → - 2 ^ 31 < old < 2 ^ 31 → - 2 ^ 31 < pos < 2 ^ 31 → length v = 4%nat →
  ∃ v' real', reduce side p q old pos v real = Ok (v', real') ∧ length v' = 4%nat.
Proof.
  intros Hs Ho Hp Hv. unfold reduce. rewrite !std_abs_small by done. cbn [mbind res_bind].
  set (opp := if Side.eqb side Side.BUY then Side.SELL else Side.BUY).
  destruct (vwap_get_Ok opp v) as [o Eo]; [subst opp; destruct Hs as [-> | ->]; [by right|by left]|done|].
  rewrite Eo. cbn [mbind res_bind]. match goal with |- context [vwap_set opp ?x v] => set (v1 := vwap_set opp x v) end.
  assert (Hv1 : length v1 = 4%nat) by (by unfold v1; rewrite vwap_set_length).
  destruct (pos * old <? 0); [|by eexists _, _].
  destruct (vwap_get_Ok side v1 Hs Hv1) as [x Ex]. rewrite Ex. cbn [mbind res_bind].
  eexists _, _. split; [reflexivity|]. by rewrite !vwap_set_length.
Qed.

Lemma addFill_Ok r (i : PositionInfo Dbl) :
  rs_side_ r = Side.BUY ∨ rs_side_ r = Side.SELL → 0 ≤ rs_exec_qty_ r < 2 ^ 31 →
  - 2 ^ 31 < position_ i < 2 ^ 31 → - 2 ^ 31 < position_ i + signed_qty r < 2 ^ 31 → length (open_vwap_ i) = 4%nat →
  ∃ i', addFill r i = Ok i' ∧ position_ i' = position_ i + signed_qty r ∧ length (open_vwap_ i') = 4%nat.
Proof.
  intros Hside Hq Hp Hp' Hv. unfold signed_qty in *.
  assert (Hs2 : sideToValue (rs_side_ r) = 1 ∨ sideToValue (rs_side_ r) = -1) by (destruct Hside as [-> | ->]; auto).
  unfold addFill. rewrite (i32_id (rs_exec_qty_ r)) by (unfold is_i32; lia).
  rewrite (int32_Ok (sideToValue _ * _)) by (unfold is_i32; lia). cbn [mbind res_bind].
  rewrite (int32_Ok (position_ i + _)) by (unfold is_i32; lia). cbn [mbind res_bind].
  rewrite (int32_Ok (position_ i * _)) by (unfold is_i32; lia). cbn [mbind res_bind].
  set (pos := position_ i + _) in *.
  match goal with |- ∃ i', ?first ≫= _ = _ ∧ _ => assert (∃ v real, first = Ok (v, real) ∧ length v = 4%nat) as (v & real & -> & Hlv) end.
  { destruct (0 <=? _); [|by apply reduce_Ok].
    destruct (vwap_get_Ok _ _ Hside Hv) as [x ->]. eexists _, _. split; [reflexivity|]. by rewrite vwap_set_length. }
  cbn [mbind res_bind]. destruct (pos =? 0); [by eexists|].
  destruct (mark_Ok (dof (rs_price_ r)) pos v Hp' Hlv) as [x ->]. by eexists.
Qed.

Lemma updateBBO_Ok bbo (i : PositionInfo Dbl) :
  - 2 ^ 31 < position_ i < 2 ^ 31 → length (open_vwap_ i) = 4%nat →
  ∃ i', pi_updateBBO bbo i = Ok i' ∧ position_ i' = position_ i ∧ length (open_vwap_ i') = 4%nat.
Proof.
  intros Hp Hv. unfold pi_updateBBO. destruct (_ && _ && _); [|by exists i].
  match goal with |- context [mark ?p _ _] => destruct (mark_Ok p _ _ Hp Hv) as [x ->] end. by eexists.
Qed.
End position.

Section accounts.
#[local] Existing Instance exact.

(** [c]: the cash paid; an open position is carried at cost on its own side,
    and there is nothing on the other. *)
Record accounts (c : Z) (i : PositionInfo exact) : Prop := {
  ac_pos : - 2 ^ 31 < position_ i < 2 ^ 31;
  ac_vwap : ∃ buy sell, open_vwap_ i = [sell; dof 0; buy; dof 0] ∧
    (position_ i ≤ 0 → buy = dof 0) ∧ (0 ≤ position_ i → sell = dof 0) ∧
    real_pnl_ i = (dof c + buy - sell)%double;
}.

Lemma dof_0 : dof 0 = Q2Qc 0%Q.
Proof. done. Qed.

Lemma vwap_buy (a b c d : double) : vwap_get Side.BUY [a; b; c; d] = Ok c.
Proof. done. Qed.
Lemma vwap_sell (a b c d : double) : vwap_get Side.SELL [a; b; c; d] = Ok a.
Proof. done. Qed.
Lemma vwap_set_buy (a b c d x : double) : vwap_set Side.BUY x [a; b; c; d] = [a; b; x; d].
Proof. done. Qed.
Lemma vwap_set_sell (a b c d x : double) : vwap_set Side.SELL x [a; b; c; d] = [x; b; c; d].
Proof. done. Qed.

Lemma dof_m1 : dof (-1) = Qcopp (dof 1).
Proof. done. Qed.
Lemma Qcopp_nz (x : Qc) : x ≠ Q2Qc 0%Q → Qcopp x ≠ Q2Qc 0%Q.
Proof. intros Hx E. apply Hx. by rewrite <- (Qcopp_involutive x), E. Qed.

(** Equations between exact numbers, with divisions by integers known to be
    nonzero. *)
Ltac exact_field :=
  repeat match goal with
    | H : ?z ≠ 0 |- _ => apply dof_nz in H
    end;
  repeat first [rewrite dof_sub | rewrite dof_add | rewrite dof_mul | rewrite dof_opp | rewrite dof_m1];
  change (dof 0) with (Q2Qc 0%Q) in *; change (dof 1) with (Q2Qc 1%Q) in *; cbn -[Q2Qc inject_Z] in *;
  field; repeat split; auto using Qcopp_nz.

Lemma mark_exact p pos buy sell :
  pos ≠ 0 → - 2 ^ 31 < pos < 2 ^ 31 → (pos ≤ 0 → buy = dof 0) → (0 ≤ pos → sell = dof 0) →
  mark p pos [sell; dof 0; buy; dof 0] = Ok (p * dof pos - buy + sell)%double.
Proof.
  intros Hnz Hp Hb Hs. unfold mark. rewrite std_abs_small by done. cbn [mbind res_bind].
  case Z.ltb_spec; intros Hpos.
  - rewrite Z.abs_eq, Hs, vwap_buy by lia. cbn [mbind res_bind]; f_equal. exact_field.
  - rewrite Z.abs_neq, Hb by lia. rewrite dof_opp, vwap_sell. cbn [mbind res_bind]; f_equal. exact_field.
Qed.

(** The carried position after a fill against it. *)
Lemma reduce_exact c old pos q r buy sell real side p :
  side = Side.BUY ∨ side = Side.SELL → 0 ≤ q → pos = old + sideToValue side * q →
  sideToValue side * old < 0 → - 2 ^ 31 < old < 2 ^ 31 → - 2 ^ 31 < pos < 2 ^ 31 →
  (old ≤ 0 → buy = dof 0) → (0 ≤ old → sell = dof 0) → real = (dof c + buy - sell)%double →
  p = dof r →
  ∃ buy' sell' real', reduce side p q old pos [sell; dof 0; buy; dof 0] real = Ok ([sell'; dof 0; buy'; dof 0], real') ∧
    (pos ≤ 0 → buy' = dof 0) ∧ (0 ≤ pos → sell' = dof 0) ∧
    real' = (dof (c - sideToValue side * q * r) + buy' - sell')%double.
Proof.
  intros [-> | ->] Hq -> Hopp Ho Hp Hb Hs -> ->; unfold reduce; cbn [sideToValue Side.toZ] in *;
    rewrite !std_abs_small by done; cbn [mbind res_bind]; assert (Hz : old ≠ 0) by lia.
  - change (Side.eqb Side.BUY Side.BUY) with true. cbv iota. rewrite vwap_sell. cbn [mbind res_bind]. rewrite vwap_set_sell.
    rewrite (Hb ltac:(lia)), (Z.abs_neq old) by lia. case Z.ltb_spec; intros Hflip.
    + rewrite vwap_buy. cbn [mbind res_bind]. rewrite vwap_set_buy, vwap_set_sell.
      rewrite Z.abs_eq, Z.min_r by nia. do 3 eexists. split; [reflexivity|]. split_and!; [nia|done|exact_field].
    + rewrite Z.abs_neq, Z.min_l by nia. do 3 eexists. split; [reflexivity|]. split_and!; [done| |exact_field].
      intros Hp0. assert (q = - old) as -> by nia. replace (- (old + 1 * - old)) with 0 by lia. exact_field.
  - change (Side.eqb Side.SELL Side.BUY) with false. cbv iota. rewrite vwap_buy. cbn [mbind res_bind]. rewrite vwap_set_buy.
    rewrite (Hs ltac:(lia)), (Z.abs_eq old) by lia. case Z.ltb_spec; intros Hflip.
    + rewrite vwap_sell. cbn [mbind res_bind]. rewrite vwap_set_sell, vwap_set_buy.
      rewrite Z.abs_neq, Z.min_r by nia. do 3 eexists. split; [reflexivity|]. split_and!; [done|nia|exact_field].
    + rewrite Z.abs_eq, Z.min_l by nia. do 3 eexists. split; [reflexivity|]. split_and!; [|done|exact_field].
      intros Hp0. assert (q = old) as -> by nia. replace (old + -1 * old) with 0 by lia. exact_field.
Qed.

(** The increase of a position, and the two cases together. *)
Lemma carry_exact c i r :
  accounts c i → fill_ok r → - 2 ^ 31 < position_ i + signed_qty r < 2 ^ 31 →
  let side := rs_side_ r in
  let s := sideToValue side in
  let p := dof (rs_price_ r) in
  let q := rs_exec_qty_ r in
  let pos := position_ i + signed_qty r in
  ∃ buy sell real,
    (if 0 <=? position_ i * s then
       x ← vwap_get side (open_vwap_ i);
       Ok (vwap_set side (x + p * dof q)%double (open_vwap_ i), real_pnl_ i)
     else reduce side p q (position_ i) pos (open_vwap_ i) (real_pnl_ i)) = Ok ([sell; dof 0; buy; dof 0], real) ∧
    (pos ≤ 0 → buy = dof 0) ∧ (0 ≤ pos → sell = dof 0) ∧
    real = (dof (c - signed_qty r * rs_price_ r) + buy - sell)%double.
Proof.
  intros [Hp (buy & sell & Hv & Hb & Hs & Hr)] [Hside Hq] Hpos s p q pos. subst s p q pos.
  rewrite Hv. case Z.leb_spec; intros Hdir.
  - unfold signed_qty in *. destruct Hside as [Hsd|Hsd]; rewrite Hsd in *; cbn [sideToValue Side.toZ] in *.
    + rewrite vwap_buy. cbn [mbind res_bind]. rewrite vwap_set_buy. do 3 eexists. split; [reflexivity|].
      rewrite (Hs ltac:(lia)) in *. split_and!; [|done|rewrite Hr; exact_field].
      intros Hz. rewrite Hb by lia. assert (rs_exec_qty_ r = 0) as -> by lia. exact_field.
    + rewrite vwap_sell. cbn [mbind res_bind]. rewrite vwap_set_sell. do 3 eexists. split; [reflexivity|].
      rewrite (Hb ltac:(lia)) in *. split_and!; [done| |rewrite Hr; exact_field].
      intros Hz. rewrite Hs by lia. assert (rs_exec_qty_ r = 0) as -> by lia. exact_field.
  - unfold signed_qty in *.
    destruct (reduce_exact c (position_ i) (position_ i + sideToValue (rs_side_ r) * rs_exec_qty_ r) (rs_exec_qty_ r)
      (rs_price_ r) buy sell (real_pnl_ i) (rs_side_ r) (dof (rs_price_ r))) as (b & sl & rl & ? & ? & ? & ?);
      try done; [lia|lia|]. by exists b, sl, rl.
Qed.

Lemma addFill_exact c i r :
  accounts c i → fill_ok r → - 2 ^ 31 < position_ i + signed_qty r < 2 ^ 31 →
  let c' := c - signed_qty r * rs_price_ r in
  ∃ i', addFill r i = Ok i' ∧ accounts c' i' ∧ position_ i' = position_ i + signed_qty r ∧
    total_pnl_ i' = dof (c' + position_ i' * rs_price_ r) ∧ volume_ i' = u32 (volume_ i + rs_exec_qty_ r).
Proof.
  intros Hac Hf Hpos c'. subst c'. destruct (carry_exact c i r Hac Hf Hpos) as (buy & sell & real & E & Hb & Hs & Hr).
  pose proof Hac as [Hp _]. pose proof Hf as [Hside Hq]. unfold signed_qty in *.
  assert (Hs2 : sideToValue (rs_side_ r) = 1 ∨ sideToValue (rs_side_ r) = -1) by (destruct Hside as [-> | ->]; auto).
  unfold addFill. rewrite (i32_id (rs_exec_qty_ r)) by (unfold is_i32; lia).
  rewrite (int32_Ok (sideToValue _ * _)) by (unfold is_i32; lia). cbn [mbind res_bind].
  rewrite (int32_Ok (position_ i + _)) by (unfold is_i32; lia). cbn [mbind res_bind].
  rewrite (int32_Ok (position_ i * _)) by (unfold is_i32; lia). cbn [mbind res_bind].
  unfold mbind in E. unfold mbind. rewrite E. cbn [res_bind].
  set (pos := position_ i + sideToValue (rs_side_ r) * rs_exec_qty_ r) in *.
  case Z.eqb_spec; intros Hz.
  - eexists. split; [reflexivity|]. rewrite (Hb ltac:(lia)), (Hs ltac:(lia)) in Hr. subst real.
    split; [|split; [done|split; [|done]]]; cbn [position_ total_pnl_].
    + split; [done|]. exists (dof 0), (dof 0). by split_and!.
    + rewrite Hz. exact_field.
  - rewrite (mark_exact _ pos buy sell) by done. cbn [res_bind]. eexists. split; [reflexivity|].
    split; [|split; [done|split; [|done]]]; cbn [position_ total_pnl_].
    + split; [done|]. exists buy, sell. by split_and!.
    + rewrite Hr. exact_field.
Qed.

Lemma updateBBO_exact c i bbo :
  accounts c i → ∃ i', pi_updateBBO bbo i = Ok i' ∧ accounts c i' ∧ position_ i' = position_ i ∧
    (position_ i ≠ 0 → isValid64 (bid_price_ bbo) = true → isValid64 (ask_price_ bbo) = true →
     (total_pnl_ i' + total_pnl_ i')%double = dof (2 * c + position_ i * (bid_price_ bbo + ask_price_ bbo))).
Proof.
  intros [Hp (buy & sell & Hv & Hb & Hs & Hr)]. unfold pi_updateBBO.
  destruct (negb (position_ i =? 0)) eqn:Hz; cbn [andb]; [|exists i; split_and!; try done;
    [split; [done|]; by exists buy, sell|apply negb_false_iff, Z.eqb_eq in Hz; lia]].
  apply negb_true_iff, Z.eqb_neq in Hz.
  destruct (isValid64 (bid_price_ bbo)) eqn:E1, (isValid64 (ask_price_ bbo)) eqn:E2; cbn [andb];
    try (exists i; split_and!; try done; split; [done|]; by exists buy, sell).
  rewrite Hv, mark_exact by done. cbn [mbind res_bind]. eexists. split; [reflexivity|].
  split; [split; [done|]; by exists buy, sell|]. split; [done|]. intros _ _ _. cbn [total_pnl_].
  rewrite Hr. unfold dhalf. assert (H2 : 2 ≠ 0) by done.
  change (dof (2 * c + position_ i * (bid_price_ bbo + ask_price_ bbo))) with
    (dof ((1 + 1) * c + position_ i * (bid_price_ bbo + ask_price_ bbo))).
  change (dof 2) with (dof (1 + 1)). assert (H3 : 1 + 1 ≠ 0) by done. clear H2. exact_field.
Qed.

Lemma pnl_run_app es es' i i1 : pnl_run es i = Ok i1 → pnl_run (es ++ es') i = pnl_run es' i1.
Proof.
  revert i. induction es as [|e es IH]; intros i; cbn [app pnl_run]; [by intros [= ->]|].
  destruct (pnl_apply e i) as [i2|]; [apply IH|done].
Qed.

Lemma fills_app es es' : fills (es ++ es') = fills es ++ fills es'.
Proof. apply omap_app. Qed.
Lemma cash_app rs rs' : cash (rs ++ rs') = cash rs + cash rs'.
Proof. unfold cash. rewrite sumZ_app. lia. Qed.
Lemma bought_app rs rs' : bought (rs ++ rs') = bought rs + bought rs'.
Proof. apply sumZ_app. Qed.

Lemma cash_one r : cash [r] = - (signed_qty r * rs_price_ r).
Proof. unfold cash. cbn [sumZ foldr]. lia. Qed.
Lemma bought_one r : bought [r] = signed_qty r.
Proof. unfold bought. cbn [sumZ foldr]. lia. Qed.

Lemma within_init es e : within (es ++ [e]) → within es.
Proof.
  intros Hw k. destruct (decide (k ≤ length es)%nat) as [Hk|Hk].
  - specialize (Hw k). by rewrite take_app_le in Hw.
  - specialize (Hw (length es)). rewrite take_app_length in Hw. by rewrite take_ge by lia.
Qed.
Lemma within_all es : within es → - 2 ^ 31 < bought (fills es) < 2 ^ 31.
Proof. intros Hw. specialize (Hw (length es)). by rewrite firstn_all in Hw. Qed.

Lemma pnl_run_exact es : Forall fill_ok (fills es) → within es →
  ∃ i, pnl_run es PositionInfo_new = Ok i ∧ accounts (cash (fills es)) i ∧ position_ i = bought (fills es) ∧
    volume_ i = u32 (sumZ rs_exec_qty_ (fills es)).
Proof.
  induction es as [|e es IH] using rev_ind; intros Hf Hw.
  - exists PositionInfo_new. split; [done|]. split; [|done]. split; [cbn; lia|]. exists (dof 0), (dof 0).
    split_and!; [done..|]. change (cash (fills [])) with 0. cbn [real_pnl_ PositionInfo_new]. exact_field.
  - rewrite fills_app in Hf |- *. apply Forall_app in Hf as [Hf He].
    destruct (IH Hf (within_init _ _ Hw)) as (i & Hr & Ha & Hp & Hv).
    apply within_all in Hw. rewrite fills_app, bought_app in Hw.
    rewrite cash_app, bought_app, sumZ_app, (pnl_run_app _ _ _ _ Hr). cbn [pnl_run].
    destruct e as [r|bbo]; cbn [fills omap list_omap fill_of pnl_apply] in *.
    + apply Forall_cons in He as [He _]. rewrite bought_one, <- Hp in Hw. rewrite bought_one, cash_one.
      destruct (addFill_exact _ i r Ha He) as (i' & E & Ha' & Hp' & _ & Hv'); [lia|].
      exists i'. rewrite E. split; [done|]. split; [|split].
      * exact Ha'.
      * by rewrite Hp', Hp.
      * rewrite Hv', Hv. unfold u32. rewrite Zplus_mod_idemp_l. f_equal. cbn [sumZ foldr]. lia.
    + destruct (updateBBO_exact _ i bbo Ha) as (i' & E & Ha' & Hp' & _). exists i'. rewrite E.
      change (cash []) with 0. change (bought []) with 0. rewrite !Z.add_0_r. split_and!; try done; [by rewrite Hp'|].
      assert (volume_ i' = volume_ i) as ->; [|by rewrite Hv].
      revert E. unfold pi_updateBBO. destruct (_ && _ && _); [|by intros [= ->]].
      destruct (mark _ _ _); [|done]. by intros [= <-].
Qed.

(** C32: the PnL is exact mark-to-market.  Whatever fills and quotes a ticker
    sees, short of overflowing [int32_t], no step faults; without rounding the
    position is the net quantity bought, the volume everything traded, and the
    total PnL is the cash paid out plus the position at the latest price: that
    of a fill just added, or the mid of the quote just applied.  Realized PnL,
    average costs and position flips cancel out. *)
Theorem pnl_marks_to_market es e :
  Forall fill_ok (fills (es ++ [e])) → within (es ++ [e]) →
  let fs := fills (es ++ [e]) in
  ∃ i, pnl_run (es ++ [e]) PositionInfo_new = Ok i ∧
    position_ i = bought fs ∧ volume_ i = u32 (sumZ rs_exec_qty_ fs) ∧
    match e with
    | Fill r => total_pnl_ i = dof (cash fs + bought fs * rs_price_ r)
    | Quote bbo => bought fs ≠ 0 → isValid64 (bid_price_ bbo) = true → isValid64 (ask_price_ bbo) = true →
        (total_pnl_ i + total_pnl_ i)%double = dof (2 * cash fs + bought fs * (bid_price_ bbo + ask_price_ bbo))
    end.
Proof.
  intros Hf Hw fs. destruct (pnl_run_exact _ Hf Hw) as (i & Hr & Ha & Hp & Hv).
  exists i. split; [done|]. split; [done|]. split; [done|]. subst fs.
  pose proof Hf as Hf0. rewrite fills_app in Hf0. apply Forall_app in Hf0 as [Hf0 He].
  destruct (pnl_run_exact es Hf0 (within_init _ _ Hw)) as (i0 & Hr0 & Ha0 & Hp0 & _).
  rewrite (pnl_run_app _ _ _ _ Hr0) in Hr. apply within_all in Hw. rewrite fills_app, bought_app in Hw, Hp.
  rewrite fills_app, cash_app, bought_app. cbn [pnl_run] in Hr.
  destruct e as [r|bbo]; cbn [fills omap list_omap fill_of pnl_apply] in *.
  - apply Forall_cons in He as [He _]. rewrite bought_one in *. rewrite cash_one.
    destruct (addFill_exact _ i0 r Ha0 He) as (i' & E & _ & Hp' & Ht & _); [lia|].
    rewrite E in Hr. injection Hr as <-. by rewrite Ht, Hp', Hp0.
  - destruct (updateBBO_exact _ i0 bbo Ha0) as (i' & E & _ & Hp' & Ht). rewrite E in Hr. injection Hr as <-.
    change (cash []) with 0. change (bought []) with 0. rewrite !Z.add_0_r, <- Hp0. apply Ht.
Qed.
End accounts.
