(* ===== verification/RiskManager.v ===== *)
(** Trading::RiskManager (trading/strategy/risk_manager.h and .cpp) with the
    limits of include/types.h: the checks every new order passes.

    [position_info_] points into the PositionKeeper: it is the index of the
    cell, read when the check runs. *)

From S2P Require Import Prelude CLib Types Doubles PositionKeeper.

Section RiskManager.
Context `{Cfg : Config, Dbl : Double}.

Record RiskCfg := mkRiskCfg {
  max_order_size_ : Qty;
  max_position_ : Qty;
  max_loss_ : double;
}.
Record TradeEngineCfg := mkTradeEngineCfg {
  clip_ : Qty;
  threshold_ : double;
  risk_cfg_ : RiskCfg;
}.

Inductive RiskCheckResult := R_INVALID | ORDER_TOO_LARGE | POSITION_TOO_LARGE | LOSS_TOO_LARGE | ALLOWED.
#[export] Instance RiskCheckResult_eq_dec : EqDecision RiskCheckResult.
Proof. solve_decision. Defined.

Definition riskCheckResultToString (r : RiskCheckResult) : string :=
  match r with
  | R_INVALID => "INVALID"
  | ORDER_TOO_LARGE => "ORDER_TOO_LARGE"
  | POSITION_TOO_LARGE => "POSITION_TOO_LARGE"
  | LOSS_TOO_LARGE => "LOSS_TOO_LARGE"
  | ALLOWED => "ALLOWED"
  end.

Record RiskInfo := mkRiskInfo {
  position_info_ : TickerId;
  ri_risk_cfg_ : RiskCfg;
}.

(** [RiskInfo::checkPreTradeRisk], on the position its pointer shows. *)
Definition riskInfoCheck (cfg : RiskCfg) (i : PositionInfo Dbl) (side : Side.t) (qty : Qty) : res RiskCheckResult :=
  if max_order_size_ cfg <? qty then Ok ORDER_TOO_LARGE
  else
    sq ← int32 (sideToValue side * i32 qty);
    new_pos ← int32 (position_ i + sq);
    abs_pos ← std_abs new_pos;
    Ok (if max_position_ cfg <? abs_pos then POSITION_TOO_LARGE
        else if dltb (total_pnl_ i) (max_loss_ cfg) then LOSS_TOO_LARGE
        else ALLOWED).

(** The constructor: [cfg_map[i]] indexes a [std::array] of as many cells. *)
Definition RiskManager_new (cfg_map : list TradeEngineCfg) : list RiskInfo :=
  imap (λ i cfg, mkRiskInfo (Z.of_nat i) (risk_cfg_ cfg)) (take (Z.to_nat ME_MAX_TICKERS) cfg_map).

(** [ticker_risk_.at(...)] inside a [noexcept] method. *)
Definition checkPreTradeRisk (rm : list RiskInfo) (pk : PositionKeeper) (ticker_id : TickerId) (side : Side.t)
  (qty : Qty) : res RiskCheckResult :=
  match rm !! Z.to_nat ticker_id with
  | None => Err (Throw "out_of_range")
  | Some ri => i ← getPositionInfo (position_info_ ri) pk; riskInfoCheck (ri_risk_cfg_ ri) i side qty
  end.

Lemma checkPreTradeRisk_eq cfg_map c pk i tid side qty :
  0 ≤ tid < ME_MAX_TICKERS → cfg_map !! Z.to_nat tid = Some c → pk !! Z.to_nat tid = Some i →
  checkPreTradeRisk (RiskManager_new cfg_map) pk tid side qty = riskInfoCheck (risk_cfg_ c) i side qty.
Proof.
  intros Ht Hc Hi. unfold checkPreTradeRisk.
  assert (RiskManager_new cfg_map !! Z.to_nat tid = Some (mkRiskInfo tid (risk_cfg_ c))) as ->.
  { unfold RiskManager_new. rewrite list_lookup_imap, lookup_take_lt, Hc by lia. cbn. by rewrite Z2Nat.id by lia. }
  unfold getPositionInfo, position_at. cbn [position_info_ ri_risk_cfg_]. by rewrite Hi.
Qed.

(** ** What an allowed order satisfies *)

Lemma riskInfoCheck_spec cfg i side qty :
  side = Side.BUY ∨ side = Side.SELL → 0 ≤ qty → max_order_size_ cfg < 2 ^ 31 →
  Z.abs (position_ i) + max_order_size_ cfg < 2 ^ 31 →
  let new_pos := position_ i + sideToValue side * qty in
  riskInfoCheck cfg i side qty = Ok
    (if max_order_size_ cfg <? qty then ORDER_TOO_LARGE
     else if max_position_ cfg <? Z.abs new_pos then POSITION_TOO_LARGE
     else if dltb (total_pnl_ i) (max_loss_ cfg) then LOSS_TOO_LARGE else ALLOWED).
Proof.
  intros Hside Hq Hm Hpos new_pos. subst new_pos. unfold riskInfoCheck. case Z.ltb_spec; intros Hle; [done|].
  assert (Hs : sideToValue side = 1 ∨ sideToValue side = -1) by (destruct Hside as [-> | ->]; auto).
  rewrite (i32_id qty) by (unfold is_i32; lia).
  rewrite (int32_Ok (sideToValue side * qty)) by (unfold is_i32; lia). cbn [mbind res_bind].
  rewrite (int32_Ok (position_ i + _)) by (unfold is_i32; lia). cbn [mbind res_bind].
  unfold std_abs. rewrite int32_Ok by (unfold is_i32; lia). done.
Qed.

Lemma riskInfoCheck_allowed cfg i side qty :
  side = Side.BUY ∨ side = Side.SELL → 0 ≤ qty → max_order_size_ cfg < 2 ^ 31 →
  Z.abs (position_ i) + max_order_size_ cfg < 2 ^ 31 →
  riskInfoCheck cfg i side qty = Ok ALLOWED ↔
    qty ≤ max_order_size_ cfg ∧ Z.abs (position_ i + sideToValue side * qty) ≤ max_position_ cfg ∧
    dltb (total_pnl_ i) (max_loss_ cfg) = false.
Proof.
  intros Hside Hq Hm Hpos. rewrite riskInfoCheck_spec by done. cbv zeta.
  case Z.ltb_spec; intros H1; [split; [done|lia]|]. case Z.ltb_spec; intros H2; [split; [done|lia]|].
  destruct (dltb _ _); split; try done; by intros (_ & _ & ?).
Qed.
End RiskManager.

Arguments RiskCfg Dbl : clear implicits.
Arguments TradeEngineCfg Dbl : clear implicits.
Arguments RiskInfo Dbl : clear implicits.

(** One entry per ticker. *)
Abbreviation TradeEngineCfgHashMap := (list (TradeEngineCfg _)) (only parsing).
Abbreviation RiskManager := (list (RiskInfo _)) (only parsing).

(** Limits of 2^31 or more switch the position check off.  The quantity is
    narrowed to [int32_t] before it is added to the position, so with an order
    limit of [2^32 - 1] a flat client limited to a position of one may buy four
    billion: the check takes the order for a sale of one. *)
Theorem oversized_order_passes_risk :
  riskInfoCheck (Dbl := binary64) (mkRiskCfg (2 ^ 32 - 1) 1 (dof (-10000))) PositionInfo_new Side.BUY (2 ^ 32 - 1) =
    Ok ALLOWED.
Proof. vm_compute. reflexivity. Qed.
