(* ===== verification/OrderManager.v ===== *)
(** Trading::OMOrder and OrderManager
    (trading/strategy/om_order.h, order_manager.h and .cpp): the strategy's
    orders, at most one per ticker and side, and their state machine.

    The manager calls back into the TradeEngine that owns it: the class
    [Engine] is what it uses of its owner, and [EngineLaws] what it relies
    on.  [OMOrder *] is the position of the cell in [ticker_side_order_], an
    array of value-initialised orders indexed without bounds check. *)

From S2P Require Import Prelude Types Doubles PositionKeeper RiskManager.

Inductive OMOrderState := OM_INVALID | PENDING_NEW | LIVE | PENDING_CANCEL | DEAD.
#[export] Instance OMOrderState_eq_dec : EqDecision OMOrderState.
Proof. solve_decision. Defined.

Definition omOrderStateToString (state : OMOrderState) : string :=
  match state with
  | OM_INVALID => "INVALID"
  | PENDING_NEW => "PENDING_NEW"
  | LIVE => "LIVE"
  | PENDING_CANCEL => "PENDING_CANCEL"
  | DEAD => "DEAD"
  end.

Record OMOrder := mkOMOrder {
  om_ticker_id_ : TickerId;
  om_order_id_ : OrderId;
  om_side_ : Side.t;
  om_price_ : Price;
  om_qty_ : Qty;
  order_state_ : OMOrderState;
}.
#[export] Instance OMOrder_inh : Inhabited OMOrder :=
  populate (mkOMOrder TickerId_INVALID OrderId_INVALID Side.INVALID Price_INVALID Qty_INVALID OM_INVALID).

Definition set_state (v : OMOrderState) (o : OMOrder) : OMOrder :=
  mkOMOrder (om_ticker_id_ o) (om_order_id_ o) (om_side_ o) (om_price_ o) (om_qty_ o) v.
Definition set_om_qty (v : Qty) (o : OMOrder) : OMOrder :=
  mkOMOrder (om_ticker_id_ o) (om_order_id_ o) (om_side_ o) (om_price_ o) v (order_state_ o).

(** Cells by (ticker, side index); an absent key is a cell never written. *)
Record OrderManager := mkOrderManager {
  ticker_side_order_ : gmap (Z * Z) OMOrder;
  next_order_id_ : OrderId;
}.
Definition OrderManager_new : OrderManager := mkOrderManager ∅ 1.

Definition order_cell (k : Z * Z) (m : OrderManager) : OMOrder := default inhabitant (ticker_side_order_ m !! k).
Definition set_order_cell (k : Z * Z) (o : OMOrder) (m : OrderManager) : OrderManager :=
  mkOrderManager (<[ k := o ]> (ticker_side_order_ m)) (next_order_id_ m).

(** What the manager uses of the TradeEngine. *)
Class Engine (E : Type) := {
  om_of : lens E OrderManager;
  clientId : E → ClientId;
  sendClientRequest : MEClientRequest → M E unit;
  riskCheck : TickerId → Side.t → Qty → E → res RiskCheckResult;
}.

Section OrderManager.
Context `{Cfg : Config} {E : Type} `{Eng : Engine E}.
Local Abbreviation ME := (M E).

(** [&ticker_side_order_[ticker][side]]. *)
Definition order_ref (ticker_id : TickerId) (side : Side.t) : ME (Z * Z) :=
  if (ticker_id <? ME_MAX_TICKERS) && (sideToIndex side <? 4) then mret (ticker_id, sideToIndex side)
  else fail (UB "ticker_side_order_ out of range").
Definition read_order (order : Z * Z) : ME OMOrder := gets (λ e, order_cell order (lget om_of e)).
Definition write_order (order : Z * Z) (o : OMOrder) : ME unit :=
  modify (λ e, lset om_of (set_order_cell order o (lget om_of e)) e).
(** [++next_order_id_]. *)
Definition bump_order_id : ME unit :=
  modify (λ e, let m := lget om_of e in
    lset om_of (mkOrderManager (ticker_side_order_ m) (u64 (next_order_id_ m + 1))) e).

Definition newOrder (order : Z * Z) (ticker_id : TickerId) (price : Price) (side : Side.t) (qty : Qty) : ME unit :=
  cid ← gets clientId;
  oid ← gets (λ e, next_order_id_ (lget om_of e));
  sendClientRequest (mkMEClientRequest ClientRequestType.NEW cid ticker_id oid side price qty);;
  write_order order (mkOMOrder ticker_id oid side price qty PENDING_NEW);;
  bump_order_id.

Definition cancelOrder (order : Z * Z) : ME unit :=
  cid ← gets clientId;
  o ← read_order order;
  sendClientRequest (mkMEClientRequest ClientRequestType.CANCEL cid (om_ticker_id_ o) (om_order_id_ o)
    (om_side_ o) (om_price_ o) (om_qty_ o));;
  write_order order (set_state PENDING_CANCEL o).

Definition moveOrder (order : Z * Z) (ticker_id : TickerId) (price : Price) (side : Side.t) (qty : Qty) : ME unit :=
  o ← read_order order;
  match order_state_ o with
  | LIVE =>
      if negb (om_price_ o =? price) || negb (om_qty_ o =? qty) then cancelOrder order else mret tt
  | OM_INVALID | DEAD =>
      if isValid64 price then
        r ← gets (riskCheck ticker_id side qty);
        risk ← lift r;
        if bool_decide (risk = ALLOWED) then newOrder order ticker_id price side qty else mret tt
      else mret tt
  | PENDING_NEW | PENDING_CANCEL => mret tt
  end.

Definition moveOrders (ticker_id : TickerId) (bid_price ask_price : Price) (clip : Qty) : ME unit :=
  bid_order ← order_ref ticker_id Side.BUY;
  moveOrder bid_order ticker_id bid_price Side.BUY clip;;
  ask_order ← order_ref ticker_id Side.SELL;
  moveOrder ask_order ticker_id ask_price Side.SELL clip.

(** The transition of the state machine. *)
Definition on_response (response : MEClientResponse) (o : OMOrder) : OMOrder :=
  match rs_type_ response with
  | ClientResponseType.ACCEPTED => set_state LIVE o
  | ClientResponseType.CANCELED => set_state DEAD o
  | ClientResponseType.FILLED =>
      let o := set_om_qty (rs_leaves_qty_ response) o in
      if om_qty_ o =? 0 then set_state DEAD o else o
  | _ => o
  end.

Definition onOrderUpdate (response : MEClientResponse) : ME unit :=
  order ← order_ref (rs_ticker_id_ response) (rs_side_ response);
  o ← read_order order;
  write_order order (on_response response o).

Definition getOrder_ (ticker_id : TickerId) (side : Side.t) : ME OMOrder :=
  order ← order_ref ticker_id side; read_order order.
End OrderManager.

(** ** What the manager relies on

    The engine keeps the requests it was given, in order ([holds]); sending
    either appends one or stops the process, and like the manager's own writes
    leaves alone the rest of the engine ([env]), which the client id and the
    risk checks depend on. *)
Class EngineLaws (E : Type) `{Eng : Engine E} (Env : Type) := {
  env : E → Env;
  holds : E → list MEClientRequest → Prop;
  om_of_ok :: LensOk om_of;
  env_set m e : env (lset om_of m e) = env e;
  holds_set m e l : holds e l → holds (lset om_of m e) l;
  env_client e e' : env e = env e' → clientId e = clientId e';
  env_risk e e' tid side qty : env e = env e' → riskCheck tid side qty e = riskCheck tid side qty e';
  send_law r e l : holds e l →
    (∃ e', sendClientRequest r e = Ok (tt, e') ∧ holds e' (l ++ [r]) ∧ env e' = env e ∧ lget om_of e' = lget om_of e) ∨
    (∃ msg, sendClientRequest r e = Err (Fatal msg));
}.

Section specification.
Context `{Cfg : Config} {E Env : Type} `{Eng : Engine E} `{!EngineLaws E Env}.
Implicit Types (e : E) (m : OrderManager) (l out : list MEClientRequest).

(** The state machine of one order, as the requests it sends and the manager
    it leaves. *)
Definition s_new (cid : ClientId) (order : Z * Z) (tid : TickerId) (price : Price) (side : Side.t) (qty : Qty) m :
  list MEClientRequest * OrderManager :=
  let oid := next_order_id_ m in
  ([mkMEClientRequest ClientRequestType.NEW cid tid oid side price qty],
   mkOrderManager (<[ order := mkOMOrder tid oid side price qty PENDING_NEW ]> (ticker_side_order_ m)) (u64 (oid + 1))).

Definition s_drop (cid : ClientId) (order : Z * Z) m : list MEClientRequest * OrderManager :=
  let o := order_cell order m in
  ([mkMEClientRequest ClientRequestType.CANCEL cid (om_ticker_id_ o) (om_order_id_ o) (om_side_ o) (om_price_ o) (om_qty_ o)],
   set_order_cell order (set_state PENDING_CANCEL o) m).

Definition s_move (cid : ClientId) (allowed : bool) (order : Z * Z) (tid : TickerId) (price : Price) (side : Side.t)
  (qty : Qty) m : list MEClientRequest * OrderManager :=
  let o := order_cell order m in
  match order_state_ o with
  | LIVE => if negb (om_price_ o =? price) || negb (om_qty_ o =? qty) then s_drop cid order m else ([], m)
  | OM_INVALID | DEAD => if isValid64 price && allowed then s_new cid order tid price side qty m else ([], m)
  | PENDING_NEW | PENDING_CANCEL => ([], m)
  end.

(** [prog] sends what [f] says and leaves the manager as it says, or the
    process stops on a full queue. *)
Definition acts (prog : M E unit) (f : OrderManager → list MEClientRequest * OrderManager) e : Prop :=
  ∀ l, holds e l →
    (∃ e', prog e = Ok (tt, e') ∧ holds e' (l ++ (f (lget om_of e)).1) ∧ env e' = env e ∧
      lget om_of e' = (f (lget om_of e)).2) ∨
    (∃ msg, prog e = Err (Fatal msg)).

Lemma acts_none e : acts (mret tt) (λ m, ([], m)) e.
Proof. intros l Hl. left. exists e. cbn. by rewrite app_nil_r. Qed.

Lemma acts_ext f g prog e : f (lget om_of e) = g (lget om_of e) → acts prog f e → acts prog g e.
Proof. intros E1 H l Hl. rewrite <- E1. by apply H. Qed.

Lemma newOrder_acts order tid price side qty e :
  acts (newOrder order tid price side qty) (s_new (clientId e) order tid price side qty) e.
Proof.
  intros l Hl. unfold newOrder. rewrite !bind_gets.
  destruct (send_law (mkMEClientRequest ClientRequestType.NEW (clientId e) tid (next_order_id_ (lget om_of e)) side price qty)
    e l Hl) as [(e' & Hs & Hl' & He & Hm)|(msg & Hs)]; [left|right; exists msg; by apply bind_Err].
  rewrite (bind_Ok _ _ _ _ _ Hs). unfold write_order, bump_order_id. rewrite bind_modify.
  eexists. split; [reflexivity|]. rewrite Hm. split; [by do 2 apply holds_set|].
  split; [by rewrite !env_set|]. by rewrite !lget_lset.
Qed.

Lemma cancelOrder_acts order e : acts (cancelOrder order) (s_drop (clientId e) order) e.
Proof.
  intros l Hl. unfold cancelOrder, read_order. rewrite !bind_gets. set (o := order_cell order _).
  destruct (send_law (mkMEClientRequest ClientRequestType.CANCEL (clientId e) (om_ticker_id_ o) (om_order_id_ o)
    (om_side_ o) (om_price_ o) (om_qty_ o)) e l Hl) as [(e' & Hs & Hl' & He & Hm)|(msg & Hs)];
    [left|right; exists msg; by apply bind_Err].
  rewrite (bind_Ok _ _ _ _ _ Hs). unfold write_order. eexists. split; [reflexivity|]. rewrite Hm.
  split; [by apply holds_set|]. split; [by rewrite env_set|]. by rewrite lget_lset.
Qed.

Lemma moveOrder_acts order tid price side qty r e :
  riskCheck tid side qty e = Ok r →
  acts (moveOrder order tid price side qty) (s_move (clientId e) (bool_decide (r = ALLOWED)) order tid price side qty) e.
Proof.
  intros Hr. unfold moveOrder, read_order, acts. setoid_rewrite bind_gets. unfold s_move.
  destruct (order_state_ (order_cell order (lget om_of e))).
  1,5: destruct (isValid64 price); cbn [andb]; [|apply acts_none]; rewrite bind_gets, Hr;
    unfold lift; rewrite (bind_Ok _ _ e r e) by done; case_bool_decide; [apply newOrder_acts|apply acts_none].
  - apply acts_none.
  - destruct (_ || _); [apply cancelOrder_acts|apply acts_none].
  - apply acts_none.
Qed.
End specification.
