(* ===== verification/BookTexts.v ===== *)
(** The texts of the books: [toString] of an order, of a price level and of a
    whole book, for the exchange's two books and the client's; and of the
    strategy's tables, its orders and positions.

    Printing a book walks the circular list of the levels of a side and, for
    each level, follows the links of its first order and of the level itself;
    every walk and every pointer of the code is here.  [BookTexts] names what
    the two families of structs choose: the texts of their members and what a
    null neighbour prints.  The theorems show that the printing of any book
    the operations can build ends, follows no null pointer, changes nothing
    and gives each level once, best price first.  [std::to_string] and
    [operator<<] of an integer are the decimal [pretty]; how a stream prints a
    [double] is an argument. *)

From Stdlib Require Import Ascii.
From S2P Require Import Prelude Types MemPool CircularList LevelBook LevelBookRep LevelBookOps.
From S2P Require Import MessageText MEOrder OrderBookSpec OrderBookInv MEOrderBook MEOrderBookMatching MEOrderBookProps.
From S2P Require Import UnorderedMapMEOrderBook MarketOrderBook MarketOrderBookRefines.
From S2P Require Import Doubles PositionKeeper RiskManager OrderManager.

Definition newline : string := String "010" EmptyString.

(** The members of an order and a level, with the texts of their neighbours. *)
Class BookTexts (D : Type) := {
  order_id_text : D → string;
  null_order_text : string;
  order_text : D → string → string → string;
  level_text : Side.t → Price → string → string → string → string;
}.

(** ** The code *)

Section toString.
Context {D K : Type} `{Inhabited D} `{Countable K} {txt : BookTexts D}.
Local Abbreviation Mb := (M (LBook D K)).

(** [p ? text(p) : null] *)
Definition shown (null : string) (text : Z → Mb string) (p : option Z) : Mb string :=
  match p with
  | Some i => text i
  | None => mret null
  end.

Definition neighbour_id (i : Z) : Mb string :=
  n ← order_get (Some i);
  mret (order_id_text (data n)).

Definition neighbour_price (i : Z) : Mb string :=
  l ← level_get (Some i);
  mret (Id64 (price_ l)).

Definition order_toString (i : Z) : Mb string :=
  n ← order_get (Some i);
  prev ← shown null_order_text neighbour_id (prev_order_ n);
  next ← shown null_order_text neighbour_id (next_order_ n);
  mret (order_text (data n) prev next).

Definition level_toString (lvl : option Z) : Mb string :=
  l ← level_get lvl;
  first ← shown "null" order_toString (first_order_ l);
  prev ← shown "null" neighbour_price (prev_entry_ l);
  next ← shown "null" neighbour_price (next_entry_ l);
  mret (level_text (side_ l) (price_ l) first prev next).

(** [do { out += ...; lvl = lvl->next_entry_; } while (lvl != head)] *)
Fixpoint levels_toString (fuel : nat) (head lvl : option Z) (out : string) : Mb string :=
  t ← level_toString lvl;
  let out := out +:+ "    " +:+ t +:+ newline in
  l ← level_get lvl;
  if bool_decide (next_entry_ l = head) then mret out
  else match fuel with
       | O => fail Spin
       | S fuel => levels_toString fuel head (next_entry_ l) out
       end.

Definition side_toString (head : option Z) (out : string) : Mb string :=
  match head with
  | None => mret out
  | Some _ =>
      fuel ← gets (λ b, size (price_orders_at_price_ b));
      levels_toString fuel head head out
  end.

(** [title] is the first line, the newline included. *)
Definition book_toString (title : string) (detailed : bool) : Mb string :=
  if negb detailed then mret title else
  bids ← gets bids_by_price_;
  out ← side_toString bids (title +:+ "  BIDS:" +:+ newline);
  asks ← gets asks_by_price_;
  side_toString asks (out +:+ "  ASKS:" +:+ newline).
End toString.

(** *** The exchange's structs *)

Definition MEOrder_text (o : MEOrder) (prev next : string) : string :=
  "MEOrder[ticker:" +:+ Id32 (ticker_id_ o) +:+ " client:" +:+ Id32 (client_id_ o) +:+
  " client_oid:" +:+ Id64 (client_order_id_ o) +:+ " market_oid:" +:+ Id64 (market_order_id_ o) +:+
  " side:" +:+ sideToString (o_side_ o) +:+ " price:" +:+ Id64 (o_price_ o) +:+
  " qty:" +:+ Id32 (qty_ o) +:+ " priority:" +:+ Id64 (priority_ o) +:+
  " prev:" +:+ prev +:+ " next:" +:+ next +:+ "]".

Definition MEOrdersAtPrice_text (side : Side.t) (price : Price) (first prev next : string) : string :=
  "MEOrdersAtPrice[side:" +:+ sideToString side +:+ " price:" +:+ Id64 price +:+
  " first_order:" +:+ first +:+ " prev_entry:" +:+ prev +:+ " next_entry:" +:+ next +:+ "]".

(** A null neighbour of an order is printed as [OrderId()]. *)
#[export] Instance me_texts : BookTexts MEOrder := {|
  order_id_text o := Id64 (market_order_id_ o);
  null_order_text := Id64 OrderId_INVALID;
  order_text := MEOrder_text;
  level_text := MEOrdersAtPrice_text;
|}.

Definition MEOrderBook_title (ticker_id : TickerId) : string :=
  "MEOrderBook ticker:" +:+ pretty ticker_id +:+ newline.
Definition UnorderedMapMEOrderBook_title (ticker_id : TickerId) : string :=
  "UnorderedMapMEOrderBook ticker:" +:+ pretty ticker_id +:+ newline.

Definition MEOrderBook_toString (detailed : bool) : M MEOrderBook string := λ s,
  on_lb (book_toString (MEOrderBook_title (book_ticker_id_ s)) detailed) s.
Definition UnorderedMapMEOrderBook_toString (detailed : bool) : M MEOrderBook string := λ s,
  on_lb (book_toString (UnorderedMapMEOrderBook_title (book_ticker_id_ s)) detailed) s.

(** *** The client's structs *)

Definition MarketOrder_text (o : MarketOrder) (prev next : string) : string :=
  "MarketOrder[oid:" +:+ Id64 (mo_order_id_ o) +:+ " side:" +:+ sideToString (mo_side_ o) +:+
  " price:" +:+ Id64 (mo_price_ o) +:+ " qty:" +:+ Id32 (mo_qty_ o) +:+
  " prio:" +:+ Id64 (mo_priority_ o) +:+ " prev:" +:+ prev +:+ " next:" +:+ next +:+ "]".

Definition MarketOrdersAtPrice_text (side : Side.t) (price : Price) (first prev next : string) : string :=
  "MarketOrdersAtPrice[side:" +:+ sideToString side +:+ " price:" +:+ Id64 price +:+
  " first:" +:+ first +:+ " prev:" +:+ prev +:+ " next:" +:+ next +:+ "]".

#[export] Instance mkt_texts : BookTexts MarketOrder := {|
  order_id_text o := Id64 (mo_order_id_ o);
  null_order_text := "null";
  order_text := MarketOrder_text;
  level_text := MarketOrdersAtPrice_text;
|}.

Definition BBO_toString (q : BBO) : string :=
  "BBO[bid:" +:+ Id64 (bid_price_ q) +:+ " x " +:+ Id32 (bid_qty_ q) +:+
  " | ask:" +:+ Id64 (ask_price_ q) +:+ " x " +:+ Id32 (ask_qty_ q) +:+ "]".

Definition MarketOrderBook_title (ticker_id : TickerId) (q : BBO) : string :=
  "MarketOrderBook ticker:" +:+ pretty ticker_id +:+ " " +:+ BBO_toString q +:+ newline.

Definition MarketOrderBook_toString (detailed : bool) : M MarketOrderBook string := λ s,
  on_mkt (book_toString (MarketOrderBook_title (mkt_ticker_id_ s) (bbo_ s)) detailed) s.

(** *** The strategy's tables *)

Definition OMOrder_toString (o : OMOrder) : string :=
  "OMOrder[ticker:" +:+ Id32 (om_ticker_id_ o) +:+ " oid:" +:+ Id64 (om_order_id_ o) +:+
  " side:" +:+ sideToString (om_side_ o) +:+ " price:" +:+ Id64 (om_price_ o) +:+
  " qty:" +:+ Id32 (om_qty_ o) +:+ " state:" +:+ omOrderStateToString (order_state_ o) +:+ "]".

Section positions.
Context `{Dbl : Double} (show_double : double → string).

Definition PositionInfo_toString (i : PositionInfo Dbl) : string :=
  "PositionInfo[pos:" +:+ pretty (position_ i) +:+ " vol:" +:+ pretty (volume_ i) +:+
  " rpnl:" +:+ show_double (real_pnl_ i) +:+ " upnl:" +:+ show_double (unreal_pnl_ i) +:+
  " tpnl:" +:+ show_double (total_pnl_ i) +:+ "]".

(** [for (i = 0; i < ticker_position_.size(); ++i)] *)
Fixpoint positions_toString (i : Z) (k : PositionKeeper) (out : string) : string :=
  match k with
  | [] => out
  | pi :: k =>
      positions_toString (i + 1) k
        (if negb (position_ pi =? 0) || negb (volume_ pi =? 0)
         then out +:+ "  ticker:" +:+ pretty i +:+ " " +:+ PositionInfo_toString pi +:+ newline
         else out)
  end.
Definition PositionKeeper_toString (k : PositionKeeper) : string :=
  positions_toString 0 k ("PositionKeeper:" +:+ newline).
End positions.

(** ** What is printed *)

(** The elements of a circular list between their neighbours. *)
Fixpoint ring_from {A} (first prev x : A) (l : list A) : list (A * A * A) :=
  match l with
  | [] => [(prev, x, first)]
  | y :: l => (prev, x, y) :: ring_from first x y l
  end.
Definition ring {A} (l : list A) : list (A * A * A) :=
  match l with
  | [] => []
  | x :: l => ring_from x (List.last l x) x l
  end.

Section spec.
Context {D : Type} {txt : BookTexts D}.

(** A level is its price and its orders, oldest first. *)
Local Abbreviation level := (Price * list D)%type.

Definition first_text (os : list D) : string :=
  match ring os with
  | [] => "null"
  | (prev, o, next) :: _ => order_text o (order_id_text prev) (order_id_text next)
  end.
Definition line (sd : Side.t) (e : level * level * level) : string :=
  let '(prev, l, next) := e in
  "    " +:+ level_text sd l.1 (first_text l.2) (Id64 prev.1) (Id64 next.1) +:+ newline.
Definition side_text (sd : Side.t) (ls : list level) : string := String.concat "" (line sd <$> ring ls).
Definition book_text (title : string) (bids asks : list level) : string :=
  title +:+ "  BIDS:" +:+ newline +:+ side_text Side.BUY bids +:+
  "  ASKS:" +:+ newline +:+ side_text Side.SELL asks.
End spec.

(** ** Printing a represented book *)

Lemma string_app_assoc (s t u : string) : (s +:+ t) +:+ u = s +:+ t +:+ u.
Proof. induction s as [|c s IH]; [done|]. exact (f_equal (String c) IH). Qed.

Lemma string_app_nil_r (s : string) : s +:+ "" = s.
Proof. induction s as [|c s IH]; [done|]. exact (f_equal (String c) IH). Qed.

Lemma concat_cons s (l : list string) : String.concat "" (s :: l) = s +:+ String.concat "" l.
Proof.
  destruct l as [|t l]; [|done]. induction s as [|c s IH]; [done|]. exact (f_equal (String c) IH).
Qed.

Lemma ring_from_fmap {A B} (f : A → B) first prev x l :
  ring_from (f first) (f prev) (f x) (f <$> l) =
  (λ e : A * A * A, (f e.1.1, f e.1.2, f e.2)) <$> ring_from first prev x l.
Proof. revert prev x. induction l as [|y l IH]; intros prev x; [done|]. cbn. by rewrite IH. Qed.

Lemma List_last_fmap {A B} (f : A → B) l x : List.last (f <$> l) (f x) = f (List.last l x).
Proof. induction l as [|y [|z l] IH]; [done..|]. exact IH. Qed.

Lemma List_last_cons {A} (x : A) l d : last (x :: l) = Some (List.last (x :: l) d).
Proof. revert x. induction l as [|y l IH]; intros x; [done|]. rewrite last_cons_cons. apply IH. Qed.

Lemma List_last_default {A} (l : list A) x : last (x :: l) = Some (List.last l x).
Proof. destruct l as [|y l]; [done|]. rewrite last_cons_cons. apply List_last_cons. Qed.

Section printing.
Context {D K : Type} `{Inhabited D} `{Countable K} {ops : BookOps D K} {txt : BookTexts D}.
Implicit Types (b : LBook D K) (sd : Side.t) (g : GLevel D) (own oth ls : list (GLevel D)).

(** The part of a ghost level that is printed. *)
Definition bare g : Price * list D := (g_price g, (g_orders g).*2).

Lemma order_toString_spec b i n p q dp dq :
  pool_get (order_pool_ b) i = n → prev_order_ n = Some p → next_order_ n = Some q →
  data (pool_get (order_pool_ b) p) = dp → data (pool_get (order_pool_ b) q) = dq →
  order_toString i b = Ok (order_text (data n) (order_id_text dp) (order_id_text dq), b).
Proof.
  intros Hn Hp Hq <- <-. unfold order_toString, order_get. rewrite bind_gets, Hn, Hp, Hq.
  unfold shown, neighbour_id, order_get. erewrite bind_Ok by (rewrite bind_gets; done).
  by erewrite bind_Ok by (rewrite bind_gets; done).
Qed.

(** The head of a FIFO lies between the youngest order and the second one. *)
Lemma first_order_toString b sd g :
  orders_rep (order_pool_ b) sd g →
  shown "null" order_toString (fst <$> head (g_orders g)) b = Ok (first_text (g_orders g).*2, b).
Proof.
  intros (Hne & Hc & Hf). destruct (g_orders g) as [|[i d] es]; [done|]. cbn -[order_toString] in *.
  set (Q := order_pool_ b) in *.
  assert (Hat : ∀ e, e ∈ (i, d) :: es → data (pool_get Q e.1) = e.2).
  { intros e He. rewrite Forall_forall in Hf. by apply Hf. }
  destruct (cdll_head _ _ _ _ _ Hc (List_last_default _ _)) as [Hp _].
  pose proof (List_last_default es (i, d)) as Hl. apply last_Some_elem in Hl.
  pose proof (List_last_fmap fst es (i, d)) as E1. pose proof (List_last_fmap snd es (i, d)) as E2.
  cbn [fst snd] in E1, E2. rewrite E1 in Hp. unfold first_text, ring. cbn -[order_toString]. rewrite E2.
  assert (∃ e, e ∈ (i, d) :: es ∧ onx Q i = Some e.1 ∧
     (∃ r, ring_from d (List.last es (i, d)).2 d es.*2 = ((List.last es (i, d)).2, d, e.2) :: r))
    as (e & He & Hn & r & Hr).
  { destruct es as [|[j d'] es]; cbn in Hc.
    - exists (i, d). split; [by left|]. split; [apply Hc|]. by eexists.
    - exists (j, d'). split; [right; by left|]. split; [apply Hc|]. by eexists. }
  rewrite Hr. change d with (i, d).2 at 1. rewrite <- (Hat (i, d)) by (by left).
  erewrite order_toString_spec; [|reflexivity|exact Hp|exact Hn|by apply Hat..]. done.
Qed.

Lemma level_toString_spec b sd g p n :
  level_hdr (orders_at_price_pool_ b) sd g → orders_rep (order_pool_ b) sd g →
  level_hdr (orders_at_price_pool_ b) sd p → level_hdr (orders_at_price_pool_ b) sd n →
  link (lnx (orders_at_price_pool_ b)) (lpv (orders_at_price_pool_ b)) (g_ptr p) (g_ptr g) →
  link (lnx (orders_at_price_pool_ b)) (lpv (orders_at_price_pool_ b)) (g_ptr g) (g_ptr n) →
  level_toString (Some (g_ptr g)) b =
  Ok (level_text sd (bare g).1 (first_text (bare g).2) (Id64 (bare p).1) (Id64 (bare n).1), b).
Proof.
  intros (Hs & Hp & Hf) Ho (_ & Epp & _) (_ & Enp & _) [_ Hprev] [Hnext _].
  unfold lnx, lpv in *. unfold level_toString, level_get. rewrite bind_gets, Hs, Hp, Hf, Hprev, Hnext.
  erewrite bind_Ok by exact (first_order_toString b sd g Ho).
  unfold shown, neighbour_price, level_get.
  erewrite bind_Ok by (rewrite bind_gets; done). erewrite bind_Ok by (rewrite bind_gets; done).
  by rewrite Epp, Enp.
Qed.

Lemma levels_toString_spec b sd first prev g ls fuel out :
  Forall (level_hdr (orders_at_price_pool_ b) sd) (first :: prev :: g :: ls) →
  Forall (orders_rep (order_pool_ b) sd) (g :: ls) →
  link (lnx (orders_at_price_pool_ b)) (lpv (orders_at_price_pool_ b)) (g_ptr prev) (g_ptr g) →
  chain (lnx (orders_at_price_pool_ b)) (lpv (orders_at_price_pool_ b)) (g_ptr g) (lptrs ls) (g_ptr first) →
  g_ptr first ∉ lptrs ls → (length ls ≤ fuel)%nat →
  levels_toString fuel (Some (g_ptr first)) (Some (g_ptr g)) out b =
  Ok (out +:+ String.concat "" (line sd <$> ring_from (bare first) (bare prev) (bare g) (bare <$> ls)), b).
Proof.
  revert prev g fuel out. induction ls as [|n ls IH]; intros prev g fuel out Hh Ho Hprev Hc Hn Hfu.
  - rewrite !Forall_cons in Hh. destruct Hh as (Hf & Hp & Hg & _). rewrite Forall_singleton in Ho.
    cbn in Hc. destruct fuel; cbn [levels_toString];
      (erewrite bind_Ok by exact (level_toString_spec b sd g prev first Hg Ho Hp Hf Hprev Hc));
      unfold level_get; rewrite bind_gets; destruct Hc as [Hnx _]; unfold lnx in Hnx;
      rewrite Hnx, bool_decide_true by done; done.
  - rewrite !Forall_cons in Hh. destruct Hh as (Hf & Hp & Hg & Hn' & Hls). apply Forall_cons in Ho as [Hog Ho].
    unfold lptrs in Hc, Hn. cbn [fmap list_fmap chain] in Hc, Hn. destruct Hc as [Hl Hc].
    apply not_elem_of_cons in Hn as [Hne Hn].
    destruct fuel as [|fuel]; [cbn in Hfu; lia|]. cbn [levels_toString].
    erewrite bind_Ok by exact (level_toString_spec b sd g prev n Hg Hog Hp Hn' Hprev Hl).
    unfold level_get. rewrite bind_gets. pose proof (proj1 Hl) as Hnx. unfold lnx in Hnx.
    rewrite Hnx, bool_decide_false by congruence.
    rewrite (IH g n); [|by rewrite !Forall_cons|done..|cbn in Hfu; lia].
    cbn [fmap list_fmap ring_from]. rewrite concat_cons. unfold line at 2.
    by rewrite !string_app_assoc.
Qed.

Lemma side_toString_spec b sd ls out :
  chain_rep (orders_at_price_pool_ b) sd (head_ref sd b) ls →
  Forall (orders_rep (order_pool_ b) sd) ls → NoDup (lptrs ls) →
  (length ls ≤ size (price_orders_at_price_ b))%nat →
  side_toString (head_ref sd b) out b = Ok (out +:+ side_text sd (bare <$> ls), b).
Proof.
  intros (Hh & Hc & Hf) Ho Hnd Hsz. rewrite Hh. destruct ls as [|g ls].
  - cbn. by rewrite string_app_nil_r.
  - change (head (g_ptr <$> g :: ls)) with (Some (g_ptr g)). unfold side_toString. rewrite bind_gets. unfold side_text. cbn [fmap list_fmap ring].
    rewrite List_last_fmap. pose proof (List_last_default ls g) as Hlast.
    apply NoDup_cons in Hnd as [Hni _].
    apply levels_toString_spec.
    + pose proof (last_Some_elem _ _ Hlast) as Hin. rewrite Forall_forall in Hf.
      apply Forall_forall. intros x. rewrite !elem_of_cons. intros [->|[->|Hx]]; apply Hf; set_solver.
    + done.
    + destruct (cdll_head _ _ (g_ptr g) (lptrs ls) (g_ptr (List.last ls g)) Hc) as [Hp Hn]; [|done].
      change (last (g_ptr <$> g :: ls) = Some (g_ptr (List.last ls g))). by rewrite fmap_last, Hlast.
    + exact Hc.
    + exact Hni.
    + cbn in Hsz. lia.
Qed.

(** Every book that [RepX] describes is printed. *)
Lemma book_toString_spec b bids asks title detailed :
  RepX Side.BUY [] b bids asks →
  book_toString title detailed b =
  Ok (if detailed then book_text title (bare <$> bids) (bare <$> asks) else title, b).
Proof.
  intros HR. destruct detailed; [|done]. unfold book_toString. cbn [negb]. rewrite bind_gets.
  pose proof (po_nodup _ _ (r_lpool _ _ _ _ _ HR)) as Hnd. unfold lptrs in Hnd. rewrite fmap_app in Hnd.
  apply NoDup_app in Hnd as (Hb & _ & Ha). pose proof (rep_levels_le _ _ _ _ _ HR) as Hsz. rewrite length_app in Hsz.
  erewrite bind_Ok by (apply (side_toString_spec b Side.BUY bids); try apply HR; try done; lia).
  rewrite bind_gets. change (asks_by_price_ b) with (head_ref (opp Side.BUY) b).
  rewrite (side_toString_spec b (opp Side.BUY) asks) by (try apply HR; try done; lia).
  unfold book_text. by rewrite !string_app_assoc.
Qed.
End printing.

(** ** The theorems *)

Definition bare_level (l : SLevel) : Price * list MEOrder := (l_price l, l_orders l).
Definition bare_client_level (l : CLevel) : Price * list MarketOrder := (c_price l, c_orders l).

Section books.
Context `{Cfg : Config}.

Lemma represented_text {key : PriceKey} title detailed b (s : SBook) :
  Represents b s →
  on_lb (book_toString title detailed) b =
  Ok (if detailed then book_text title (bare_level <$> s_bids s) (bare_level <$> s_asks s) else title, b).
Proof.
  intros (bids & asks & Hr). unfold on_lb. rewrite (book_toString_spec _ bids asks) by apply Hr.
  change (s_bids s) with (s_levels Side.BUY s). change (s_asks s) with (s_levels (opp Side.BUY) s).
  rewrite <- (rs_own _ _ _ _ _ Hr), <- (rs_oth _ _ _ _ _ Hr), <- !list_fmap_compose. by destruct b.
Qed.

(** Printing a book of the matching engine ends without fault, changes nothing
    and shows exactly the abstract book: the bids, then the asks, best price
    first, each level once with its price, its neighbours and its oldest order
    between the youngest and the second. *)
Theorem me_book_text b (s : SBook) detailed :
  Represents (key := array_key) b s →
  MEOrderBook_toString detailed b =
  Ok (if detailed then book_text (MEOrderBook_title (book_ticker_id_ b))
                         (bare_level <$> s_bids s) (bare_level <$> s_asks s)
      else MEOrderBook_title (book_ticker_id_ b), b).
Proof. apply represented_text. Qed.

(** So does printing its hash-map variant. *)
Theorem unordered_book_text b (s : SBook) detailed :
  Represents (key := direct_key) b s →
  UnorderedMapMEOrderBook_toString detailed b =
  Ok (if detailed then book_text (UnorderedMapMEOrderBook_title (book_ticker_id_ b))
                         (bare_level <$> s_bids s) (bare_level <$> s_asks s)
      else UnorderedMapMEOrderBook_title (book_ticker_id_ b), b).
Proof. apply represented_text. Qed.

(** And printing a client's book. *)
Theorem client_book_text b (c : CBook) detailed :
  CRepresents b c →
  MarketOrderBook_toString detailed b =
  Ok (if detailed then book_text (MarketOrderBook_title (mkt_ticker_id_ b) (bbo_ b))
                         (bare_client_level <$> c_bids c) (bare_client_level <$> c_asks c)
      else MarketOrderBook_title (mkt_ticker_id_ b) (bbo_ b), b).
Proof.
  intros (bids & asks & Hr). unfold MarketOrderBook_toString, on_mkt.
  rewrite (book_toString_spec _ bids asks) by apply Hr.
  change (c_bids c) with (c_levels Side.BUY c). change (c_asks c) with (c_levels (opp Side.BUY) c).
  rewrite <- (cr_own _ _ _ _ _ Hr), <- (cr_oth _ _ _ _ _ Hr), <- !list_fmap_compose. by destruct b.
Qed.

(** The text of a table of positions: a line for each ticker that was traded. *)
Lemma positions_toString_spec `{Dbl : Double} (show_double : double → string) i k out :
  positions_toString show_double i k out = out +:+ String.concat ""
    ((λ e : Z * PositionInfo Dbl, "  ticker:" +:+ pretty e.1 +:+ " " +:+ PositionInfo_toString show_double e.2 +:+ newline) <$>
     filter (λ e : Z * PositionInfo Dbl, position_ e.2 ≠ 0 ∨ volume_ e.2 ≠ 0) (zip (seqZ i (Z.of_nat (length k))) k)).
Proof.
  revert i out. induction k as [|pi k IH]; intros i out; cbn [positions_toString length].
  - by rewrite zip_nil_r, string_app_nil_r.
  - rewrite IH, (seqZ_cons i) by lia. replace (Z.succ i) with (i + 1) by lia.
    replace (Z.pred (Z.of_nat (S (length k)))) with (Z.of_nat (length k)) by lia.
    cbn [zip zip_with]. case (Z.eqb_spec (position_ pi) 0); [case (Z.eqb_spec (volume_ pi) 0)|]; intros; cbn [negb orb].
    + by rewrite filter_cons_False by (cbn; tauto).
    + rewrite filter_cons_True by (cbn; tauto). rewrite fmap_cons, concat_cons. by rewrite !string_app_assoc.
    + rewrite filter_cons_True by (cbn; tauto). rewrite fmap_cons, concat_cons. by rewrite !string_app_assoc.
Qed.
End books.
