(* ===== verification/OrderSession.v ===== *)
(** The orders of one client, from both ends.

    A [desk] is the client's order manager and positions, the requests and
    responses in flight, and what the exchange has resting for the client.
    [desk_step] moves it: the strategy asks for orders, the exchange answers
    and trades, the client takes responses - in any interleaving.  The
    invariant [desk_ok] relates each cell of the manager to what is in flight
    for it ([phase]); from it follow that the client never has more than one
    order on a side of a ticker, and that its position limit holds. *)

From S2P Require Import Prelude Types Doubles PositionKeeper RiskManager OrderManager.

Abbreviation OKey := (Z * Side.t)%type.
Definition key_index (k : OKey) : Z * Z := (k.1, sideToIndex k.2).

(** An order resting at the exchange. *)
Record working := mkWorking { w_key : OKey; w_oid : OrderId; w_leaves : Qty }.

Record desk := mkDesk {
  d_orders : OrderManager;
  d_pos : TickerId → Z;
  d_reqs : list MEClientRequest;
  d_live : list working;
  d_resps : list MEClientResponse;
}.

Definition rq_key (q : MEClientRequest) : OKey := (rq_ticker_id_ q, rq_side_ q).
Definition rs_key (r : MEClientResponse) : OKey := (rs_ticker_id_ r, rs_side_ r).

Section desk.
Context `{Cfg : Config} (cid : ClientId).
(** The position limit of each ticker. *)
Context (limit : TickerId → Z).
Implicit Types (d : desk) (k : OKey) (o : OMOrder) (q : MEClientRequest) (r : MEClientResponse) (m : OrderManager).

Definition key_ok k : Prop := 0 ≤ k.1 < ME_MAX_TICKERS ∧ (k.2 = Side.BUY ∨ k.2 = Side.SELL).

Definition move_orders m reqs d : desk :=
  mkDesk m (d_pos d) (d_reqs d ++ reqs) (d_live d) (d_resps d).
Definition answer reqs live r d : desk :=
  mkDesk (d_orders d) (d_pos d) reqs live (d_resps d ++ [r]).

(** What taking [r] does to the client. *)
Definition take_response_orders r m : OrderManager :=
  set_order_cell (key_index (rs_key r)) (on_response r (order_cell (key_index (rs_key r)) m)) m.
Definition take_response_pos r (pos : TickerId → Z) : TickerId → Z :=
  if decide (rs_type_ r = ClientResponseType.FILLED)
  then λ tid, if decide (tid = rs_ticker_id_ r) then pos tid + sideToValue (rs_side_ r) * rs_exec_qty_ r else pos tid
  else pos.

(** [r] answers an order of key [k]. *)
Definition about (t : ClientResponseType.t) k r : Prop := rs_type_ r = t ∧ rs_key r = k.

(** What the exchange does next with the requests in flight and the orders
    resting: the response it sends, and what is left. *)
Inductive exchange (reqs : list MEClientRequest) (live : list working) :
  list MEClientRequest → list working → MEClientResponse → Prop :=
  | ex_accept q reqs' r :
      reqs = q :: reqs' → rq_type_ q = ClientRequestType.NEW → about ClientResponseType.ACCEPTED (rq_key q) r →
      exchange reqs live reqs' (live ++ [mkWorking (rq_key q) (rq_order_id_ q) (rq_qty_ q)]) r
  | ex_reject q reqs' r :
      reqs = q :: reqs' → rq_type_ q = ClientRequestType.NEW → about ClientResponseType.INVALID (rq_key q) r →
      exchange reqs live reqs' live r
  | ex_cancel q reqs' l1 w l2 r :
      reqs = q :: reqs' → rq_type_ q = ClientRequestType.CANCEL → live = l1 ++ w :: l2 →
      (w_key w).1 = rq_ticker_id_ q → w_oid w = rq_order_id_ q → about ClientResponseType.CANCELED (w_key w) r →
      exchange reqs live reqs' (l1 ++ l2) r
  | ex_cancel_reject q reqs' r :
      reqs = q :: reqs' → rq_type_ q = ClientRequestType.CANCEL →
      about ClientResponseType.CANCEL_REJECTED (rq_ticker_id_ q, Side.INVALID) r →
      exchange reqs live reqs' live r
  | ex_trade l1 w l2 n r :
      live = l1 ++ w :: l2 → 0 < n ≤ w_leaves w → about ClientResponseType.FILLED (w_key w) r →
      rs_exec_qty_ r = n → rs_leaves_qty_ r = w_leaves w - n →
      exchange reqs live reqs
        (l1 ++ (if decide (w_leaves w = n) then [] else [mkWorking (w_key w) (w_oid w) (w_leaves w - n)]) ++ l2) r.

Inductive desk_step : desk → desk → Prop :=
  (** The strategy wants an order of [qty] at [price], or none at an invalid
      price; a new one must pass the position check. *)
  | step_move d k price qty allowed reqs m :
      key_ok k → 0 < qty → 0 ≤ next_order_id_ (d_orders d) < 2 ^ 64 - 1 →
      (allowed = true → Z.abs (d_pos d k.1 + sideToValue k.2 * qty) ≤ limit k.1) →
      s_move cid allowed (key_index k) k.1 price k.2 qty (d_orders d) = (reqs, m) →
      desk_step d (move_orders m reqs d)
  | step_exchange d reqs live r :
      exchange (d_reqs d) (d_live d) reqs live r → desk_step d (answer reqs live r d)
  | step_response d r rs :
      d_resps d = r :: rs →
      desk_step d (mkDesk (take_response_orders r (d_orders d)) (take_response_pos r (d_pos d)) (d_reqs d) (d_live d) rs).

Definition desk_new : desk := mkDesk OrderManager_new (λ _, 0) [] [] [].

(** ** What is in flight for one order *)

Definition news_of k (reqs : list MEClientRequest) : list MEClientRequest :=
  filter (λ q, rq_type_ q = ClientRequestType.NEW ∧ rq_key q = k) reqs.
Definition live_of k (live : list working) : list working := filter (λ w, w_key w = k) live.
Definition resps_of k (rs : list MEClientResponse) : list MEClientResponse := filter (λ r, rs_key r = k) rs.

(** [rs] are fills that take an order from [a] to [b] units. *)
Inductive fills_to : Z → list MEClientResponse → Z → Prop :=
  | fills_nil a : fills_to a [] a
  | fills_cons a b r rs :
      rs_type_ r = ClientResponseType.FILLED → rs_exec_qty_ r = a - rs_leaves_qty_ r → 0 ≤ rs_leaves_qty_ r < a →
      fills_to (rs_leaves_qty_ r) rs b → fills_to a (r :: rs) b.

Definition left_at k oid (l : Z) : list working := if decide (l = 0) then [] else [mkWorking k oid l].

Inductive phase k o : list MEClientRequest → list working → list MEClientResponse → Prop :=
  | ph_idle : order_state_ o = OM_INVALID ∨ order_state_ o = DEAD → phase k o [] [] []
  | ph_sent q :
      order_state_ o = PENDING_NEW → rq_order_id_ q = om_order_id_ o → rq_qty_ q = om_qty_ o → 0 < om_qty_ o →
      phase k o [q] [] []
  | ph_rejected rs :
      order_state_ o = PENDING_NEW → Forall (λ r, rs_type_ r = ClientResponseType.INVALID) rs → phase k o [] [] rs
  | ph_accepted r rs l :
      order_state_ o = PENDING_NEW → rs_type_ r = ClientResponseType.ACCEPTED → 0 < om_qty_ o → fills_to (om_qty_ o) rs l →
      phase k o [] (left_at k (om_order_id_ o) l) (r :: rs)
  | ph_working rs l :
      order_state_ o = LIVE ∨ order_state_ o = PENDING_CANCEL → 0 < om_qty_ o → fills_to (om_qty_ o) rs l →
      phase k o [] (left_at k (om_order_id_ o) l) rs
  | ph_canceled rs l r :
      order_state_ o = PENDING_CANCEL → 0 < om_qty_ o → fills_to (om_qty_ o) rs l → 0 < l →
      rs_type_ r = ClientResponseType.CANCELED → phase k o [] [] (rs ++ [r]).

(** Units the client may still see filled on an order. *)
Definition outstanding o : Z :=
  if decide (order_state_ o = OM_INVALID ∨ order_state_ o = DEAD) then 0 else om_qty_ o.
Definition cell k m : OMOrder := order_cell (key_index k) m.

(** [owner] says whose cell an order id was issued for. *)
Record desk_ok (owner : OrderId → OKey) d : Prop := {
  dk_phase : ∀ k, key_ok k → phase k (cell k (d_orders d)) (news_of k (d_reqs d)) (live_of k (d_live d)) (resps_of k (d_resps d));
  dk_cell : ∀ k, key_ok k → let o := cell k (d_orders d) in order_state_ o ≠ OM_INVALID →
    om_ticker_id_ o = k.1 ∧ om_side_ o = k.2 ∧ owner (om_order_id_ o) = k ∧
    0 ≤ om_order_id_ o < next_order_id_ (d_orders d) ∧ 0 ≤ om_qty_ o;
  dk_req : ∀ q, q ∈ d_reqs d → key_ok (rq_key q) ∧ 
    (rq_type_ q = ClientRequestType.NEW ∨ rq_type_ q = ClientRequestType.CANCEL ∧
      owner (rq_order_id_ q) = rq_key q ∧ 0 ≤ rq_order_id_ q < next_order_id_ (d_orders d) ∧
      let o := cell (rq_key q) (d_orders d) in
      (om_order_id_ o = rq_order_id_ q → order_state_ o = PENDING_CANCEL ∨ order_state_ o = DEAD));
  dk_live : ∀ w, w ∈ d_live d → key_ok (w_key w);
  dk_resp : ∀ r, r ∈ d_resps d → 0 ≤ rs_ticker_id_ r < ME_MAX_TICKERS ∧
    (key_ok (rs_key r) ∨ rs_side_ r = Side.INVALID ∧ rs_type_ r = ClientResponseType.CANCEL_REJECTED);
  dk_limit : ∀ tid, 0 ≤ tid < ME_MAX_TICKERS →
    d_pos d tid + outstanding (cell (tid, Side.BUY) (d_orders d)) ≤ limit tid ∧
    - limit tid ≤ d_pos d tid - outstanding (cell (tid, Side.SELL) (d_orders d));
}.

Lemma key_index_inj k k' : key_ok k → key_ok k' → key_index k = key_index k' → k = k'.
Proof.
  destruct k as [t s], k' as [t' s']. unfold key_index. cbn. intros [_ Hs] [_ Hs'] [= -> E]. f_equal.
  cbn in Hs, Hs'. destruct Hs as [-> | ->], Hs' as [-> | ->]; done.
Qed.

Lemma cell_set k k' o m : key_ok k → key_ok k' →
  cell k' (set_order_cell (key_index k) o m) = if decide (k' = k) then o else cell k' m.
Proof.
  intros Hk Hk'. unfold cell, order_cell, set_order_cell. cbn [ticker_side_order_]. case_decide as E.
  - subst. by rewrite lookup_insert_eq.
  - rewrite lookup_insert_ne; [done|]. intros E'. by apply key_index_inj in E'.
Qed.

Lemma fills_to_app a rs b r :
  fills_to a rs b → rs_type_ r = ClientResponseType.FILLED → rs_exec_qty_ r = b - rs_leaves_qty_ r →
  0 ≤ rs_leaves_qty_ r < b → fills_to a (rs ++ [r]) (rs_leaves_qty_ r).
Proof. induction 1; intros; [by apply fills_cons, fills_nil|]. cbn. apply fills_cons; auto. Qed.

Lemma fills_to_nonneg a rs b : fills_to a rs b → 0 ≤ a → 0 ≤ b.
Proof. induction 1; intros; [done|]. auto with lia. Qed.

(** *** One more, or one less, in flight *)

Lemma news_new q reqs k : rq_type_ q = ClientRequestType.NEW →
  news_of k (q :: reqs) = if decide (rq_key q = k) then q :: news_of k reqs else news_of k reqs.
Proof. clear. intros Ht. unfold news_of. rewrite filter_cons. repeat case_decide; tauto. Qed.
Lemma news_cancel q reqs k : rq_type_ q = ClientRequestType.CANCEL → news_of k (q :: reqs) = news_of k reqs.
Proof. intros Ht. unfold news_of. rewrite filter_cons_False; [done|]. intros [E _]. congruence. Qed.
Lemma news_app reqs reqs' k : news_of k (reqs ++ reqs') = news_of k reqs ++ news_of k reqs'.
Proof. apply filter_app. Qed.
Lemma live_app l l' k : live_of k (l ++ l') = live_of k l ++ live_of k l'.
Proof. apply filter_app. Qed.
Lemma live_cons w l k : live_of k (w :: l) = if decide (w_key w = k) then w :: live_of k l else live_of k l.
Proof. unfold live_of, resps_of. by rewrite filter_cons. Qed.
Lemma resps_snoc rs r k : resps_of k (rs ++ [r]) = resps_of k rs ++ if decide (rs_key r = k) then [r] else [].
Proof. unfold resps_of. by rewrite filter_app, filter_cons. Qed.
Lemma resps_cons r rs k : resps_of k (r :: rs) = if decide (rs_key r = k) then r :: resps_of k rs else resps_of k rs.
Proof. unfold live_of, resps_of. by rewrite filter_cons. Qed.

(** What a pending NEW, or a resting order, says of its cell. *)
Lemma phase_new k o q news live rs : phase k o (q :: news) live rs →
  order_state_ o = PENDING_NEW ∧ rq_order_id_ q = om_order_id_ o ∧ rq_qty_ q = om_qty_ o ∧ 0 < om_qty_ o ∧
  news = [] ∧ live = [] ∧ rs = [].
Proof. by inversion 1. Qed.

Lemma phase_LIVE k o news live rs : phase k o news live rs → order_state_ o = LIVE →
  news = [] ∧ 0 < om_qty_ o ∧ ∃ l, live = left_at k (om_order_id_ o) l ∧ fills_to (om_qty_ o) rs l.
Proof. clear. intros Hp Hs. inversion Hp; try (destruct_or?; congruence). split_and!; try done. by eexists. Qed.
Lemma phase_IDLE k o news live rs : phase k o news live rs → order_state_ o = OM_INVALID ∨ order_state_ o = DEAD →
  news = [] ∧ live = [] ∧ rs = [].
Proof. clear. intros Hp Hs. inversion Hp; try done; destruct_or?; congruence. Qed.

Lemma left_at_inv k oid l l1 w l2 : left_at k oid l = l1 ++ w :: l2 → l1 = [] ∧ l2 = [] ∧ w = mkWorking k oid l ∧ l ≠ 0.
Proof.
  unfold left_at. case_decide as El; [by destruct l1|]. destruct l1 as [|? l1]; [|by destruct l1].
  by intros [= <- <-].
Qed.
Lemma left_at_pos k oid l : l ≠ 0 → left_at k oid l = [mkWorking k oid l].
Proof. intros Hl. unfold left_at. by rewrite decide_False. Qed.

Lemma live_left k k' oid l : live_of k (left_at k' oid l) = if decide (k' = k) then left_at k' oid l else [].
Proof. unfold left_at. do 2 case_decide; rewrite ?live_cons; cbn [w_key]; repeat case_decide; done. Qed.

Inductive resting_phase o (w : working) (rs : list MEClientResponse) : Prop :=
  | rp_accepted r rs' :
      order_state_ o = PENDING_NEW → rs_type_ r = ClientResponseType.ACCEPTED → rs = r :: rs' →
      fills_to (om_qty_ o) rs' (w_leaves w) → resting_phase o w rs
  | rp_working : order_state_ o = LIVE ∨ order_state_ o = PENDING_CANCEL → fills_to (om_qty_ o) rs (w_leaves w) →
      resting_phase o w rs.

Lemma phase_live k o news l1 w l2 rs : phase k o news (l1 ++ w :: l2) rs →
  l1 = [] ∧ l2 = [] ∧ w = mkWorking k (om_order_id_ o) (w_leaves w) ∧ news = [] ∧ 0 < w_leaves w ∧ 0 < om_qty_ o ∧
  resting_phase o w rs.
Proof.
  intros Hp. inversion Hp as [? E1 E2 E3|? ? ? ? ? E1 E2 E3|? ? ? E1 E2 E3|? ? l ? ? Hq Hfl E1 E2 E3|
    ? l ? Hq Hfl E1 E2 E3|? ? ? ? ? ? ? ? E1 E2 E3]; try by destruct l1.
  - apply left_at_inv in E2 as (-> & -> & -> & Hl). pose proof (fills_to_nonneg _ _ _ Hfl ltac:(lia)).
    split_and!; try done; [cbn; lia|]. by eapply rp_accepted.
  - apply left_at_inv in E2 as (-> & -> & -> & Hl). pose proof (fills_to_nonneg _ _ _ Hfl ltac:(lia)).
    split_and!; try done; [cbn; lia|]. by apply rp_working.
Qed.

Lemma fills_to_le a rs b : fills_to a rs b → b ≤ a.
Proof. induction 1; lia. Qed.
Lemma phase_outstanding k o news live rs : phase k o news live rs → (order_state_ o ≠ OM_INVALID → 0 ≤ om_qty_ o) →
  (length live ≤ 1)%nat ∧ 0 ≤ sumZ w_leaves live ≤ outstanding o.
Proof.
  clear. intros Hp Hq0.
  assert (Hlive : ∀ l rs, order_state_ o ≠ OM_INVALID → order_state_ o ≠ DEAD → 0 < om_qty_ o → fills_to (om_qty_ o) rs l →
    (length (left_at k (om_order_id_ o) l) ≤ 1)%nat ∧ 0 ≤ sumZ w_leaves (left_at k (om_order_id_ o) l) ≤ outstanding o).
  { intros l rs' Hi Hd Hq Hf. pose proof (fills_to_nonneg _ _ _ Hf). pose proof (fills_to_le _ _ _ Hf).
    unfold outstanding. rewrite decide_False by tauto. unfold left_at. case_decide; cbn; lia. }
  inversion Hp; subst; try (eapply Hlive; try done; destruct_or?; congruence);
    unfold outstanding; cbn; case_decide as E; try lia;
    [by exfalso; apply E|split; [lia|]; split; [lia|]; apply Hq0; tauto].
Qed.

(** *** The steps of the exchange *)

Section exchange.
Context (owner : OrderId → OKey) (d : desk) (Hok : desk_ok owner d).
Local Set Default Proof Using "All".

(** The exchange only moves what is in flight. *)
Lemma answer_ok reqs live r :
  (∀ k, key_ok k → phase k (cell k (d_orders d)) (news_of k reqs) (live_of k live) (resps_of k (d_resps d ++ [r]))) →
  (∀ q, q ∈ reqs → q ∈ d_reqs d) → (∀ w, w ∈ live → key_ok (w_key w)) →
  (0 ≤ rs_ticker_id_ r < ME_MAX_TICKERS ∧
    (key_ok (rs_key r) ∨ rs_side_ r = Side.INVALID ∧ rs_type_ r = ClientResponseType.CANCEL_REJECTED)) →
  desk_ok owner (answer reqs live r d).
Proof.
  destruct Hok as [_ Hc Hq _ Hn Hl]. intros Hp Hr Hw Hrs. split; cbn; try done; [intros q Hin; by apply Hq, Hr|].
  intros r'. rewrite elem_of_app, list_elem_of_singleton. intros [Hin| ->]; [by apply Hn|done].
Qed.
(** An answer to an order of a valid key. *)
Lemma answer_key r k : key_ok k → rs_key r = k → 0 ≤ rs_ticker_id_ r < ME_MAX_TICKERS ∧
  (key_ok (rs_key r) ∨ rs_side_ r = Side.INVALID ∧ rs_type_ r = ClientResponseType.CANCEL_REJECTED).
Proof. intros Hk <-. split; [apply Hk|by left]. Qed.

Lemma accept_order_ok q reqs r :
  d_reqs d = q :: reqs → rq_type_ q = ClientRequestType.NEW → about ClientResponseType.ACCEPTED (rq_key q) r →
  desk_ok owner (answer reqs (d_live d ++ [mkWorking (rq_key q) (rq_order_id_ q) (rq_qty_ q)]) r d).
Proof.
  intros Er Ht [Hrt Hrk]. pose proof (dk_req _ _ Hok) as Hq. rewrite Er in Hq.
  destruct (Hq q ltac:(by left)) as [Hk _]. apply answer_ok.
  - intros k Hkk. pose proof (dk_phase _ _ Hok k Hkk) as Hp. rewrite Er, news_new in Hp by done.
    rewrite live_app, live_cons, resps_snoc, Hrk. cbn [w_key].
    destruct (decide (rq_key q = k)) as [<-|Hne]; [|by rewrite !app_nil_r].
    apply phase_new in Hp as (Hs & Ho & Hqty & Hpos & -> & -> & ->). cbn [app].
    rewrite Ho, Hqty, <- (left_at_pos _ _ (om_qty_ _)) by lia. apply ph_accepted; try done. apply fills_nil.
  - intros q' Hq'. rewrite Er. by right.
  - intros w. rewrite elem_of_app, list_elem_of_singleton. intros [Hw| ->]; [by apply (dk_live _ _ Hok)|done].
  - by apply (answer_key r (rq_key q)).
Qed.

Lemma reject_ok q reqs r :
  d_reqs d = q :: reqs → rq_type_ q = ClientRequestType.NEW → about ClientResponseType.INVALID (rq_key q) r →
  desk_ok owner (answer reqs (d_live d) r d).
Proof.
  intros Er Ht [Hrt Hrk]. pose proof (dk_req _ _ Hok q ltac:(rewrite Er; by left)) as [Hkq _]. apply answer_ok.
  - intros k Hkk. pose proof (dk_phase _ _ Hok k Hkk) as Hp. rewrite Er, news_new in Hp by done.
    rewrite resps_snoc, Hrk. destruct (decide (rq_key q = k)) as [<-|Hne]; [|by rewrite app_nil_r].
    apply phase_new in Hp as (Hs & Ho & Hqty & Hpos & -> & -> & ->). apply ph_rejected; [done|]. by apply Forall_singleton.
  - intros q' Hq'. rewrite Er. by right.
  - apply (dk_live _ _ Hok).
  - by apply (answer_key r (rq_key q)).
Qed.

Lemma cancel_reject_ok q reqs r :
  d_reqs d = q :: reqs → rq_type_ q = ClientRequestType.CANCEL →
  about ClientResponseType.CANCEL_REJECTED (rq_ticker_id_ q, Side.INVALID) r →
  desk_ok owner (answer reqs (d_live d) r d).
Proof.
  intros Er Ht [Hrt Hrk]. pose proof (dk_req _ _ Hok q ltac:(rewrite Er; by left)) as [Hkq _]. apply answer_ok.
  - intros k Hkk. pose proof (dk_phase _ _ Hok k Hkk) as Hp. rewrite Er, news_cancel in Hp by done.
    rewrite resps_snoc, decide_False, app_nil_r; [done|]. rewrite Hrk. intros <-. by destruct Hkk as [_ [?|?]].
  - intros q' Hq'. rewrite Er. by right.
  - apply (dk_live _ _ Hok).
  - injection Hrk as Et Es. split; [rewrite Et; apply Hkq|by right].
Qed.

(** The key whose order rests is in the one phase that has it. *)
Lemma live_phase l1 w l2 : d_live d = l1 ++ w :: l2 →
  let k := w_key w in
  key_ok k ∧ live_of k l1 = [] ∧ live_of k l2 = [] ∧ w_oid w = om_order_id_ (cell k (d_orders d)) ∧
  news_of k (d_reqs d) = [] ∧ 0 < w_leaves w ∧ 0 < om_qty_ (cell k (d_orders d)) ∧
  resting_phase (cell k (d_orders d)) w (resps_of k (d_resps d)).
Proof.
  intros Hl k. assert (Hk : key_ok k) by (apply (dk_live _ _ Hok); rewrite Hl; set_solver).
  pose proof (dk_phase _ _ Hok k Hk) as Hp. rewrite Hl, live_app, live_cons, decide_True in Hp by done.
  apply phase_live in Hp as (E1 & E2 & Ew & ? & ? & ? & ?). split_and!; try done. by rewrite Ew.
Qed.

Lemma live_elem_sub l1 w l2 w' : d_live d = l1 ++ w :: l2 → w' ∈ l1 ++ l2 → key_ok (w_key w').
Proof. intros Hl Hw. apply (dk_live _ _ Hok). rewrite Hl. set_solver. Qed.

Lemma cancel_ok q reqs l1 w l2 r :
  d_reqs d = q :: reqs → rq_type_ q = ClientRequestType.CANCEL → d_live d = l1 ++ w :: l2 →
  (w_key w).1 = rq_ticker_id_ q → w_oid w = rq_order_id_ q → about ClientResponseType.CANCELED (w_key w) r →
  desk_ok owner (answer reqs (l1 ++ l2) r d).
Proof.
  intros Er Ht Hl Htid Hoid [Hrt Hrk].
  destruct (live_phase l1 w l2 Hl) as (Hk & El1 & El2 & Ewo & Enw & Hw & Hqty & Hrp).
  (* the order is the one the request was sent for *)
  pose proof (dk_req _ _ Hok q ltac:(rewrite Er; by left)) as [Hkq [?|(_ & Hown & _ & Hst)]]; [congruence|].
  assert (Hkey : rq_key q = w_key w).
  { rewrite <- Hown, <- Hoid, Ewo. destruct Hrp as [r' rs' Hs|Hs];
    apply (dk_cell _ _ Hok _ Hk); destruct (order_state_ _); naive_solver. }
  rewrite Hkey, <- Hoid in Hst. specialize (Hst ltac:(done)).
  apply answer_ok.
  - intros k Hkk. pose proof (dk_phase _ _ Hok k Hkk) as Hp. rewrite Er, news_cancel in Hp by done.
    rewrite Hl, live_app, live_cons in Hp. rewrite live_app, resps_snoc, Hrk.
    destruct (decide (w_key w = k)) as [<-|Hne]; [|by rewrite app_nil_r].
    rewrite Er, news_cancel in Enw by done. rewrite El1, El2, Enw. cbn [app].
    destruct Hrp as [r' rs' Hs|Hs Hfl]; [destruct Hst; congruence|]. eapply ph_canceled; try done. destruct Hst, Hs; congruence.
  - intros q' Hq'. rewrite Er. by right.
  - intros w'. by apply (live_elem_sub l1 w l2).
  - by apply (answer_key r (w_key w)).
Qed.

Lemma trade_ok l1 w l2 n r :
  d_live d = l1 ++ w :: l2 → 0 < n ≤ w_leaves w → about ClientResponseType.FILLED (w_key w) r →
  rs_exec_qty_ r = n → rs_leaves_qty_ r = w_leaves w - n →
  desk_ok owner (answer (d_reqs d)
    (l1 ++ (if decide (w_leaves w = n) then [] else [mkWorking (w_key w) (w_oid w) (w_leaves w - n)]) ++ l2) r d).
Proof.
  intros Hl Hn [Hrt Hrk] Hex Hle.
  destruct (live_phase l1 w l2 Hl) as (Hk & El1 & El2 & Ewo & Enw & Hw & Hqty & Hrp).
  assert (Hrest : (if decide (w_leaves w = n) then [] else [mkWorking (w_key w) (w_oid w) (w_leaves w - n)]) =
    left_at (w_key w) (w_oid w) (w_leaves w - n)).
  { unfold left_at. do 2 case_decide; try done; lia. }
  rewrite Hrest. apply answer_ok; [|done| |].
  - intros k Hkk. pose proof (dk_phase _ _ Hok k Hkk) as Hp. rewrite Hl, live_app, live_cons in Hp.
    rewrite !live_app, resps_snoc, Hrk.
    rewrite live_left. destruct (decide (w_key w = k)) as [<-|Hne]; [|by rewrite app_nil_r].
    rewrite El1, El2, Enw, app_nil_r, Ewo. cbn [app]. rewrite <- Hle. destruct Hrp as [r' rs' Hs Hrt' -> Hfl|Hs Hfl].
    + cbn [app]. apply ph_accepted; try done. eapply fills_to_app; [done..|lia|lia].
    + apply ph_working; try done. eapply fills_to_app; [done..|lia|lia].
  - intros w'. unfold left_at. rewrite !elem_of_app. intros [?|[Hw'|?]].
    + apply (live_elem_sub l1 w l2); set_solver.
    + case_decide; [set_solver|]. apply list_elem_of_singleton in Hw' as ->. done.
    + apply (live_elem_sub l1 w l2); set_solver.
  - by apply (answer_key r (w_key w)).
Qed.
End exchange.

(** *** The client's steps *)

Lemma outstanding_nonneg o : 0 ≤ om_qty_ o → 0 ≤ outstanding o.
Proof. unfold outstanding. case_decide; lia. Qed.

(** Rewriting one cell. *)
Lemma cells_limit k o m pos :
  key_ok k →
  (∀ tid, 0 ≤ tid < ME_MAX_TICKERS →
    pos tid + outstanding (cell (tid, Side.BUY) m) ≤ limit tid ∧ - limit tid ≤ pos tid - outstanding (cell (tid, Side.SELL) m)) →
  (k.2 = Side.BUY → pos k.1 + outstanding o ≤ limit k.1) → (k.2 = Side.SELL → - limit k.1 ≤ pos k.1 - outstanding o) →
  ∀ tid, 0 ≤ tid < ME_MAX_TICKERS →
    pos tid + outstanding (cell (tid, Side.BUY) (set_order_cell (key_index k) o m)) ≤ limit tid ∧
    - limit tid ≤ pos tid - outstanding (cell (tid, Side.SELL) (set_order_cell (key_index k) o m)).
Proof.
  intros Hk Hl Hb Hs tid Ht. destruct (Hl tid Ht) as [H1 H2].
  rewrite !cell_set by first [done | split; [done|by auto]].
  split.
  - case_decide as E; [|done]. subst k. by apply Hb.
  - case_decide as E; [|done]. subst k. by apply Hs.
Qed.

(** One response taken by the order it is for: the order moves on, and the
    position by what leaves the order. *)
Lemma phase_response k o news live r rs :
  phase k o news live (r :: rs) →
  let o' := on_response r o in
  phase k o' news live rs ∧ om_order_id_ o' = om_order_id_ o ∧ om_ticker_id_ o' = om_ticker_id_ o ∧
  om_side_ o' = om_side_ o ∧ order_state_ o ≠ OM_INVALID ∧ order_state_ o ≠ DEAD ∧
  (order_state_ o = PENDING_CANCEL → order_state_ o' = PENDING_CANCEL ∨ order_state_ o' = DEAD) ∧
  (0 ≤ om_qty_ o → 0 ≤ om_qty_ o') ∧
  (if decide (rs_type_ r = ClientResponseType.FILLED)
   then outstanding o' = outstanding o - rs_exec_qty_ r ∧ 0 ≤ rs_exec_qty_ r ∧ rs_exec_qty_ r ≤ outstanding o
   else 0 ≤ om_qty_ o → outstanding o' ≤ outstanding o).
Proof.
  clear. intros Hp o'.
  assert (Hfill : rs_type_ r = ClientResponseType.FILLED → 
    o' = if rs_leaves_qty_ r =? 0 then set_state DEAD (set_om_qty (rs_leaves_qty_ r) o) else set_om_qty (rs_leaves_qty_ r) o).
  { intros Ht. subst o'. unfold on_response. rewrite Ht. done. }
  inversion Hp as [|?|rs' Hs Hrs E1 E2 E3|r' rs' l Hs Hrt Hq Hfl E1 E2 E3|rs' l Hs Hq Hfl E1 E2 E3|rs' l c Hs Hq Hfl Hl Hct E1 E2 E3].
  - (* rejected *)
    subst rs'. apply Forall_cons in Hrs as [Hrt Hrs].
    assert (o' = o) as -> by (subst o'; unfold on_response; by rewrite Hrt).
    rewrite decide_False by congruence. split_and!; try done; try congruence. by apply ph_rejected.
  - (* accepted *)
    subst r' rs'. assert (o' = set_state LIVE o) as -> by (subst o'; unfold on_response; by rewrite Hrt).
    rewrite decide_False by congruence. split_and!; try done; try congruence.
    + apply (ph_working k (set_state LIVE o)); [by left|done|done].
    + unfold outstanding. cbn. intros _. rewrite Hs. repeat case_decide; try done; destruct_or?; done.
  - (* fills *)
    subst rs'. inversion Hfl as [|a b r' rs' Hrt Hex Hlv Hfl' Ea Er Eb]. subst.
    rewrite (Hfill Hrt). rewrite decide_True by done.
    assert (Hout : outstanding o = om_qty_ o) by (unfold outstanding; rewrite decide_False; [done|destruct Hs as [-> | ->]; by intros [|]]).
    rewrite Hout. case Z.eqb_spec; intros Hz.
    + rewrite Hz in *. inversion Hfl'; [|lia]. subst.
      split_and!; try done; try (destruct Hs; congruence); try lia.
      * apply ph_idle. by right.
      * by right.
      * unfold outstanding. rewrite decide_True by (by right). lia.
    + split_and!; try done; try (destruct Hs; congruence); try lia.
      * apply (ph_working k (set_om_qty (rs_leaves_qty_ r) o)); [done|cbn; lia|done].
      * intros E. by left.
      * intros _. cbn. lia.
      * unfold outstanding. cbn. rewrite decide_False by (destruct Hs as [-> | ->]; by intros [|]). lia.
  - (* a cancel on its way *)
    destruct rs' as [|r' rs'].
    + injection E3 as -> <-. assert (o' = set_state DEAD o) as -> by (subst o'; unfold on_response; by rewrite Hct).
      rewrite decide_False by congruence. split_and!; try done; try congruence.
      * apply ph_idle. by right.
      * by right.
      * intros _. unfold outstanding. cbn. rewrite decide_True by (by right). rewrite Hs, decide_False by (by intros [|]). lia.
    + cbn in E3. injection E3 as -> <-. inversion Hfl as [|a b r' rs'' Hrt Hex Hlv Hfl' Ea Er Eb]. subst.
      assert (Hpos : rs_leaves_qty_ r ≠ 0) by (intros Hz; rewrite Hz in *; inversion Hfl'; lia).
      rewrite (Hfill Hrt). rewrite decide_True, (proj2 (Z.eqb_neq _ _)) by done.
      assert (Hout : outstanding o = om_qty_ o) by (unfold outstanding; rewrite Hs, decide_False; [done|by intros [|]]).
      rewrite Hout. split_and!; try done; try congruence; try lia.
      * eapply (ph_canceled k (set_om_qty (rs_leaves_qty_ r) o)); try done. cbn. lia.
      * intros _. by left.
      * intros _. cbn. lia.
      * unfold outstanding. cbn. rewrite Hs, decide_False by (by intros [|]). lia.
Qed.

Section client.
Context (owner : OrderId → OKey) (d : desk) (Hok : desk_ok owner d).
Local Set Default Proof Using "All".

Lemma drop_ok k reqs m :
  key_ok k → order_state_ (cell k (d_orders d)) = LIVE → s_drop cid (key_index k) (d_orders d) = (reqs, m) →
  desk_ok owner (move_orders m reqs d).
Proof.
  intros Hk Hs [= <- <-]. pose proof Hok as [Hp Hc Hq Hl Hr Hlim]. fold (cell k (d_orders d)). set (o := cell k (d_orders d)) in *.
  destruct (Hc k Hk ltac:(fold o; congruence)) as (Et & Es & Hown & Hid & Hqty). fold o in Et, Es, Hown, Hid, Hqty.
  assert (Hkey : ∀ q, rq_ticker_id_ q = om_ticker_id_ o → rq_side_ q = om_side_ o → rq_key q = k).
  { intros q E1 E2. unfold rq_key. rewrite E1, E2, Et, Es. by destruct k. }
  split; cbn [move_orders d_orders d_pos d_reqs d_live d_resps]; try done.
  - intros k' Hk'. rewrite cell_set, news_app by done. rewrite (news_cancel _ []) by done. rewrite app_nil_r.
    specialize (Hp k' Hk'). case_decide as E; [|done]. subst k'. fold o in Hp.
    destruct (phase_LIVE _ _ _ _ _ Hp Hs) as (-> & Hpos & l & -> & Hfl).
    apply (ph_working k (set_state PENDING_CANCEL o)); [by right|done|done].
  - intros k' Hk'. cbv zeta. rewrite cell_set by done. case_decide as E; [|by apply Hc]. subst k'. done.
  - intros q. rewrite elem_of_app, list_elem_of_singleton. intros [Hin| ->].
    + destruct (Hq q Hin) as [Hkq [Hn|(Hn & Ho & Hi & Hst)]]; (split; [done|]); [by left|right].
      split_and!; try done; try apply Hi. rewrite cell_set by done. case_decide as E; [|done]. by left.
    + rewrite Hkey by done. split; [done|]. right. split_and!; try done; try apply Hid.
      rewrite cell_set, decide_True by done. by left.
  - destruct (Hlim k.1) as [H1 H2]; [apply Hk|]. intros tid. apply cells_limit; try done; intros Ek.
    + replace (k.1, Side.BUY) with k in H1 by (destruct k; cbn in *; congruence). fold o in H1.
      unfold outstanding in *. rewrite Hs in H1. cbn. do 2 case_decide; destruct_or?; try done; lia.
    + replace (k.1, Side.SELL) with k in H2 by (destruct k; cbn in *; congruence). fold o in H2.
      unfold outstanding in *. rewrite Hs in H2. cbn. do 2 case_decide; destruct_or?; try done; lia.
Qed.

Lemma new_ok k price qty reqs m :
  key_ok k → order_state_ (cell k (d_orders d)) = OM_INVALID ∨ order_state_ (cell k (d_orders d)) = DEAD → 0 < qty →
  0 ≤ next_order_id_ (d_orders d) < 2 ^ 64 - 1 → Z.abs (d_pos d k.1 + sideToValue k.2 * qty) ≤ limit k.1 →
  s_new cid (key_index k) k.1 price k.2 qty (d_orders d) = (reqs, m) →
  ∃ owner', desk_ok owner' (move_orders m reqs d).
Proof.
  intros Hk Hs Hqty Hn Habs [= <- <-]. pose proof Hok as [Hp Hc Hq Hl Hr Hlim].
  set (oid := next_order_id_ (d_orders d)) in *. set (o := mkOMOrder k.1 oid k.2 price qty PENDING_NEW).
  set (m := mkOrderManager _ _).
  assert (Hcell : ∀ k', key_ok k' → cell k' m = if decide (k' = k) then o else cell k' (d_orders d)).
  { intros k' Hk'. by rewrite <- (cell_set k k' o) by done. }
  assert (Hnext : next_order_id_ m = oid + 1) by (cbn; apply u64_id; unfold is_u64; lia).
  exists (λ i, if decide (i = oid) then k else owner i).
  destruct (phase_IDLE _ _ _ _ _ (Hp k Hk) Hs) as (En & El & Ers).
  split; cbn [move_orders d_orders d_pos d_reqs d_live d_resps]; try done.
  - intros k' Hk'. rewrite Hcell, news_app, (news_new _ []) by done.
    replace (rq_key _) with k by (by destruct k). specialize (Hp k' Hk').
    case_decide as E; subst.
    + rewrite decide_True, En, El, Ers by done. by apply ph_sent.
    + rewrite decide_False, app_nil_r by congruence. done.
  - intros k' Hk'. cbv zeta. rewrite Hcell, Hnext by done. case_decide as E.
    + subst k'. intros _. cbn. rewrite decide_True by done. split_and!; try done; lia.
    + intros Hne. destruct (Hc k' Hk' Hne) as (? & ? & ? & ? & ?).
      rewrite decide_False by (unfold oid; lia). split_and!; try done; fold oid in H2; lia.
  - intros q. rewrite elem_of_app, list_elem_of_singleton. intros [Hin| ->].
    + destruct (Hq q Hin) as [Hkq [?|(? & Ho & Hi & Hst)]]; (split; [done|]); [by left|right].
      fold oid in Hi. rewrite Hnext, Hcell by done. split_and!; try done; try lia.
      * rewrite decide_False by lia. done.
      * case_decide; [|done]. cbn. intros ?. lia.
    + split; [|by left]. replace (rq_key _) with k by (by destruct k). done.
  - intros tid Ht. destruct (Hlim tid Ht) as [H1 H2]. rewrite !Hcell by (split; [done|by auto]).
    assert (Hout : outstanding o = qty) by (unfold outstanding; rewrite decide_False; [done|by intros [|]]).
    split; case_decide as E; try done; subst k; rewrite Hout; cbn in Habs; lia.
Qed.

Lemma move_ok k price qty allowed reqs m :
  key_ok k → 0 < qty → 0 ≤ next_order_id_ (d_orders d) < 2 ^ 64 - 1 →
  (allowed = true → Z.abs (d_pos d k.1 + sideToValue k.2 * qty) ≤ limit k.1) →
  s_move cid allowed (key_index k) k.1 price k.2 qty (d_orders d) = (reqs, m) →
  ∃ owner', desk_ok owner' (move_orders m reqs d).
Proof.
  intros Hk Hqty Hn Habs. unfold s_move. fold (cell k (d_orders d)).
  assert (Hnone : desk_ok owner (move_orders (d_orders d) [] d)).
  { destruct Hok as [? ? ? ? ? ?]. split; cbn [move_orders d_orders d_pos d_reqs d_live d_resps]; rewrite ?app_nil_r; done. }
  destruct (order_state_ (cell k (d_orders d))) eqn:Es.
  1,5: destruct (isValid64 price && allowed) eqn:Ea; [apply andb_true_iff in Ea as [_ Ea]|];
    [intros E; eapply new_ok; [exact Hk|rewrite Es; by auto|exact Hqty|exact Hn|by apply Habs|exact E]|
     intros [= <- <-]; by exists owner].
  - intros [= <- <-]. by exists owner.
  - destruct (_ || _); [intros E; exists owner; by eapply drop_ok|intros [= <- <-]; by exists owner].
  - intros [= <- <-]. by exists owner.
Qed.

Lemma response_ok r rs :
  d_resps d = r :: rs →
  desk_ok owner (mkDesk (take_response_orders r (d_orders d)) (take_response_pos r (d_pos d)) (d_reqs d) (d_live d) rs).
Proof.
  intros Er. pose proof Hok as [Hp Hc Hq Hl Hr Hlim]. rewrite Er in Hr.
  pose proof (Hr r ltac:(by left)) as [Ht [Hk|[Hside Hrt]]].
  2:{ (* a rejected cancel: nothing changes *)
    assert (Hid : ∀ k, cell k (take_response_orders r (d_orders d)) = cell k (d_orders d)).
    { intros k. unfold take_response_orders, on_response. rewrite Hrt. unfold cell, order_cell, set_order_cell.
      cbn [ticker_side_order_]. destruct (decide (key_index k = key_index (rs_key r))) as [->|Hne].
      - by rewrite lookup_insert_eq.
      - by rewrite lookup_insert_ne. }
    unfold take_response_pos. rewrite decide_False by congruence.
    split; cbn [d_orders d_pos d_reqs d_live d_resps]; try done.
    - intros k Hkk. rewrite Hid. specialize (Hp k Hkk). rewrite Er, resps_cons, decide_False in Hp; [done|].
      intros <-. destruct Hkk as [_ [E|E]]; cbn in E; congruence.
    - intros k Hkk. cbv zeta. rewrite Hid. by apply Hc.
    - intros q Hin. rewrite Hid. by apply Hq.
    - intros r' Hin. apply Hr. by right.
    - intros tid Htid. rewrite !Hid. by apply Hlim. }
  set (k := rs_key r) in *. set (o := cell k (d_orders d)).
  pose proof (Hp k Hk) as Hpk. rewrite Er, resps_cons, decide_True in Hpk by done. fold o in Hpk.
  destruct (phase_response _ _ _ _ _ _ Hpk) as (Hpk' & Eo & Et & Es & Hni & Hnd & Hpc & Hqty & Hout).
  set (o' := on_response r o) in *.
  destruct (Hc k Hk Hni) as (Ht' & Hs' & Hown & Hid & Hq0). fold o in Ht', Hs', Hown, Hid, Hq0.
  change (take_response_orders r (d_orders d)) with (set_order_cell (key_index k) o' (d_orders d)).
  split; cbn [d_orders d_pos d_reqs d_live d_resps]; try done.
  - intros k' Hkk. rewrite cell_set by done. specialize (Hp k' Hkk). rewrite Er, resps_cons in Hp. fold k in Hp.
    destruct (decide (k' = k)) as [E|E]; [by rewrite E|]. by rewrite decide_False in Hp by done.
  - intros k' Hkk. cbv zeta. rewrite cell_set by done. destruct (decide (k' = k)) as [E|E]; [|by apply Hc]. rewrite E. intros _.
    cbn [set_order_cell next_order_id_]. rewrite Eo, Et, Es. split_and!; first [done|lia|by apply Hqty].
  - intros q Hin. destruct (Hq q Hin) as [Hkq [?|(? & Ho & Hi & Hst)]]; (split; [done|]); [by left|right].
    split_and!; try done; try apply Hi. rewrite cell_set by done.
    destruct (decide (rq_key q = k)) as [E|E]; [|done]. rewrite E in Hst. fold o in Hst. rewrite Eo. intros Ei. destruct (Hst Ei) as [?|?]; [by apply Hpc|done].
  - intros r' Hin. apply Hr. by right.
  - intros tid Htid. destruct (Hlim tid Htid) as [H1 H2]. unfold take_response_pos. revert Hout.
    assert (Hsd : key_ok (tid, Side.BUY) ∧ key_ok (tid, Side.SELL)) by (split; split; [done|by left|done|by right]).
    destruct Hsd as [HB HS]. rewrite !cell_set by done.
    destruct Hk as [_ Hsd]. change (rs_ticker_id_ r) with k.1. change (rs_side_ r) with k.2.
    destruct (decide (rs_type_ r = ClientResponseType.FILLED)); intros Hout; [destruct Hout as (Ho1 & Ho2 & Ho3)|specialize (Hout Hq0)].
    + destruct k as [kt ks] eqn:Ekey. cbn [fst snd] in *. destruct Hsd as [-> | ->]; cbn [sideToValue Side.toZ].
      * rewrite (decide_False (P := (tid, Side.SELL) = _)) by congruence.
        destruct (decide ((tid, Side.BUY) = (kt, Side.BUY))) as [[= ->]|Hne].
        -- rewrite decide_True by done. fold o in H1. lia.
        -- rewrite decide_False by congruence. done.
      * rewrite (decide_False (P := (tid, Side.BUY) = _)) by congruence.
        destruct (decide ((tid, Side.SELL) = (kt, Side.SELL))) as [[= ->]|Hne].
        -- rewrite decide_True by done. fold o in H2. lia.
        -- rewrite decide_False by congruence. done.
    + split.
      * destruct (decide ((tid, Side.BUY) = k)) as [E|E]; [|done]. rewrite E in H1. fold o in H1. lia.
      * destruct (decide ((tid, Side.SELL) = k)) as [E|E]; [|done]. rewrite E in H2. fold o in H2. lia.
Qed.
End client.

(** *** Sessions *)

Lemma desk_new_ok : (∀ tid, 0 ≤ tid < ME_MAX_TICKERS → 0 ≤ limit tid) → desk_ok (λ _, (0, Side.BUY)) desk_new.
Proof.
  intros Hlim. split; cbn [desk_new d_orders d_pos d_reqs d_live d_resps]; try (by intros ? ?%not_elem_of_nil).
  - intros k Hk. apply ph_idle. by left.
  - by intros k Hk ?.
  - intros tid Ht. specialize (Hlim tid Ht).
    assert (H0 : ∀ k, outstanding (cell k OrderManager_new) = 0) by (intros k; unfold outstanding; by rewrite decide_True by (by left)).
    rewrite !H0. lia.
Qed.

Lemma desk_step_ok owner d d' : desk_ok owner d → desk_step d d' → ∃ owner', desk_ok owner' d'.
Proof.
  intros Hok Hs. destruct Hs as [| d reqs live r Hex |].
  - by eapply move_ok.
  - exists owner. destruct Hex as [q reqs r|q reqs r|q reqs l1 w l2 r|q reqs r|l1 w l2 n r].
    + by apply accept_order_ok.
    + by eapply reject_ok.
    + by eapply cancel_ok.
    + by eapply cancel_reject_ok.
    + by eapply trade_ok.
  - exists owner. by eapply response_ok.
Qed.

Lemma desk_steps_ok owner d d' : desk_ok owner d → rtc desk_step d d' → ∃ owner', desk_ok owner' d'.
Proof.
  intros Hok Hs. revert owner Hok. induction Hs as [d|d d1 d2 H1 _ IH]; intros owner Hok; [by exists owner|].
  destruct (desk_step_ok _ _ _ Hok H1) as [owner1 Hok1]. by eapply IH.
Qed.

Lemma desk_ok_limits owner d : desk_ok owner d →
  (∀ k, key_ok k → (length (live_of k (d_live d)) ≤ 1)%nat) ∧
  (∀ tid, 0 ≤ tid < ME_MAX_TICKERS →
    Z.abs (d_pos d tid) ≤ limit tid ∧
    d_pos d tid + sumZ w_leaves (live_of (tid, Side.BUY) (d_live d)) ≤ limit tid ∧
    - limit tid ≤ d_pos d tid - sumZ w_leaves (live_of (tid, Side.SELL) (d_live d))).
Proof.
  intros Hok.
  assert (Hone : ∀ k, key_ok k → let o := cell k (d_orders d) in
    (length (live_of k (d_live d)) ≤ 1)%nat ∧ 0 ≤ sumZ w_leaves (live_of k (d_live d)) ≤ outstanding o).
  { intros k Hk o. pose proof (dk_phase _ _ Hok k Hk) as Hp. fold o in Hp.
    apply phase_outstanding in Hp; [done|]. intros Hs'. by apply (dk_cell _ _ Hok k Hk). }
  split; [intros k Hk; by apply Hone|]. intros tid Ht. destruct (dk_limit _ _ Hok tid Ht) as [H1 H2].
  destruct (Hone (tid, Side.BUY)) as [_ HB]; [split; [done|by left]|].
  destruct (Hone (tid, Side.SELL)) as [_ HS]; [split; [done|by right]|]. cbv zeta in HB, HS. lia.
Qed.

(** At most one order, within the position limit.  Whatever prices the
    strategy asks for, and however requests, answers, trades and responses
    interleave, the exchange never has two orders of the client on one side of
    a ticker; and the client's position, even if everything it has working on
    one side were filled, stays within the limit of the ticker. *)
Theorem one_order_within_limit d :
  (∀ tid, 0 ≤ tid < ME_MAX_TICKERS → 0 ≤ limit tid) → rtc desk_step desk_new d →
  (∀ k, key_ok k → (length (live_of k (d_live d)) ≤ 1)%nat) ∧
  (∀ tid, 0 ≤ tid < ME_MAX_TICKERS →
    Z.abs (d_pos d tid) ≤ limit tid ∧
    d_pos d tid + sumZ w_leaves (live_of (tid, Side.BUY) (d_live d)) ≤ limit tid ∧
    - limit tid ≤ d_pos d tid - sumZ w_leaves (live_of (tid, Side.SELL) (d_live d))).
Proof.
  intros Hlim Hs. destruct (desk_steps_ok _ _ _ (desk_new_ok Hlim) Hs) as [owner Hok]. by apply (desk_ok_limits owner).
Qed.

(** *** A rejected order *)

(** Nothing about [k] is in flight, and its cell waits for an answer. *)
Definition stranded k o d : Prop :=
  cell k (d_orders d) = o ∧ order_state_ o = PENDING_NEW ∧
  news_of k (d_reqs d) = [] ∧ live_of k (d_live d) = [] ∧ resps_of k (d_resps d) = [].

Lemma s_move_cell k k' allowed price qty m reqs m' :
  key_ok k → key_ok k' → order_state_ (cell k m) = PENDING_NEW →
  s_move cid allowed (key_index k') k'.1 price k'.2 qty m = (reqs, m') → cell k m' = cell k m ∧ news_of k reqs = [].
Proof.
  intros Hk Hk' Hs. unfold s_move. fold (cell k' m). destruct (decide (k = k')) as [<-|Hne]; [rewrite Hs; by intros [= <- <-]|].
  assert (Hset : ∀ o next, cell k (mkOrderManager (<[ key_index k' := o ]> (ticker_side_order_ m)) next) = cell k m).
  { intros o next. unfold cell, order_cell. cbn [ticker_side_order_]. rewrite lookup_insert_ne; [done|].
    intros E. apply Hne. symmetry. by apply key_index_inj. }
  assert (Hnew : ∀ q, rq_type_ q = ClientRequestType.CANCEL ∨ rq_key q = k' → news_of k [q] = []).
  { intros q [Hq|Hq]; [by rewrite news_cancel|]. unfold news_of. rewrite filter_cons_False; [done|]. intros [_ E]. congruence. }
  unfold s_new, s_drop. repeat case_match; intros [= <- <-]; try done;
    (split; [apply Hset|apply Hnew; first [by left|right; by destruct k']]).
Qed.

Lemma stranded_step k o owner d d' : key_ok k → desk_ok owner d → stranded k o d → desk_step d d' → stranded k o d'.
Proof.
  intros Hk Hok (Hc & Hs & Hn & Hl & Hr) Hstep.
  destruct Hstep as [d k' price qty allowed reqs m Hk' Hq Hoid Ha Hm|d reqs live r Hx|d r rs Er].
  - rewrite <- Hc in Hs. destruct (s_move_cell k k' _ _ _ _ _ _ Hk Hk' Hs Hm) as [E1 E2]. rewrite Hc in E1, Hs.
    by split_and!; cbn [move_orders d_orders d_reqs d_live d_resps]; rewrite ?news_app, ?Hn, ?E2.
  - assert (Hwk : ∀ l1 w l2, live_of k (l1 ++ w :: l2) = [] → w_key w ≠ k ∧ live_of k l1 = [] ∧ live_of k l2 = []).
    { intros l1 w l2. rewrite live_app, live_cons. intros [? E]%app_nil. by case_decide. }
    assert (Hans : ∀ reqs' live', news_of k reqs' = [] → live_of k live' = [] → rs_key r ≠ k → stranded k o (answer reqs' live' r d)).
    { intros reqs' live' ? ? ?. split_and!; try done. cbn [answer d_resps]. rewrite resps_snoc, Hr. by rewrite decide_False. }
    destruct Hx as [q reqs r Eq Hq [_ Hkr]|q reqs r Eq Hq [_ Hkr]|q reqs l1 w l2 r Eq Hq El ? ? [_ Hkr]|q reqs r Eq Hq [_ Hkr]|l1 w l2 n r El ? [_ Hkr] ? ?];
      try rewrite Eq in Hn; try rewrite El in Hl; try (apply Hwk in Hl as (Hw & Hl1 & Hl2)).
    + rewrite news_new in Hn by done. case_decide as E; [done|]. apply Hans; [done| |congruence].
      rewrite live_app, live_cons, Hl. cbn [w_key]. by rewrite decide_False.
    + rewrite news_new in Hn by done. case_decide as E; [done|]. apply Hans; [done|done|congruence].
    + rewrite news_cancel in Hn by done. apply Hans; [done|by rewrite live_app, Hl1, Hl2|congruence].
    + rewrite news_cancel in Hn by done. apply Hans; [done|done|]. rewrite Hkr. intros E.
      destruct Hk as [_ Hk]. rewrite <- E in Hk. cbn in Hk. by destruct Hk.
    + apply Hans; [done| |congruence]. rewrite !live_app, Hl1, Hl2, app_nil_r. case_decide; [done|].
      rewrite live_cons. cbn [w_key]. by rewrite decide_False.
  - rewrite Er, resps_cons in Hr. case_decide as E; [done|].
    split_and!; try done. cbn [d_orders]. pose proof (dk_resp _ _ Hok r ltac:(rewrite Er; by left)) as [_ [Hkr|[_ Ht]]].
    + unfold take_response_orders. rewrite cell_set by done. by rewrite decide_False.
    + unfold take_response_orders, on_response. rewrite Ht. rewrite <- Hc. unfold cell, order_cell, set_order_cell.
      cbn [ticker_side_order_]. destruct (decide (key_index k = key_index (rs_key r))) as [<-|Hne].
      * by rewrite lookup_insert_eq.
      * by rewrite lookup_insert_ne.
Qed.

End desk.
