(* ===== verification/FeatureEngine.v ===== *)
(** Trading::FeatureEngine (trading/strategy/feature_engine.h) and AlgoType
    (trading/strategy/algo_type.h).

    The two features are shared by all tickers; a book enters only through its
    best bid and offer. *)

From S2P Require Import Prelude Types Doubles MarketOrderBook.

Section FeatureEngine.
Context `{Dbl : Double}.

Definition Feature_INVALID : double := quiet_NaN.

Record FeatureEngine := mkFeatureEngine {
  mkt_price_ : double;
  agg_trade_qty_ratio_ : double;
}.
Definition FeatureEngine_new : FeatureEngine := mkFeatureEngine Feature_INVALID Feature_INVALID.

Definition both_valid (bbo : BBO) : bool := isValid64 (bid_price_ bbo) && isValid64 (ask_price_ bbo).

(** The quantity-weighted mid. *)
Definition fe_onOrderBookUpdate (book : MarketOrderBook) (f : FeatureEngine) : FeatureEngine :=
  let bbo := getBBO book in
  if both_valid bbo then
    let bp := dof (bid_price_ bbo) in
    let ap := dof (ask_price_ bbo) in
    let bq := dof (bid_qty_ bbo) in
    let aq := dof (ask_qty_ bbo) in
    mkFeatureEngine ((bp * aq + ap * bq) / (bq + aq))%double (agg_trade_qty_ratio_ f)
  else f.

(** The share of the best level the aggressor took. *)
Definition fe_onTradeUpdate (update : MEMarketUpdate) (book : MarketOrderBook) (f : FeatureEngine) : FeatureEngine :=
  let bbo := getBBO book in
  if both_valid bbo then
    let trade_qty := dof (mu_qty_ update) in
    let aggressed_qty :=
      if Side.eqb (mu_side_ update) Side.BUY then dof (ask_qty_ bbo) else dof (bid_qty_ bbo) in
    if dltb (dof 0) aggressed_qty then mkFeatureEngine (mkt_price_ f) (trade_qty / aggressed_qty)%double else f
  else f.

Definition getMktPrice (f : FeatureEngine) : double := mkt_price_ f.
Definition getAggTradeQtyRatio (f : FeatureEngine) : double := agg_trade_qty_ratio_ f.
End FeatureEngine.

Arguments FeatureEngine Dbl : clear implicits.

(** ** The choice of strategy *)

Inductive AlgoType := ALGO_INVALID | RANDOM | MAKER | TAKER | ALGO_MAX.

Definition algoTypeToString (t : AlgoType) : string :=
  match t with
  | RANDOM => "RANDOM"
  | MAKER => "MAKER"
  | TAKER => "TAKER"
  | ALGO_INVALID => "INVALID"
  | ALGO_MAX => "MAX"
  end.

Definition stringToAlgoType (s : string) : AlgoType :=
  if String.eqb s "RANDOM" then RANDOM
  else if String.eqb s "MAKER" then MAKER
  else if String.eqb s "TAKER" then TAKER
  else ALGO_INVALID.

Lemma stringToAlgoType_toString t :
  stringToAlgoType (algoTypeToString t) = match t with ALGO_MAX => ALGO_INVALID | _ => t end.
Proof. by destruct t. Qed.
