(* ===== verification/TradeEngine.v ===== *)
(** Trading::TradeEngine (trading/strategy/trade_engine.h and .cpp) with the
    two strategies plugged into it, MarketMaker and LiquidityTaker
    (trading/strategy/market_maker.cpp, liquidity_taker.cpp).

    The engine of the production constructor: every sub-component exists
    (TestEngine.v has the other one).
    The three callbacks a strategy installs are the class [Strategy], with
    instances for the two strategies and for none; [MarketMaker] and
    [LiquidityTaker] hold pointers to components of the engine, so their
    methods run on the engine's state. *)

From S2P Require Import Prelude Types Doubles LFQueue MarketOrderBook PositionKeeper RiskManager OrderManager FeatureEngine.

Section TradeEngine.
Context `{Cfg : Config, Dbl : Double}.

Record TradeEngine := mkTradeEngine {
  client_id_ : ClientId;
  outgoing_requests_ : LFQueue MEClientRequest;
  incoming_responses_ : LFQueue MEClientResponse;
  incoming_market_updates_ : LFQueue MEMarketUpdate;
  market_order_books_ : list MarketOrderBook;
  feature_engine_ : FeatureEngine Dbl;
  position_keeper_ : PositionKeeper;
  order_manager_ : OrderManager;
  risk_manager_ : RiskManager;
}.

Definition set_te_requests v e : TradeEngine := mkTradeEngine (client_id_ e) v (incoming_responses_ e)
  (incoming_market_updates_ e) (market_order_books_ e) (feature_engine_ e) (position_keeper_ e)
  (order_manager_ e) (risk_manager_ e).
Definition set_te_responses v e : TradeEngine := mkTradeEngine (client_id_ e) (outgoing_requests_ e) v
  (incoming_market_updates_ e) (market_order_books_ e) (feature_engine_ e) (position_keeper_ e)
  (order_manager_ e) (risk_manager_ e).
Definition set_te_updates v e : TradeEngine := mkTradeEngine (client_id_ e) (outgoing_requests_ e)
  (incoming_responses_ e) v (market_order_books_ e) (feature_engine_ e) (position_keeper_ e)
  (order_manager_ e) (risk_manager_ e).
Definition set_te_books v e : TradeEngine := mkTradeEngine (client_id_ e) (outgoing_requests_ e)
  (incoming_responses_ e) (incoming_market_updates_ e) v (feature_engine_ e) (position_keeper_ e)
  (order_manager_ e) (risk_manager_ e).
Definition set_te_features v e : TradeEngine := mkTradeEngine (client_id_ e) (outgoing_requests_ e)
  (incoming_responses_ e) (incoming_market_updates_ e) (market_order_books_ e) v (position_keeper_ e)
  (order_manager_ e) (risk_manager_ e).
Definition set_te_positions v e : TradeEngine := mkTradeEngine (client_id_ e) (outgoing_requests_ e)
  (incoming_responses_ e) (incoming_market_updates_ e) (market_order_books_ e) (feature_engine_ e) v
  (order_manager_ e) (risk_manager_ e).
Definition set_te_orders v e : TradeEngine := mkTradeEngine (client_id_ e) (outgoing_requests_ e)
  (incoming_responses_ e) (incoming_market_updates_ e) (market_order_books_ e) (feature_engine_ e)
  (position_keeper_ e) v (risk_manager_ e).

Local Abbreviation TE := (M TradeEngine).

(** The production constructor. *)
Definition TradeEngine_new (client_id : ClientId) outgoing_requests incoming_responses incoming_market_updates
  (cfg_map : TradeEngineCfgHashMap) : TradeEngine :=
  mkTradeEngine client_id outgoing_requests incoming_responses incoming_market_updates
    (MarketOrderBook_new <$> seqZ 0 ME_MAX_TICKERS) FeatureEngine_new PositionKeeper_new OrderManager_new
    (RiskManager_new cfg_map).

Definition te_sendClientRequest (req : MEClientRequest) : TE unit :=
  q ← gets outgoing_requests_; q ← lift (push req q); modify (set_te_requests q).

(** What the OrderManager uses of the engine. *)
#[export] Instance TradeEngine_engine : Engine TradeEngine := {|
  om_of := Lens order_manager_ set_te_orders;
  clientId := client_id_;
  sendClientRequest := te_sendClientRequest;
  riskCheck ticker side qty e := checkPreTradeRisk (risk_manager_ e) (position_keeper_ e) ticker side qty;
|}.

(** ** Strategies *)

Class Strategy := {
  book_cb : TickerId → Price → Side.t → MarketOrderBook → TE unit;
  trade_cb : MEMarketUpdate → MarketOrderBook → TE unit;
  order_cb : MEClientResponse → TE unit;
}.
(** No callback installed. *)
Definition no_strategy : Strategy := {|
  book_cb _ _ _ _ := mret tt; trade_cb _ _ := mret tt; order_cb _ := mret tt |}.

(** [ticker_cfg_.at(...)] inside a [noexcept] method. *)
Definition cfg_at (ticker_cfg : TradeEngineCfgHashMap) (ticker_id : TickerId) : TE (TradeEngineCfg Dbl) :=
  match ticker_cfg !! Z.to_nat ticker_id with
  | Some cfg => mret cfg
  | None => fail (Throw "out_of_range")
  end.

Section strategies.
Context (ticker_cfg : TradeEngineCfgHashMap).

(** The prices a maker quotes around [bbo] when the fair value is [fair]. *)
Definition maker_bid (bbo : BBO) (fair threshold : double) : Price :=
  u64 (bid_price_ bbo - (if dleb threshold (fair - dof (bid_price_ bbo))%double then 0 else 1)).
Definition maker_ask (bbo : BBO) (fair threshold : double) : Price :=
  u64 (ask_price_ bbo + (if dleb threshold (dof (ask_price_ bbo) - fair)%double then 0 else 1)).

Definition mm_onOrderBookUpdate (ticker_id : TickerId) (price : Price) (side : Side.t) (book : MarketOrderBook) : TE unit :=
  let bbo := getBBO book in
  fair_price ← gets (λ e, getMktPrice (feature_engine_ e));
  if both_valid bbo && negb (disnan fair_price) then
    cfg ← cfg_at ticker_cfg ticker_id;
    moveOrders ticker_id (maker_bid bbo fair_price (threshold_ cfg)) (maker_ask bbo fair_price (threshold_ cfg)) (clip_ cfg)
  else mret tt.

Definition MarketMaker : Strategy := {|
  book_cb := mm_onOrderBookUpdate; trade_cb _ _ := mret tt; order_cb _ := mret tt |}.

Definition lt_onTradeUpdate (update : MEMarketUpdate) (book : MarketOrderBook) : TE unit :=
  let bbo := getBBO book in
  agg_qty_ratio ← gets (λ e, getAggTradeQtyRatio (feature_engine_ e));
  if both_valid bbo && negb (disnan agg_qty_ratio) then
    cfg ← cfg_at ticker_cfg (mu_ticker_id_ update);
    if dleb (threshold_ cfg) agg_qty_ratio then
      if Side.eqb (mu_side_ update) Side.BUY
      then moveOrders (mu_ticker_id_ update) (ask_price_ bbo) Price_INVALID (clip_ cfg)
      else moveOrders (mu_ticker_id_ update) Price_INVALID (bid_price_ bbo) (clip_ cfg)
    else mret tt
  else mret tt.

Definition LiquidityTaker : Strategy := {|
  book_cb _ _ _ _ := mret tt; trade_cb := lt_onTradeUpdate; order_cb _ := mret tt |}.
End strategies.

(** ** Dispatch *)

Context `{Strat : Strategy}.

Definition updatePositions (m : PositionKeeper → res PositionKeeper) : TE unit :=
  k ← gets position_keeper_; k ← lift (m k); modify (set_te_positions k).

Definition handleResponse (r : MEClientResponse) : TE unit :=
  if ME_MAX_TICKERS <=? rs_ticker_id_ r then mret tt
  else
    (if decide (rs_type_ r = ClientResponseType.FILLED) then
       updatePositions (pk_addFill r);;
       books ← gets market_order_books_;
       match books !! Z.to_nat (rs_ticker_id_ r) with
       | Some book => updatePositions (pk_updateBBO (rs_ticker_id_ r) (getBBO book))
       | None => fail (UB "market_order_books_ out of range")
       end
     else mret tt);;
    onOrderUpdate r;;
    order_cb r.

(** [b->onMarketUpdate(u)] on the book of cell [i]. *)
Definition on_cell (i : nat) (u : MEMarketUpdate) : TE MarketOrderBook :=
  books ← gets market_order_books_;
  match books !! i with
  | None => fail (UB "market_order_books_ out of range")
  | Some b =>
      '(_, b) ← lift (onMarketUpdate u b);
      modify (set_te_books (<[ i := b ]> books));; mret b
  end.

Definition handleMarketUpdate (u : MEMarketUpdate) : TE unit :=
  let tid := mu_ticker_id_ u in
  if ME_MAX_TICKERS <=? tid then
    if decide (mu_type_ u = MarketUpdateType.CLEAR) then
      for_each (λ i, on_cell i u;; mret tt) (seq 0 (Z.to_nat ME_MAX_TICKERS))
    else mret tt
  else
    book ← on_cell (Z.to_nat tid) u;
    if decide (mu_type_ u = MarketUpdateType.TRADE) then
      modify (λ e, set_te_features (fe_onTradeUpdate u book (feature_engine_ e)) e);;
      trade_cb u book
    else
      modify (λ e, set_te_features (fe_onOrderBookUpdate book (feature_engine_ e)) e);;
      updatePositions (pk_updateBBO tid (getBBO book));;
      book_cb tid (mu_price_ u) (mu_side_ u) book.

(** One turn of [run]: one response, then one market update. *)
Definition take_response : TE bool :=
  q ← gets incoming_responses_;
  let '(r, q) := peek q in
  modify (set_te_responses q);;
  match r with
  | None => mret false
  | Some r =>
      handleResponse r;;
      q ← gets incoming_responses_; q ← lift (pop q); modify (set_te_responses q);; mret true
  end.
Definition take_update : TE bool :=
  q ← gets incoming_market_updates_;
  let '(u, q) := peek q in
  modify (set_te_updates q);;
  match u with
  | None => mret false
  | Some u =>
      handleMarketUpdate u;;
      q ← gets incoming_market_updates_; q ← lift (pop q); modify (set_te_updates q);; mret true
  end.
Definition te_run_once : TE unit := take_response;; take_update;; mret tt.

(** [drainOnceForTest]: until both queues are empty. *)
Fixpoint drain_with (take : TE bool) (fuel : nat) : TE unit :=
  more ← take;
  if (more : bool) then match fuel with O => fail Spin | S fuel => drain_with take fuel end
  else mret tt.
Definition drainOnceForTest : TE unit :=
  n ← gets (λ e, LFQueue.size (incoming_responses_ e));
  drain_with take_response (Z.to_nat n);;
  n ← gets (λ e, LFQueue.size (incoming_market_updates_ e));
  drain_with take_update (Z.to_nat n).
End TradeEngine.
