(* ===== verification/TradeEngineProps.v ===== *)
(** The TradeEngine keeps its promises to the order manager, and its limits.

    [TradeEngine_laws] discharges the order manager's interface; [StrategyOk]
    is what the engine asks of a strategy, with the two strategies as
    instances.  [te_step] is a session of the engine against an exchange, and
    [desk_rep] relates it to the [desk] of OrderSession, whose limits it
    inherits. *)

From S2P Require Import Prelude Types Doubles LFQueue MarketOrderBook PositionKeeper RiskManager OrderManager OrderSession FeatureEngine TradeEngine.

Section laws.
Context `{Cfg : Config, Dbl : Double}.
Implicit Types (e : TradeEngine).

#[export] Program Instance TradeEngine_laws : EngineLaws TradeEngine
    (ClientId * LFQueue MEClientResponse * LFQueue MEMarketUpdate * list MarketOrderBook * FeatureEngine Dbl *
     PositionKeeper * RiskManager) := {|
  env e := (client_id_ e, incoming_responses_ e, incoming_market_updates_ e, market_order_books_ e, feature_engine_ e,
    position_keeper_ e, risk_manager_ e);
  holds e l := ∃ n, q_rep (outgoing_requests_ e) n l;
|}.
Next Obligation. split; [done|by intros []|done]. Qed.
Next Obligation. done. Qed.
Next Obligation. done. Qed.
Next Obligation. intros e e' E. cbn in *. congruence. Qed.
Next Obligation. intros e e' tid side qty E. cbn in *. congruence. Qed.
Next Obligation.
  intros r e l [n Hq]. cbn. unfold te_sendClientRequest. rewrite bind_gets.
  pose proof (push_fits r _ _ _ Hq) as Hp. destruct (fits n (l ++ [r])); [left|right].
  - destruct Hp as (q & Hp & Hr). unfold lift. erewrite bind_Ok by (rewrite Hp; reflexivity).
    eexists. split; [reflexivity|]. by split; [exists n|].
  - eexists. unfold lift. by rewrite (bind_Err _ _ _ (Fatal "LFQueue overflow")) by (by rewrite Hp).
Qed.

(** What the engine asks of a strategy: to act through the order manager, on
    the ticker it was called for and with a positive quantity, or not at all. *)
Inductive move_only (tid : TickerId) (prog : M TradeEngine unit) e : Prop :=
  | mo_none : prog e = Ok (tt, e) → move_only tid prog e
  | mo_move bid ask clip : 0 < clip → prog e = moveOrders tid bid ask clip e → move_only tid prog e.

Class StrategyOk (S : Strategy) : Prop := {
  book_cb_ok tid price side book e : 0 ≤ tid < ME_MAX_TICKERS → move_only tid (book_cb tid price side book) e;
  trade_cb_ok u book e : 0 ≤ mu_ticker_id_ u < ME_MAX_TICKERS → move_only (mu_ticker_id_ u) (trade_cb u book) e;
  order_cb_ok r e : order_cb r e = Ok (tt, e);
}.

Lemma no_strategy_ok : StrategyOk no_strategy.
Proof. split; intros; try done; by apply mo_none. Qed.

(** Every ticker is configured, with a positive clip. *)
Definition cfg_ok (cfg : TradeEngineCfgHashMap) : Prop :=
  ∀ tid, 0 ≤ tid < ME_MAX_TICKERS → ∃ c, cfg !! Z.to_nat tid = Some c ∧ 0 < clip_ c.

Lemma cfg_at_Ok (cfg : TradeEngineCfgHashMap) tid e c : cfg !! Z.to_nat tid = Some c → cfg_at cfg tid e = Ok (c, e).
Proof. intros E. unfold cfg_at. by rewrite E. Qed.

Lemma MarketMaker_ok cfg : cfg_ok cfg → StrategyOk (MarketMaker cfg).
Proof.
  intros Hc. split; [|intros; by apply mo_none|done].
  intros tid price side book e Ht. cbn. destruct (Hc tid Ht) as (c & Ec & Hclip).
  destruct (both_valid (getBBO book) && negb (disnan (getMktPrice (feature_engine_ e)))) eqn:Eb.
  - eapply mo_move; [exact Hclip|]. unfold mm_onOrderBookUpdate. rewrite bind_gets, Eb.
    by rewrite (bind_Ok _ _ _ _ _ (cfg_at_Ok _ _ _ _ Ec)).
  - apply mo_none. unfold mm_onOrderBookUpdate. by rewrite bind_gets, Eb.
Qed.

Lemma LiquidityTaker_ok cfg : cfg_ok cfg → StrategyOk (LiquidityTaker cfg).
Proof.
  intros Hc. split; [intros; by apply mo_none| |done].
  intros u book e Ht. cbn. destruct (Hc _ Ht) as (c & Ec & Hclip).
  destruct (both_valid (getBBO book) && negb (disnan (getAggTradeQtyRatio (feature_engine_ e)))) eqn:Eb.
  - assert (E : lt_onTradeUpdate cfg u book e =
      (if dleb (threshold_ c) (getAggTradeQtyRatio (feature_engine_ e)) then
        if Side.eqb (mu_side_ u) Side.BUY
        then moveOrders (mu_ticker_id_ u) (ask_price_ (getBBO book)) Price_INVALID (clip_ c)
        else moveOrders (mu_ticker_id_ u) Price_INVALID (bid_price_ (getBBO book)) (clip_ c)
      else mret tt) e).
    { unfold lt_onTradeUpdate. rewrite bind_gets, Eb. by rewrite (bind_Ok _ _ _ _ _ (cfg_at_Ok _ _ _ _ Ec)). }
    destruct (dleb _ _); [|by apply mo_none].
    destruct (Side.eqb _ _); by eapply mo_move.
  - apply mo_none. unfold lt_onTradeUpdate. by rewrite bind_gets, Eb.
Qed.
End laws.

(** ** The engine as a desk *)

Section session.
Context `{Cfg : Config, !ConfigOk Cfg, Dbl : Double}.
Context (cfg : TradeEngineCfgHashMap) {Strat : Strategy} {Hstrat : StrategyOk Strat}.
Implicit Types (e : TradeEngine) (d : desk) (u : MEMarketUpdate) (r : MEClientResponse).

Definition limit_of (tid : TickerId) : Z :=
  match cfg !! Z.to_nat tid with Some c => max_position_ (risk_cfg_ c) | None => 0 end.
(** The configured limits: small enough for the check's [int32_t]. *)
Definition limits_ok : Prop := ∀ tid, 0 ≤ tid < ME_MAX_TICKERS → ∃ c, cfg !! Z.to_nat tid = Some c ∧
  0 ≤ max_position_ (risk_cfg_ c) < 2 ^ 30 ∧ 0 ≤ max_order_size_ (risk_cfg_ c) < 2 ^ 30.
Context (Hlimits : limits_ok).

Record positions_ok (pos : TickerId → Z) e : Prop := {
  po_risk : risk_manager_ e = RiskManager_new cfg;
  po_length : length (position_keeper_ e) = Z.to_nat ME_MAX_TICKERS;
  po_books : length (market_order_books_ e) = Z.to_nat ME_MAX_TICKERS;
  po_cell : ∀ tid i, 0 ≤ tid < ME_MAX_TICKERS → position_keeper_ e !! Z.to_nat tid = Some i →
    position_ i = pos tid ∧ length (open_vwap_ i) = 4%nat;
}.
Record desk_rep e d : Prop := {
  dr_orders : order_manager_ e = d_orders d;
  dr_pos : positions_ok (d_pos d) e;
  dr_reqs : holds e (d_reqs d);
}.

Lemma risk_lookup e pos tid : positions_ok pos e → 0 ≤ tid < ME_MAX_TICKERS →
  ∃ c i, cfg !! Z.to_nat tid = Some c ∧ position_keeper_ e !! Z.to_nat tid = Some i ∧
    0 ≤ max_position_ (risk_cfg_ c) < 2 ^ 30 ∧ 0 ≤ max_order_size_ (risk_cfg_ c) < 2 ^ 30 ∧
    limit_of tid = max_position_ (risk_cfg_ c) ∧ position_ i = pos tid ∧ length (open_vwap_ i) = 4%nat ∧
    ∀ side qty, riskCheck tid side qty e = riskInfoCheck (risk_cfg_ c) i side qty.
Proof using Hlimits.
  intros [Hr Hl Hb Hc] Ht. destruct (Hlimits tid Ht) as (c & Ec & Hp & Ho).
  destruct (lookup_lt_is_Some_2 (position_keeper_ e) (Z.to_nat tid)) as [i Ei]; [lia|].
  destruct (Hc tid i Ht Ei) as [Hpi Hv]. exists c, i. split_and!; try done; try apply Hp; try apply Ho.
  - unfold limit_of. by rewrite Ec.
  - intros side qty. cbn. rewrite Hr. by apply checkPreTradeRisk_eq.
Qed.

Lemma order_ref_Ok tid side e : tid < ME_MAX_TICKERS → side = Side.BUY ∨ side = Side.SELL ∨ side = Side.INVALID →
  order_ref tid side e = Ok ((tid, sideToIndex side), e).
Proof.
  intros Ht Hs. unfold order_ref. rewrite (proj2 (Z.ltb_lt _ _) Ht). by destruct Hs as [-> | [-> | ->]].
Qed.

(** One order moved. *)
Lemma moveOrder_desk owner e d k price qty e' :
  desk_rep e d → desk_ok limit_of owner d → key_ok k → 0 < qty → 0 ≤ next_order_id_ (d_orders d) < 2 ^ 64 - 1 →
  moveOrder (key_index k) k.1 price k.2 qty e = Ok (tt, e') →
  ∃ reqs m owner', desk_step (client_id_ e) limit_of d (move_orders m reqs d) ∧ desk_rep e' (move_orders m reqs d) ∧
    desk_ok limit_of owner' (move_orders m reqs d) ∧ client_id_ e' = client_id_ e ∧
    next_order_id_ (d_orders d) ≤ next_order_id_ m ≤ next_order_id_ (d_orders d) + 1.
Proof using Hlimits.
  intros [Ho Hp Hq] Hok Hk Hqty Hn Hrun. pose proof Hk as [Ht Hside].
  destruct (risk_lookup e _ k.1 Hp Ht) as (c & i & Ec & Ei & Hmp & Hmo & Hlim & Hpos & _ & Hrisk).
  pose proof (dk_limit _ _ _ Hok k.1 Ht) as [Hl1 Hl2]. rewrite Hlim in Hl1, Hl2.
  assert (Hout : ∀ k', key_ok k' → 0 ≤ outstanding (cell k' (d_orders d))).
  { intros k' Hk'. unfold outstanding. case_decide; [done|]. apply (dk_cell _ _ _ Hok k' Hk'). tauto. }
  pose proof (Hout (k.1, Side.BUY) ltac:(split; [done|by left])). pose proof (Hout (k.1, Side.SELL) ltac:(split; [done|by right])).
  pose proof (riskInfoCheck_spec (risk_cfg_ c) i k.2 qty Hside ltac:(lia) ltac:(lia) ltac:(lia)) as Hrc. cbv zeta in Hrc.
  set (res := if _ <? _ then ORDER_TOO_LARGE else _) in Hrc. rewrite <- (Hrisk k.2 qty) in Hrc.
  destruct (moveOrder_acts (key_index k) k.1 price k.2 qty res e Hrc (d_reqs d) Hq) as [(e1 & Hr & Hq1 & He & Hm)|(msg & Hr)];
    rewrite Hrun in Hr; [injection Hr as <-|done].
  change (clientId e) with (client_id_ e) in *. change (lget om_of e) with (order_manager_ e) in *.
  change (lget om_of e') with (order_manager_ e') in Hm. rewrite Ho in Hq1, Hm.
  destruct (s_move _ _ _ _ _ _ _ (d_orders d)) as [reqs m] eqn:Es. cbn [fst snd] in *.
  assert (Habs : bool_decide (res = ALLOWED) = true → Z.abs (d_pos d k.1 + sideToValue k.2 * qty) ≤ limit_of k.1).
  { intros Ha%bool_decide_eq_true. rewrite Ha in Hrc. rewrite (Hrisk k.2 qty) in Hrc.
    apply riskInfoCheck_allowed in Hrc as (_ & Hab & _); [|done|lia..]. rewrite Hlim. by rewrite <- Hpos. }
  destruct (move_ok (client_id_ e) limit_of owner d Hok k price qty _ reqs m Hk Hqty Hn Habs Es) as [owner' Hok'].
  exists reqs, m, owner'. split_and!; try done.
  - by eapply step_move.
  - split; [done| |exact Hq1]. cbn in He. injection He as _ _ _ E4 _ E6 E7. destruct Hp as [H1 H2 H3 H4].
    cbn [move_orders d_pos]. split; rewrite ?E4, ?E6, ?E7; done.
  - cbn in He. congruence.
  - revert Es. unfold s_move, s_new, s_drop. repeat case_match; intros [= <- <-]; cbn; try lia; rewrite u64_id by (unfold is_u64; lia); lia.
  - revert Es. unfold s_move, s_new, s_drop. repeat case_match; intros [= <- <-]; cbn; try lia; rewrite u64_id by (unfold is_u64; lia); lia.
Qed.

Lemma moveOrders_desk owner e d tid bid ask clip e' :
  desk_rep e d → desk_ok limit_of owner d → 0 ≤ tid < ME_MAX_TICKERS → 0 < clip →
  0 ≤ next_order_id_ (d_orders d) < 2 ^ 64 - 2 → moveOrders tid bid ask clip e = Ok (tt, e') →
  ∃ d', rtc (desk_step (client_id_ e) limit_of) d d' ∧ desk_rep e' d' ∧ d_live d' = d_live d ∧ d_resps d' = d_resps d ∧
    client_id_ e' = client_id_ e ∧ next_order_id_ (d_orders d') ≤ next_order_id_ (d_orders d) + 2.
Proof using Hlimits.
  intros Hrep Hok Ht Hclip Hn Hrun. unfold moveOrders in Hrun.
  rewrite (bind_Ok _ _ _ _ _ (order_ref_Ok tid Side.BUY e ltac:(lia) ltac:(auto))) in Hrun.
  apply bind_Ok_inv in Hrun as ([] & e1 & H1 & Hrun).
  rewrite (bind_Ok _ _ _ _ _ (order_ref_Ok tid Side.SELL e1 ltac:(lia) ltac:(auto))) in Hrun.
  destruct (moveOrder_desk owner e d (tid, Side.BUY) bid clip e1 Hrep Hok) as (rq1 & m1 & ow1 & S1 & R1 & O1 & C1 & N1);
    [split; [done|by left]|done|lia|exact H1|].
  destruct (moveOrder_desk ow1 e1 _ (tid, Side.SELL) ask clip e' R1 O1) as (rq2 & m2 & ow2 & S2 & R2 & O2 & C2 & N2);
    [split; [done|by right]|done|cbn; lia|exact Hrun|].
  rewrite C1 in S2, C2. cbn [move_orders d_orders] in N2. eexists. split; [eapply rtc_l; [exact S1|by apply rtc_once]|].
  split; [exact R2|]. split_and!; try done. cbn [move_orders d_orders]. lia.
Qed.

(** *** Responses *)

(** Writing back one position. *)
Lemma positions_insert pos pos' e tid i :
  positions_ok pos e → 0 ≤ tid < ME_MAX_TICKERS → length (open_vwap_ i) = 4%nat → position_ i = pos' tid →
  (∀ t, t ≠ tid → pos' t = pos t) →
  positions_ok pos' (set_te_positions (<[ Z.to_nat tid := i ]> (position_keeper_ e)) e).
Proof.
  intros [H1 H2 H3 H4] Ht Hv Hp Ho. split; cbn; [done| |done|].
  - etransitivity; [apply length_insert|done].
  - intros t j Htt Hj. destruct (decide (t = tid)) as [->|Hne].
    + assert (E : (<[ Z.to_nat tid := i ]> (position_keeper_ e) : list (PositionInfo Dbl)) !! Z.to_nat tid = Some i).
      { apply list_lookup_insert_eq. lia. }
      rewrite E in Hj. by injection Hj as <-.
    + assert (E : (<[ Z.to_nat tid := i ]> (position_keeper_ e) : list (PositionInfo Dbl)) !! Z.to_nat t = position_keeper_ e !! Z.to_nat t).
      { apply list_lookup_insert_ne. lia. }
      rewrite E in Hj. rewrite Ho by done. by apply H4.
Qed.

Lemma updatePositions_Ok m e k : m (position_keeper_ e) = Ok k → updatePositions m e = Ok (tt, set_te_positions k e).
Proof. intros Hm. unfold updatePositions, lift. rewrite bind_gets. unfold mbind, M_bind. by rewrite Hm. Qed.

Lemma handleResponse_desk owner e d r rs :
  desk_rep e d → desk_ok limit_of owner d → d_resps d = r :: rs →
  ∃ e', handleResponse r e = Ok (tt, e') ∧ client_id_ e' = client_id_ e ∧ outgoing_requests_ e' = outgoing_requests_ e ∧
    desk_rep e' (mkDesk (take_response_orders r (d_orders d)) (take_response_pos r (d_pos d)) (d_reqs d) (d_live d) rs).
Proof using Hlimits Hstrat.
  intros [Ho Hp Hq] Hok Er. pose proof (response_ok 0 limit_of owner d Hok r rs Er) as Hok'.
  pose proof (dk_resp _ _ _ Hok r ltac:(rewrite Er; by left)) as [Ht Hkey].
  assert (Hside : rs_side_ r = Side.BUY ∨ rs_side_ r = Side.SELL ∨ rs_side_ r = Side.INVALID).
  { destruct Hkey as [[_ [?|?]]|[? _]]; auto. }
  unfold handleResponse. rewrite (proj2 (Z.leb_gt _ _)) by lia.
  (* the accounts *)
  assert (∃ e1, (if decide (rs_type_ r = ClientResponseType.FILLED) then
       updatePositions (pk_addFill r);;
       books ← gets market_order_books_;
       match books !! Z.to_nat (rs_ticker_id_ r) with
       | Some book => updatePositions (pk_updateBBO (rs_ticker_id_ r) (getBBO book))
       | None => fail (UB "market_order_books_ out of range")
       end
     else mret tt) e = Ok (tt, e1) ∧ positions_ok (take_response_pos r (d_pos d)) e1 ∧
     order_manager_ e1 = order_manager_ e ∧ client_id_ e1 = client_id_ e ∧ outgoing_requests_ e1 = outgoing_requests_ e)
    as (e1 & H1 & Hp1 & Ho1 & Hc1 & Hq1).
  { unfold take_response_pos. case_decide as Ef; [|by exists e].
    destruct Hkey as [Hk|[_ ?]]; [|congruence].
    destruct (risk_lookup e _ (rs_ticker_id_ r) Hp Ht) as (c & i & Ec & Ei & Hmp & Hmo & Hlim & Hpos & Hv & _).
    pose proof (dk_phase _ _ _ Hok _ Hk) as Hph. rewrite Er, resps_cons, decide_True in Hph by done.
    apply phase_response in Hph as (_ & _ & _ & _ & Hni & _ & _ & _ & Hout). rewrite decide_True in Hout by done.
    destruct Hout as (_ & Hex & Hle).
    pose proof (dk_limit _ _ _ Hok _ Ht) as [L1 L2]. rewrite Hlim in L1, L2.
    pose proof (dk_limit _ _ _ Hok' _ Ht) as [L1' L2']. rewrite Hlim in L1', L2'.
    cbn [d_pos d_orders] in L1', L2'. unfold take_response_pos in L1', L2'. rewrite decide_True in L1', L2' by done.
    rewrite decide_True in L1', L2' by done.
    assert (Hnn : ∀ dd, desk_ok limit_of owner dd → ∀ k', key_ok k' → 0 ≤ outstanding (cell k' (d_orders dd))).
    { intros dd Hd k' Hk'. unfold outstanding. case_decide; [done|]. apply (dk_cell _ _ _ Hd k' Hk'). tauto. }
    assert (HB : key_ok (rs_ticker_id_ r, Side.BUY)) by (split; [done|by left]).
    assert (HS : key_ok (rs_ticker_id_ r, Side.SELL)) by (split; [done|by right]).
    pose proof (Hnn _ Hok _ HB). pose proof (Hnn _ Hok _ HS). pose proof (Hnn _ Hok' _ HB) as HB'. pose proof (Hnn _ Hok' _ HS) as HS'.
    cbn [d_orders] in HB', HS'.
    assert (Hex2 : rs_exec_qty_ r < 2 ^ 31).
    { destruct Hk as [_ [Hs|Hs]]; cbn in Hs; unfold rs_key in Hle; rewrite Hs in Hle; lia. }
    destruct (addFill_Ok r i) as (i1 & A1 & P1 & V1); [apply Hk|lia|lia|unfold signed_qty; lia|done|].
    assert (E1 : updatePositions (pk_addFill r) e = Ok (tt, set_te_positions (<[ Z.to_nat (rs_ticker_id_ r) := i1 ]> (position_keeper_ e)) e)).
    { apply updatePositions_Ok. unfold pk_addFill, position_at. rewrite Ei. cbn [mbind res_bind]. by rewrite A1. }
    rewrite (bind_Ok _ _ _ _ _ E1), bind_gets. set (e2 := set_te_positions _ e).
    destruct (lookup_lt_is_Some_2 (market_order_books_ e) (Z.to_nat (rs_ticker_id_ r))) as [book Eb];
      [rewrite (po_books _ _ Hp); lia|].
    change (market_order_books_ e2) with (market_order_books_ e). rewrite Eb.
    assert (Hl2 : position_keeper_ e2 !! Z.to_nat (rs_ticker_id_ r) = Some i1).
    { apply list_lookup_insert_eq. rewrite (po_length _ _ Hp). lia. }
    destruct (updateBBO_Ok (getBBO book) i1) as (i2 & A2 & P2 & V2); [rewrite P1; unfold signed_qty; lia|done|].
    exists (set_te_positions (<[ Z.to_nat (rs_ticker_id_ r) := i2 ]> (position_keeper_ e)) e). split.
    - rewrite (updatePositions_Ok _ e2 (<[ Z.to_nat (rs_ticker_id_ r) := i2 ]> (position_keeper_ e2))).
      + unfold e2. cbn [position_keeper_ set_te_positions]. by rewrite list_insert_insert_eq.
      + unfold pk_updateBBO, position_at. rewrite Hl2. cbn [mbind res_bind]. by rewrite A2.
    - split; [|done]. apply (positions_insert (d_pos d)); try done.
      + rewrite P2, P1, decide_True, Hpos by done. done.
      + intros t Hne. by rewrite decide_False. }
  rewrite (bind_Ok _ _ _ _ _ H1). unfold onOrderUpdate.
  rewrite bind_assoc, (bind_Ok _ _ _ _ _ (order_ref_Ok (rs_ticker_id_ r) (rs_side_ r) e1 (proj2 Ht) Hside)).
  eexists. split; [|split; [|split]].
  - unfold read_order, write_order. rewrite bind_assoc, bind_gets, bind_modify. apply order_cb_ok.
  - exact Hc1.
  - exact Hq1.
  - split.
    + cbn [d_orders]. change (take_response_orders r (order_manager_ e1) = take_response_orders r (d_orders d)). by rewrite Ho1, Ho.
    + cbn [d_pos]. by destruct Hp1.
    + cbn [d_reqs]. cbn. rewrite Hq1. exact Hq.
Qed.

(** *** Market updates *)

(** What the engine does to its own parts, before the strategy acts. *)
Lemma desk_rep_other e e' d :
  desk_rep e d → order_manager_ e' = order_manager_ e → position_keeper_ e' = position_keeper_ e →
  risk_manager_ e' = risk_manager_ e → outgoing_requests_ e' = outgoing_requests_ e →
  length (market_order_books_ e') = length (market_order_books_ e) → desk_rep e' d.
Proof.
  intros [Ho [H1 H2 H3 H4] Hq] E1 E2 E3 E4 E5. split; [congruence| |cbn; rewrite E4; exact Hq].
  split; rewrite ?E2, ?E3, ?E5; done.
Qed.

Lemma on_cell_desk e d i u b e' : desk_rep e d → on_cell i u e = Ok (b, e') → desk_rep e' d ∧ client_id_ e' = client_id_ e.
Proof.
  intros Hd. unfold on_cell. rewrite bind_gets. destruct (market_order_books_ e !! i) as [b0|] eqn:Eb; [|done].
  unfold lift. intros ([[] b1] & e1 & H1 & H2)%bind_Ok_inv. destruct (onMarketUpdate u b0) as [p|]; [|done].
  injection H1 as -> ->. rewrite bind_modify in H2. injection H2 as <- <-.
  split; [|done]. apply (desk_rep_other e1); try done. cbn. apply length_insert.
Qed.

Lemma pk_updateBBO_desk e d tid bbo e' :
  desk_rep e d → 0 ≤ tid < ME_MAX_TICKERS → updatePositions (pk_updateBBO tid bbo) e = Ok (tt, e') →
  desk_rep e' d ∧ client_id_ e' = client_id_ e.
Proof using Hlimits.
  intros [Ho Hp Hq] Ht. unfold updatePositions, lift. rewrite bind_gets.
  intros (k & e1 & H1 & H2)%bind_Ok_inv. destruct (pk_updateBBO tid bbo (position_keeper_ e)) as [k'|] eqn:Ek; [|done].
  injection H1 as -> ->. injection H2 as <-. split; [|done].
  destruct (risk_lookup e1 _ tid Hp Ht) as (c & i & _ & Ei & _ & _ & _ & Hpos & Hv & _).
  unfold pk_updateBBO, position_at in Ek. rewrite Ei in Ek. cbn [mbind res_bind] in Ek.
  destruct (pi_updateBBO bbo i) as [i'|] eqn:Eu; [|done]. injection Ek as <-.
  assert (Hi' : position_ i' = position_ i ∧ open_vwap_ i' = open_vwap_ i).
  { revert Eu. unfold pi_updateBBO. destruct (_ && _ && _); [|by intros [= ->]].
    destruct (mark _ _ _); [|done]. by intros [= <-]. }
  destruct Hi' as [Hpi Hvi]. split; [done| |exact Hq].
  apply (positions_insert (d_pos d)); try done; congruence.
Qed.

Lemma strategy_desk owner tid prog e d e' :
  desk_rep e d → desk_ok limit_of owner d → 0 ≤ tid < ME_MAX_TICKERS → 0 ≤ next_order_id_ (d_orders d) < 2 ^ 64 - 2 →
  move_only tid prog e → prog e = Ok (tt, e') →
  ∃ d', rtc (desk_step (client_id_ e) limit_of) d d' ∧ desk_rep e' d' ∧ d_live d' = d_live d ∧ d_resps d' = d_resps d ∧
    client_id_ e' = client_id_ e.
Proof using Hlimits.
  intros Hd Hok Ht Hn [Hp|bid ask clip Hclip Hp] Hrun; rewrite Hp in Hrun.
  - injection Hrun as <-. exists d. by split_and!.
  - destruct (moveOrders_desk owner e d tid bid ask clip e' Hd Hok Ht Hclip Hn Hrun) as (d' & ? & ? & ? & ? & ? & _).
    by exists d'.
Qed.

Lemma handleMarketUpdate_desk owner e d u e' :
  desk_rep e d → desk_ok limit_of owner d → 0 ≤ mu_ticker_id_ u → 0 ≤ next_order_id_ (d_orders d) < 2 ^ 64 - 2 →
  handleMarketUpdate u e = Ok (tt, e') →
  ∃ d', rtc (desk_step (client_id_ e) limit_of) d d' ∧ desk_rep e' d' ∧ d_live d' = d_live d ∧ d_resps d' = d_resps d ∧
    client_id_ e' = client_id_ e.
Proof using Hlimits Hstrat.
  intros Hd Hok Hu Hn. unfold handleMarketUpdate. case Z.leb_spec; intros Ht.
  - case_decide; [|intros [= <-]; exists d; by split_and!]. intros Hrun. exists d.
    assert (desk_rep e' d ∧ client_id_ e' = client_id_ e) as [? ?]; [|by split_and!].
    revert e Hd Hrun. generalize (seq 0 (Z.to_nat ME_MAX_TICKERS)). intros cells. induction cells as [|i cells IH]; intros e Hd Hrun.
    + injection Hrun as <-. done.
    + cbn [for_each] in Hrun. apply bind_Ok_inv in Hrun as ([] & e1 & H1 & Hrun).
      apply bind_Ok_inv in H1 as (b & e2 & H1 & [= <-]). destruct (on_cell_desk _ _ _ _ _ _ Hd H1) as [Hd1 Hc1].
      destruct (IH e2 Hd1 Hrun). split; [done|congruence].
  - intros (b & e1 & H1 & Hrun)%bind_Ok_inv. destruct (on_cell_desk _ _ _ _ _ _ Hd H1) as [Hd1 Hc1].
    case_decide.
    + rewrite bind_modify in Hrun. set (e2 := set_te_features _ e1) in *.
      assert (Hd2 : desk_rep e2 d) by (by apply (desk_rep_other e1)).
      destruct (strategy_desk owner (mu_ticker_id_ u) _ e2 d e' Hd2 Hok (conj Hu Ht) Hn (trade_cb_ok u b e2 (conj Hu Ht)) Hrun)
        as (d' & ? & ? & ? & ? & Hc). rewrite <- Hc1. by exists d'.
    + rewrite bind_modify in Hrun. set (e2 := set_te_features _ e1) in *.
      assert (Hd2 : desk_rep e2 d) by (by apply (desk_rep_other e1)).
      apply bind_Ok_inv in Hrun as ([] & e3 & H3 & Hrun).
      destruct (pk_updateBBO_desk _ _ _ _ _ Hd2 (conj Hu Ht) H3) as [Hd3 Hc3].
      destruct (strategy_desk owner (mu_ticker_id_ u) _ e3 d e' Hd3 Hok (conj Hu Ht) Hn
        (book_cb_ok _ (mu_price_ u) (mu_side_ u) b e3 (conj Hu Ht)) Hrun) as (d' & ? & ? & ? & ? & Hc).
      rewrite <- Hc1. change (client_id_ e1) with (client_id_ e2). rewrite <- Hc3. by exists d'.
Qed.

(** ** Sessions *)

(** The engine, the orders it has resting at the exchange, and the responses
    on their way to it.  Its requests in flight are those of its queue. *)
Record te_session := mkTeSession { ts_engine : TradeEngine; ts_live : list working; ts_resps : list MEClientResponse }.

Inductive te_step : te_session → te_session → Prop :=
  | te_update u e e' live resps :
      0 ≤ mu_ticker_id_ u → 0 ≤ next_order_id_ (order_manager_ e) < 2 ^ 64 - 2 →
      handleMarketUpdate u e = Ok (tt, e') →
      te_step (mkTeSession e live resps) (mkTeSession e' live resps)
  | te_response r rs e e' live :
      handleResponse r e = Ok (tt, e') →
      te_step (mkTeSession e live (r :: rs)) (mkTeSession e' live rs)
  | te_exchange e live resps n reqs n' reqs' q live' r :
      q_rep (outgoing_requests_ e) n reqs → exchange reqs live reqs' live' r → q_rep q n' reqs' →
      te_step (mkTeSession e live resps) (mkTeSession (set_te_requests q e) live' (resps ++ [r])).

Definition ts_rep s d : Prop :=
  desk_rep (ts_engine s) d ∧ ts_live s = d_live d ∧ ts_resps s = d_resps d.

(** The engine's session is a run of the desk. *)
Lemma te_step_desk owner s d s' :
  ts_rep s d → desk_ok limit_of owner d → te_step s s' →
  ∃ d', rtc (desk_step (client_id_ (ts_engine s)) limit_of) d d' ∧ ts_rep s' d' ∧
    client_id_ (ts_engine s') = client_id_ (ts_engine s).
Proof using Hlimits Hstrat.
  intros (Hd & El & Er) Hok Hs. destruct Hs as [u e e' live resps Hu Hn Hrun|r rs e e' live Hrun|e live resps n reqs n' reqs' q live' r Hq Hx Hq'];
    cbn [ts_engine ts_live ts_resps] in *.
  - rewrite (dr_orders _ _ Hd) in Hn.
    destruct (handleMarketUpdate_desk owner e d u e' Hd Hok Hu Hn Hrun) as (d' & ? & ? & E1 & E2 & ?).
    exists d'. split; [done|]. split; [|done]. split; [done|]. cbn. by rewrite E1, E2.
  - destruct (handleResponse_desk owner e d r rs Hd Hok (eq_sym Er)) as (e1 & H1 & ? & _ & ?).
    rewrite Hrun in H1. injection H1 as <-. eexists. split; [apply rtc_once; by eapply step_response|]. by split.
  - destruct (dr_reqs _ _ Hd) as [m Hm]. pose proof (q_rep_unique _ _ _ _ _ Hq Hm) as ->. subst live resps.
    eexists. split; [apply rtc_once; by eapply step_exchange|]. split; [|done]. split; [|done].
    destruct Hd as [Ho [H1 H2 H3 H4] _]. split; [done|by split|by exists n'].
Qed.

Lemma te_steps_desk owner s d s' :
  ts_rep s d → desk_ok limit_of owner d → rtc te_step s s' →
  ∃ d', rtc (desk_step (client_id_ (ts_engine s)) limit_of) d d' ∧ ts_rep s' d'.
Proof using Hlimits Hstrat.
  intros Hr Hok Hs. revert owner d Hr Hok. induction Hs as [s|s s1 s2 H1 _ IH]; intros owner d Hr Hok; [by exists d|].
  destruct (te_step_desk owner s d s1 Hr Hok H1) as (d1 & Hd1 & Hr1 & E1).
  destruct (desk_steps_ok _ _ _ _ _ Hok Hd1) as [owner1 Hok1].
  destruct (IH owner1 d1 Hr1 Hok1) as (d2 & Hd2 & Hr2). exists d2. split; [|done]. rewrite E1 in Hd2. by etransitivity.
Qed.

Lemma TradeEngine_new_rep cid q_req q_resp q_mu n :
  q_rep q_req n [] → ts_rep (mkTeSession (TradeEngine_new cid q_req q_resp q_mu cfg) [] []) desk_new.
Proof.
  intros Hq. split; [|done]. split; [done| |by exists n]. split; [done| | |].
  - cbn. apply length_replicate.
  - cbn. by rewrite length_fmap, length_seqZ.
  - cbn. intros tid i Ht [-> _]%lookup_replicate. done.
Qed.

(** C30: a trading engine with any of the strategies, its requests, the
    exchange's answers and trades, market data and responses interleaving in
    any order, never has two orders working on one side of a ticker; no
    position, even with everything working on one side filled, leaves the
    configured limit; and taking the next response never faults. *)
Theorem engine_within_limits cid q_req q_resp q_mu n s :
  q_rep q_req n [] → rtc te_step (mkTeSession (TradeEngine_new cid q_req q_resp q_mu cfg) [] []) s →
  (∀ k, key_ok k → (length (live_of k (ts_live s)) ≤ 1)%nat) ∧
  (∀ tid i, 0 ≤ tid < ME_MAX_TICKERS → position_keeper_ (ts_engine s) !! Z.to_nat tid = Some i →
    Z.abs (position_ i) ≤ limit_of tid ∧
    position_ i + sumZ w_leaves (live_of (tid, Side.BUY) (ts_live s)) ≤ limit_of tid ∧
    - limit_of tid ≤ position_ i - sumZ w_leaves (live_of (tid, Side.SELL) (ts_live s))) ∧
  (∀ r rs, ts_resps s = r :: rs → ∃ e', handleResponse r (ts_engine s) = Ok (tt, e')).
Proof using Hlimits Hstrat.
  intros Hq Hs.
  assert (Hl : ∀ tid, 0 ≤ tid < ME_MAX_TICKERS → 0 ≤ limit_of tid).
  { intros tid Ht. destruct (Hlimits tid Ht) as (c & Ec & ? & _). unfold limit_of. rewrite Ec. lia. }
  destruct (te_steps_desk _ _ _ s (TradeEngine_new_rep cid q_req q_resp q_mu n Hq) (desk_new_ok _ Hl) Hs) as (d & Hd & Hrep & El & Er).
  destruct (desk_steps_ok _ _ _ _ _ (desk_new_ok _ Hl) Hd) as [owner Hok].
  destruct (desk_ok_limits _ _ _ Hok) as [H1 H2]. rewrite El. split; [done|]. split.
  - intros tid i Ht Hi. destruct (po_cell _ _ (dr_pos _ _ Hrep) tid i Ht Hi) as [-> _]. by apply H2.
  - intros r rs Ers. rewrite Er in Ers. destruct (handleResponse_desk owner _ d r rs Hrep Hok Ers) as (e' & ? & _). by exists e'.
Qed.
End session.
