(* ===== verification/TestEngine.v ===== *)
(** The TradeEngine of the default constructor (trading/strategy/trade_engine.h),
    which the unit tests drive: no queue is wired and [sendClientRequest]
    captures the requests in [sent_requests_].

    It is a second implementation of the order manager's interface [Engine].
    [test_mode_faithful] relates it to any other that keeps [EngineLaws], the
    production engine of TradeEngineProps among them: what a test observes in
    [getSentRequests] is what production sends. *)

From S2P Require Import Prelude Types Doubles LFQueue PositionKeeper RiskManager OrderManager OrderSession FeatureEngine TradeEngine TradeEngineProps.

Section TestEngine.
Context `{Cfg : Config, Dbl : Double}.

(** The engine with the order manager of the test, and the risk manager and
    the position keeper that manager reads. *)
Record TestEngine := mkTestEngine {
  t_client_id_ : ClientId;
  sent_requests_ : list MEClientRequest;
  t_order_manager : OrderManager;
  t_risk_manager : RiskManager;
  t_position_keeper : PositionKeeper;
}.

Definition TestEngine_new (cfg_map : TradeEngineCfgHashMap) : TestEngine :=
  mkTestEngine ClientId_INVALID [] OrderManager_new (RiskManager_new cfg_map) PositionKeeper_new.

Definition setClientIdForTest (cid : ClientId) (t : TestEngine) : TestEngine :=
  mkTestEngine cid (sent_requests_ t) (t_order_manager t) (t_risk_manager t) (t_position_keeper t).
Definition getSentRequests (t : TestEngine) : list MEClientRequest := sent_requests_ t.

Definition set_t_orders (m : OrderManager) (t : TestEngine) : TestEngine :=
  mkTestEngine (t_client_id_ t) (sent_requests_ t) m (t_risk_manager t) (t_position_keeper t).

(** The branch of [sendClientRequest] without a queue. *)
Definition t_sendClientRequest (req : MEClientRequest) : M TestEngine unit :=
  modify (λ t, mkTestEngine (t_client_id_ t) (sent_requests_ t ++ [req]) (t_order_manager t)
                 (t_risk_manager t) (t_position_keeper t)).

#[export] Instance TestEngine_engine : Engine TestEngine := {|
  om_of := Lens t_order_manager set_t_orders;
  clientId := t_client_id_;
  sendClientRequest := t_sendClientRequest;
  riskCheck ticker side qty t := checkPreTradeRisk (t_risk_manager t) (t_position_keeper t) ticker side qty;
|}.

#[export] Program Instance TestEngine_laws : EngineLaws TestEngine (ClientId * RiskManager * PositionKeeper) := {|
  env t := (t_client_id_ t, t_risk_manager t, t_position_keeper t);
  holds t l := sent_requests_ t = l;
|}.
Next Obligation. split; [done|by intros []|done]. Qed.
Next Obligation. done. Qed.
Next Obligation. done. Qed.
Next Obligation. intros t t' E. cbn in *. congruence. Qed.
Next Obligation. intros t t' tid side qty E. cbn in *. congruence. Qed.
Next Obligation. intros r t l <-. left. eexists. split; [reflexivity|]. done. Qed.
End TestEngine.

(** ** Calls of a test *)

Inductive om_call :=
  | call_moveOrders (ticker_id : TickerId) (bid_price ask_price : Price) (clip : Qty)
  | call_onOrderUpdate (response : MEClientResponse).

Definition om_run `{Cfg : Config} {E} `{Eng : Engine E} (c : om_call) : M E unit :=
  match c with
  | call_moveOrders tid bid ask clip => moveOrders tid bid ask clip
  | call_onOrderUpdate r => onOrderUpdate r
  end.

Section faithful.
Context `{Cfg : Config, Dbl : Double} {E Env : Type} `{Eng : Engine E} `{!EngineLaws E Env}.
Implicit Types (e : E) (t : TestEngine).

(** [e] and [t] hold the same manager, face the same risk checks and have sent
    the same requests. *)
Record mirrors e t : Prop := {
  mi_orders : lget om_of e = lget om_of t;
  mi_client : clientId e = clientId t;
  mi_risk tid side qty : riskCheck tid side qty e = riskCheck tid side qty t;
  mi_sent : holds e (getSentRequests t);
}.

(** From mirrored engines the two programs end alike, mirrored again, but for
    a stop on a queue that the test does not have. *)
Definition agree {A} (p : M E A) (q : M TestEngine A) : Prop := ∀ e t, mirrors e t →
  (∃ msg, p e = Err (Fatal msg)) ∨
  match q t with
  | Ok (a, t') => ∃ e', p e = Ok (a, e') ∧ mirrors e' t'
  | Err f => p e = Err f
  end.

Lemma agree_ret {A} (a : A) : agree (mret a) (mret a).
Proof. intros e t H. right. by exists e. Qed.
Lemma agree_fail {A} f : agree (fail f : M E A) (fail f).
Proof. intros e t H. by right. Qed.
Lemma agree_bind {A B} (p : M E A) q (k : A → M E B) k' :
  agree p q → (∀ a, agree (k a) (k' a)) → agree (p ≫= k) (q ≫= k').
Proof.
  intros Hp Hk e t H. unfold mbind, M_bind. destruct (Hp e t H) as [[msg ->]|Hq]; [by left; exists msg|].
  destruct (q t) as [[a t']|f].
  - destruct Hq as (e' & -> & H'). by apply Hk.
  - right. by rewrite Hq.
Qed.
Lemma agree_gets {A} (f : E → A) (g : TestEngine → A) : (∀ e t, mirrors e t → f e = g t) → agree (gets f) (gets g).
Proof. intros Hf e t H. right. exists e. unfold gets. by rewrite (Hf e t H). Qed.
Lemma agree_lift {A} (r : res A) : agree (lift r) (lift r).
Proof. intros e t H. right. unfold lift. destruct r; [by exists e|done]. Qed.

Lemma agree_send r : agree (sendClientRequest r) (sendClientRequest r).
Proof.
  intros e t [Ho Hc Hr Hs]. destruct (send_law r e _ Hs) as [(e' & Hrun & Hs' & He & Hm)|Hf]; [right|by left].
  exists e'. split; [done|]. split.
  - by rewrite Hm.
  - by rewrite (env_client e' e).
  - intros tid side qty. by rewrite (env_risk e' e).
  - done.
Qed.

(** A write of the manager's own state. *)
Lemma agree_orders (f : OrderManager → OrderManager) :
  agree (modify (λ e, lset om_of (f (lget om_of e)) e)) (modify (λ t, lset om_of (f (lget om_of t)) t)).
Proof.
  intros e t [Ho Hc Hr Hs]. right. eexists. split; [reflexivity|]. split.
  - by rewrite lget_lset, Ho.
  - etransitivity; [|exact Hc]. apply env_client, env_set.
  - intros tid side qty. etransitivity; [|exact (Hr tid side qty)]. apply env_risk, env_set.
  - by apply holds_set.
Qed.

Lemma agree_read order : agree (read_order order) (read_order order).
Proof. apply agree_gets. intros e t H. by rewrite (mi_orders _ _ H). Qed.
Lemma agree_write order o : agree (write_order order o) (write_order order o).
Proof. apply agree_orders. Qed.
Lemma agree_bump : agree bump_order_id bump_order_id.
Proof. apply (agree_orders (λ m, mkOrderManager (ticker_side_order_ m) (u64 (next_order_id_ m + 1)))). Qed.
Lemma agree_client : agree (gets clientId) (gets clientId).
Proof. apply agree_gets. by intros e t []. Qed.
Lemma agree_risk tid side qty : agree (gets (riskCheck tid side qty)) (gets (riskCheck tid side qty)).
Proof. apply agree_gets. by intros e t []. Qed.
Lemma agree_next : agree (gets (λ e, next_order_id_ (lget om_of e))) (gets (λ t, next_order_id_ (lget om_of t))).
Proof. apply agree_gets. intros e t H. by rewrite (mi_orders _ _ H). Qed.
Lemma agree_ref tid side : agree (order_ref tid side) (order_ref tid side).
Proof. unfold order_ref. destruct (_ && _); [apply agree_ret|apply agree_fail]. Qed.

Hint Resolve agree_ret agree_fail agree_lift agree_send agree_read agree_write agree_bump agree_client
  agree_risk agree_next agree_ref : agree.

(** Walk two copies of one program. *)
Ltac agree :=
  repeat first [ solve [auto with agree] | apply agree_bind; [|intros ?]
               | match goal with |- agree (if ?c then _ else _) _ => destruct c end
               | match goal with |- agree (match ?s with _ => _ end) _ => destruct s end ].

Lemma agree_newOrder order tid price side qty :
  agree (newOrder order tid price side qty) (newOrder order tid price side qty).
Proof. unfold newOrder. agree. Qed.
Lemma agree_cancelOrder order : agree (cancelOrder order) (cancelOrder order).
Proof. unfold cancelOrder. agree. Qed.
Hint Resolve agree_newOrder agree_cancelOrder : agree.
Lemma agree_moveOrder order tid price side qty :
  agree (moveOrder order tid price side qty) (moveOrder order tid price side qty).
Proof. unfold moveOrder. agree. Qed.
Hint Resolve agree_moveOrder : agree.
Lemma agree_om_run c : agree (om_run c) (om_run c).
Proof. destruct c; unfold om_run, moveOrders, onOrderUpdate; agree. Qed.

Lemma agree_for_each (cs : list om_call) : agree (for_each om_run cs) (for_each om_run cs).
Proof. induction cs as [|c cs IH]; cbn [for_each]; [apply agree_ret|]. apply agree_bind; [apply agree_om_run|done]. Qed.

(** Test mode is faithful.  Whatever quotes and responses a test feeds the
    order manager of a captured engine, the requests [getSentRequests] returns,
    and the orders it shows, are those of the real engine fed the same - which
    may only stop earlier, on a full queue. *)
Theorem test_mode_faithful (cs : list om_call) e t : mirrors e t →
  (∃ msg, for_each om_run cs e = Err (Fatal msg)) ∨
  match for_each om_run cs t with
  | Ok (_, t') => ∃ e', for_each om_run cs e = Ok (tt, e') ∧
      holds e' (getSentRequests t') ∧ lget om_of e' = t_order_manager t'
  | Err f => for_each om_run cs e = Err f
  end.
Proof.
  intros H. destruct (agree_for_each cs e t H) as [Hf|Hr]; [by left|right].
  destruct (for_each om_run cs t) as [[[] t']|f]; [|done].
  destruct Hr as (e' & Hrun & [Ho _ _ Hs]). exists e'. by split.
Qed.
End faithful.

(** A fresh engine of each constructor, with one configuration: the production
    queue holds what the test captures, in order. *)
Corollary production_sends_what_tests_see `{Cfg : Config, Dbl : Double} cid rq rs ups cfg_map n (cs : list om_call) t' :
  q_rep rq n [] →
  for_each om_run cs (setClientIdForTest cid (TestEngine_new cfg_map)) = Ok (tt, t') →
  (∃ msg, for_each om_run cs (TradeEngine_new cid rq rs ups cfg_map) = Err (Fatal msg)) ∨
  ∃ e', for_each om_run cs (TradeEngine_new cid rq rs ups cfg_map) = Ok (tt, e') ∧
    (∃ k, q_rep (outgoing_requests_ e') k (getSentRequests t')) ∧ order_manager_ e' = t_order_manager t'.
Proof.
  intros Hq Ht. pose proof (test_mode_faithful cs (TradeEngine_new cid rq rs ups cfg_map)
    (setClientIdForTest cid (TestEngine_new cfg_map))) as H. rewrite Ht in H. apply H.
  split; [done..|by exists n].
Qed.
