(* ===== verification/TradingMain.v ===== *)
(** The trading client's main program (trading/trading_main.cpp): its command
    line, the strategy it plugs into the engine, and the random driver.

    [atof] and [rand] are the C library's: how a decimal is rounded to a
    double, and the sequence of pseudo-random numbers, are arguments. *)

From S2P Require Import Prelude CLib Types Doubles LFQueue PositionKeeper RiskManager OrderManager FeatureEngine TradeEngine TradeEngineProps.

(** ** The C library *)

Definition RAND_MAX : Z := 2 ^ 31 - 1.

Section main.
Context `{Cfg : Config, Dbl : Double}.
Context (atof : string → double).

(** ** The command line *)

Definition default_cfg : TradeEngineCfg Dbl :=
  mkTradeEngineCfg 1 (dof 0) (mkRiskCfg 100 1000 (dof (-10000))).

(** The configuration a 5-tuple gives. *)
Definition parse_tuple (clip threshold max_order_size max_position max_loss : string) : res (TradeEngineCfg Dbl) :=
  clip ← atoi clip;
  max_order_size ← atoi max_order_size;
  max_position ← atoi max_position;
  Ok (mkTradeEngineCfg (u32 clip) (atof threshold) (mkRiskCfg (u32 max_order_size) (u32 max_position) (atof max_loss))).

(** The loop over the tickers [cfg], with the arguments from [idx] on. *)
Fixpoint parse_tuples (args : list string) (cfg : list (TradeEngineCfg Dbl)) {struct cfg} : res (list (TradeEngineCfg Dbl)) :=
  match cfg, args with
  | _ :: cfg, a0 :: a1 :: a2 :: a3 :: a4 :: args =>
      c ← parse_tuple a0 a1 a2 a3 a4;
      rest ← parse_tuples args cfg;
      Ok (c :: rest)
  | _, _ => Ok cfg
  end.

Definition parseTickerCfgs (argv : list string) : res (list (TradeEngineCfg Dbl)) :=
  parse_tuples (drop 3 argv) (replicate (Z.to_nat ME_MAX_TICKERS) default_cfg).

(** [main], up to the construction of the components: the client id, the
    algorithm and the configuration, or [None] for EXIT_FAILURE. *)
Definition main_setup (argv : list string) : res (option (ClientId * AlgoType * list (TradeEngineCfg Dbl))) :=
  match argv with
  | _ :: a1 :: a2 :: _ =>
      client_id ← atoi a1;
      match stringToAlgoType a2 with
      | ALGO_INVALID => Ok None
      | algo_type =>
          cfg ← parseTickerCfgs argv;
          Ok (Some (u32 client_id, algo_type, cfg))
      end
  | _ => Ok None
  end.

(** The strategy plugged into the engine. *)
Definition main_strategy (algo_type : AlgoType) (cfg : list (TradeEngineCfg Dbl)) : Strategy :=
  match algo_type with
  | MAKER => MarketMaker cfg
  | TAKER => LiquidityTaker cfg
  | RANDOM | ALGO_INVALID | ALGO_MAX => no_strategy
  end.

(** ** The random driver *)

Section driver.
(** The [n]-th value [rand()] returns. *)
Context (rand_at : nat → Z).

Record Driver := mkDriver {
  dr_rands : nat;                     (** calls of [rand()] so far *)
  dr_sent : list MEClientRequest;     (** [sent] *)
  dr_next_oid : OrderId;              (** [next_oid] *)
  dr_out : list MEClientRequest;      (** given to [engine->sendClientRequest] *)
}.

Definition rand : M Driver Z := λ d,
  Ok (rand_at (dr_rands d), mkDriver (S (dr_rands d)) (dr_sent d) (dr_next_oid d) (dr_out d)).
Definition send_request (r : MEClientRequest) : M Driver unit :=
  modify (λ d, mkDriver (dr_rands d) (dr_sent d) (dr_next_oid d) (dr_out d ++ [r])).

(** [x % n] for a zero [n] is undefined. *)
Definition modulo (x n : Z) : M Driver Z := if n =? 0 then fail (UB "division by zero") else mret (x `mod` n).

Definition tickerBasePrice (ticker : TickerId) : Z := u64 (100 * (ticker + 1)).

(** [auto cancel = ...; cancel.type_ = CANCEL]. *)
Definition cancel_of (c : MEClientRequest) : MEClientRequest :=
  mkMEClientRequest ClientRequestType.CANCEL (rq_client_id_ c) (rq_ticker_id_ c) (rq_order_id_ c) (rq_side_ c)
    (rq_price_ c) (rq_qty_ c).

(** One iteration of [runRandomDriver]. *)
Definition driver_iteration (client_id : ClientId) (cfg_map : list (TradeEngineCfg Dbl)) : M Driver unit :=
  x ← rand; t ← modulo x ME_MAX_TICKERS;
  x ← rand; let s := if Z.land x 1 =? 0 then Side.SELL else Side.BUY in
  x ← rand; let p := u64 (tickerBasePrice t + x `mod` 5) in
  match cfg_map !! Z.to_nat t with
  | None => fail (UB "cfg_map out of range")
  | Some cfg =>
      x ← rand; m ← modulo x (max_order_size_ (risk_cfg_ cfg));
      let q := u32 (1 + m) in
      oid ← gets dr_next_oid;
      let req := mkMEClientRequest ClientRequestType.NEW client_id t oid s p q in
      modify (λ d, mkDriver (dr_rands d) (dr_sent d) (u64 (oid + 1)) (dr_out d));;
      send_request req;;
      modify (λ d, mkDriver (dr_rands d) (dr_sent d ++ [req]) (dr_next_oid d) (dr_out d));;
      x ← rand;
      sent ← gets dr_sent;
      if negb (bool_decide (sent = [])) && (x `mod` 4 =? 0) then
        x ← rand; i ← modulo x (Z.of_nat (length sent));
        match sent !! Z.to_nat i with
        | Some c => send_request (cancel_of c)
        | None => fail (UB "sent out of range")
        end
      else mret tt
  end.

(** [n] iterations, fewer than [kIterations] when the shutdown flag is seen. *)
Definition kIterations : nat := 1000.
Fixpoint driver_loop (n : nat) (client_id : ClientId) (cfg_map : list (TradeEngineCfg Dbl)) : M Driver unit :=
  match n with
  | O => mret tt
  | S n => driver_iteration client_id cfg_map;; driver_loop n client_id cfg_map
  end.
Definition runRandomDriver (iterations_before_shutdown : nat) (client_id : ClientId) (cfg_map : list (TradeEngineCfg Dbl))
  : M Driver unit := driver_loop (Nat.min kIterations iterations_before_shutdown) client_id cfg_map.

Definition driver_start : Driver := mkDriver 0 [] 1 [].
End driver.

(** ** What the command line configures *)

(** [args] from the command line give ticker [t] the configuration [c]. *)
Definition configured (args : list string) (t : nat) (c : TradeEngineCfg Dbl) : Prop :=
  match drop (5 * t) args with
  | a0 :: a1 :: a2 :: a3 :: a4 :: _ => parse_tuple a0 a1 a2 a3 a4 = Ok c
  | _ => c = default_cfg
  end.

Lemma parse_tuples_spec n : ∀ args cfg,
  parse_tuples args (replicate n default_cfg) = Ok cfg →
  length cfg = n ∧ ∀ t c, cfg !! t = Some c → configured args t c.
Proof.
  induction n as [|n IH]; intros args cfg; cbn [replicate parse_tuples]; [intros [= <-]; by split|].
  assert (Hdef : ∀ args : list string, (length args < 5)%nat → ∀ t c, replicate (S n) default_cfg !! t = Some c → configured args t c).
  { intros l Hl t c [-> _]%lookup_replicate. unfold configured.
    destruct (drop (5 * t) l) as [|? [|? [|? [|? [|? ?]]]]] eqn:E; try done.
    apply (f_equal length) in E. rewrite length_drop in E. cbn [length] in E. lia. }
  destruct args as [|a0 [|a1 [|a2 [|a3 [|a4 args]]]]];
    try (intros [= <-]; split; [by rewrite length_cons, length_replicate|]; intros t c Ht; by apply Hdef; [cbn; lia|]).
  destruct (parse_tuple a0 a1 a2 a3 a4) as [c0|] eqn:E0; [|done]. cbn [mbind res_bind].
  destruct (parse_tuples args (replicate n default_cfg)) as [rest|] eqn:Er; [|done]. cbn [mbind res_bind]. intros [= <-].
  destruct (IH _ _ Er) as [Hl Ht]. split; [cbn; lia|]. intros [|t] c; [by intros [= <-]|].
  intros Hc. specialize (Ht t c Hc). unfold configured in *.
  replace (5 * S t)%nat with (S (S (S (S (S (5 * t)))))) by lia. exact Ht.
Qed.

(** What the limits of the engine ask of one ticker. *)
Definition sane_cfg (c : TradeEngineCfg Dbl) : Prop :=
  0 < clip_ c ∧ 0 ≤ max_position_ (risk_cfg_ c) < 2 ^ 30 ∧ 0 ≤ max_order_size_ (risk_cfg_ c) < 2 ^ 30.

(** The command line configures the tickers.  Every ticker gets the
    configuration of its five arguments, or the default one; and when the
    sizes given are positive and below 2^30, the strategy and the limits it
    runs with are those for which the engine is proved to stay within its
    limits. *)
Theorem command_line_configures argv client_id algo_type cfg :
  main_setup argv = Ok (Some (client_id, algo_type, cfg)) →
  length cfg = Z.to_nat ME_MAX_TICKERS ∧
  (∀ t c, cfg !! t = Some c → configured (drop 3 argv) t c) ∧
  ((∀ t c, (t < Z.to_nat ME_MAX_TICKERS)%nat → configured (drop 3 argv) t c → sane_cfg c) →
     limits_ok cfg ∧ StrategyOk (main_strategy algo_type cfg)).
Proof.
  intros Hm. assert (Hp : parseTickerCfgs argv = Ok cfg).
  { revert Hm. unfold main_setup. destruct argv as [|a0 [|a1 [|a2 args]]]; try done.
    destruct (atoi a1) as [cid|]; [|done]. cbn [mbind res_bind].
    destruct (stringToAlgoType a2); try done; destruct (parseTickerCfgs _); try done; cbn [mbind res_bind]; by intros [= _ _ <-]. }
  apply parse_tuples_spec in Hp as [Hl Hc]. split; [done|]. split; [done|]. intros Hs.
  assert (Hall : ∀ tid, 0 ≤ tid < ME_MAX_TICKERS → ∃ c, cfg !! Z.to_nat tid = Some c ∧ sane_cfg c).
  { intros tid Ht. destruct (lookup_lt_is_Some_2 cfg (Z.to_nat tid)) as [c Ec]; [lia|]. exists c. split; [done|].
    apply (Hs (Z.to_nat tid)); [lia|]. by apply Hc. }
  assert (Hok : cfg_ok cfg) by (intros tid Ht; destruct (Hall tid Ht) as (c & ? & ? & _); by exists c).
  split; [intros tid Ht; destruct (Hall tid Ht) as (c & ? & _ & ?); by exists c|].
  destruct algo_type; cbn [main_strategy]; auto using no_strategy_ok, MarketMaker_ok, LiquidityTaker_ok.
Qed.

(** ** What the driver sends *)

Section driver_spec.
Context (rand_at : nat → Z) (Hrand : ∀ n, 0 ≤ rand_at n ≤ RAND_MAX).
Context (client_id : ClientId) (cfg : list (TradeEngineCfg Dbl)).
Context (Htickers : 1 ≤ ME_MAX_TICKERS < 2 ^ 32) (Hlen : length cfg = Z.to_nat ME_MAX_TICKERS).

(** A NEW order of the driver, within the size limit of its ticker. *)
Definition driver_order (r : MEClientRequest) : Prop :=
  rq_type_ r = ClientRequestType.NEW ∧ rq_client_id_ r = client_id ∧ 0 ≤ rq_ticker_id_ r < ME_MAX_TICKERS ∧
  (rq_side_ r = Side.BUY ∨ rq_side_ r = Side.SELL) ∧
  100 * (rq_ticker_id_ r + 1) ≤ rq_price_ r < 100 * (rq_ticker_id_ r + 1) + 5 ∧
  ∃ c, cfg !! Z.to_nat (rq_ticker_id_ r) = Some c ∧ 1 ≤ rq_qty_ r ≤ max_order_size_ (risk_cfg_ c).

Lemma rand_Ok d : rand rand_at d = Ok (rand_at (dr_rands d), mkDriver (S (dr_rands d)) (dr_sent d) (dr_next_oid d) (dr_out d)).
Proof. done. Qed.
Lemma modulo_Ok x n d : n ≠ 0 → modulo x n d = Ok (x `mod` n, d).
Proof. intros Hn. unfold modulo. by rewrite (proj2 (Z.eqb_neq _ _)). Qed.

Lemma iteration_spec d :
  (∀ c, c ∈ cfg → 0 < max_order_size_ (risk_cfg_ c) < 2 ^ 32) →
  ∃ d' r, driver_iteration rand_at client_id cfg d = Ok (tt, d') ∧ driver_order r ∧ rq_order_id_ r = dr_next_oid d ∧
    dr_sent d' = dr_sent d ++ [r] ∧ dr_next_oid d' = u64 (dr_next_oid d + 1) ∧
    (dr_out d' = dr_out d ++ [r] ∨ ∃ c, c ∈ dr_sent d' ∧ dr_out d' = dr_out d ++ [r; cancel_of c]).
Proof using Hrand Hlen Htickers.
  intros Hsize. unfold driver_iteration. assert (Ht0 : ME_MAX_TICKERS ≠ 0) by lia.
  rewrite (bind_Ok _ _ _ _ _ (rand_Ok d)), (bind_Ok _ _ _ _ _ (modulo_Ok _ _ _ Ht0)).
  set (t := _ `mod` ME_MAX_TICKERS). assert (Ht : 0 ≤ t < ME_MAX_TICKERS) by (apply Z.mod_pos_bound; lia).
  rewrite (bind_Ok _ _ _ _ _ (rand_Ok _)). cbn [dr_rands dr_sent dr_next_oid dr_out].
  set (s := if _ =? 0 then Side.SELL else Side.BUY).
  rewrite (bind_Ok _ _ _ _ _ (rand_Ok _)). cbn [dr_rands dr_sent dr_next_oid dr_out].
  set (x5 := rand_at (S (S (dr_rands d))) `mod` 5). assert (H5 : 0 ≤ x5 < 5) by (apply Z.mod_pos_bound; lia).
  assert (Hp : u64 (tickerBasePrice t + x5) = 100 * (t + 1) + x5).
  { unfold tickerBasePrice. rewrite !u64_id; unfold is_u64; [done|lia|rewrite u64_id; unfold is_u64; lia]. }
  rewrite Hp. destruct (lookup_lt_is_Some_2 cfg (Z.to_nat t)) as [c Ec]; [lia|]. rewrite Ec.
  specialize (Hsize c (list_elem_of_lookup_2 _ _ _ Ec)). assert (Hm0 : max_order_size_ (risk_cfg_ c) ≠ 0) by lia.
  rewrite (bind_Ok _ _ _ _ _ (rand_Ok _)), (bind_Ok _ _ _ _ _ (modulo_Ok _ _ _ Hm0)). cbn [dr_rands dr_sent dr_next_oid dr_out].
  set (m := _ `mod` max_order_size_ _). assert (Hm : 0 ≤ m < max_order_size_ (risk_cfg_ c)) by (apply Z.mod_pos_bound; lia).
  rewrite (u32_id (1 + m)) by (unfold is_u32; lia). rewrite bind_gets, !bind_modify. unfold send_request. rewrite !bind_modify.
  cbn [dr_rands dr_sent dr_next_oid dr_out]. set (r := mkMEClientRequest _ _ _ _ _ _ _).
  assert (Hr : driver_order r).
  { split_and!; try done; cbn [rq_ticker_id_ rq_price_ rq_side_ rq_qty_ r]; try lia; [unfold s; destruct (_ =? 0); auto|].
    exists c. split; [done|lia]. }
  rewrite (bind_Ok _ _ _ _ _ (rand_Ok _)), bind_gets. cbn [dr_rands dr_sent dr_next_oid dr_out].
  destruct (negb _ && _).
  - assert (Hl0 : Z.of_nat (length (dr_sent d ++ [r])) ≠ 0) by (rewrite length_app; cbn; lia).
    rewrite (bind_Ok _ _ _ _ _ (rand_Ok _)), (bind_Ok _ _ _ _ _ (modulo_Ok _ _ _ Hl0)).
    cbn [dr_rands dr_sent dr_next_oid dr_out]. set (i := _ `mod` _).
    assert (Hi : 0 ≤ i < Z.of_nat (length (dr_sent d ++ [r]))) by (apply Z.mod_pos_bound; rewrite length_app; cbn; lia).
    destruct (lookup_lt_is_Some_2 (dr_sent d ++ [r]) (Z.to_nat i)) as [c' Ec']; [lia|]. rewrite Ec'.
    eexists _, r. split; [done|]. split_and!; try done. right. exists c'. cbn [dr_sent dr_out].
    split; [by eapply list_elem_of_lookup_2|]. by rewrite <- (assoc (++)).
  - eexists _, r. split; [done|]. split_and!; try done. by left.
Qed.

(** The NEW orders of [out] are [sent], and a CANCEL follows the order it names. *)
Record driver_ok (n : nat) (d : Driver) : Prop := {
  dro_sent : Forall driver_order (dr_sent d);
  dro_ids : rq_order_id_ <$> dr_sent d = seqZ 1 (Z.of_nat n);
  dro_next : dr_next_oid d = Z.of_nat n + 1;
  dro_new : filter (λ r, rq_type_ r = ClientRequestType.NEW) (dr_out d) = dr_sent d;
  dro_cancel : ∀ l1 r l2, dr_out d = l1 ++ r :: l2 → rq_type_ r ≠ ClientRequestType.NEW → ∃ c, c ∈ l1 ∧ driver_order c ∧ r = cancel_of c;
}.

Lemma driver_step n d : (∀ c, c ∈ cfg → 0 < max_order_size_ (risk_cfg_ c) < 2 ^ 32) → Z.of_nat n < 2 ^ 32 →
  driver_ok n d → ∃ d', driver_iteration rand_at client_id cfg d = Ok (tt, d') ∧ driver_ok (S n) d'.
Proof using Hrand Hlen Htickers.
  intros Hsize Hn [H1 H2 H3 H4 H5]. destruct (iteration_spec d Hsize) as (d' & r & E & Hr & Hid & Es & En & Ho).
  exists d'. split; [done|]. pose proof Hr as [Ht _].
  assert (Hs : Forall driver_order (dr_sent d')) by (rewrite Es; by apply Forall_app_2, Forall_singleton).
  assert (Hlast : ∀ k l1 x l2, dr_out d ++ k = l1 ++ x :: l2 → rq_type_ x ≠ ClientRequestType.NEW →
    (∃ c, c ∈ l1 ∧ driver_order c ∧ x = cancel_of c) ∨ ∃ k1, l1 = dr_out d ++ k1 ∧ k = k1 ++ x :: l2).
  { intros k l1 x l2 E1 Hx. apply app_eq_inv in E1 as [(k1 & E1 & Ek)|(k1 & -> & Ek)]; [|right; by exists k1].
    destruct k1 as [|y k1]; cbn in Ek.
    - right. exists []. rewrite app_nil_r in E1 |- *. by subst.
    - injection Ek as <- ->. left. by apply (H5 l1 x k1). }
  split; [done| |rewrite En, H3; unfold u64; rewrite Z.mod_small; lia| |].
  - rewrite Es, fmap_app, H2. cbn. rewrite Hid, H3. replace (Z.of_nat (S n)) with (Z.of_nat n + 1) by lia.
    rewrite seqZ_app by lia. f_equal. change (seqZ (1 + Z.of_nat n) 1) with [0 + (1 + Z.of_nat n)]. f_equal. lia.
  - rewrite Es. destruct Ho as [-> |(c & _ & ->)]; rewrite filter_app, H4; f_equal; rewrite filter_cons_True by done; [done|].
    by rewrite filter_cons_False by done.
  - intros l1 x l2 E1 Hx. destruct Ho as [Eo|(c & Hc & Eo)]; rewrite Eo in E1;
      (destruct (Hlast _ _ _ _ E1 Hx) as [?|(k1 & -> & Ek)]; [done|]).
    + destruct k1 as [|? [|? ?]]; injection Ek as; [congruence|done..].
    + destruct k1 as [|y [|z k1]]; injection Ek as; [congruence| |by destruct k1]. subst y x.
      exists c. split_and!; [|by eapply Forall_forall in Hs|done].
      rewrite Es in Hc. rewrite <- H4 in Hc. apply elem_of_app in Hc as [Hc|Hc].
      * apply list_elem_of_filter in Hc as [_ Hc]. by apply elem_of_app; left.
      * apply list_elem_of_singleton in Hc as ->. apply elem_of_app; right. by left.
Qed.

Lemma driver_loop_ok k : ∀ n d, (∀ c, c ∈ cfg → 0 < max_order_size_ (risk_cfg_ c) < 2 ^ 32) → Z.of_nat (n + k) < 2 ^ 32 →
  driver_ok n d → ∃ d', driver_loop rand_at k client_id cfg d = Ok (tt, d') ∧ driver_ok (n + k) d'.
Proof using Hrand Hlen Htickers.
  induction k as [|k IH]; intros n d Hsize Hn Hd; cbn [driver_loop].
  - exists d. by rewrite Nat.add_0_r.
  - destruct (driver_step n d Hsize) as (d1 & E1 & Hd1); [lia|done|]. rewrite (bind_Ok _ _ _ _ _ E1).
    replace (n + S k)%nat with (S n + k)%nat by lia. apply IH; [done|lia|done].
Qed.

(** The random driver sends valid orders, or divides by zero.  For any
    values of [rand()], as many iterations as it makes send as many new
    orders, their ids 1, 2, 3, ..., each on a configured ticker with a side, a
    price near the ticker's base and a size its limit allows; every cancel
    repeats an order sent before.  That takes size limits that are not zero:
    on the command line that makes one zero, the first order of the ticker
    divides by it. *)
Theorem random_driver_orders k :
  ((∀ c, c ∈ cfg → 0 < max_order_size_ (risk_cfg_ c) < 2 ^ 32) →
     ∃ d, runRandomDriver rand_at k client_id cfg driver_start = Ok (tt, d) ∧ driver_ok (Nat.min kIterations k) d) ∧
  ((∀ c, c ∈ cfg → max_order_size_ (risk_cfg_ c) = 0) → (0 < k)%nat →
     runRandomDriver rand_at k client_id cfg driver_start = Err (UB "division by zero")).
Proof using Hrand Hlen Htickers.
  split.
  - intros Hsize. unfold runRandomDriver.
    assert (H0 : driver_ok 0 driver_start) by (split; [by apply Forall_nil|done..|by intros [|? ?]]).
    destruct (driver_loop_ok (Nat.min kIterations k) 0 driver_start Hsize) as (d & E & Hd); [unfold kIterations; lia|done|]. by exists d.
  - intros Hzero Hk. unfold runRandomDriver. destruct (Nat.min kIterations k) as [|m] eqn:Em; [unfold kIterations in Em; lia|].
    cbn [driver_loop]. apply bind_Err. unfold driver_iteration. assert (Ht0 : ME_MAX_TICKERS ≠ 0) by lia.
    rewrite (bind_Ok _ _ _ _ _ (rand_Ok _)), (bind_Ok _ _ _ _ _ (modulo_Ok _ _ _ Ht0)).
    rewrite !(bind_Ok _ _ _ _ _ (rand_Ok _)). set (t := _ `mod` ME_MAX_TICKERS).
    assert (Ht : 0 ≤ t < ME_MAX_TICKERS) by (apply Z.mod_pos_bound; lia).
    destruct (lookup_lt_is_Some_2 cfg (Z.to_nat t)) as [c Ec]; [lia|]. rewrite Ec.
    rewrite !(bind_Ok _ _ _ _ _ (rand_Ok _)). apply bind_Err. unfold modulo.
    by rewrite (Hzero c (list_elem_of_lookup_2 _ _ _ Ec)).
Qed.
End driver_spec.
End main.
