(* ===== verification/TradingMainLife.v ===== *)
(** The life of the trading client (trading/trading_main.cpp, from the
    construction of the components to the end of [main]).

    The engine, the gateway and the consumer loop on a thread each; the strategy
    has none, its callbacks run on the engine's.  The engine's turn is that of
    TradeEngine.v.  The gateway's takes the requests and brings any responses,
    the consumer's brings any updates: what else they do is in OrderGateway.v
    and MarketDataConsumer.v.  The random driver runs on the main thread, in one
    step. *)

From stdpp Require Import finite.
From S2P Require Import Prelude Lifecycle Types Doubles LFQueue PositionKeeper RiskManager OrderManager FeatureEngine.
From S2P Require Import ExchangeCore TradeEngine TradingMain.

Inductive TComp := TEngine | TGateway | TConsumer | TStrategy.
#[export] Instance TComp_eq_dec : EqDecision TComp.
Proof. solve_decision. Defined.
#[export] Program Instance TComp_finite : Finite TComp := {| enum := [TEngine; TGateway; TConsumer; TStrategy] |}.
Next Obligation. by apply (bool_decide_unpack _). Qed.
Next Obligation. intros []; by apply (bool_decide_unpack _). Qed.

Section client.
Context `{Cfg : Config, Dbl : Double}.
(** The C library: [atof], the values of [rand()]; and when the driver sees
    Ctrl+C. *)
Context (atof : string → double) (rand_at : nat → Z) (iterations_before_shutdown : nat).

Record Client := mkClient {
  t_engine : TradeEngine;
  t_life : Life TComp;
  g_shutdown : bool;
  t_algo_type : AlgoType;
  t_cfg : list (TradeEngineCfg Dbl);
}.

Local Abbreviation MC := (M Client).
Definition engine_of : lens Client TradeEngine :=
  Lens t_engine (λ v c, mkClient v (t_life c) (g_shutdown c) (t_algo_type c) (t_cfg c)).
Definition life_of : lens Client (Life TComp) :=
  Lens t_life (λ v c, mkClient (t_engine c) v (g_shutdown c) (t_algo_type c) (t_cfg c)).

(** *** The script of [main] *)

Definition start_engine : list (Action TComp) := [Start TEngine].
Definition start_gateway : list (Action TComp) := [Start TGateway].
Definition start_consumer : list (Action TComp) := [Start TConsumer].
Definition stop_engine : list (Action TComp) := [Stop TEngine].
Definition stop_gateway : list (Action TComp) := [Stop TGateway].
Definition stop_consumer : list (Action TComp) := [Stop TConsumer].
Definition delete_engine : list (Action TComp) := stop_engine ++ [Sleep [TEngine]; Free TEngine].
Definition delete_gateway : list (Action TComp) := stop_gateway ++ [Sleep [TGateway]; Free TGateway].
Definition delete_consumer : list (Action TComp) := stop_consumer ++ [Sleep [TConsumer]; Free TConsumer].

(** The switch on the algorithm. *)
Definition plug_in (algo_type : AlgoType) : list (Action TComp) :=
  match algo_type with
  | MAKER | TAKER => [New TStrategy]
  | RANDOM => [Work]
  | ALGO_INVALID | ALGO_MAX => []
  end.
(** [delete] of a null pointer does nothing. *)
Definition delete_strategy (algo_type : AlgoType) : list (Action TComp) :=
  match algo_type with MAKER | TAKER => [Free TStrategy] | _ => [] end.

Definition startup : list (Action TComp) :=
  New TEngine :: start_engine ++ New TGateway :: start_gateway ++ New TConsumer :: start_consumer.
Definition teardown (algo_type : AlgoType) : list (Action TComp) :=
  Await Drained :: stop_engine ++ stop_consumer ++ stop_gateway ++ [Sleep [TEngine; TConsumer; TGateway]] ++
  delete_strategy algo_type ++ delete_engine ++ delete_consumer ++ delete_gateway.
Definition script (algo_type : AlgoType) : list (Action TComp) :=
  startup ++ plug_in algo_type ++ [Await Shutdown] ++ teardown algo_type.

(** The engine's callbacks hold the strategy. *)
Definition uses (c : TComp) : list TComp := match c with TEngine => [TStrategy] | _ => [] end.

Definition Client_new (client_id : ClientId) (algo_type : AlgoType) (cfg : list (TradeEngineCfg Dbl)) : res Client :=
  client_requests ← LFQueue_new ME_MAX_CLIENT_UPDATES;
  client_responses ← LFQueue_new ME_MAX_CLIENT_UPDATES;
  market_updates ← LFQueue_new ME_MAX_MARKET_UPDATES;
  Ok (mkClient (TradeEngine_new client_id client_requests client_responses market_updates cfg)
        (life_new (script algo_type)) false algo_type cfg).

(** [main] with its command line; [None] for EXIT_FAILURE. *)
Definition client_main (argv : list string) : res (option Client) :=
  r ← main_setup atof argv;
  match r with
  | None => Ok None
  | Some (client_id, algo_type, cfg) => c ← Client_new client_id algo_type cfg; Ok (Some c)
  end.

Definition ready (w : Waiting) (c : Client) : bool :=
  match w with
  | Shutdown => g_shutdown c
  | Drained =>
      (LFQueue.size (incoming_responses_ (t_engine c)) =? 0) &&
      (LFQueue.size (incoming_market_updates_ (t_engine c)) =? 0)
  end.

(** The random driver's requests go to the engine's queue. *)
Definition random_driver : MC unit :=
  cfg ← gets t_cfg;
  client_id ← gets (λ c, client_id_ (t_engine c));
  '(_, d) ← lift (runRandomDriver rand_at iterations_before_shutdown client_id cfg driver_start);
  zoom engine_of (for_each te_sendClientRequest (dr_out d)).
Definition effect (a : Action TComp) : MC unit := match a with Work => random_driver | _ => mret tt end.

(** *** The threads *)

(** The engine's turn, with the strategy installed so far. *)
Definition engine_turn : MC unit :=
  l ← gets t_life;
  algo_type ← gets t_algo_type;
  cfg ← gets t_cfg;
  let strategy := if decide (memory l TStrategy = Unborn) then no_strategy else main_strategy algo_type cfg in
  zoom engine_of (te_run_once (Strat := strategy)).

(** The gateway takes the requests and brings [resps]. *)
Definition gateway_turn (resps : list MEClientResponse) : MC unit :=
  q ← gets (λ c, outgoing_requests_ (t_engine c));
  '(_, q) ← lift (drain_queue (Z.to_nat (LFQueue.size q)) q);
  zoom engine_of (modify (set_te_requests q));;
  q ← gets (λ c, incoming_responses_ (t_engine c));
  q ← lift (push_all resps q);
  zoom engine_of (modify (set_te_responses q)).

Definition consumer_turn (upds : list MEMarketUpdate) : MC unit :=
  q ← gets (λ c, incoming_market_updates_ (t_engine c));
  q ← lift (push_all upds q);
  zoom engine_of (modify (set_te_updates q)).

Inductive ClientEvent :=
  | CSignal | CMain | CEngine | CGateway (resps : list MEClientResponse) | CConsumer (upds : list MEMarketUpdate).
Definition is_main (ev : ClientEvent) : bool := match ev with CMain => true | _ => false end.

(** Ctrl+C. *)
Definition signal_handler : MC unit :=
  modify (λ c, mkClient (t_engine c) (t_life c) true (t_algo_type c) (t_cfg c)).

Definition exec (ev : ClientEvent) : MC unit :=
  match ev with
  | CSignal => signal_handler
  | CMain => main_step life_of ready effect
  | CEngine => loop_step life_of uses TEngine engine_turn
  | CGateway resps => loop_step life_of uses TGateway (gateway_turn resps)
  | CConsumer upds => loop_step life_of uses TConsumer (consumer_turn upds)
  end.

(** *** What a run touches exists *)

Lemma scripts_safe algo_type : script_safe (script algo_type) uses = true.
Proof. by destruct algo_type; vm_compute. Qed.

Definition client_inv (c : Client) : Prop := ∃ k, life (script (t_algo_type c)) k (t_life c).

(** What [client_inv] is about. *)
Definition lives (c : Client) : Life TComp * AlgoType := (t_life c, t_algo_type c).

Lemma engine_turn_keeps : keeps lives engine_turn.
Proof. unfold engine_turn. keeps. Qed.
Lemma gateway_turn_keeps resps : keeps lives (gateway_turn resps).
Proof. unfold gateway_turn. keeps. Qed.
Lemma consumer_turn_keeps upds : keeps lives (consumer_turn upds).
Proof. unfold consumer_turn. keeps. Qed.
Lemma effect_keeps a : keeps lives (effect a).
Proof. destruct a; cbn; unfold random_driver; keeps. Qed.

(** The fault of a turn or of the random driver. *)
Inductive turn_fault (f : fault) : Prop :=
  | EngineFault c : engine_turn c = Err f → turn_fault f
  | GatewayFault c resps : gateway_turn resps c = Err f → turn_fault f
  | ConsumerFault c upds : consumer_turn upds c = Err f → turn_fault f
  | MainFault c a : effect a c = Err f → turn_fault f.

Definition goes_on (r : res (unit * Client)) : Prop :=
  match r with Ok (_, c) => client_inv c | Err f => turn_fault f end.

Lemma loop_step_goes_on d turn c :
  keeps lives turn → (∀ c f, turn c = Err f → turn_fault f) → client_inv c → goes_on (loop_step life_of uses d turn c).
Proof.
  intros Hk Hf [k Hl]. rewrite (loop_step_safe (script (t_algo_type c)) uses life_of k) by (apply scripts_safe || done).
  destruct (looping _ d) eqn:Hd; [|by exists k]. destruct (decide _) as [E|E].
  - exists k. apply life_thread; [done..|]. by destruct (run_flag _ _).
  - destruct (turn c) as [[[] c1]|f] eqn:Et.
    + rewrite (bind_Ok _ _ _ _ _ Et). injection (Hk _ _ _ Et) as El Ea. exists k. cbn. rewrite El, Ea. by apply life_thread.
    + rewrite (bind_Err _ _ _ _ Et). by apply (Hf c).
Qed.

Lemma main_step_goes_on c :
  client_inv c → awaited (t_life c) → goes_on (main_step life_of ready effect c).
Proof.
  intros [k Hl] Haw. rewrite (main_step_cases (script (t_algo_type c)) life_of k) by done.
  destruct (script _ !! k) as [a|] eqn:Ha; [|by exists k].
  destruct (match a with Await w => ready w c | _ => true end); [|by exists k].
  destruct (effect a c) as [[[] c1]|f] eqn:Ee.
  - rewrite (bind_Ok _ _ _ _ _ Ee). injection (effect_keeps _ _ _ _ Ee) as El Ea. exists (S k).
    cbn [life_of lget lset t_life t_algo_type]. rewrite El, Ea. by apply life_step.
  - rewrite (bind_Err _ _ _ _ Ee). by eapply MainFault.
Qed.

Lemma exec_goes_on ev c :
  client_inv c → (is_main ev = true → awaited (t_life c)) → goes_on (exec ev c).
Proof.
  intros Hi Haw. destruct ev as [| | |resps|upds]; cbn [exec].
  - exact Hi.
  - by apply main_step_goes_on, Haw.
  - apply loop_step_goes_on; [apply engine_turn_keeps| |done]. intros c1 f. by apply EngineFault.
  - apply loop_step_goes_on; [apply gateway_turn_keeps| |done]. intros c1 f. by apply GatewayFault.
  - apply loop_step_goes_on; [apply consumer_turn_keeps| |done]. intros c1 f. by apply ConsumerFault.
Qed.

Lemma run_goes_on evs : ∀ c,
  client_inv c → timely life_of exec is_main evs c → goes_on (for_each exec evs c).
Proof.
  induction evs as [|ev evs IH]; intros c Hi; [done|]. cbn [for_each timely]. intros [Haw Ht].
  pose proof (exec_goes_on ev c Hi Haw) as He. destruct (exec ev c) as [[[] c1]|f] eqn:E.
  - rewrite (bind_Ok _ _ _ _ _ E). by apply IH.
  - by rewrite (bind_Err _ _ _ _ E).
Qed.

(** The client from its command line to the end of [main], its threads taking
    their steps in any order, Ctrl+C at any time, and whatever the gateway and
    the consumer bring.  Provided the sleeps last until the threads they wait
    for have left their loops: at every moment, whatever a looping thread uses
    (the engine's, the strategy too) has not been deleted, and the run stops
    short only by the fault of a turn of its own; when [main] has returned the
    three threads have exited and everything is deleted. *)
Theorem client_threads_safe argv evs c0 :
  client_main argv = Ok (Some c0) → timely life_of exec is_main evs c0 →
  match for_each exec evs c0 with
  | Ok (_, c) =>
      (∀ d, looping (t_life c) d = true → dangling uses (t_life c) d = false) ∧
      (main_script (t_life c) = [] →
       (∀ d, d ≠ TStrategy → thread (t_life c) d = Exited ∧ memory (t_life c) d = Freed) ∧
       memory (t_life c) TStrategy ≠ Alive)
  | Err f => turn_fault f
  end.
Proof.
  intros Hmain Ht. assert (Hi : client_inv c0).
  { unfold client_main, mbind, res_bind in Hmain. destruct (main_setup atof argv) as [[[[cid algo] cfg]|]|]; try done.
    destruct (Client_new cid algo cfg) as [c|] eqn:Ec; [|done]. injection Hmain as ->.
    unfold Client_new, mbind, res_bind in Ec. do 3 (destruct (LFQueue_new _) as [?|]; [|done]). injection Ec as <-.
    exists 0%nat. apply life_init. }
  pose proof (run_goes_on evs c0 Hi Ht) as Hrun. destruct (for_each exec evs c0) as [[[] c]|f]; [|done].
  destruct Hrun as [k Hl]. split; [intros d Hd; eapply life_alive; [apply scripts_safe|done|done]|].
  intros Hm. split.
  - intros d Hd. destruct (life_end _ k _ d Hl Hm) as [He ->].
    destruct d; try done; destruct (t_algo_type c); (split; [by apply He|done]).
  - destruct (life_end _ k _ TStrategy Hl Hm) as [_ ->]. destruct (t_algo_type c); by vm_compute.
Qed.
End client.
