(* ===== verification/ClientView.v ===== *)
(** What one client sees of the exchange.

    The responses the reference auction sends a client while it processes a
    request, its own or another's, are steps of [exchange], the relation of
    OrderSession.v that moves the client's requests in flight and its resting
    orders: [process_exchanges].  The resting orders are those of the client in
    the books, up to their order ([shows]). *)

From S2P Require Import Prelude Types LevelBook LevelBookRep MEOrder OrderBookSpec OrderBookInv OrderBookProps MEOrderBook MEOrderBookRefines MatchingEngine Doubles PositionKeeper RiskManager OrderManager OrderSession.

Section view.
Context `{Cfg : Config, !ConfigOk Cfg} (cid : ClientId).
Implicit Types (o : MEOrder) (os : list MEOrder) (s : SBook) (live W : list working) (q : MEClientRequest) (reqs : list MEClientRequest).

(** The responses that are for the client. *)
Definition own_responses (rs : list MEClientResponse) : list MEClientResponse :=
  filter (λ r, rs_client_id_ r = cid) rs.

(** The client's orders among [os], as it knows them. *)
Definition working_of (tid : TickerId) os : list working :=
  (λ o, mkWorking (tid, o_side_ o) (client_order_id_ o) (qty_ o)) <$> filter (λ o, client_id_ o = cid) os.

(** The resting orders of the client are those in the books. *)
Definition shows (books : gmap Z SBook) live : Prop :=
  ∀ tid, filter (λ w, (w_key w).1 = tid) live ≡ₚ working_of tid (book_orders (s_book tid books)).

Inductive exchanges : list MEClientRequest → list working → list MEClientRequest → list working →
    list MEClientResponse → Prop :=
  | xs_nil reqs live : exchanges reqs live reqs live []
  | xs_cons reqs live reqs1 live1 r reqs2 live2 rs :
      exchange reqs live reqs1 live1 r → exchanges reqs1 live1 reqs2 live2 rs → exchanges reqs live reqs2 live2 (r :: rs).

Lemma exchanges_app reqs live reqs1 live1 rs reqs2 live2 rs' :
  exchanges reqs live reqs1 live1 rs → exchanges reqs1 live1 reqs2 live2 rs' → exchanges reqs live reqs2 live2 (rs ++ rs').
Proof. induction 1; intros; [done|]. cbn. eapply xs_cons; eauto. Qed.
Lemma exchanges_one reqs live reqs1 live1 r : exchange reqs live reqs1 live1 r → exchanges reqs live reqs1 live1 [r].
Proof. intros. eapply xs_cons; [done|]. apply xs_nil. Qed.

Lemma own_responses_app rs rs' : own_responses (rs ++ rs') = own_responses rs ++ own_responses rs'.
Proof. apply filter_app. Qed.

(** [to reqs live W reqs' W' rs]: from any list of resting orders [W], some
    exchange steps sending [rs] lead to one of [W']. *)
Definition leads reqs W reqs' W' rs : Prop :=
  ∀ live, live ≡ₚ W → ∃ live', exchanges reqs live reqs' live' rs ∧ live' ≡ₚ W'.

Lemma leads_nil reqs W : leads reqs W reqs W [].
Proof. intros live Hl. exists live. split; [apply xs_nil|done]. Qed.
Lemma leads_app reqs W reqs1 W1 rs reqs2 W2 rs' :
  leads reqs W reqs1 W1 rs → leads reqs1 W1 reqs2 W2 rs' → leads reqs W reqs2 W2 (rs ++ rs').
Proof.
  intros H1 H2 live Hl. destruct (H1 live Hl) as (live1 & Hx1 & Hl1). destruct (H2 live1 Hl1) as (live2 & Hx2 & Hl2).
  exists live2. split; [by eapply exchanges_app|done].
Qed.
Lemma leads_perm reqs W V reqs' W' V' rs : W ≡ₚ V → W' ≡ₚ V' → leads reqs W reqs' W' rs → leads reqs V reqs' V' rs.
Proof.
  intros HW HW' H live Hl. destruct (H live) as (live' & Hx & Hl'); [by rewrite HW|]. exists live'. split; [done|by rewrite <- HW'].
Qed.

Definition left_working (w : working) (n : Qty) : list working :=
  if decide (w_leaves w = n) then [] else [mkWorking (w_key w) (w_oid w) (w_leaves w - n)].

Lemma leads_trade reqs w W n r :
  0 < n ≤ w_leaves w → about ClientResponseType.FILLED (w_key w) r → rs_exec_qty_ r = n →
  rs_leaves_qty_ r = w_leaves w - n → leads reqs (w :: W) reqs (left_working w n ++ W) [r].
Proof.
  intros Hn Hr He Hv live Hl. destruct (list_elem_of_split live w) as (l1 & l2 & ->); [rewrite Hl; by left|].
  exists (l1 ++ left_working w n ++ l2). split.
  - apply exchanges_one. by eapply ex_trade.
  - rewrite <- Permutation_middle in Hl. apply Permutation_cons_inv in Hl. rewrite <- Hl.
    apply Permutation_app_swap_app.
Qed.
Lemma leads_cancel q reqs w W r :
  rq_type_ q = ClientRequestType.CANCEL → (w_key w).1 = rq_ticker_id_ q → w_oid w = rq_order_id_ q →
  about ClientResponseType.CANCELED (w_key w) r → leads (q :: reqs) (w :: W) reqs W [r].
Proof.
  intros Hq Hk Ho Hr live Hl. destruct (list_elem_of_split live w) as (l1 & l2 & ->); [rewrite Hl; by left|].
  exists (l1 ++ l2). split.
  - apply exchanges_one. by eapply ex_cancel.
  - rewrite <- Permutation_middle in Hl. by apply Permutation_cons_inv in Hl.
Qed.
Lemma leads_same q reqs W r : (∀ live, exchange (q :: reqs) live reqs live r) → leads (q :: reqs) W reqs W [r].
Proof. intros H live Hl. exists live. split; [by apply exchanges_one|done]. Qed.

Lemma working_of_app tid os os' : working_of tid (os ++ os') = working_of tid os ++ working_of tid os'.
Proof. unfold working_of. by rewrite filter_app, fmap_app. Qed.
Lemma working_of_cons tid o os :
  working_of tid (o :: os) = working_of tid [o] ++ working_of tid os.
Proof. apply (working_of_app tid [o]). Qed.
#[global] Instance working_of_perm tid : Proper ((≡ₚ) ==> (≡ₚ)) (working_of tid).
Proof. intros os os' Hp. unfold working_of. by rewrite Hp. Qed.
Lemma working_one tid o : working_of tid [o] =
  if decide (client_id_ o = cid) then [mkWorking (tid, o_side_ o) (client_order_id_ o) (qty_ o)] else [].
Proof. unfold working_of. rewrite filter_cons, filter_nil. by case_decide. Qed.

(** ** The sweep *)

Section sweep.
Context (a : Aggressor) (reqs : list MEClientRequest).

(** What is left of the aggressor, if it is the client's. *)
Definition aggressor_working (leaves : Qty) : list working :=
  if decide (ag_client a = cid ∧ 0 < leaves)
  then [mkWorking (ag_ticker a, ag_side a) (ag_oid a) leaves] else [].

Lemma own_fill o leaves :
  own_responses (responses (fill_events a o leaves)) =
  let fill := leaves `min` qty_ o in
  (if decide (ag_client a = cid)
   then [aggressor_fill (ag_client a) (ag_oid a) (ag_ticker a) (ag_side a) (ag_moid a) (o_price_ o) fill (leaves - fill)] else []) ++
  (if decide (client_id_ o = cid) then [passive_fill (ag_ticker a) (set_qty (qty_ o - fill) o) fill] else []).
Proof.
  cbv zeta. unfold own_responses, fill_events, responses. cbn [omap list_omap].
  rewrite !filter_cons, filter_nil. cbn [rs_client_id_ aggressor_fill passive_fill client_id_ set_qty].
  by repeat case_decide.
Qed.

(** The aggressor's side of a fill. *)
Lemma aggressor_leads o leaves fill W :
  0 < fill ≤ leaves →
  leads reqs (aggressor_working leaves ++ W) reqs (aggressor_working (leaves - fill) ++ W)
    (if decide (ag_client a = cid)
     then [aggressor_fill (ag_client a) (ag_oid a) (ag_ticker a) (ag_side a) (ag_moid a) (o_price_ o) fill (leaves - fill)] else []).
Proof.
  intros Hf. unfold aggressor_working. destruct (decide (ag_client a = cid)) as [Ec|Ec]; [|rewrite !decide_False by tauto; apply leads_nil].
  rewrite (decide_True _ _ (conj Ec (Z.lt_le_trans _ _ _ (proj1 Hf) (proj2 Hf)))).
  eapply leads_perm; [reflexivity| |]; [|apply (leads_trade reqs (mkWorking (ag_ticker a, ag_side a) (ag_oid a) leaves) W fill); try done].
  unfold left_working. cbn [w_leaves w_key w_oid]. repeat case_decide; try done; lia.
Qed.

(** The passive side. *)
Lemma passive_leads o fill W :
  0 < fill ≤ qty_ o →
  leads reqs (working_of (ag_ticker a) [o] ++ W) reqs
    (working_of (ag_ticker a) (if qty_ o =? fill then [] else [set_qty (qty_ o - fill) o]) ++ W)
    (if decide (client_id_ o = cid) then [passive_fill (ag_ticker a) (set_qty (qty_ o - fill) o) fill] else []).
Proof.
  intros Hf. rewrite working_one. case_decide as Ec.
  - eapply leads_perm; [reflexivity| |]; [|apply (leads_trade reqs (mkWorking (ag_ticker a, o_side_ o) (client_order_id_ o) (qty_ o)) W fill); try done].
    unfold left_working. cbn [w_leaves w_key w_oid]. case Z.eqb_spec; intros.
    + by rewrite decide_True.
    + rewrite decide_False by done. rewrite working_one. cbn [client_id_ set_qty o_side_ client_order_id_ qty_]. by rewrite decide_True.
  - case Z.eqb_spec; intros; [apply leads_nil|]. rewrite working_one. cbn [client_id_ set_qty].
    rewrite decide_False by done. apply leads_nil.
Qed.

Lemma fill_leads o leaves W :
  0 < leaves → 0 < qty_ o →
  let fill := leaves `min` qty_ o in
  leads reqs (aggressor_working leaves ++ working_of (ag_ticker a) [o] ++ W) reqs
    (aggressor_working (leaves - fill) ++ working_of (ag_ticker a) (if qty_ o =? fill then [] else [set_qty (qty_ o - fill) o]) ++ W)
    (own_responses (responses (fill_events a o leaves))).
Proof.
  intros Hl Ho fill. rewrite own_fill. fold fill. cbv zeta. eapply leads_app; [apply (aggressor_leads o _ fill); lia|].
  eapply leads_perm; [apply Permutation_app_swap_app|apply Permutation_app_swap_app|].
  apply passive_leads. lia.
Qed.

Lemma fill_orders_leads os : ∀ leaves ev os' lv W,
  Forall (λ o, 0 < qty_ o) os → 0 ≤ leaves → fill_orders a leaves os = (ev, os', lv) →
  leads reqs (aggressor_working leaves ++ working_of (ag_ticker a) os ++ W) reqs
    (aggressor_working lv ++ working_of (ag_ticker a) os' ++ W) (own_responses (responses ev)) ∧ 0 ≤ lv.
Proof.
  induction os as [|o os IH]; intros leaves ev os' lv W Hp Hl E; cbn [fill_orders] in E.
  - simplify_eq. split; [apply leads_nil|done].
  - apply Forall_cons in Hp as [Ho Hp]. revert E. case Z.leb_spec; intros Hlv E; [simplify_eq; split; [apply leads_nil|done]|].
    pose proof (fill_leads o leaves (working_of (ag_ticker a) os ++ W) ltac:(lia) Ho) as Hf. cbv zeta in Hf.
    rewrite working_of_cons, <- (assoc (++)). revert E. case Z.leb_spec; intros Hq E.
    + destruct (fill_orders a (leaves - qty_ o) os) as [[ev1 os1] lv1] eqn:E1. simplify_eq.
      rewrite Z.min_r, Z.eqb_refl in Hf by lia. rewrite responses_app, own_responses_app.
      assert (0 ≤ leaves - qty_ o) as Hle by lia. destruct (IH _ _ _ _ W Hp Hle E1) as [H1 ?]. split; [|done]. by eapply leads_app.
    + simplify_eq. rewrite Z.min_l, Z.sub_diag in Hf by lia. split; [|done].
      rewrite (proj2 (Z.eqb_neq (qty_ o) leaves)) in Hf by lia.
      by rewrite (working_of_cons _ (set_qty _ o)), <- (assoc (++)).
Qed.

Lemma sweep_leads ls : ∀ leaves ev rest lv W,
  pos_levels ls → 0 ≤ leaves → sweep a leaves ls = (ev, rest, lv) →
  leads reqs (aggressor_working leaves ++ working_of (ag_ticker a) (all_orders ls) ++ W) reqs
    (aggressor_working lv ++ working_of (ag_ticker a) (all_orders rest) ++ W) (own_responses (responses ev)) ∧ 0 ≤ lv.
Proof.
  induction ls as [|l ls IH]; intros leaves ev rest lv W Hp Hl E; cbn in E.
  - simplify_eq. split; [apply leads_nil|done].
  - destruct (_ || _); [simplify_eq; split; [apply leads_nil|done]|].
    apply Forall_cons in Hp as [Hp1 Hp].
    destruct (fill_orders a leaves (l_orders l)) as [[ev1 os] lv1] eqn:E1.
    destruct (fill_orders_leads _ _ _ _ _ (working_of (ag_ticker a) (all_orders ls) ++ W) Hp1 Hl E1) as [H1 Hlv1].
    unfold all_orders in *. rewrite bind_cons, working_of_app, <- (assoc (++)).
    destruct os as [|o os].
    + destruct (sweep a lv1 ls) as [[ev2 rest2] lv2] eqn:E2. simplify_eq.
      rewrite responses_app, own_responses_app. destruct (IH _ _ _ _ W Hp Hlv1 E2) as [H2 ?].
      split; [|done]. eapply leads_app; [exact H1|exact H2].
    + simplify_eq. rewrite bind_cons. cbn [l_orders]. by rewrite working_of_app, <- (assoc (++)).
Qed.
End sweep.

(** ** A request *)

(** The client's requests in flight, before [q] is processed. *)
Definition pending q reqs : list MEClientRequest := if decide (rq_client_id_ q = cid) then q :: reqs else reqs.

Lemma own_one r : own_responses [r] = if decide (rs_client_id_ r = cid) then [r] else [].
Proof. unfold own_responses. by rewrite filter_cons, filter_nil. Qed.

Lemma accepted_leads q moid reqs W :
  rq_type_ q = ClientRequestType.NEW → (rq_client_id_ q = cid → 0 < rq_qty_ q) →
  let a := mkAggressor (rq_client_id_ q) (rq_order_id_ q) (rq_ticker_id_ q) (rq_side_ q) (rq_price_ q) moid in
  leads (pending q reqs) W reqs (aggressor_working a (rq_qty_ q) ++ W)
    (own_responses [accepted (rq_client_id_ q) (rq_order_id_ q) (rq_ticker_id_ q) (rq_side_ q) (rq_price_ q) (rq_qty_ q) moid]).
Proof.
  intros Ht Hq a. unfold pending, aggressor_working. rewrite own_one. cbn [rs_client_id_ accepted a ag_client ag_ticker ag_side ag_oid].
  destruct (decide (rq_client_id_ q = cid)) as [E|E]; [|rewrite decide_False by tauto; apply leads_nil].
  rewrite decide_True by auto. intros live Hl. eexists. split; [apply exchanges_one; by eapply ex_accept|].
  rewrite Hl. apply Permutation_app_comm.
Qed.

Lemma rejected_leads q reqs W :
  rq_type_ q = ClientRequestType.NEW →
  leads (pending q reqs) W reqs W
    (own_responses [rejected (rq_client_id_ q) (rq_order_id_ q) (rq_ticker_id_ q) (rq_side_ q) (rq_price_ q)]).
Proof.
  intros Ht. unfold pending. rewrite own_one. cbn [rs_client_id_ rejected]. case_decide; [|apply leads_nil].
  apply leads_same. intros live. by eapply ex_reject.
Qed.

Lemma add_leads q s reqs W :
  rq_type_ q = ClientRequestType.NEW → (rq_client_id_ q = cid → 0 < rq_qty_ q) → 0 ≤ rq_qty_ q →
  book_wf s → valid_side (rq_side_ q) →
  let tid := rq_ticker_id_ q in
  let r := s_add (rq_client_id_ q) (rq_order_id_ q) tid (rq_side_ q) (rq_price_ q) (rq_qty_ q) s in
  leads (pending q reqs) (working_of tid (book_orders s) ++ W) reqs (working_of tid (book_orders r.2) ++ W)
    (own_responses (responses r.1)).
Proof.
  intros Ht Hq0 Hq Hw Hv tid r. subst r. unfold s_add.
  destruct (negb _); [by apply rejected_leads|].
  pose proof (proj1 (book_wf_side (rq_side_ q) s Hv) Hw) as (_ & Hown & Hoth & _).
  set (a := mkAggressor _ _ _ _ _ _). set (own := s_levels (rq_side_ q) s) in *. set (oth := s_levels (opp (rq_side_ q)) s) in *.
  destruct (sweep a (rq_qty_ q) oth) as [[ev rst] lv] eqn:Es.
  destruct (sweep_leads a reqs oth _ _ _ _ (working_of tid (all_orders own) ++ W) (side_wf_pos _ _ _ Hoth) Hq Es) as [Hs Hlv].
  assert (Hacc := accepted_leads q (s_next s) reqs (working_of tid (book_orders s) ++ W) Ht Hq0). fold a in Hacc. cbv zeta in Hacc.
  assert (Hrun : leads (pending q reqs) (working_of tid (book_orders s) ++ W) reqs
    (aggressor_working a lv ++ working_of tid (all_orders rst) ++ working_of tid (all_orders own) ++ W)
    (own_responses (responses (Resp (accepted (rq_client_id_ q) (rq_order_id_ q) tid (rq_side_ q) (rq_price_ q) (rq_qty_ q) (s_next s)) :: ev)))).
  { change (responses (Resp ?r :: ev)) with ([r] ++ responses ev). rewrite own_responses_app.
    eapply leads_app; [exact Hacc|]. eapply leads_perm; [|reflexivity|exact Hs].
    rewrite (book_orders_perm (rq_side_ q)) by done. fold own oth. rewrite working_of_app, <- (assoc (++)).
    by rewrite (Permutation_app_swap_app (working_of tid (all_orders own))). }
  case Z.ltb_spec; intros Hlt; cbn [fst snd].
  - set (o := mkMEOrder _ _ _ _ _ _ _ _). rewrite responses_app. cbn [responses omap list_omap]. rewrite app_nil_r.
    destruct (s_levels_set (rq_side_ q) (rest (rq_side_ q) o own) rst (u64 (s_next s + 1)) Hv) as (E1 & E2 & _).
    eapply leads_perm; [reflexivity| |exact Hrun].
    rewrite (book_orders_perm (rq_side_ q)), E1, E2 by done. rewrite (rest_orders_perm _ _ _ _ Hown).
    rewrite <- app_comm_cons, working_of_cons, working_of_app, working_one. subst o. cbn [client_id_ o_side_ client_order_id_ qty_].
    unfold aggressor_working. subst a. cbn [ag_client ag_ticker ag_side ag_oid].
    rewrite <- !(assoc (++)). rewrite (Permutation_app_swap_app (working_of tid (all_orders rst))).
    destruct (decide (rq_client_id_ q = cid)); [rewrite decide_True by done|rewrite decide_False by tauto]; done.
  - destruct (s_levels_set (rq_side_ q) own rst (u64 (s_next s + 1)) Hv) as (E1 & E2 & _).
    eapply leads_perm; [reflexivity| |exact Hrun].
    rewrite (book_orders_perm (rq_side_ q)), E1, E2 by done. unfold aggressor_working. rewrite decide_False by lia.
    rewrite working_of_app, <- (assoc (++)). by rewrite (Permutation_app_swap_app (working_of tid (all_orders rst))).
Qed.

Lemma cancel_leads q s reqs W :
  rq_type_ q = ClientRequestType.CANCEL → book_wf s →
  let tid := rq_ticker_id_ q in
  let r := s_cancel (rq_client_id_ q) (rq_order_id_ q) tid s in
  leads (pending q reqs) (working_of tid (book_orders s) ++ W) reqs (working_of tid (book_orders r.2) ++ W)
    (own_responses (responses r.1)).
Proof.
  intros Ht Hw tid. destruct (has_key (rq_client_id_ q, rq_order_id_ q) s) eqn:Ek.
  - destruct (has_key_place _ _ Ek) as (sd & l1 & l & l2 & o1 & o & o2 & Hv & El & Eo & Hk).
    rewrite (s_cancel_hit _ _ _ _ _ _ _ _ _ _ _ Hw Hv El Eo Hk). cbn [fst snd responses omap list_omap].
    injection Hk as Hc Hi. set (os := all_orders l1 ++ (o1 ++ o2) ++ all_orders l2 ++ all_orders (s_levels (opp sd) s)).
    assert (E1 : book_orders s ≡ₚ o :: os).
    { rewrite (book_orders_perm sd) by done. rewrite El. unfold all_orders, os. rewrite bind_app, bind_cons, Eo.
      rewrite <- !(assoc (++)), <- app_comm_cons. by rewrite !Permutation_middle. }
    destruct (s_levels_set sd (l1 ++ keep_level (l_price l) (o1 ++ o2) ++ l2) (s_levels (opp sd) s) (s_next s) Hv) as (E2 & E3 & _).
    assert (E4 : book_orders (s_set sd (l1 ++ keep_level (l_price l) (o1 ++ o2) ++ l2) (s_levels (opp sd) s) (s_next s)) ≡ₚ os).
    { rewrite (book_orders_perm sd), E2, E3 by done. unfold all_orders, os. rewrite !bind_app, keep_level_orders. by rewrite <- !(assoc (++)). }
    rewrite own_one. cbn [rs_client_id_ canceled]. unfold pending.
    eapply leads_perm; [by rewrite E1, working_of_cons|by rewrite E4|]. rewrite working_one, Hc.
    case_decide; [|apply leads_nil]. by apply leads_cancel.
  - rewrite s_cancel_miss by (by rewrite Ek). cbn [fst snd responses omap list_omap].
    rewrite own_one. cbn [rs_client_id_ cancel_rejected]. unfold pending. case_decide; [|apply leads_nil].
    apply leads_same. intros live. by eapply ex_cancel_reject.
Qed.

(** The requests of the client, and of the others. *)
Definition client_request q : Prop :=
  rq_client_id_ q = cid →
    rq_ticker_id_ q < ME_MAX_TICKERS ∧
    (rq_type_ q = ClientRequestType.NEW ∧ 0 < rq_qty_ q ∨ rq_type_ q = ClientRequestType.CANCEL).

Lemma s_reject_leads q reqs W : rq_client_id_ q ≠ cid →
  leads (pending q reqs) W reqs W (own_responses (responses (s_reject q))).
Proof.
  intros Hc. cbn [responses omap list_omap s_reject]. rewrite own_one. cbn [rs_client_id_ rejected].
  unfold pending. rewrite !decide_False by done. apply leads_nil.
Qed.

Lemma process_exchanges q books reqs live :
  (∀ tid s, books !! tid = Some s → book_wf s) → shows books live → client_request q →
  0 ≤ rq_qty_ q → (rq_type_ q = ClientRequestType.NEW → valid_side (rq_side_ q)) →
  ∃ live', exchanges (pending q reqs) live reqs live' (own_responses (responses (s_process q books).1)) ∧
    shows (s_process q books).2 live'.
Proof using All.
  intros Hw Hshow Hcl Hq Hv. unfold s_process. case Z.leb_spec; intros Ht.
  { assert (Hc : rq_client_id_ q ≠ cid) by (intros E; destruct (Hcl E); lia).
    destruct (s_reject_leads q reqs live Hc live) as (live' & Hx & Hl'); [done|]. exists live'. split; [done|].
    intros tid. rewrite Hl'. apply Hshow. }
  set (tid := rq_ticker_id_ q) in *. set (s := s_book tid books).
  assert (Hws : book_wf s).
  { subst s. unfold s_book. destruct (books !! tid) eqn:E; [by eapply Hw|apply empty_book_wf]. }
  set (p := match rq_type_ q with ClientRequestType.NEW => _ | _ => _ end).
  set (W := filter (λ w, ¬ (w_key w).1 = tid) live).
  assert (Hp : leads (pending q reqs) (working_of tid (book_orders s) ++ W) reqs (working_of tid (book_orders p.2) ++ W)
                 (own_responses (responses p.1))).
  { subst p. destruct (rq_type_ q) eqn:Et; try (by apply s_reject_leads; intros E; destruct (Hcl E) as [_ [[? _]|?]]; congruence).
    - apply add_leads; auto. intros E. destruct (Hcl E) as [_ [[_ ?]|?]]; congruence.
    - by apply cancel_leads. }
  destruct p as [ev s']. cbn [fst snd] in *.
  destruct (Hp live) as (live' & Hx & Hl').
  { pose proof (Hshow tid) as Hs. fold s in Hs. rewrite <- Hs. subst W. symmetry. apply filter_app_complement. }
  exists live'. split; [done|]. intros tid'. rewrite Hl', filter_app. unfold s_book. destruct (decide (tid' = tid)) as [->|Hne].
  - rewrite lookup_insert_eq. cbn [default]. rewrite filter_all, (filter_none _ W), app_nil_r; [done| |].
    + apply Forall_forall. intros w Hin. subst W. by apply list_elem_of_filter in Hin as [? _].
    + apply Forall_forall. intros w Hin. unfold working_of in Hin. by apply list_elem_of_fmap in Hin as (o & -> & _).
  - rewrite lookup_insert_ne by done. rewrite filter_none; [|apply Forall_forall; intros w Hin; unfold working_of in Hin;
      apply list_elem_of_fmap in Hin as (o & -> & _); cbn; congruence].
    cbn [app]. subst W. rewrite list_filter_filter_l by (intros w ->; congruence). apply Hshow.
Qed.
End view.
