(* ===== verification/ClosedLoop.v ===== *)
(** The trading engine and the matching engine, together.

    A [loop] is a trading engine, the matching engine it sends its requests
    to, and the responses on their way back; the wires between them are the
    paths of OrderPath.v.  Other clients send the exchange what they like.
    The loop's runs are runs of the client's desk ([loop_inv]): the client's
    orders resting in the books of the matching engine are those the desk has
    working, so its limits hold of the real books. *)

From S2P Require Import Prelude Types LFQueue LevelBook LevelBookRep MEOrder OrderBookSpec OrderBookInv MEOrderBook MEOrderBookMatching MEOrderBookRefines MatchingEngine MatchingEngineRefines Doubles PositionKeeper RiskManager OrderManager OrderSession FeatureEngine TradeEngine TradeEngineProps ClientView.

Section loop.
Context `{Cfg : Config, !ConfigOk Cfg, Dbl : Double}.
Context (cfg : TradeEngineCfgHashMap) {Strat : Strategy} {Hstrat : StrategyOk Strat}.
Context (Hlimits : limits_ok cfg).

Record loop := mkLoop { lp_engine : TradeEngine; lp_exchange : MatchingEngine; lp_wire : list MEClientResponse }.
Implicit Types (e : TradeEngine) (x : MatchingEngine) (l : loop) (d : desk) (r : MEClientResponse) (q : MEClientRequest).

(** No book has used up its market order ids. *)
Definition ids_left x : Prop :=
  ∀ tid b, ticker_order_books_ x !! tid = Some b → next_market_order_id_ b < 2 ^ 64 - 2.

Inductive loop_step : loop → loop → Prop :=
  | lp_update u e e' x rs :
      0 ≤ mu_ticker_id_ u → 0 ≤ next_order_id_ (order_manager_ e) < 2 ^ 64 - 2 →
      handleMarketUpdate u e = Ok (tt, e') →
      loop_step (mkLoop e x rs) (mkLoop e' x rs)
  | lp_response r rs e e' x :
      handleResponse r e = Ok (tt, e') →
      loop_step (mkLoop e x (r :: rs)) (mkLoop e' x rs)
  (** The exchange takes the engine's next request, whose fields are in the
      ranges of their types. *)
  | lp_request q e qu qu' x x' rs :
      peek (outgoing_requests_ e) = (Some q, qu) → pop qu = Ok qu' →
      request_ok q → ids_left x → processClientRequest q x = Ok (tt, x') →
      loop_step (mkLoop e x rs) (mkLoop (set_te_requests qu' e) x' rs)
  | lp_other q e x x' rs :
      rq_client_id_ q ≠ client_id_ e → request_ok q → ids_left x → processClientRequest q x = Ok (tt, x') →
      loop_step (mkLoop e x rs) (mkLoop e x' rs)
  (** A response leaves for its client. *)
  | lp_deliver r e qu qu' x rs :
      peek (outgoing_responses_ x) = (Some r, qu) → pop qu = Ok qu' →
      loop_step (mkLoop e x rs) (mkLoop e (set_responses qu' x) (rs ++ own_responses (client_id_ e) [r]))
  | lp_publish u e qu qu' x rs :
      peek (market_updates_ x) = (Some u, qu) → pop qu = Ok qu' →
      loop_step (mkLoop e x rs) (mkLoop e (set_updates qu' x) rs).

(** *** The desk's requests are the client's *)

Definition requests_of (cid : ClientId) d : Prop := Forall (λ q, rq_client_id_ q = cid) (d_reqs d).

Lemma desk_step_requests cid limit d d' : desk_step cid limit d d' → requests_of cid d → requests_of cid d'.
Proof.
  unfold requests_of. intros Hs Hd. destruct Hs as [d k price qty allowed reqs m _ _ _ _ Hm|d reqs live r Hx|d r rs _]; cbn [move_orders answer d_reqs].
  - apply Forall_app. split; [done|]. revert Hm. unfold s_move, s_new, s_drop. repeat case_match; intros [= <- <-];
      repeat constructor.
  - destruct Hx as [q reqs r E|q reqs r E|q reqs l1 w l2 r E|q reqs r E|]; try done; rewrite E in Hd; by apply Forall_cons in Hd as [_ Hd].
  - done.
Qed.
Lemma desk_steps_requests cid limit d d' : rtc (desk_step cid limit) d d' → requests_of cid d → requests_of cid d'.
Proof. induction 1; [done|]. intros Hd. by eapply IHrtc, desk_step_requests. Qed.

Lemma exchanges_desk cid limit d reqs live rs :
  exchanges (d_reqs d) (d_live d) reqs live rs →
  rtc (desk_step cid limit) d (mkDesk (d_orders d) (d_pos d) reqs live (d_resps d ++ rs)).
Proof.
  intros Hx. remember (d_reqs d) as reqs0 eqn:E1. remember (d_live d) as live0 eqn:E2. revert d E1 E2.
  induction Hx as [|reqs0 live0 reqs1 live1 r reqs2 live2 rs H1 _ IH]; intros d -> ->.
  - rewrite app_nil_r. by destruct d.
  - eapply rtc_l; [by eapply step_exchange|]. specialize (IH (answer reqs1 live1 r d) eq_refl eq_refl).
    cbn [answer d_orders d_pos d_resps] in IH. by rewrite <- (assoc (++)) in IH.
Qed.

(** *** The invariant *)

Record loop_inv (cid : ClientId) (nr nu : Z) l d books resp upd : Prop := {
  lo_client : client_id_ (lp_engine l) = cid;
  lo_desk : ∃ owner, desk_ok (limit_of cfg) owner d;
  lo_reqs : requests_of cid d;
  lo_rep : desk_rep cfg (lp_engine l) d;
  lo_resps : d_resps d = lp_wire l ++ own_responses cid resp;
  lo_shows : shows cid books (d_live d);
  lo_exchange : ∃ N, engine_rep nr nu N (lp_exchange l) books resp upd;
  lo_fits : fits nr resp = true ∧ fits nu upd = true;
}.

(** Taking the head of a queue. *)
Lemma take_spec {T} (q qu qu' : LFQueue T) n (l : list T) v :
  q_rep q n l → peek q = (Some v, qu) → pop qu = Ok qu' → ∃ rest, l = v :: rest ∧ q_rep qu' n rest.
Proof.
  intros Hq Hp Hpop. destruct (peek_spec _ _ _ Hq) as [H1 H2]. rewrite Hp in H1, H2. cbn [fst snd] in *.
  apply pop_spec in H2. destruct l as [|v' rest]; [done|]. injection H1 as ->. destruct H2 as (qu2 & E & Hr).
  exists rest. split; [done|]. rewrite Hpop in E. by injection E as ->.
Qed.

Lemma engine_rep_ids nr nu N x books resp upd :
  engine_rep nr nu N x books resp upd → ids_left x → engine_rep nr nu (2 ^ 64 - 2) x books resp upd.
Proof.
  intros [Hb Hr Hu] Hids. split; try done. intros tid. pose proof (Hb tid) as Ht. pose proof (Hids tid) as Hi.
  destruct (ticker_order_books_ x !! tid) as [b|]; [|by inversion Ht; constructor].
  inversion Ht as [? s Hbs E1 E2|]. constructor. destruct Hbs as (Hrep & Hw & Hn & Hm). split_and!; try done.
  pose proof Hrep as (bids & asks & Hrs). rewrite <- (rs_next _ _ _ _ _ Hrs). specialize (Hi b eq_refl). lia.
Qed.

Lemma engine_rep_wf nr nu N x books resp upd tid s :
  engine_rep nr nu N x books resp upd → books !! tid = Some s → book_wf s.
Proof.
  intros [Hb _ _] Hs. pose proof (Hb tid) as Ht. rewrite Hs in Ht. inversion Ht as [b s' Hbs|]. apply Hbs.
Qed.

(** *** The exchange processes a request *)

Lemma process_inv cid nr nu e x rs d books resp upd q x' reqs e' :
  loop_inv cid nr nu (mkLoop e x rs) d books resp upd →
  request_ok q → ids_left x → processClientRequest q x = Ok (tt, x') →
  client_request cid q → d_reqs d = pending cid q reqs →
  client_id_ e' = cid → (∀ d', d_orders d' = d_orders d → d_pos d' = d_pos d → d_reqs d' = reqs → desk_rep cfg e' d') →
  ∃ d' books' resp' upd', loop_inv cid nr nu (mkLoop e' x' rs) d' books' resp' upd'.
Proof using All.
  intros [Hc [owner Hok] Hrq Hrep Hrs Hsh [N Hx] [Hfr Hfu]] Hq Hids Hrun Hcl Hreqs Hc' Hrep'. cbn [lp_engine lp_exchange lp_wire] in *.
  pose proof (process_spec _ _ _ _ _ _ _ q (engine_rep_ids _ _ _ _ _ _ _ Hx Hids) Hfr Hfu Hq ltac:(lia)) as Hp.
  destruct (process_fits _ _ _ _ _ _); [|destruct Hp as [? Hp]; rewrite Hrun in Hp; discriminate].
  destruct Hp as (x1 & E & Hx' & _). rewrite Hrun in E. injection E as <-.
  destruct Hq as (_ & _ & _ & _ & Hqty & Hside).
  destruct (process_exchanges cid q books reqs (d_live d)) as (live' & Hxs & Hsh');
    [intros tid s; by apply (engine_rep_wf _ _ _ _ _ _ _ _ _ Hx)|done|done|apply Hqty|done|].
  rewrite <- Hreqs in Hxs. pose proof (exchanges_desk cid (limit_of cfg) _ _ _ _ Hxs) as Hsteps.
  eexists _, _, _, _. split; cbn [lp_engine lp_exchange lp_wire].
  - done.
  - by eapply desk_steps_ok.
  - by eapply desk_steps_requests.
  - by apply Hrep'.
  - cbn [d_resps]. rewrite Hrs, own_responses_app, <- (assoc (++)). done.
  - exact Hsh'.
  - by eexists.
  - split; [eapply q_rep_fits, Hx'|eapply q_rep_fits, Hx'].
Qed.

(** The requests of a desk are those the exchange relation covers. *)
Lemma desk_request cid owner d q reqs :
  desk_ok (limit_of cfg) owner d → requests_of cid d → d_reqs d = q :: reqs → client_request cid q.
Proof.
  intros Hok Hr E _. destruct (dk_req _ _ _ Hok q ltac:(rewrite E; by left)) as [Hk [Ht|[Ht _]]]; (split; [apply Hk|]); [left|by right].
  split; [done|]. pose proof (dk_phase _ _ _ Hok _ Hk) as Hp. rewrite E, news_new, decide_True in Hp by done.
  apply phase_new in Hp as (_ & _ & -> & Hpos & _). done.
Qed.

Lemma loop_step_inv cid nr nu l l' d books resp upd :
  loop_inv cid nr nu l d books resp upd → loop_step l l' →
  ∃ d' books' resp' upd', loop_inv cid nr nu l' d' books' resp' upd'.
Proof using All.
  intros Hi Hs. pose proof Hi as [Hc [owner Hok] Hrq Hrep Hrs Hsh [N Hx] [Hfr Hfu]].
  destruct Hs as [u e e' x rs Hu Hn Hrun|r rs e e' x Hrun|q e qu qu' x x' rs Hp Hpop Hq Hids Hrun|q e x x' rs Hne Hq Hids Hrun|
    r e qu qu' x rs Hp Hpop|u e qu qu' x rs Hp Hpop]; cbn [lp_engine lp_exchange lp_wire] in *.
  - rewrite (dr_orders _ _ _ Hrep) in Hn.
    destruct (handleMarketUpdate_desk cfg Hlimits owner e d u e' Hrep Hok Hu Hn Hrun) as (d' & Hst & Hrep' & El & Er & Hc').
    rewrite Hc in Hst. exists d', books, resp, upd. split; cbn [lp_engine lp_exchange lp_wire]; rewrite ?El, ?Er; try done.
    + congruence.
    + by eapply desk_steps_ok.
    + by eapply desk_steps_requests.
    + by exists N.
  - destruct (handleResponse_desk cfg Hlimits owner e d r (rs ++ own_responses cid resp) Hrep Hok Hrs) as (e1 & H1 & Hc' & _ & Hrep').
    rewrite Hrun in H1. injection H1 as <-.
    eexists _, books, resp, upd. split; cbn [lp_engine lp_exchange lp_wire]; [..|done]; try exact Hrep'; try done.
    + congruence.
    + exists owner. by eapply (response_ok cid).
    + by exists N.
  - destruct (dr_reqs _ _ _ Hrep) as [n Hqr].
    destruct (take_spec _ _ _ _ _ _ Hqr Hp Hpop) as (reqs & Ereqs & Hqr').
    apply (process_inv cid nr nu e x rs d books resp upd q x' reqs); try done.
    + by eapply desk_request.
    + unfold pending. unfold requests_of in Hrq. rewrite Ereqs in Hrq. apply Forall_cons in Hrq as [-> _].
      by rewrite decide_True.
    + intros d' E1 E2 E3. destruct Hrep as [Ho [P1 P2 P3 P4] _]. split; cbn; [congruence|rewrite E2; by split|rewrite E3; by exists n].
  - apply (process_inv cid nr nu e x rs d books resp upd q x' (d_reqs d)); try done.
    + intros E. congruence.
    + unfold pending. rewrite decide_False; congruence.
    + intros d' E1 E2 E3. destruct Hrep as [Ho Hpos Hh]. split; rewrite ?E1, ?E2, ?E3; done.
  - pose proof (er_resp _ _ _ _ _ _ _ Hx) as Hqr. destruct (take_spec _ _ _ _ _ _ Hqr Hp Hpop) as (rest & -> & Hqr').
    exists d, books, rest, upd. split; cbn [lp_engine lp_exchange lp_wire]; try done.
    + by exists owner.
    + rewrite Hrs, Hc, <- (assoc (++)). f_equal. by rewrite <- own_responses_app.
    + exists N. destruct Hx. by split.
    + split; [by eapply q_rep_fits|done].
  - pose proof (er_upd _ _ _ _ _ _ _ Hx) as Hqr. destruct (take_spec _ _ _ _ _ _ Hqr Hp Hpop) as (rest & -> & Hqr').
    exists d, books, resp, rest. split; cbn [lp_engine lp_exchange lp_wire]; try done.
    + by exists owner.
    + exists N. destruct Hx. by split.
    + split; [done|by eapply q_rep_fits].
Qed.

Lemma loop_steps_inv cid nr nu l l' d books resp upd :
  loop_inv cid nr nu l d books resp upd → rtc loop_step l l' →
  ∃ d' books' resp' upd', loop_inv cid nr nu l' d' books' resp' upd'.
Proof using All.
  intros Hi Hs. revert d books resp upd Hi. induction Hs as [l|l l1 l2 H1 _ IH]; intros d books resp upd Hi; [by eexists _, _, _, _|].
  destruct (loop_step_inv _ _ _ _ _ _ _ _ _ Hi H1) as (d1 & b1 & r1 & u1 & Hi1). by eapply IH.
Qed.

(** The client's orders on a side of a ticker's book. *)
Definition orders_on cid (k : OKey) (books : gmap Z SBook) : list MEOrder :=
  filter (λ o : MEOrder, MEOrder.client_id_ o = cid ∧ o_side_ o = k.2) (book_orders (s_book k.1 books)).

Lemma shows_orders cid books live k : shows cid books live →
  live_of k live ≡ₚ (λ o : MEOrder, mkWorking k (client_order_id_ o) (qty_ o)) <$> orders_on cid k books.
Proof.
  intros Hs. assert (E : live_of k live = filter (λ w, (w_key w).2 = k.2) (filter (λ w, (w_key w).1 = k.1) live)).
  { unfold live_of. rewrite list_filter_filter. apply list_filter_iff. intros [[a b] i n]. destruct k as [a' b']. cbn. naive_solver. }
  rewrite E, (Hs k.1). unfold working_of, orders_on. destruct k as [t sd]. cbn [fst snd].
  induction (book_orders (s_book t books)) as [|o os IH]; [done|].
  rewrite !filter_cons. destruct (decide (MEOrder.client_id_ o = cid)) as [Ec|Ec]; [|rewrite decide_False by tauto; exact IH].
  rewrite fmap_cons, filter_cons. cbn [w_key snd]. destruct (decide (o_side_ o = sd)) as [<-|Es].
  - rewrite decide_True by done. rewrite fmap_cons. by f_equiv.
  - rewrite decide_False by tauto. exact IH.
Qed.

Lemma sumZ_fmap {A B} (f : B → Z) (g : A → B) (l : list A) : sumZ f (g <$> l) = sumZ (λ a, f (g a)) l.
Proof. induction l as [|a l IH]; [done|]. by rewrite fmap_cons, !sumZ_cons, IH. Qed.

(** C2: the client against the real exchange.  Run a trading engine with any
    of the strategies and the matching engine together, with market data,
    responses, and the requests of any other clients interleaving in any
    order.  Whatever happens, the books of the matching engine hold at most
    one order of the client on a side of a ticker; the engine's position in
    the ticker, even with all its resting orders of one side filled, is
    within the configured limit; and taking the next response never faults. *)
Theorem closed_loop_within_limits cid q_req q_resp q_mu n x_req x_resp x_upd nr nu l :
  q_rep q_req n [] → q_rep x_resp nr [] → q_rep x_upd nu [] →
  rtc loop_step (mkLoop (TradeEngine_new cid q_req q_resp q_mu cfg) (MatchingEngine_new x_req x_resp x_upd) []) l →
  ∃ N books resp upd, engine_rep nr nu N (lp_exchange l) books resp upd ∧
    (∀ tid i, 0 ≤ tid < ME_MAX_TICKERS → position_keeper_ (lp_engine l) !! Z.to_nat tid = Some i →
      let buys := orders_on cid (tid, Side.BUY) books in
      let sells := orders_on cid (tid, Side.SELL) books in
      (length buys ≤ 1)%nat ∧ (length sells ≤ 1)%nat ∧ Z.abs (position_ i) ≤ limit_of cfg tid ∧
      position_ i + sumZ qty_ buys ≤ limit_of cfg tid ∧ - limit_of cfg tid ≤ position_ i - sumZ qty_ sells) ∧
    (∀ r rs, lp_wire l = r :: rs → ∃ e', handleResponse r (lp_engine l) = Ok (tt, e')).
Proof using All.
  intros Hq Hr Hu Hs.
  assert (Hl : ∀ tid, 0 ≤ tid < ME_MAX_TICKERS → 0 ≤ limit_of cfg tid).
  { intros tid Ht. destruct (Hlimits tid Ht) as (c & Ec & ? & _). unfold limit_of. rewrite Ec. lia. }
  destruct (TradeEngine_new_rep cfg cid q_req q_resp q_mu n Hq) as (Hrep & _).
  assert (Hi : loop_inv cid nr nu (mkLoop (TradeEngine_new cid q_req q_resp q_mu cfg) (MatchingEngine_new x_req x_resp x_upd) [])
    desk_new ∅ [] []).
  { split; try done.
    - eexists. by apply desk_new_ok.
    - by apply Forall_nil.
    - intros tid. unfold s_book. by rewrite lookup_empty.
    - exists 1. split; try done. intros tid. cbn. rewrite !lookup_empty. constructor.
    - split; by eapply q_rep_fits. }
  destruct (loop_steps_inv _ _ _ _ _ _ _ _ _ Hi Hs) as (d & books & resp & upd & [Hc [owner Hok] _ Hdr Hrs Hsh [N Hx] _]).
  exists N, books, resp, upd. split; [done|]. destruct (desk_ok_limits _ _ _ Hok) as [H1 H2]. split.
  - intros tid i Ht Hpi buys sells.
    pose proof (shows_orders cid books _ (tid, Side.BUY) Hsh) as HB. pose proof (shows_orders cid books _ (tid, Side.SELL) Hsh) as HS.
    destruct (po_cell _ _ _ (dr_pos _ _ _ Hdr) tid i Ht Hpi) as [-> _]. specialize (H2 tid Ht).
    rewrite (sumZ_perm _ _ _ HB), (sumZ_perm _ _ _ HS), !sumZ_fmap in H2. cbn [w_leaves] in H2.
    pose proof (H1 (tid, Side.BUY) ltac:(split; [done|by left])) as L1. pose proof (H1 (tid, Side.SELL) ltac:(split; [done|by right])) as L2.
    rewrite HB, length_fmap in L1. rewrite HS, length_fmap in L2. by split_and!; try apply H2.
  - intros r rs Ew. rewrite Ew in Hrs. destruct (handleResponse_desk cfg Hlimits owner _ d r _ Hdr Hok Hrs) as (e' & ? & _). by exists e'.
Qed.
End loop.
