(* ===== verification/Quotes.v ===== *)
(** What the market maker quotes (trading/strategy/market_maker.cpp,
    feature_engine.h), with doubles that do not round: around a fair value
    between the best prices, never crossing itself. *)

From S2P Require Import Prelude Types Doubles LFQueue MarketOrderBook PositionKeeper RiskManager OrderManager FeatureEngine TradeEngine.
From Stdlib Require Import QArith Qcanon.
Open Scope Z_scope.

Section quotes.
#[local] Existing Instance exact.
Context `{Cfg : Config}.
Implicit Types (e : TradeEngine) (u : MEMarketUpdate).

Lemma weighted_mid_between bp ap bq aq : 0 ≤ bq → 0 ≤ aq → 0 < bq + aq → bp ≤ ap →
  let fair := ((dof bp * dof aq + dof ap * dof bq) / (dof bq + dof aq))%double in
  dleb (dof bp) fair = true ∧ dleb fair (dof ap) = true.
Proof.
  intros Hb Ha Hs Hp fair. subst fair. rewrite <- !dof_mul, <- !dof_add. cbn [dleb exact ddiv].
  rewrite !bool_decide_eq_true. split; [apply Qcdiv_le_l|apply Qcdiv_le_r]; try (by apply (dof_lt 0)).
  - assert (H : bp * (bq + aq) ≤ bp * aq + ap * bq) by nia. apply dof_le in H. by rewrite (dof_mul bp) in H.
  - assert (H : bp * aq + ap * bq ≤ ap * (bq + aq)) by nia. apply dof_le in H. by rewrite (dof_mul ap) in H.
Qed.

(** A valid, uncrossed best bid and offer with something to trade. *)
Record bbo_ok (bbo : BBO) : Prop := {
  bo_prices : 0 < bid_price_ bbo < ask_price_ bbo;
  bo_ask : ask_price_ bbo < 2 ^ 64 - 2;
  bo_qtys : 0 ≤ bid_qty_ bbo ∧ 0 ≤ ask_qty_ bbo ∧ 0 < bid_qty_ bbo + ask_qty_ bbo;
}.

Lemma bbo_ok_valid bbo : bbo_ok bbo → both_valid bbo = true.
Proof.
  intros [[Hb Ha] Hm _]. unfold both_valid, isValid64, INVALID64.
  rewrite !(proj2 (Z.eqb_neq _ _)) by lia. done.
Qed.

Lemma maker_quotes_passive bbo fair threshold : bbo_ok bbo →
  maker_bid bbo fair threshold = bid_price_ bbo - (if dleb threshold (fair - dof (bid_price_ bbo))%double then 0 else 1) ∧
  maker_ask bbo fair threshold = ask_price_ bbo + (if dleb threshold (dof (ask_price_ bbo) - fair)%double then 0 else 1).
Proof.
  intros [[Hb Ha] Hm _]. unfold maker_bid, maker_ask.
  split; case_match; apply u64_id; unfold is_u64; lia.
Qed.

End quotes.
