(* ===== verification/Witnesses.v ===== *)
(** Concrete instances of the theorems: each shows, on inputs small enough to
    evaluate, that the hypotheses of a theorem can be met together. *)

From S2P Require Import Prelude Types Wire Framing Sockets SocketStream SocketsSafe MemPool.
From S2P Require Import LevelBook LevelBookRep LevelBookOps MEOrder OrderBookSpec OrderBookInv.
From S2P Require Import OrderBookProps MEOrderBook MEOrderBookMatching MEOrderBookRefines.
From S2P Require Import MEOrderBookProps UnorderedMapMEOrderBook.
From S2P Require Import LFQueue FIFOSequencer OrderServer OrderServerRefines OrderServerSafe.
From S2P Require Import MatchingEngine MatchingEngineRefines MarketOrderBook MarketOrderBookRefines.
From S2P Require Import MessageText BookTexts Replication OptMemPool Logging OptLogging.

#[local] Existing Instance small_footprint_profile.
#[local] Existing Instance small_footprint_profile_ok.
#[local] Existing Instance net_small_footprint.

(** Numeric and boolean side conditions. *)
Ltac ok := repeat first [split | constructor]; unfold is_u32, is_u64; try done; try lia.

(** ** One book *)

(** Three resting sells of two clients. *)
Definition market : list request :=
  [New 1 1 0 Side.SELL 100 10; New 2 1 0 Side.SELL 101 5; New 1 2 0 Side.SELL 100 7].
Definition s_market : SBook := (s_session market (mkSBook [] [] 1)).2.

(** Then a cancel, and a buy that fills part of the best order. *)
Definition session : list request := market ++ [Cancel 1 2 0; New 2 7 0 Side.BUY 100 4].

Lemma valid_side_BUY : valid_side Side.BUY.
Proof. by left. Qed.
Lemma valid_side_SELL : valid_side Side.SELL.
Proof. by right. Qed.
#[local] Hint Resolve valid_side_BUY valid_side_SELL : core.

Lemma market_valid : Forall request_valid market.
Proof. repeat constructor; cbn; auto; done. Qed.
Lemma session_valid : Forall request_valid session.
Proof. repeat constructor; cbn; auto; done. Qed.

Lemma market_book : ∃ b, sess_ok 3 b s_market.
Proof.
  destruct (session_ok market 0 _ _ (MEOrderBook_new_sess_ok 0) market_valid) as (b & _ & _ & Hs);
    [done|by exists b].
Qed.

Lemma market_buy : ∃ b b', sess_ok 3 b s_market ∧ add 3 1 0 Side.BUY 101 15 b = Ok (tt, b').
Proof.
  destruct market_book as [b Hs]. pose proof Hs as [Hr Hw _ _].
  pose proof (add_spec b s_market Side.BUY 3 1 0 101 15 Hr Hw valid_side_BUY ltac:(done)) as H.
  cbv zeta in H. rewrite (proj2 (Z.leb_le _ _)) in H by (by vm_compute). destruct H as (b' & Hrun & _). by exists b, b'.
Qed.

(** What the pointer book of that market prints. *)
Example market_prints : ∃ b,
  for_each perform market (MEOrderBook_new 0) = Ok (tt, b) ∧
  MEOrderBook_toString true b = Ok ("MEOrderBook ticker:0
  BIDS:
  ASKS:
    MEOrdersAtPrice[side:SELL price:100 first_order:MEOrder[ticker:0 client:1 client_oid:1 market_oid:1 side:SELL price:100 qty:10 priority:1 prev:3 next:3] prev_entry:101 next_entry:101]
    MEOrdersAtPrice[side:SELL price:101 first_order:MEOrder[ticker:0 client:2 client_oid:1 market_oid:2 side:SELL price:101 qty:5 priority:1 prev:2 next:2] prev_entry:100 next_entry:100]
"%string, b).
Proof. eexists. split; [vm_compute; reflexivity|by vm_compute]. Qed.

Lemma session_keeps_book_witness :
  let '(ev, s) := s_session session (mkSBook [] [] 1) in
  ∃ b, for_each perform session (MEOrderBook_new 0) = Ok (tt, b) ∧
    matching_engine_ b = ev ∧ Represents b s ∧ book_wf s.
Proof. exact (session_keeps_book 0 session session_valid ltac:(done)). Defined.

Lemma add_refines_witness : ∃ b b',
  add 3 1 0 Side.BUY 101 15 b = Ok (tt, b') ∧
  Represents b' (s_add 3 1 0 Side.BUY 101 15 s_market).2.
Proof.
  destruct market_book as [b [Hr Hw _ _]].
  pose proof (add_refines b s_market Side.BUY 3 1 0 101 15 Hr Hw valid_side_BUY ltac:(done)) as H.
  cbv zeta in H. rewrite (proj2 (Z.leb_le _ _)) in H by (by vm_compute). destruct H as (b' & ? & ? & _). by exists b, b'.
Defined.

Lemma cancel_refines_witness : ∃ b b',
  cancel 2 1 0 b = Ok (tt, b') ∧ Represents b' (s_cancel 2 1 0 s_market).2.
Proof.
  destruct market_book as [b [Hr Hw _ _]].
  destruct (cancel_refines b s_market 2 1 0 Hr Hw) as (b' & ? & ? & _). by exists b, b'.
Defined.

Lemma add_price_time_priority_witness : ∃ b b' ev,
  add 3 1 0 Side.BUY 101 15 b = Ok (tt, b') ∧ matching_engine_ b' = matching_engine_ b ++ ev ∧
  passive_fills (aggressor 3 1 0 Side.BUY 101 s_market) ev =
    greedy (aggressor 3 1 0 Side.BUY 101 s_market) 15 (all_orders (s_asks s_market)).
Proof.
  destruct market_buy as (b & b' & [Hr Hw _ _] & Hrun).
  destruct (add_price_time_priority b b' s_market Side.BUY 3 1 0 101 15 Hr Hw valid_side_BUY
    ltac:(done) ltac:(by vm_compute) Hrun) as (ev & He & Hp & _). by exists b, b', ev.
Defined.

Lemma add_conserves_quantity_witness : ∃ b b' ev s',
  add 3 1 0 Side.BUY 101 15 b = Ok (tt, b') ∧ matching_engine_ b' = matching_engine_ b ++ ev ∧
  sumZ qty_ (book_orders s') + 2 * sumZ snd (trades ev) = 22 + 15.
Proof.
  destruct market_buy as (b & b' & [Hr Hw _ _] & Hrun).
  destruct (add_conserves_quantity b b' s_market Side.BUY 3 1 0 101 15 Hr Hw valid_side_BUY
    ltac:(done) ltac:(by vm_compute) Hrun) as (ev & s' & He & _ & Hq & _). by exists b, b', ev, s'.
Defined.

Lemma unordered_map_equivalent_witness : ∃ b u,
  for_each perform session (MEOrderBook_new 0) = Ok (tt, b) ∧
  for_each UnorderedMap.perform session (UnorderedMap.new 0) = Ok (tt, u) ∧
  matching_engine_ u = matching_engine_ b.
Proof.
  destruct (unordered_map_equivalent 0 session session_valid ltac:(done)) as (b & Hb & Hu).
  destruct (session_ok session 0 _ _ (MEOrderBook_new_sess_ok 0) session_valid ltac:(done))
    as (b1 & Hb1 & He & _).
  rewrite Hb in Hb1. injection Hb1 as <-. rewrite He in Hu.
  destruct Hu as (u & H1 & H2); [vm_compute; by repeat constructor|].
  exists b, u. split; [exact Hb|split; [exact H1|]]. rewrite He. exact H2.
Defined.

Lemma feed_replicates_book_witness : ∃ b m,
  for_each perform session (MEOrderBook_new 0) = Ok (tt, b) ∧
  feed (updates (matching_engine_ b)) (MarketOrderBook_new 0) = Ok (tt, m) ∧
  getBBO m = mkBBO Price_INVALID 100 0 6.
Proof.
  destruct (feed_replicates_book 0 session session_valid ltac:(done)) as (b & m & Hb & _ & Hm & _ & Hbbo).
  exists b, m. split; [exact Hb|split; [exact Hm|]]. rewrite Hbbo. by vm_compute.
Defined.

(** ** The matching engine *)

Definition new_sell : MEClientRequest :=
  mkMEClientRequest ClientRequestType.NEW 1 0 1 Side.SELL 100 10.
Definition pill : MEClientRequest :=
  mkMEClientRequest ClientRequestType.SHUTDOWN 0 0 0 Side.INVALID 0 0.

Lemma engine_new : ∃ e, engine_rep 8 8 1 e ∅ [] [] ∧ q_rep (incoming_requests_ e) 8 [new_sell; pill].
Proof.
  destruct (q_rep_new (T := MEClientRequest) 8) as (q & _ & Hq); [done|].
  destruct (q_rep_new (T := MEClientResponse) 8) as (q1 & _ & Hq1); [done|].
  destruct (q_rep_new (T := MEMarketUpdate) 8) as (q2 & _ & Hq2); [done|].
  pose proof (push_all_spec [new_sell; pill] q 8 [] Hq ltac:(done)) as H. cbn in H.
  destruct H as (q' & _ & Hq'). exists (MatchingEngine_new q' q1 q2).
  split; [split; [|exact Hq1|exact Hq2]|exact Hq']. intros tid. cbn. rewrite !lookup_empty. constructor.
Qed.

Lemma new_sell_ok : request_ok new_sell.
Proof. split_and!; cbn; try (unfold is_u32, is_u64; lia); auto. Qed.

Lemma processClientRequest_refines_witness : ∃ e e',
  processClientRequest new_sell e = Ok (tt, e') ∧
  engine_rep 8 8 2 e' (s_process new_sell ∅).2
    (responses (s_process new_sell ∅).1) (updates (s_process new_sell ∅).1).
Proof.
  destruct engine_new as (e & He & _).
  pose proof (processClientRequest_refines 8 8 1 e ∅ [] [] new_sell He eq_refl eq_refl new_sell_ok
    ltac:(done)) as H.
  replace (process_fits 8 8 new_sell ∅ [] []) with true in H by (by vm_compute).
  destruct H as (e' & H1 & H2 & _). exists e, e'. split; [exact H1|exact H2].
Defined.

Lemma run_refines_witness : ∃ e e' N,
  run 2 e = Ok (true, e') ∧ q_rep (incoming_requests_ e') 8 [] ∧
  engine_rep 8 8 N e' (s_process_all [new_sell] ∅).2
    (responses (s_process_all [new_sell] ∅).1) (updates (s_process_all [new_sell] ∅).1).
Proof.
  destruct engine_new as (e & He & Hq).
  assert (Hf : Forall (λ r, request_ok r ∧ ¬ SHUTDOWN_req r) [new_sell]).
  { constructor; [|constructor]. split; [exact new_sell_ok|done]. }
  pose proof (run_refines 8 8 8 pill [] [new_sell] 2 1 e ∅ [] [] eq_refl He eq_refl eq_refl Hq Hf
    ltac:(done) ltac:(done) ltac:(cbn; lia)) as H.
  destruct (s_process_all [new_sell] ∅) as [ev books] eqn:E.
  replace (run_fits 8 8 [new_sell] ∅ [] []) with true in H by (by vm_compute).
  destruct H as (e' & N & H1 & H2 & H3). exists e, e', N. split; [exact H1|split; [exact H3|exact H2]].
Defined.

(** ** The client's book *)

Definition an_add : MEMarketUpdate :=
  mkMEMarketUpdate MarketUpdateType.ADD 0 Side.BUY 99 4 1 1.

Lemma onMarketUpdate_refines_witness : ∃ b,
  onMarketUpdate an_add (MarketOrderBook_new 0) = Ok (tt, b) ∧
  CRepresents b (c_update an_add (mkCBook [] [])) ∧ bbo_ b = mkBBO 99 Price_INVALID 4 0.
Proof.
  destruct (onMarketUpdate_refines an_add (MarketOrderBook_new 0) (mkCBook [] [])
    (MarketOrderBook_new_represents 0) eq_refl) as (b & H1 & H2 & H3).
  - intros _. split; cbn.
    + auto.
    + lia.
    + apply not_elem_of_nil.
    + intros l Hl. by apply not_elem_of_nil in Hl.
    + intros l Hl. by apply not_elem_of_nil in Hl.
    + lia.
  - exists b. split; [exact H1|split; [exact H2|]]. rewrite H3. by vm_compute.
Defined.

Lemma onMarketUpdate_drops_add_witness :
  let u := mkMEMarketUpdate MarketUpdateType.ADD 0 Side.BUY 99 4 ME_MAX_ORDER_IDS 1 in
  onMarketUpdate u (MarketOrderBook_new 0) = Ok (tt, MarketOrderBook_new 0).
Proof.
  intros u. exact (onMarketUpdate_drops_add u (MarketOrderBook_new 0) (mkCBook [] [])
    (MarketOrderBook_new_represents 0) eq_refl (or_introl (Z.le_refl _))).
Defined.

(** ** Queue, pool, wire *)

Lemma lf_concurrent_fifo_witness : ∃ (q : LFQueue Z) s,
  LFQueue_new 4 = Ok q ∧ s_published s = [7] ∧ s_current s = Some 7 ∧
  s_published s !! 0%nat = Some 7 ∧ s_consumed s `prefix_of` s_published s.
Proof.
  destruct (LFQueue_new (T := Z) 4) as [q|] eqn:E; [|vm_compute in E; discriminate E].
  assert (Hreach : ∃ s, rtc lf_step (lf_init q) s ∧ s_published s = [7] ∧ s_current s = Some 7 ∧
    s_consumed s = []).
  { vm_compute in E. injection E as <-. eexists. split.
    - eapply rtc_l; [by apply (step_write _ 7)|].
      eapply rtc_l; [eapply (step_publish _ 7 0); [reflexivity|done|vm_compute; reflexivity]|].
      eapply rtc_l; [by apply (step_read _ 1)|apply rtc_refl].
    - by vm_compute. }
  destruct Hreach as (s & Hr & Hp & Hc & Hn).
  destruct (lf_concurrent_fifo 4 q s E Hr) as (H1 & _ & H3). destruct (H3 7 Hc) as [H4 _].
  rewrite Hn in H4. exists q, s. split; [done|]. split; [exact Hp|]. split; [exact Hc|].
  split; [exact H4|exact H1].
Defined.

Lemma pool_safe_witness : ∃ P1 P2 : MemPool Z,
  pool_ok (mp_new (T := Z) 2) [] ∧ allocate 5 (mp_new (T := Z) 2) = Ok (0, P1) ∧ pool_get P1 0 = 5 ∧
  deallocate 0 P1 = Ok P2 ∧ pool_ok P2 [].
Proof.
  assert (H0 : pool_ok (mp_new (T := Z) 2) []) by (apply mp_new_ok; lia).
  destruct (pool_safe 5 0 (mp_new 2) [] H0) as [Ha _]. cbn in Ha.
  destruct Ha as (j & P1 & H1 & _ & Hok & Hget).
  assert (j = 0) as -> by (vm_compute in H1; congruence).
  destruct (pool_safe 5 0 P1 [0] Hok) as [_ Hd]. rewrite decide_True in Hd by left.
  destruct Hd as (P2 & ps & H2 & Hp & Hok2 & _). apply Permutation_length_1_inv in Hp.
  injection Hp as ->. exists P1, P2. specialize (Hget 0). rewrite decide_True in Hget by done.
  split; [exact H0|split; [exact H1|split; [exact Hget|split; [exact H2|exact Hok2]]]].
Defined.

Definition a_request : OMClientRequest := mkOMClientRequest 1 new_sell.

Lemma a_request_valid : wvalid a_request.
Proof. split; [ok|]. split; cbn; ok. Qed.


Lemma sequenceAndPublish_fair_witness : ∃ s q,
  pending s = [mkRecvTimeClientRequest 9 new_sell 0; mkRecvTimeClientRequest 5 pill 1] ∧
  sequenceAndPublish s = Ok (tt, mkFIFOSequencer q []) ∧ q_rep q 8 [pill; new_sell].
Proof.
  destruct (q_rep_new (T := MEClientRequest) 8) as (q0 & _ & Hq); [done|].
  set (s := mkFIFOSequencer q0 [mkRecvTimeClientRequest 9 new_sell 0; mkRecvTimeClientRequest 5 pill 1]).
  assert (Hw : seq_wf s) by (by split).
  destruct (sequenceAndPublish_fair s 8 [] Hw Hq eq_refl) as (_ & _ & _ & H).
  replace (sorted_requests (pending s)) with
    [mkRecvTimeClientRequest 5 pill 1; mkRecvTimeClientRequest 9 new_sell 0] in H by (by vm_compute).
  cbn in H. destruct H as (q & H1 & H2). exists s, q. split; [done|split; [exact H1|exact H2]].
Defined.

Lemma tcp_stream_integrity_witness :
  let kernel k := match k with O => Sent 2 | _ => SendWouldBlock end in
  let ops := [OpSend [1; 2; 3]; OpFlush kernel; OpSend [4]] in
  ∃ s, for_each sock_do ops (TCPSocket_new 5) = Ok (tt, s) ∧ send_buffer s = [3; 4] ∧
    wire_of ops [] ++ send_buffer s = [1; 2; 3; 4].
Proof.
  intros kernel ops.
  assert (Hrun : for_each sock_do ops (TCPSocket_new 5) = Ok (tt, mkTCPSocket 5 [3; 4] [] false false))
    by (by vm_compute).
  eexists. split; [exact Hrun|]. split; [done|].
  refine (tcp_stream_integrity 5 ops _ _ Hrun eq_refl). repeat constructor.
  intros [|k] n; [intros [= <-]; lia|done].
Defined.

(** ** The order server *)

(** One connected socket, at address 7, with [bytes] received. *)
Definition connected (q1 : LFQueue MEClientRequest) (q2 : LFQueue MEClientResponse) (bytes : list byte)
  : Server OrderServer :=
  mkServer (mkTCPServer {[ 7 := set_rcv_buffer bytes (TCPSocket_new 7) ]} [7] [7] [] [])
    (srv_app (OrderServer_new q1 q2)).

Lemma response_queue : ∃ q : LFQueue MEClientResponse, q_rep q 8 [].
Proof. destruct (q_rep_new (T := MEClientResponse) 8) as (q & _ & Hq); [done|by exists q]. Qed.
Lemma request_queue : ∃ q : LFQueue MEClientRequest, q_rep q 8 [].
Proof. destruct (q_rep_new (T := MEClientRequest) 8) as (q & _ & Hq); [done|by exists q]. Qed.

Lemma new_server_wf q1 q2 : q_rep q2 8 [] → os_wf (srv_app (OrderServer_new q1 q2)).
Proof. intros Hq. apply (oo_wf _ _ (proj2 (OrderServer_new_ok q1 q2 8 Hq))). Qed.

Lemma recv_segmentation_independent_witness : ∃ s,
  (receive 7 0 (take 10 (wput a_request));; receive 7 0 (drop 10 (wput a_request))) s =
    receive 7 0 (wput a_request) s.
Proof.
  destruct response_queue as [q2 Hq2]. destruct request_queue as [q1 _].
  exists (connected q1 q2 []).
  rewrite (recv_segmentation_independent 7 0 (TCPSocket_new 7)).
  - by rewrite take_drop.
  - apply lookup_singleton_eq.
  - constructor.
  - apply Forall_take, wput_bytes.
  - apply Forall_drop, wput_bytes.
  - by apply new_server_wf.
Defined.

Lemma recvCallback_session_witness : ∃ s s' adm,
  recvCallback 7 9 s = Ok (tt, s') ∧ pending_of (srv_app s') = sequenced 9 0 adm ∧
  omrq_seq_num_ <$> of_client 1 adm = consecutive 1 (length (of_client 1 adm)).
Proof.
  destruct response_queue as [q2 Hq2]. destruct request_queue as [q1 _].
  set (s := connected q1 q2 (wput a_request)). pose proof (new_server_wf q1 q2 Hq2) as Hw.
  set (x := set_rcv_buffer (wput a_request) (TCPSocket_new 7)).
  assert (Hx : heap (srv_tcp s) !! 7 = Some x) by apply lookup_singleton_eq.
  assert (Hb : bytes_ok (rcv_buffer x)) by apply wput_bytes.
  pose proof (recvCallback_spec 7 9 x s Hx Hb Hw) as H. cbv zeta in H.
  destruct (admit_all _ _ _) as [adm ss] eqn:E. vm_compute in E. injection E as <- <-.
  replace (_ <=? _) with true in H by (by vm_compute).
  destruct (recvCallback_session 7 9 x s _ Hx Hb Hw H) as (adm & Hp & _ & _ & Hc).
  eexists s, _, adm. split; [exact H|]. split; [exact Hp|]. by apply (Hc 1%nat 1).
Defined.


(** ** The optimised pool *)

Lemma opt_pool_last_block_witness :
  (∃ j Q, opt_allocate true 1 7 (omp_new 2) = Ok (j, Q) ∧ opt_get Q j = 7) ∧
  (∀ fuel, opt_allocate true fuel 7 (omp_new 1) = Err Spin).
Proof.
  destruct (opt_pool_last_block true 7 0 (omp_new 2) [] (omp_new_ok 2 eq_refl)) as [(j & Q & Ha & _ & _ & Hg) _].
  destruct (opt_pool_last_block true 7 0 (omp_new 1) [] (omp_new_ok 1 eq_refl)) as [Hs _].
  split; [|exact Hs]. exists j, Q. split; [apply Ha; cbn; lia|]. rewrite Hg. by rewrite decide_True.
Defined.

(** ** The logger *)

#[local] Instance no_floats : Stream := {| sfloat := unit; sdouble := unit; show_float _ := []; show_double _ := [] |}.

Definition chars (s : string) : text := String.list_ascii_of_string s.
Definition a_call : text * list LogArg := (chars "order % at 100%% of %", [a_int (-42); a_cstr (chars "book")]).

Lemma logger_writes_formatted_witness : ∃ s : log_session,
  stopped s ∧ lg_file s.1 = chars "order -42 at 100% of book".
Proof.
  destruct (q_rep_new (T := LogElement) LOG_QUEUE_SIZE) as (q & Eq & _); [by vm_compute|].
  assert (Hn : Logger_new = Ok (mkLogger q [] true)) by (unfold Logger_new; by rewrite Eq).
  pose proof (rtc_refl logger_step (mkLogger q [] true, (log_calls [a_call]).1)) as Hrefl.
  destruct (logger_writes_formatted [a_call] (chars "order -42 at 100% of book") _ _ eq_refl Hn Hrefl) as (_ & _ & _ & (s & Hs & Hst) & _).
  destruct (logger_writes_formatted [a_call] (chars "order -42 at 100% of book") _ _ eq_refl Hn Hs) as (_ & _ & Hend & _).
  exists s. split; [exact Hst|]. by apply Hend.
Defined.

(** ** Texts *)

Definition a_sequenced_response : OMClientResponse :=
  mkOMClientResponse 7 (mkMEClientResponse ClientResponseType.FILLED 1 0 5 9 Side.SELL 100 4 6).
Definition a_sequenced_update : MDPMarketUpdate :=
  mkMDPMarketUpdate 3 (mkMEMarketUpdate MarketUpdateType.ADD 0 Side.BUY 100 5 9 1).

Lemma message_text_complete_witness :
  MDPMarketUpdate_toString a_sequenced_update =
    "MDPMarketUpdate [seq:3 MEMarketUpdate [type:ADD ticker:0 side:BUY price:100 qty:5 oid:9 priority:1]]".
Proof.
  destruct (message_text_complete a_request a_sequenced_response a_sequenced_update) as (_ & _ & E).
  - apply a_request_valid.
  - split; [ok|]. split; cbn; ok.
  - split; [ok|]. split; cbn; ok.
  - rewrite E. by vm_compute.
Defined.
