(* ===== verification/FeedWitnesses.v ===== *)
(** Concrete instances of the theorems of the market data path. *)

From S2P Require Import Prelude Types Wire Framing LFQueue MemPool.
From S2P Require Import MEOrder OrderBookSpec MatchingEngine MatchingEngineRefines MarketOrderBook MarketOrderBookRefines Replication.
From S2P Require Import Sockets McastSocket MarketDataPublisher MarketDataConsumer MarketDataConsumerProps MarketDataFeed.
From S2P Require Import SnapshotSynthesizer SnapshotImage FeedConsistency ClientMirror Lifecycle ExchangeMain ExchangeMainSafe.

(** Capacities small enough to evaluate whole snapshot cycles. *)
#[local] Instance tiny_profile : Config := {|
  LOG_QUEUE_SIZE := 16; ME_MAX_TICKERS := 2; ME_MAX_CLIENT_UPDATES := 16; ME_MAX_MARKET_UPDATES := 16;
  ME_MAX_NUM_CLIENTS := 4; ME_MAX_ORDER_IDS := 8; ME_MAX_PRICE_LEVELS := 8 |}.
#[local] Instance tiny_profile_ok : ConfigOk tiny_profile.
Proof. by split. Qed.
#[local] Existing Instance net_small_footprint.

(** Two sells and a buy that fills part of the better one: four updates. *)
Definition day : list MEClientRequest :=
  [mkMEClientRequest ClientRequestType.NEW 1 0 1 Side.SELL 100 10;
   mkMEClientRequest ClientRequestType.NEW 1 0 2 Side.SELL 101 5;
   mkMEClientRequest ClientRequestType.NEW 2 0 1 Side.BUY 100 4].
Definition day_updates : list MEMarketUpdate := updates (s_process_all day ∅).1.

Lemma day_ok : Forall request_ok day.
Proof. unfold day. repeat apply Forall_cons_2; try apply Forall_nil_2; split_and!; cbn; unfold is_u32, is_u64, LevelBookRep.valid_side; auto; lia. Qed.

Lemma empty_queue T `{Inhabited T} : ∃ q, LFQueue_new (T := T) 16 = Ok q ∧ q_rep q 16 [].
Proof. by apply q_rep_new. Qed.

(** Update 2 is lost, 3 opens a recovery, one snapshot cycle closes it, with 4
    arriving in between. *)
Definition lossy : list delivery := [Inc 1; Inc 3; Snap 1; Snap 2; Inc 4; Snap 3; Snap 4; Snap 5].

Lemma lossy_ok : Forall (delivery_ok (Z.of_nat (length day_updates))) lossy.
Proof. replace (length day_updates) with 4%nat by (by vm_compute). unfold lossy.
  repeat apply Forall_cons_2; try apply Forall_nil_2; cbn; unfold inc_ok, seq_ok; lia. Qed.

Lemma day_stream_ok :
  stream_ok route no_books (feed_of day_updates) (snap_of day_updates [2%nat]) (Z.of_nat (length day_updates)).
Proof.
  destruct (process_all_views day 1 (λ _, 1) ∅ no_books no_books_views day_ok) as [Hf _]; [by vm_compute|].
  by apply exchange_stream_ok; [exact Hf|vm_compute|repeat constructor; vm_compute; lia].
Qed.




(** ** Publisher, receive loops and synthesizer *)

Lemma publisher : ∃ p us, q_rep (pub_outgoing_md_updates_ p) 16 us ∧ us = day_updates ∧
  q_rep (pub_snapshot_md_updates_ p) 16 [] ∧ next_inc_seq_num_ p = 1 ∧
  send_buffer_ (incremental_socket_ p) = [] ∧ datagrams_ (incremental_socket_ p) = [].
Proof.
  destruct (empty_queue MEMarketUpdate) as (q & _ & Hq). destruct (empty_queue MDPMarketUpdate) as (q2 & _ & Hq2).
  pose proof (push_all_spec day_updates q 16 [] Hq) as H. replace (fits 16 ([] ++ day_updates)) with true in H by (by vm_compute).
  destruct H as (q' & _ & Hq'); [by vm_compute|].
  exists (mkMarketDataPublisher q' q2 (set_mc_fd 3 McastSocket_new) 1), day_updates. by split_and!.
Qed.

Lemma day_numbered : Forall mu_valid day_updates.
Proof.
  assert (∃ us, day_updates = us ∧ Forall mu_valid us) as (us & -> & H); [|done].
  eexists. split; [vm_compute; reflexivity|].
  repeat apply Forall_cons_2; try apply Forall_nil_2; split; cbn; unfold is_u32, is_u64; first [done | lia].
Qed.

Lemma poll_publishes_witness : ∃ p p' runs,
  pub_poll (λ _, (Sent 0, RecvWouldBlock)) p = Ok (tt, p') ∧
  datagrams_ (incremental_socket_ p') = encode <$> runs ∧ mjoin runs = numbered_from 1 day_updates.
Proof.
  destruct publisher as (p & us & Ho & -> & Hs & Hn & Hb & Hd). exists p.
  destruct (poll_publishes 16 16 (λ _, (Sent 0, RecvWouldBlock)) day_updates [] [] 1 p Ho Hs Hn ltac:(done) Hb
    ltac:(by vm_compute) ltac:(by vm_compute)) as (p' & runs & rest & H1 & _ & _ & _ & Hw & _ & _ & Hall & Hall').
  destruct Hall' as [-> _]; [by intros k; eexists|cbn; lia|]. rewrite app_nil_r in Hall.
  exists p', runs. split; [exact H1|]. rewrite Hd in Hw. split; [exact Hw|]. by apply Hall.
Defined.

(** A recovering consumer whose buffer ends with the awaited SNAPSHOT_END. *)
Definition closing (q : LFQueue MEMarketUpdate) : MarketDataConsumer :=
  let s := set_mc_fd 3 McastSocket_new in
  mkMarketDataConsumer q s
    (set_mc_rcv (wput (mkMDPMarketUpdate 5 (end_update 2))) s) 2 true [] false true 4 0.

Lemma recvSnapshot_overruns_witness : ∃ c stale,
  in_recovery_ c = true ∧ recvSnapshot stale c = Err (UB "memcpy from past rcv_buffer_").
Proof.
  destruct (empty_queue MEMarketUpdate) as (q & Eq & Hq). vm_compute in Eq. injection Eq as <-.
  match type of Hq with q_rep ?q _ _ => exists (closing q) end. exists (λ _, inhabitant).
  split; [done|]. rewrite recvSnapshot_overruns; [by vm_compute|by split; vm_compute|done|by vm_compute].
Defined.

Lemma feed_end_to_end_witness : ∃ p c p' c',
  pub_poll (λ _, (Sent 0, RecvWouldBlock)) p = Ok (tt, p') ∧
  for_each (receive 3 true (λ _, inhabitant)) (datagrams_ (incremental_socket_ p')) c = Ok (tt, c') ∧
  q_rep (mdc_outgoing_md_updates_ c') 16 day_updates ∧ in_recovery_ c' = false.
Proof.
  destruct publisher as (p & us & Ho & -> & Hs & Hn & Hb & Hd).
  destruct (empty_queue MEMarketUpdate) as (q & _ & Hq). exists p.
  exists (mkMarketDataConsumer q McastSocket_new McastSocket_new 1 false [] false false 0 0).
  match goal with |- context [for_each _ _ ?c0] => set (c := c0) end.
  destruct (feed_end_to_end 3 true 16 16 16 (λ _, (Sent 0, RecvWouldBlock)) (λ _, inhabitant) day_updates [] 1 p [] c)
    as (p' & c' & H1 & H2 & H3 & _ & H5);
    [by split; vm_compute|by intros k; eexists|exact Ho|exact Hs|exact Hn|done|by vm_compute|exact day_numbered|exact Hb|
     exact Hd|by vm_compute|by vm_compute|by split|by split|by vm_compute|].
  exists p', c'. by split_and!.
Defined.

(** A synthesizer that has applied the four updates of the day. *)
Lemma synthesizer : ∃ s, image_rep ∅ [] s ∧ next_snap_seq_num_ s = 1 ∧ send_buffer_ (snapshot_socket_ s) = [] ∧
  last_inc_seq_num_ s = 0.
Proof.
  destruct (empty_queue MDPMarketUpdate) as (q & _ & Hq).
  exists (mkSnapshotSynthesizer q (set_mc_fd 3 McastSocket_new) ∅ (mp_new ME_MAX_ORDER_IDS) 0 1 0 inhabitant).
  split_and!; try done. split; [|done|by intros k; rewrite !lookup_empty].
  unfold pointers. cbn [ticker_orders_]. rewrite map_to_list_empty. by apply mp_new_ok.
Qed.

Definition an_add : MEMarketUpdate := mkMEMarketUpdate MarketUpdateType.ADD 1 Side.BUY 100 5 3 1.

Lemma addToSnapshot_refines_witness : ∃ s s',
  addToSnapshot (mkMDPMarketUpdate 1 an_add) s = Ok (tt, s') ∧ image_rep {[ (1, 3) := an_add ]} [] s'.
Proof.
  destruct synthesizer as (s & Hi & _). pose proof (addToSnapshot_refines ∅ [] s 1 an_add Hi) as H. cbv zeta in H.
  assert (Hn : ticker_orders_ s = ∅).
  { apply map_empty. intros k. pose proof (im_get _ _ _ Hi k) as Hk. rewrite lookup_empty in Hk.
    by destruct (ticker_orders_ s !! k). }
  unfold in_use in H. rewrite Hn, map_size_empty, lookup_empty in H.
  replace (bool_decide (mu_type_ an_add = MarketUpdateType.ADD) && in_tables an_add) with true in H by (by vm_compute).
  replace (Z.of_nat (length (A := Z) [] + 0) <? ME_MAX_ORDER_IDS) with true in H by (by vm_compute). cbn [negb andb] in H.
  destruct H as (P & T & leaked & H1 & H2 & ->). exists s, (after_update 1 P T s). split; [exact H1|exact H2].
Defined.

Lemma publishSnapshot_cycle_witness : ∃ s s' runs,
  publishSnapshot (λ _, (Sent 0, RecvWouldBlock)) 60 s = Ok (tt, s') ∧
  datagrams_ (snapshot_socket_ s') = datagrams_ (snapshot_socket_ s) ++ (encode <$> runs) ∧
  mjoin runs = numbered_from 1 [clear_update; start_update; end_update 0].
Proof.
  destruct synthesizer as (s & Hi & Hn & Hb & Hl). exists s.
  destruct (publishSnapshot_cycle (λ _, (Sent 0, RecvWouldBlock)) 60 ∅ [] 1 s Hi Hn Hb)
    as (s' & runs & rest & H1 & _ & _ & _ & Hd & _ & _ & Hall & Hr).
  { right. split; [by intros k; eexists|by vm_compute]. }
  exists s', runs. split; [exact H1|]. split; [exact Hd|].
  rewrite (Hr ltac:(by intros k; eexists)), app_nil_r in Hall. rewrite Hall by done. rewrite Hl. by vm_compute.
Defined.

(** ** The life of the exchange *)

(** Start-up, three requests in one turn of the server, Ctrl+C with two of them
    unprocessed, and the whole shutdown. *)
Definition a_day : list Event :=
  replicate 8 EMain ++
  [EServer []; EServer day; EMatcher; EPublisher; EPublisher; ESignal; EMain;
   EMain; EServer []; EMain; EMain;
   EMain; EMatcher; EMatcher; EMatcher; EMain; EMain;
   EMain; EMain; EPublisher; ESynth; EMain; EMain; EMain; EMain; EMain].

Lemma a_day_ok : Forall (λ ev, Forall quiet (event_requests ev)) a_day.
Proof.
  assert (Hd : Forall quiet day).
  { pose proof day_ok as Hd. unfold day in *. rewrite !Forall_cons in Hd |- *. unfold quiet.
    destruct Hd as (? & ? & ? & _). split_and!; done. }
  apply Forall_forall. intros ev Hev. apply elem_of_app in Hev as [Hev|Hev].
  - apply elem_of_replicate in Hev as [-> _]. constructor.
  - rewrite !elem_of_cons in Hev. repeat destruct Hev as [->|Hev];
      first [exact Hd|exact (Forall_nil_2 quiet)|by apply not_elem_of_nil in Hev].
Qed.

Definition main_left (r : res (unit * Exchange)) : list (Action Comp) * list MEClientRequest :=
  match r with Ok (_, x) => (main_script (x_life x), x_published x) | Err _ => ([Sleep []], []) end.

Lemma exchange_shutdown_witness : ∃ x0 x,
  Exchange_new = Ok x0 ∧ for_each exec a_day x0 = Ok (tt, x) ∧ main_script (x_life x) = [] ∧ achieved x day [].
Proof.
  destruct (exchange_shutdown a_day a_day_ok ltac:(by vm_compute)) as (x0 & Hnew & H).
  assert (Ht : timely life_of exec is_main a_day x0) by (vm_compute in Hnew; injection Hnew as <-; vm_compute; repeat (split; [done|]); done).
  assert (Hl : main_left (for_each exec a_day x0) = ([], day)).
  { vm_compute in Hnew. injection Hnew as <-. by vm_compute. }
  specialize (H Ht). destruct (for_each exec a_day x0) as [[[] x]|f] eqn:E; [|done].
  destruct H as (done & pending & Ha & Hend). injection Hl as Hm Hp. destruct (Hend Hm) as [-> _].
  exists x0, x. split; [exact Hnew|split; [exact E|split; [exact Hm|]]].
  pose proof Ha as [Hpub _]. rewrite Hp, app_nil_r in Hpub. rewrite Hpub. exact Ha.
Defined.
