(* ===== verification/TradeWitnesses.v ===== *)
(** Concrete instances of the theorems of the trading client. *)

From S2P Require Import Prelude Types Wire Framing LFQueue Doubles MarketOrderBook PositionKeeper RiskManager OrderManager OrderSession FeatureEngine TradeEngine TradeEngineProps Quotes.
From S2P Require Import MEOrderBook MatchingEngine MatchingEngineRefines ClientView ClosedLoop TradingMain Lifecycle TradingMainLife.
From S2P Require Import Sockets SocketsSafe SocketStream FIFOSequencer OrderServer OrderServerRefines OrderServerSafe OrderGateway OrderPath.

#[local] Instance tiny_client_profile : Config := {|
  LOG_QUEUE_SIZE := 16; ME_MAX_TICKERS := 2; ME_MAX_CLIENT_UPDATES := 16; ME_MAX_MARKET_UPDATES := 16;
  ME_MAX_NUM_CLIENTS := 4; ME_MAX_ORDER_IDS := 8; ME_MAX_PRICE_LEVELS := 8 |}.
#[local] Instance tiny_client_profile_ok : ConfigOk tiny_client_profile.
Proof. by split. Qed.
#[local] Existing Instance net_small_footprint.

Lemma new_queue T `{Inhabited T} : ∃ q, LFQueue_new (T := T) 16 = Ok q ∧ q_rep q 16 [].
Proof. by apply q_rep_new. Qed.

(** ** Accounts *)

Definition a_fill (side : Side.t) (price qty leaves : Z) : MEClientResponse :=
  mkMEClientResponse ClientResponseType.FILLED 1 0 1 1 side price qty leaves.
(** Bought 10 at 100, sold 15 at 104: short 5, quoted 98 at 102. *)
Definition trades : list pnl_event := [Fill (a_fill Side.BUY 100 10 0); Fill (a_fill Side.SELL 104 15 0)].
Definition a_quote : BBO := mkBBO 98 102 5 5.

Lemma pnl_marks_to_market_witness : ∃ i, pnl_run (Dbl := exact) (trades ++ [Quote a_quote]) PositionInfo_new = Ok i ∧
  position_ i = -5 ∧ dadd (Double := exact) (total_pnl_ i) (total_pnl_ i) = dof (Double := exact) (2 * 560 - 5 * 200).
Proof.
  destruct (pnl_marks_to_market trades (Quote a_quote)) as (i & Hr & Hp & _ & Ht).
  - repeat apply Forall_cons_2; try apply Forall_nil_2; (split; [auto|cbn; lia]).
  - intros [|[|[|[|k]]]]; vm_compute; by split.
  - exists i. split; [exact Hr|]. split; [exact Hp|]. rewrite Ht; [reflexivity|by vm_compute..].
Defined.

(** ** The desk *)

Definition buy_key : OKey := (0, Side.BUY).
Definition limit_10 (tid : TickerId) : Z := 10.

Definition a_response (t : ClientResponseType.t) : MEClientResponse :=
  mkMEClientResponse t 1 0 1 1 Side.BUY 100 0 5.

Lemma buy_ok : key_ok buy_key.
Proof. split; [cbn; lia|by left]. Qed.

Definition the_request : MEClientRequest := mkMEClientRequest ClientRequestType.NEW 1 0 1 Side.BUY 100 5.

(** A buy of 5 at 100, sent. *)
Definition sent : list MEClientRequest * OrderManager :=
  s_move 1 true (key_index buy_key) 0 100 Side.BUY 5 OrderManager_new.
Definition desk_sent : desk := move_orders sent.2 sent.1 desk_new.
Definition desk_live : desk := answer [] [mkWorking buy_key 1 5] (a_response ClientResponseType.ACCEPTED) desk_sent.
Definition desk_rejected : desk :=
  let d := answer [] [] (a_response ClientResponseType.INVALID) desk_sent in
  mkDesk (take_response_orders (a_response ClientResponseType.INVALID) (d_orders d)) (d_pos d) [] [] [].

Lemma desk_sent_reachable : rtc (desk_step 1 limit_10) desk_new desk_sent.
Proof.
  apply rtc_once. apply (step_move 1 limit_10 desk_new buy_key 100 5 true sent.1 sent.2); [apply buy_ok|lia|cbn; lia| |reflexivity].
  intros _. unfold limit_10. cbn. lia.
Qed.

Lemma one_order_within_limit_witness : ∃ d, rtc (desk_step 1 limit_10) desk_new d ∧ length (d_live d) = 1%nat ∧
  (length (live_of buy_key (d_live d)) ≤ 1)%nat ∧ d_pos d 0 + sumZ w_leaves (live_of buy_key (d_live d)) ≤ 10.
Proof.
  assert (Hr : rtc (desk_step 1 limit_10) desk_new desk_live).
  { etransitivity; [apply desk_sent_reachable|]. apply rtc_once, step_exchange.
    exact (ex_accept (d_reqs desk_sent) [] the_request [] (a_response ClientResponseType.ACCEPTED) eq_refl eq_refl (conj eq_refl eq_refl)). }
  exists desk_live. split; [exact Hr|]. split; [reflexivity|].
  destruct (one_order_within_limit 1 limit_10 desk_live) as [H1 H2]; [unfold limit_10; lia|exact Hr|].
  split; [apply H1, buy_ok|]. apply (H2 0). cbn. lia.
Defined.


(** ** The engine *)

(** Two tickers, clips of 5, limits of 10. *)
Definition a_cfg (D : Double) : list (TradeEngineCfg D) :=
  let c := mkTradeEngineCfg 5 (dof 0) (mkRiskCfg 5 10 (dof (-1000))) in [c; c].

Lemma a_cfg_at D tid : 0 ≤ tid < ME_MAX_TICKERS →
  a_cfg D !! Z.to_nat tid = Some (mkTradeEngineCfg 5 (dof 0) (mkRiskCfg 5 10 (dof (-1000)))).
Proof.
  change ME_MAX_TICKERS with 2. intros Ht. assert (tid = 0 ∨ tid = 1) as [-> | ->] by lia; reflexivity.
Qed.
Lemma a_cfg_ok D : cfg_ok (a_cfg D).
Proof. intros tid Ht. eexists. split; [by apply a_cfg_at|]. by cbn [clip_]. Qed.
Lemma a_cfg_limits D : limits_ok (a_cfg D).
Proof. intros tid Ht. eexists. split; [by apply a_cfg_at|]. cbn [risk_cfg_ max_position_ max_order_size_]. lia. Qed.

Definition an_add (side : Side.t) (price oid : Z) : MEMarketUpdate :=
  mkMEMarketUpdate MarketUpdateType.ADD 0 side price 5 oid oid.

Definition a_bid := an_add Side.BUY 100 0.
Definition an_ask := an_add Side.SELL 104 1.

(** A market maker that has seen a bid and an offer has quoted both sides. *)
Section session.
#[local] Existing Instance binary64.
#[local] Instance the_strategy : Strategy := MarketMaker (a_cfg binary64).
#[local] Instance the_strategy_ok : StrategyOk the_strategy := MarketMaker_ok _ (a_cfg_ok binary64).

Definition after (u : MEMarketUpdate) (e : TradeEngine) : TradeEngine :=
  match handleMarketUpdate u e with Ok (_, e) => e | Err _ => e end.

Lemma Ok_inj {A} (a b : A) : Ok a = Ok b → a = b.
Proof. by intros [=]. Qed.
Definition runs (u : MEMarketUpdate) (e : TradeEngine) : bool := match handleMarketUpdate u e with Ok _ => true | Err _ => false end.
Lemma after_Ok u e : runs u e = true → handleMarketUpdate u e = Ok (tt, after u e).
Proof. unfold runs, after. by destruct (handleMarketUpdate u e) as [[[] e']|]. Qed.

Lemma engine_within_limits_witness : ∃ s r,
  ts_resps s = [r] ∧ length (ts_live s) = 1%nat ∧ (length (live_of buy_key (ts_live s)) ≤ 1)%nat ∧
  ∃ e', handleResponse r (ts_engine s) = Ok (tt, e').
Proof.
  destruct (new_queue MEClientRequest) as (q & Eq & Hq). vm_compute in Eq. injection Eq as <-.
  destruct (new_queue MEClientResponse) as (q2 & _ & _). destruct (new_queue MEMarketUpdate) as (q3 & _ & _).
  match type of Hq with q_rep ?q _ _ => set (q0 := q) in * end. set (e0 := TradeEngine_new 1 q0 q2 q3 (a_cfg binary64)).
  set (e1 := after a_bid e0). set (e2 := after an_ask e1).
  assert (H1 : handleMarketUpdate a_bid e0 = Ok (tt, e1)) by (apply after_Ok; vm_compute; reflexivity).
  assert (H2 : handleMarketUpdate an_ask e1 = Ok (tt, e2)) by (apply after_Ok; vm_compute; reflexivity).
  pose (rb := mkMEClientRequest ClientRequestType.NEW 1 0 1 Side.BUY 100 5).
  pose (ra := mkMEClientRequest ClientRequestType.NEW 1 0 2 Side.SELL 104 5).
  pose proof (push_all_spec [rb; ra] _ 16 [] Hq eq_refl) as Hp. cbn [fits length app] in Hp.
  replace (fits 16 [rb; ra]) with true in Hp by (by vm_compute). destruct Hp as (q4 & Hp & Hq4).
  assert (q4 = outgoing_requests_ e2) as ->.
  { assert (Hp2 : push_all [rb; ra] (outgoing_requests_ e0) = Ok (outgoing_requests_ e2)) by (vm_compute; reflexivity).
    change (outgoing_requests_ e0) with q0 in Hp2. rewrite Hp in Hp2. exact (Ok_inj _ _ Hp2). }
  destruct (pop_spec _ _ _ Hq4) as (q5 & Hp5 & Hq5).
  pose (r := a_response ClientResponseType.ACCEPTED).
  exists (mkTeSession (set_te_requests q5 e2) [mkWorking buy_key 1 5] [r]), r.
  split; [reflexivity|]. split; [reflexivity|].
  destruct (engine_within_limits (a_cfg binary64) (a_cfg_limits binary64) 1 _ q2 q3 16
    (mkTeSession (set_te_requests q5 e2) [mkWorking buy_key 1 5] [r]) Hq) as (G1 & _ & G3).
  { eapply rtc_l; [apply (te_update a_bid e0 e1); [cbn; lia|vm_compute; by split|exact H1]|].
    eapply rtc_l; [apply (te_update an_ask e1 e2); [cbn; lia|vm_compute; by split|exact H2]|].
    apply rtc_once. apply (te_exchange e2 [] [] 16 [rb; ra] 16 [ra] q5 _ r); [exact Hq4| |exact Hq5].
    exact (ex_accept [rb; ra] [] rb [ra] r eq_refl eq_refl (conj eq_refl eq_refl)). }
  split; [apply G1, buy_ok|]. by apply (G3 r []).
Defined.

(** The exchange rests the maker's buy and accepts it. *)
Definition handled (q : MEClientRequest) (x : MatchingEngine) : MatchingEngine :=
  match processClientRequest q x with Ok (_, x) => x | Err _ => x end.
Definition handles (q : MEClientRequest) (x : MatchingEngine) : bool :=
  match processClientRequest q x with Ok _ => true | Err _ => false end.
Lemma handled_Ok q x : handles q x = true → processClientRequest q x = Ok (tt, handled q x).
Proof. unfold handles, handled. by destruct (processClientRequest q x) as [[[] x']|]. Qed.

Definition popped {T} (q : LFQueue T) : LFQueue T := match pop q with Ok q' => q' | Err _ => q end.
Definition pops {T} (q : LFQueue T) : bool := match pop q with Ok _ => true | Err _ => false end.
Lemma popped_Ok {T} (q : LFQueue T) : pops q = true → pop q = Ok (popped q).
Proof. unfold pops, popped. by destruct (pop q). Qed.

Lemma closed_loop_within_limits_witness : ∃ l r,
  lp_wire l = [r] ∧ rs_type_ r = ClientResponseType.ACCEPTED ∧
  (∃ N books resp upd, engine_rep 16 16 N (lp_exchange l) books resp upd) ∧
  ∃ e', handleResponse r (lp_engine l) = Ok (tt, e').
Proof.
  destruct (new_queue MEClientRequest) as (q & Eq & Hq). vm_compute in Eq. injection Eq as <-.
  destruct (new_queue MEClientResponse) as (q2 & Eq2 & Hq2). vm_compute in Eq2. injection Eq2 as <-.
  destruct (new_queue MEMarketUpdate) as (q3 & Eq3 & Hq3). vm_compute in Eq3. injection Eq3 as <-.
  match type of Hq with q_rep ?q _ _ => set (q0 := q) in * end.
  match type of Hq2 with q_rep ?q _ _ => set (qr := q) in * end. match type of Hq3 with q_rep ?q _ _ => set (qm := q) in * end.
  set (e0 := TradeEngine_new 1 q0 qr qm (a_cfg binary64)). set (e1 := after a_bid e0). set (e2 := after an_ask e1).
  assert (H1 : handleMarketUpdate a_bid e0 = Ok (tt, e1)) by (apply after_Ok; vm_compute; reflexivity).
  assert (H2 : handleMarketUpdate an_ask e1 = Ok (tt, e2)) by (apply after_Ok; vm_compute; reflexivity).
  pose (rb := mkMEClientRequest ClientRequestType.NEW 1 0 1 Side.BUY 100 5).
  pose (x0 := MatchingEngine_new q0 qr qm). pose (x1 := handled rb x0).
  pose (r := mkMEClientResponse ClientResponseType.ACCEPTED 1 0 1 1 Side.BUY 100 0 5).
  pose (qu := (peek (outgoing_requests_ e2)).2). pose (qv := (peek (outgoing_responses_ x1)).2).
  assert (Hp : peek (outgoing_requests_ e2) = (Some rb, qu)) by (apply injective_projections; [vm_compute|]; reflexivity).
  assert (Hv : peek (outgoing_responses_ x1) = (Some r, qv)) by (apply injective_projections; [vm_compute|]; reflexivity).
  set (l := mkLoop (set_te_requests (popped qu) e2) (set_responses (popped qv) x1) [r]).
  exists l, r. split; [reflexivity|]. split; [reflexivity|].
  destruct (closed_loop_within_limits (a_cfg binary64) (a_cfg_limits binary64) 1 q0 qr qm 16 q0 qr qm 16 16 l Hq Hq2 Hq3)
    as (N & books & resp & upd & Hx & _ & Hr).
  { eapply rtc_l; [apply (lp_update a_bid e0 e1); [cbn; lia|vm_compute; by split|exact H1]|].
    eapply rtc_l; [apply (lp_update an_ask e1 e2); [cbn; lia|vm_compute; by split|exact H2]|].
    eapply rtc_l; [apply (lp_request rb e2 qu (popped qu) x0 x1); [exact Hp|apply popped_Ok; vm_compute; reflexivity| | |]|].
    - unfold request_ok, is_u64, is_u32, rb. cbn -[Z.pow]. split_and!; try lia. intros _. by left.
    - intros tid b. cbn. by rewrite lookup_empty.
    - apply handled_Ok. vm_compute. reflexivity.
    - assert (Hc : own_responses (client_id_ (set_te_requests (popped qu) e2)) [r] = [r]) by (vm_compute; reflexivity).
      pose proof (lp_deliver r (set_te_requests (popped qu) e2) qv (popped qv) x1 [] Hv
        ltac:(apply popped_Ok; vm_compute; reflexivity)) as Hd. rewrite Hc in Hd. apply rtc_once. exact Hd. }
  split; [by exists N, books, resp, upd|]. by apply (Hr r []).
Defined.
End session.

Section quotes.
#[local] Existing Instance exact.

Definition book_with (us : list MEMarketUpdate) : MarketOrderBook :=
  match for_each onMarketUpdate us (MarketOrderBook_new 0) with Ok (_, b) => b | Err _ => MarketOrderBook_new 0 end.

End quotes.

(** ** The order session *)

Definition a_buy (oid : Z) : MEClientRequest := mkMEClientRequest ClientRequestType.NEW 1 0 oid Side.BUY 100 5.
(** A kernel that takes nothing, and one that takes everything. *)
Definition busy : nat → SendResult := λ _, SendWouldBlock.
Definition eager : nat → SendResult := λ _, Sent 1000.
Lemma busy_ok : kernel_ok busy.
Proof. by intros k n. Qed.
Lemma eager_ok : kernel_ok eager.
Proof. intros k n [= <-]. lia. Qed.

Definition to_client (cid seq : Z) : OMClientResponse :=
  mkOMClientResponse seq (mkMEClientResponse ClientResponseType.ACCEPTED cid 0 seq seq Side.BUY 100 0 5).
(** A response of the client, cut in the middle, one of another, and the next. *)
Definition stream : list byte := bytes_of [to_client 1 1; to_client 2 1; to_client 1 2].

Definition three_turns : list turn :=
  [mkTurn [a_buy 1] 0 (RecvData (take 17 stream) 0) busy;
   mkTurn [a_buy 2] 1 (RecvData (drop 17 stream) 0) eager;
   mkTurn [] 5 RecvWouldBlock busy].

Lemma three_turns_ok : Forall (λ t, kernel_ok (t_kernel t)) three_turns.
Proof. repeat apply Forall_cons_2; try apply Forall_nil_2; cbn [t_kernel]; auto using busy_ok, eager_ok. Qed.

Lemma gateway_session_witness : ∃ q1 q2,
  wp (og_turns three_turns) (λ l g,
    (∃ m held, q_rep (og_incoming_responses_ g) m held ∧ l ++ held = me_client_response_ <$> [to_client 1 1; to_client 1 2]) ∧
    (send_disconnected (tcp_socket_ g) = false →
      sent_over three_turns [] 1 ++ send_buffer (tcp_socket_ g) = bytes_of (numbered_requests 1 [a_buy 1; a_buy 2])))
    (OrderGateway_new 1 q1 q2 7).
Proof.
  destruct (new_queue MEClientRequest) as (q1 & _ & H1). destruct (new_queue MEClientResponse) as (q2 & _ & H2).
  exists q1, q2. pose proof (gateway_session three_turns 1 q1 q2 7 16 16 three_turns_ok H1 H2) as H.
  replace (accepted_responses 1 (frames OMClientResponse (three_turns ≫= received)) 1).1
    with (me_client_response_ <$> [to_client 1 1; to_client 1 2]) in H by (vm_compute; reflexivity).
  exact H.
Defined.

Definition server_of (q1 : LFQueue MEClientRequest) (q2 : LFQueue MEClientResponse) (rcv : list byte) (c : option Z) : Server OrderServer :=
  mkServer (mkTCPServer {[ 7 := set_rcv_buffer rcv (TCPSocket_new 7) ]} [7] [7] [] [])
    (mkOrderServer (FIFOSequencer_new q1) q2 [1; 1; 1; 1] [1; 1; 1; 1] [None; c; None; None]).

Lemma server_of_wf q1 q2 rcv c : os_wf (srv_app (server_of q1 q2 rcv c)).
Proof. split; [done..|]. split; [done|]. unfold pending_size_, ME_MAX_PENDING_REQUESTS. cbn. lia. Qed.


Definition two_responses : list MEClientResponse :=
  [me_client_response_ (to_client 2 1); me_client_response_ (to_client 1 1)].

Lemma responses_reach_strategy_witness : ∃ q2 s, q_rep q2 16 two_responses ∧
  wp (drainResponses 2) (λ _ s', ∃ x', heap (srv_tcp s') !! 7 = Some x' ∧
    ∀ q3 q4, q_rep q3 16 [] → q_rep q4 16 [] →
      wp (og_turns [mkTurn [] 0 (RecvData (send_buffer x') 0) busy]) (λ l g,
        ∃ m held, q_rep (og_incoming_responses_ g) m held ∧ l ++ held = [me_client_response_ (to_client 1 1)])
      (OrderGateway_new 1 q3 q4 7)) s.
Proof.
  destruct (new_queue MEClientRequest) as (q1 & _ & H1). destruct (new_queue MEClientResponse) as (q & _ & Hq).
  pose proof (push_all_spec two_responses q 16 [] Hq eq_refl) as Hp.
  replace (fits 16 ([] ++ two_responses)) with true in Hp by (by vm_compute). destruct Hp as (q2 & _ & H2).
  set (s := server_of q1 q2 [] (Some 7)). exists q2, s. split; [exact H2|].
  eapply wp_mono.
  - apply (responses_reach_strategy s 16 two_responses 1 7 (set_rcv_buffer [] (TCPSocket_new 7))); try reflexivity.
    + split.
      * assert (H7 : 7 ∈ dom (heap (srv_tcp s))) by (cbn; rewrite dom_singleton_L; set_solver).
        split; cbn [s server_of srv_tcp sockets rcv_sockets send_sockets disconnected_sockets];
          try (intros p ->%list_elem_of_singleton; exact H7); try (by intros p ?%not_elem_of_nil); [|constructor].
        cbn. rewrite dom_singleton_L. intros H0%elem_of_singleton. done.
      * split; [apply server_of_wf| |by eexists _, _].
        cbn. intros p Hin. rewrite dom_singleton_L. apply elem_of_singleton. set_solver.
    + exact H2.
    + repeat apply Forall_cons_2; try apply Forall_nil_2;
        split; cbn; unfold is_u32, is_u64, side_valid, rs_type_valid; cbn; first [split; [lia|done]|lia].
    + repeat apply Forall_cons_2; try apply Forall_nil_2; unfold is_u64; lia.
    + lia.
  - intros [] s' (x' & Hx' & H). exists x'. split; [exact Hx'|]. intros q3 q4 H3 H4.
    eapply wp_mono.
    + apply (H [mkTurn [] 0 (RecvData (send_buffer x') 0) busy] q3 q4 7 16 16 []); [|exact H3|exact H4|by cbn; rewrite !app_nil_r].
      apply Forall_singleton. exact busy_ok.
    + intros l g (m & held & Hm & _ & E). exists m, held. split; [exact Hm|]. rewrite E by done. reflexivity.
Defined.

(** ** The main program *)

Section main.
#[local] Existing Instance exact.

(** Every decimal read as zero. *)
Definition zero_atof (s : string) : double := dof 0.
Definition an_argv : list string := ["trading_main"; "1"; "MAKER"; "5"; "0.0"; "10"; "20"; "-100"].

Definition the_cfg : list (TradeEngineCfg exact) :=
  [mkTradeEngineCfg 5 (dof 0) (mkRiskCfg 10 20 (dof 0)); default_cfg].

Lemma command_line_configures_witness :
  main_setup zero_atof an_argv = Ok (Some (1, MAKER, the_cfg)) ∧ limits_ok the_cfg ∧ StrategyOk (MarketMaker the_cfg).
Proof.
  assert (E : main_setup zero_atof an_argv = Ok (Some (1, MAKER, the_cfg))) by reflexivity.
  destruct (command_line_configures zero_atof an_argv _ _ _ E) as (_ & _ & Hok).
  split; [exact E|]. apply Hok. change (Z.to_nat ME_MAX_TICKERS) with 2%nat. intros [|[|t]] c Ht Hc; [| |lia].
  - assert (c = mkTradeEngineCfg 5 (dof 0) (mkRiskCfg 10 20 (dof 0))) as -> by (symmetry; exact (Ok_inj _ _ Hc)).
    split_and!; cbn; lia.
  - assert (c = default_cfg) as -> by exact Hc. split_and!; cbn; lia.
Defined.

(** [rand()] returns 0, 1, 2, ... *)
Definition counting (n : nat) : Z := Z.of_nat (n `mod` 100).

(** Start-up, a rejected order, Ctrl+C and the whole shutdown. *)
Definition a_client_day : list ClientEvent :=
  replicate 7 CMain ++ [CEngine; CGateway []; CConsumer []; CGateway [a_response ClientResponseType.CANCEL_REJECTED];
    CGateway []; CEngine; CSignal] ++ replicate 5 CMain ++ [CEngine; CGateway []; CGateway []; CConsumer []; CConsumer []] ++ replicate 11 CMain.

Lemma a_client_day_runs :
  match client_main zero_atof an_argv with
  | Ok (Some c0) =>
      timely life_of (exec counting 0) is_main a_client_day c0 ∧
      match for_each (exec counting 0) a_client_day c0 with
      | Ok (_, c) => main_script (t_life c) = []
      | Err _ => False
      end
  | _ => False
  end.
Proof. vm_compute. repeat (split; [done|]). done. Qed.

Lemma client_threads_safe_witness : ∃ c0 c,
  client_main zero_atof an_argv = Ok (Some c0) ∧
  for_each (exec counting 0) a_client_day c0 = Ok (tt, c) ∧
  main_script (t_life c) = [] ∧ memory (t_life c) TEngine = Freed.
Proof.
  pose proof a_client_day_runs as Hday.
  destruct (client_main zero_atof an_argv) as [[c0|]|] eqn:Hmain; try contradiction. destruct Hday as [Ht Hend].
  pose proof (client_threads_safe zero_atof counting 0 an_argv a_client_day c0 Hmain Ht) as H.
  destruct (for_each (exec counting 0) a_client_day c0) as [[[] c]|f] eqn:E; [|contradiction].
  exists c0, c. split; [reflexivity|]. split; [exact E|]. split; [exact Hend|].
  destruct H as [_ H]. destruct (H Hend) as [Hf _]. apply (Hf TEngine). discriminate.
Defined.

Lemma random_driver_orders_witness : ∃ d,
  runRandomDriver counting 3 1 (a_cfg exact) driver_start = Ok (tt, d) ∧ driver_ok 1 (a_cfg exact) 3 d.
Proof.
  destruct (random_driver_orders counting) with (client_id := 1) (cfg := a_cfg exact) (k := 3%nat) as [H _].
  - intros n. unfold counting, RAND_MAX. pose proof (Nat.mod_upper_bound n 100 ltac:(done)). lia.
  - by vm_compute.
  - done.
  - apply H. intros c Hc. unfold a_cfg in Hc. assert (max_order_size_ (risk_cfg_ c) = 5) as ->; [|lia].
    apply elem_of_cons in Hc as [-> |Hc]; [done|]. by apply list_elem_of_singleton in Hc as ->.
Defined.
End main.
