(* ===== verification/HarnessWitnesses.v ===== *)
(** Concrete instances of the theorems on the Python harnesses and on the
    typing of the engine. *)

From S2P Require Import Prelude Types Wire LevelBook LevelBookRep LFQueue MEOrder OrderBookSpec MEOrderBookProps.
From S2P Require Import MatchingEngine MatchingEngineRefines EngineTyped HarnessLevels ExchangeCore ExchangeCoreRefines.
From S2P Require Import MarketOrderBook Replication TradingCore.

#[local] Existing Instance small_footprint_profile.
#[local] Existing Instance small_footprint_profile_ok.

Open Scope string_scope.

(** Two sells, a misspelt side, a buy that fills the best sell in part, a cancel. *)
Definition a_test : list Call :=
  [AddOrder 1 1 0 "SELL" 101 10; AddOrder 2 1 0 "SELL" 100 5; AddOrder 3 1 0 "buy" 100 2;
   AddOrder 3 1 0 "BUY" 100 2; AddOrder 3 2 0 "BUY" 98 7; CancelOrder 1 1 0].

Lemma a_test_ok : Forall call_ok a_test.
Proof. repeat constructor; unfold is_u32, is_u64; lia || done. Qed.

Lemma harness_faithful_witness : ∃ x0 x rs us,
  TestExchange_new = Ok x0 ∧
  inspect a_test 0 x0 =
    Ok ([Returned tt; Returned tt; Raised "Invalid side: 'buy'. Must be 'BUY' or 'SELL'.";
         Returned tt; Returned tt; Returned tt], (rs, us),
        ([mkPriceLevel "BUY" 98 7 1], [mkPriceLevel "SELL" 100 3 1]), Returned (PyInt 2), x).
Proof.
  pose proof (harness_faithful a_test 0 a_test_ok ltac:(done) ltac:(done)) as H.
  destruct H as (x0 & Hnew & H). exists x0.
  destruct (s_calls a_test ∅) as [ev books] eqn:E.
  replace (calls_fit ME_MAX_CLIENT_UPDATES ME_MAX_MARKET_UPDATES a_test ∅ [] []) with true in H by (by vm_compute).
  destruct H as [x H]. eexists x, _, _. split; [exact Hnew|]. rewrite H.
  assert (Es : s_book 0 books = s_book 0 (s_calls a_test ∅).2) by (by rewrite E). rewrite Es.
  by vm_compute.
Defined.

Definition a_session : list request :=
  [New 1 1 0 Side.SELL 101 10; New 2 1 0 Side.SELL 100 5; New 3 1 0 Side.BUY 100 2; New 3 2 0 Side.BUY 98 7].

Lemma a_session_on : Forall (request_on 0) a_session.
Proof.
  assert (valid_side Side.BUY ∧ valid_side Side.SELL) as [? ?] by (split; [by left|by right]).
  repeat constructor; unfold is_u32, is_u64; lia || done.
Qed.

Lemma harness_mirrors_exchange_witness : ∃ us m bids asks,
  drive_all us (TestMarketOrderBook_new 0) = Ok (replicate (length us) (Returned tt), m) ∧
  test_bid_levels m = Ok (level_dict <$> bids, m) ∧ test_ask_levels m = Ok (level_dict <$> asks, m).
Proof.
  destruct (harness_mirrors_exchange 0 a_session a_session_on ltac:(done) ltac:(done) ltac:(by vm_compute))
    as (x0 & x & us & rs & bids & asks & spread & m & _ & _ & Hd & Hb & Ha & _).
  exists us, m, bids, asks. split; [exact Hd|split; [exact Hb|exact Ha]].
Defined.

Definition a_request : MEClientRequest := mkMEClientRequest ClientRequestType.NEW 1 0 1 Side.SELL 100 10.
Definition a_pill : MEClientRequest :=
  mkMEClientRequest ClientRequestType.SHUTDOWN ClientId_INVALID TickerId_INVALID OrderId_INVALID Side.INVALID
    Price_INVALID Qty_INVALID.

Lemma an_engine : ∃ e, engine_typed 8 8 1 e ∅ [] [] ∧ q_rep (incoming_requests_ e) 8 [a_request; a_pill].
Proof.
  destruct (q_rep_new (T := MEClientRequest) 8) as (q & _ & Hq); [done|].
  destruct (q_rep_new (T := MEClientResponse) 8) as (q1 & _ & Hq1); [done|].
  destruct (q_rep_new (T := MEMarketUpdate) 8) as (q2 & _ & Hq2); [done|].
  pose proof (push_all_spec [a_request; a_pill] q 8 [] Hq ltac:(done)) as H. cbn in H.
  destruct H as (q' & _ & Hq'). exists (MatchingEngine_new q' q1 q2). split; [|exact Hq'].
  split_and!; try done; try constructor; try done. intros tid. cbn. rewrite !lookup_empty. constructor.
Qed.

Lemma a_request_typed : request_typed a_request.
Proof.
  assert (valid_side Side.SELL) by (by right). split.
  - split_and!; cbn; try (unfold is_u32, is_u64; lia); auto.
  - split; cbn; try done; unfold is_u32, is_u64; lia.
Qed.

Lemma engine_type_sound_witness : ∃ e e' N' books' resp' upd',
  run 2 e = Ok (true, e') ∧ engine_typed 8 8 N' e' books' resp' upd' ∧ q_rep (incoming_requests_ e') 8 [].
Proof.
  destruct an_engine as (e & He & Hq). exists e.
  assert (Hf : Forall (λ r, request_typed r ∧ ¬ SHUTDOWN_req r) [a_request]).
  { constructor; [|constructor]. split; [exact a_request_typed|done]. }
  pose proof (engine_type_sound 8 8 8 1 e ∅ [] [] a_pill [a_request] [] 2 He eq_refl Hq Hf
    ltac:(done) ltac:(done) ltac:(cbn; lia)) as H.
  replace (run_fits 8 8 [a_request] ∅ [] []) with true in H by (by vm_compute). exact H.
Defined.
